(** * Client-side metadata cache of kudu/client/meta_cache.cc

    A shallow embedding of the tablet-location cache (RemoteTablet,
    MetaCacheEntry, MetaCache), of the key- and id-based lookups and of the
    leader picker, followed by the properties stated about them.

    Conventions.  A method becomes a function of the object (and of the
    cache) that returns the new one; a method runs as one step, as under the
    lock it takes, and what other threads do shows between steps.  A [CHECK]
    that fails, and an [...OrDie] helper that dies, is the result [Abort] (or
    [None]); a [DCHECK] is compiled out.  Pointers to objects that are owned
    under a key and never freed (tablet servers by uuid, tablets by id) are
    the keys.  The clock is an argument, [now].  Log output is left out. *)

From Stdlib Require Import String Ascii List Bool ZArith Lia.
From stdpp Require Import gmap strings list fin_maps pretty.
Import ListNotations.

Local Open Scope string_scope.
Local Open Scope Z_scope.

(** ** Partition keys

    Partition keys are [std::string]s compared with the operators of
    [std::string]: lexicographic order on unsigned bytes, which is
    [String.compare]. *)

Module Key.

Definition ltb (a b : string) : bool := String.ltb a b.
Definition leb (a b : string) : bool := String.leb a b.
Definition empty (a : string) : bool :=
  match a with EmptyString => true | String _ _ => false end.

End Key.

Declare Scope key_scope.
Delimit Scope key_scope with key.
Infix "<?" := Key.ltb : key_scope.
Infix "<=?" := Key.leb : key_scope.

(** ** Statuses and outcomes *)

(** Modelled from the spec: [kudu::Status] (kudu/util/status.h is not part of
    the sources): a code and a message.  [CloneAndPrepend] keeps the code and
    puts its argument, followed by a colon, in front of the message. *)
Inductive StatusCode : Type :=
| kOk | kNotFound | kCorruption | kIncomplete | kTimedOut
| kNetworkError | kServiceUnavailable | kRemoteError | kAborted.

Record Status : Type := mkStatus { code : StatusCode; message : string }.

Global Instance StatusCode_eq_dec : EqDecision StatusCode.
Proof. solve_decision. Defined.
Global Instance Status_eq_dec : EqDecision Status.
Proof. solve_decision. Defined.

Module Status.
Definition OK : Status := mkStatus kOk "".
Definition NotFound (msg : string) : Status := mkStatus kNotFound msg.
Definition Corruption (msg : string) : Status := mkStatus kCorruption msg.
Definition Incomplete (msg : string) : Status := mkStatus kIncomplete msg.
Definition TimedOut (msg : string) : Status := mkStatus kTimedOut msg.

(** The two-argument constructors join both parts with a colon. *)
Definition join (msg msg2 : string) : string :=
  if Key.empty msg2 then msg else msg +:+ ": " +:+ msg2.
Definition NotFound2 (msg msg2 : string) : Status := mkStatus kNotFound (join msg msg2).

Definition ok (s : Status) : bool := bool_decide (code s = kOk).
Definition IsIncomplete (s : Status) : bool := bool_decide (code s = kIncomplete).
Definition IsServiceUnavailable (s : Status) : bool :=
  bool_decide (code s = kServiceUnavailable).

Definition CloneAndPrepend (msg : string) (s : Status) : Status :=
  if ok s then s else mkStatus (code s) (join msg (message s)).
End Status.

(** The result of running a function on a state of type [S]: it returns
    [Status::OK()] and a value, or it returns another status, or a [CHECK]
    (or an [...OrDie] helper of gutil/map-util.h) stops the process.  The
    state is kept in the first two cases: a function that fails may have
    changed it before. *)
Inductive outcome (S A : Type) : Type :=
| Done (a : A) (st : S)
| Fail (s : Status) (st : S)
| Abort.
Arguments Done {S A} a st.
Arguments Fail {S A} s st.
Arguments Abort {S A}.

Definition bind {S A B : Type} (m : outcome S A) (k : A -> S -> outcome S B) : outcome S B :=
  match m with
  | Done a st => k a st
  | Fail s st => Fail s st
  | Abort => Abort
  end.

(** ** Messages of the master *)

(** Modelled from the spec: the protobuf messages of
    kudu/master/master.proto and kudu/consensus/metadata.proto (generated
    headers, not part of the sources), with the fields section 6 of the
    specification lists. *)
Inductive Role : Type := LEADER | FOLLOWER | LEARNER | NON_PARTICIPANT.

Global Instance Role_eq_dec : EqDecision Role.
Proof. solve_decision. Defined.

Record HostPortPB : Type := mkHostPortPB {
  pb_host : string;
  pb_port : Z               (* uint32 *)
}.

Record TSInfoPB : Type := mkTSInfoPB {
  permanent_uuid : string;
  rpc_addresses : list HostPortPB;
  pb_location : string;
  pb_unix_domain_socket_path : option string
}.

Record DeprecatedReplicaPB : Type := mkDeprecatedReplicaPB {
  dr_ts_info : TSInfoPB;
  dr_role : Role
}.

Record InternedReplicaPB : Type := mkInternedReplicaPB {
  ts_info_idx : N;          (* uint32 *)
  ir_role : Role
}.

Record TabletLocationsPB : Type := mkTabletLocationsPB {
  pb_tablet_id : string;
  pb_partition_key_start : string;
  pb_partition_key_end : string;
  deprecated_replicas : list DeprecatedReplicaPB;
  interned_replicas : list InternedReplicaPB
}.

Record GetTableLocationsResponsePB : Type := mkGetTableLocationsResponsePB {
  ttl_millis : Z;
  tablet_locations : list TabletLocationsPB;
  ts_infos : list TSInfoPB;
  error : option Status
}.

(** [GetTabletLocationsResponsePB] has the same repeated fields and no TTL. *)
Record GetTabletLocationsResponsePB : Type := mkGetTabletLocationsResponsePB {
  id_tablet_locations : list TabletLocationsPB;
  id_ts_infos : list TSInfoPB;
  id_error : option Status
}.

(** ** RemoteTabletServer

    A [RemoteTabletServer*] is owned by the registry under its uuid and is
    never freed, one object per uuid: the pointer is modelled by the uuid. *)
(** Modelled from the spec: [HostPort] of kudu/util/net/net_util.h (not part
    of the sources), the [(host, port)] advertisement of a server; its port
    is a [uint16_t]. *)
Record HostPort : Type := mkHostPort {
  host : string;
  port : Z                  (* uint16_t *)
}.

Record RemoteTabletServer : Type := mkRemoteTabletServer {
  uuid_ : string;
  rpc_hostports_ : list HostPort;
  location_ : string;
  unix_domain_socket_path_ : option string
}.

Definition ts_ptr : Type := string.

Module RemoteTabletServer.
(** [rpc_hostports_.emplace_back(hostport_pb.host(), hostport_pb.port())]:
    the 32-bit port of the message is passed for the 16-bit port of
    [HostPort], which keeps its low 16 bits. *)
Definition emplace (hostport_pb : HostPortPB) : HostPort :=
  {| host := pb_host hostport_pb; port := pb_port hostport_pb mod 65536 |}.

(** [RemoteTabletServer::Update]; the [CHECK_EQ] on the uuid aborts. *)
Definition Update (pb : TSInfoPB) (ts : RemoteTabletServer) : option RemoteTabletServer :=
  if decide (permanent_uuid pb = uuid_ ts) then
    Some {| uuid_ := uuid_ ts;
            rpc_hostports_ := map emplace (rpc_addresses pb);
            location_ := pb_location pb;
            unix_domain_socket_path_ := pb_unix_domain_socket_path pb |}
  else None.

(** The constructor: [uuid_(pb.permanent_uuid())] then [Update(pb)]. *)
Definition make (pb : TSInfoPB) : RemoteTabletServer :=
  {| uuid_ := permanent_uuid pb;
     rpc_hostports_ := map emplace (rpc_addresses pb);
     location_ := pb_location pb;
     unix_domain_socket_path_ := pb_unix_domain_socket_path pb |}.
End RemoteTabletServer.

(** ** RemoteTablet *)

Record RemoteReplica : Type := mkRemoteReplica {
  ts : ts_ptr;
  role : Role;
  failed : bool
}.

Global Instance RemoteReplica_eq_dec : EqDecision RemoteReplica.
Proof. solve_decision. Defined.

Record RemoteTablet : Type := mkRemoteTablet {
  tablet_id_ : string;
  partition_key_start : string;
  partition_key_end : string;
  replicas_ : list RemoteReplica;
  stale_ : bool
}.

(** [TabletServerMap], the type of [ts_cache_]: uuid to server pointer. *)
Abbreviation TabletServerMap := (gmap string ts_ptr).

Module RemoteTablet.

(** [new RemoteTablet(tablet_id, partition)] *)
Definition make (id lower upper : string) : RemoteTablet :=
  {| tablet_id_ := id; partition_key_start := lower; partition_key_end := upper;
     replicas_ := []; stale_ := false |}.

Definition set_replicas (t : RemoteTablet) (rs : list RemoteReplica) (st : bool) : RemoteTablet :=
  {| tablet_id_ := tablet_id_ t;
     partition_key_start := partition_key_start t;
     partition_key_end := partition_key_end t;
     replicas_ := rs; stale_ := st |}.

(** First loop of [Refresh]: the old-style replicas.  [FindOrDie] aborts
    when the uuid is not in [tservers]. *)
Fixpoint add_deprecated (tservers : TabletServerMap) (rs : list DeprecatedReplicaPB)
    (replicas : list RemoteReplica) : outcome unit (list RemoteReplica) :=
  match rs with
  | [] => Done replicas tt
  | r :: rs' =>
      match tservers !! permanent_uuid (dr_ts_info r) with
      | None => Abort
      | Some p =>
          add_deprecated tservers rs'
            (replicas ++ [ {| ts := p; role := dr_role r; failed := false |} ])
      end
  end.

Definition corrupt_idx_message (idx : N) (size : nat) : string :=
  "invalid response from master: referenced tablet idx " +:+ pretty idx
    +:+ " but only " +:+ pretty size +:+ " present".

(** Second loop of [Refresh]: the interned replicas. *)
Fixpoint add_interned (tservers : TabletServerMap) (ts_info_dict : list TSInfoPB)
    (rs : list InternedReplicaPB) (replicas : list RemoteReplica)
    : outcome unit (list RemoteReplica) :=
  match rs with
  | [] => Done replicas tt
  | r :: rs' =>
      if (N.of_nat (length ts_info_dict) <=? ts_info_idx r)%N then
        Fail (Status.Corruption
                (corrupt_idx_message (ts_info_idx r) (length ts_info_dict))) tt
      else
        match ts_info_dict !! N.to_nat (ts_info_idx r) with
        | None => Abort
        | Some ts_info =>
            match tservers !! permanent_uuid ts_info with
            | None => Abort
            | Some p =>
                add_interned tservers ts_info_dict rs'
                  (replicas ++ [ {| ts := p; role := ir_role r; failed := false |} ])
            end
        end
  end.

(** [RemoteTablet::Refresh]: the new list is built in a local vector and
    adopted, with [stale_] cleared, only when both loops went through. *)
Definition Refresh (tservers : TabletServerMap) (locs_pb : TabletLocationsPB)
    (ts_info_dict : list TSInfoPB) (t : RemoteTablet) : outcome RemoteTablet unit :=
  match add_deprecated tservers (deprecated_replicas locs_pb) [] with
  | Abort => Abort
  | Fail s _ => Fail s t
  | Done replicas _ =>
      match add_interned tservers ts_info_dict (interned_replicas locs_pb) replicas with
      | Abort => Abort
      | Fail s _ => Fail s t
      | Done replicas' _ => Done tt (set_replicas t replicas' false)
      end
  end.

Definition MarkStale (t : RemoteTablet) : RemoteTablet :=
  set_replicas t (replicas_ t) true.

Definition stale (t : RemoteTablet) : bool := stale_ t.

Definition MarkReplicaFailed (server : ts_ptr) (t : RemoteTablet) : RemoteTablet :=
  set_replicas t
    (map (fun rep => if decide (ts rep = server)
                     then {| ts := ts rep; role := role rep; failed := true |}
                     else rep) (replicas_ t))
    (stale_ t).

Fixpoint first_leader (rs : list RemoteReplica) : option ts_ptr :=
  match rs with
  | [] => None
  | replica :: rs' =>
      if negb (failed replica) && bool_decide (role replica = LEADER)
      then Some (ts replica)
      else first_leader rs'
  end.

Definition LeaderTServer (t : RemoteTablet) : option ts_ptr := first_leader (replicas_ t).

Definition HasLeader (t : RemoteTablet) : bool :=
  match LeaderTServer t with Some _ => true | None => false end.

Definition GetRemoteTabletServers (t : RemoteTablet) : list ts_ptr :=
  map ts (filter (fun replica => failed replica = false) (replicas_ t)).

Definition mark_leader (server : ts_ptr) (replica : RemoteReplica) : RemoteReplica :=
  if decide (ts replica = server) then
    {| ts := ts replica; role := LEADER; failed := failed replica |}
  else if decide (role replica = LEADER) then
    {| ts := ts replica; role := FOLLOWER; failed := failed replica |}
  else replica.

Definition MarkTServerAsLeader (server : ts_ptr) (t : RemoteTablet) : RemoteTablet :=
  set_replicas t (map (mark_leader server) (replicas_ t)) (stale_ t).

Definition mark_follower (server : ts_ptr) (replica : RemoteReplica) : RemoteReplica :=
  if decide (ts replica = server) then
    {| ts := ts replica; role := FOLLOWER; failed := failed replica |}
  else replica.

Definition MarkTServerAsFollower (server : ts_ptr) (t : RemoteTablet) : RemoteTablet :=
  set_replicas t (map (mark_follower server) (replicas_ t)) (stale_ t).

(** The replicas whose role is Leader, failed or not. *)
Definition leaders (t : RemoteTablet) : list RemoteReplica :=
  filter (fun replica => role replica = LEADER) (replicas_ t).

End RemoteTablet.

(** ** MetaCacheEntry

    Time is [MonoTime] in nanoseconds; every function that reads the clock
    takes the reading as [now]. *)
Definition MonoTime : Type := Z.
Definition FromMilliseconds (ms : Z) : Z := ms * 1000000.
Definition ToMilliseconds (delta : Z) : Z := Z.quot delta 1000000.

(** A [KuduTable] as the cache uses it: its id, its name, and the formatter
    of its partition schema, which only serves debug strings. *)
Record KuduTable : Type := mkKuduTable {
  table_id : string;
  table_name : string;
  PartitionKeyDebugString : string -> string
}.

(** An entry is a tablet or a non-covered range.  The tablet of an entry is
    the object [tablets_by_id_] holds under its id (one object per id, and
    [ClearCache] drops the entries together with the objects), so the entry
    names it by that id; the bounds of a tablet never change and are kept
    next to it. *)
Inductive MetaCacheEntry : Type :=
| TabletEntry (expiration_time : MonoTime) (tablet : string) (lower upper : string)
| NonCoveredEntry (expiration_time : MonoTime) (lower upper : string).

Global Instance MetaCacheEntry_eq_dec : EqDecision MetaCacheEntry.
Proof. solve_decision. Defined.

Module MetaCacheEntry.

Definition of_tablet (expiration_time : MonoTime) (t : RemoteTablet) : MetaCacheEntry :=
  TabletEntry expiration_time (tablet_id_ t) (partition_key_start t) (partition_key_end t).

Definition is_non_covered_range (e : MetaCacheEntry) : bool :=
  match e with TabletEntry _ _ _ _ => false | NonCoveredEntry _ _ _ => true end.

Definition expiration_time_ (e : MetaCacheEntry) : MonoTime :=
  match e with TabletEntry t _ _ _ => t | NonCoveredEntry t _ _ => t end.

Definition lower_bound_partition_key (e : MetaCacheEntry) : string :=
  match e with TabletEntry _ _ l _ => l | NonCoveredEntry _ l _ => l end.

Definition upper_bound_partition_key (e : MetaCacheEntry) : string :=
  match e with TabletEntry _ _ _ u => u | NonCoveredEntry _ _ u => u end.

Definition refresh_expiration_time (t : MonoTime) (e : MetaCacheEntry) : MetaCacheEntry :=
  match e with
  | TabletEntry _ id l u => TabletEntry t id l u
  | NonCoveredEntry _ l u => NonCoveredEntry t l u
  end.

Definition Contains (e : MetaCacheEntry) (partition_key : string) : bool :=
  (lower_bound_partition_key e <=? partition_key)%key &&
  (Key.empty (upper_bound_partition_key e)
   || (partition_key <? upper_bound_partition_key e)%key).

(** [tablet_->stale()] reads the tablet the entry points to.  The tablet of
    an entry of the cache is in [tablets_by_id_]; for an id that is not, the
    entry counts as stale, and below as without a leader, so that the fast
    path does not use it. *)
Definition tablet_stale (tablets : gmap string RemoteTablet) (e : MetaCacheEntry) : bool :=
  match e with
  | TabletEntry _ id _ _ =>
      match tablets !! id with Some t => RemoteTablet.stale t | None => true end
  | NonCoveredEntry _ _ _ => false
  end.

Definition stale (now : MonoTime) (tablets : gmap string RemoteTablet)
    (e : MetaCacheEntry) : bool :=
  (expiration_time_ e <? now) || (negb (is_non_covered_range e) && tablet_stale tablets e).

Definition tablet_HasLeader (tablets : gmap string RemoteTablet) (e : MetaCacheEntry) : bool :=
  match e with
  | TabletEntry _ id _ _ =>
      match tablets !! id with Some t => RemoteTablet.HasLeader t | None => false end
  | NonCoveredEntry _ _ _ => false
  end.

Definition DebugLowerBoundPartitionKey (table : KuduTable) (partition_key : string) : string :=
  if Key.empty partition_key then "<start>" else PartitionKeyDebugString table partition_key.

Definition DebugString (now : MonoTime) (table : KuduTable) (e : MetaCacheEntry) : string :=
  let lower_bound_string := DebugLowerBoundPartitionKey table (lower_bound_partition_key e) in
  let upper_bound_string :=
    if Key.empty (upper_bound_partition_key e) then "<end>"
    else PartitionKeyDebugString table (upper_bound_partition_key e) in
  let ttl := ToMilliseconds (expiration_time_ e - now) in
  match e with
  | NonCoveredEntry _ _ _ =>
      "NonCoveredRange { lower_bound: (" +:+ lower_bound_string +:+ "), upper_bound: ("
        +:+ upper_bound_string +:+ "), ttl: " +:+ pretty ttl +:+ "ms }"
  | TabletEntry _ id _ _ =>
      "Tablet { id: " +:+ id +:+ ", lower_bound: (" +:+ lower_bound_string
        +:+ "), upper_bound: (" +:+ upper_bound_string +:+ "), ttl: " +:+ pretty ttl +:+ "ms }"
  end.

End MetaCacheEntry.

(** ** The range map of a table

    [TabletMap] is a [std::map] from the lower bound of an entry to the
    entry: an association list in increasing order of the keys, one entry per
    key.  The helpers are those of gutil/map-util.h and of [std::map]. *)
Abbreviation TabletMap := (list (string * MetaCacheEntry)).

(** A position in the map as [begin()], [lower_bound(k)] and [end()] give it. *)
Inductive iterator : Type :=
| it_begin
| it_lower_bound (k : string)
| it_end.

Module TabletMap.

Fixpoint FindOrNull (m : TabletMap) (k : string) : option MetaCacheEntry :=
  match m with
  | [] => None
  | (k1, e1) :: m' => if decide (k1 = k) then Some e1 else FindOrNull m' k
  end.

(** The ordered insertion of a key that is not in the map. *)
Fixpoint insert (k : string) (e : MetaCacheEntry) (m : TabletMap) : TabletMap :=
  match m with
  | [] => [(k, e)]
  | (k1, e1) :: m' =>
      if (k1 <? k)%key then (k1, e1) :: insert k e m' else (k, e) :: (k1, e1) :: m'
  end.

(** [InsertOrDie] and [EmplaceOrDie]: [None] is the failed [CHECK]. *)
Definition InsertOrDie (k : string) (e : MetaCacheEntry) (m : TabletMap) : option TabletMap :=
  match FindOrNull m k with
  | Some _ => None
  | None => Some (insert k e m)
  end.

(** Assignment through the pointer [FindOrNull] returned. *)
Fixpoint update (k : string) (f : MetaCacheEntry -> MetaCacheEntry) (m : TabletMap) : TabletMap :=
  match m with
  | [] => []
  | (k1, e1) :: m' => if decide (k1 = k) then (k1, f e1) :: m' else (k1, e1) :: update k f m'
  end.

(** Whether the entry under key [k] lies before the position. *)
Definition before (it : iterator) (k : string) : bool :=
  match it with
  | it_begin => false
  | it_lower_bound b => (k <? b)%key
  | it_end => true
  end.

(** [m.erase(first, last)] removes the entries from [first] up to [last]:
    those that are not before [first] and are before [last].  The call is
    defined when [first] is not behind [last]; an entry before [first] that
    is not before [last] shows that it is behind, and the result is [None]. *)
Definition erase (first last : iterator) (m : TabletMap) : option TabletMap :=
  if existsb (fun kv => before first kv.1 && negb (before last kv.1)) m then None
  else Some (List.filter (fun kv => before first kv.1 || negb (before last kv.1)) m).

(** [FindFloorOrNull]: the entry before [upper_bound(k)], the last one whose
    key is at most [k]. *)
Fixpoint FindFloorOrNull (m : TabletMap) (k : string) : option MetaCacheEntry :=
  match m with
  | [] => None
  | (k1, e1) :: m' =>
      if (k1 <=? k)%key then
        match FindFloorOrNull m' k with
        | Some e => Some e
        | None => Some e1
        end
      else None
  end.

(** The keys of a [std::map] come in increasing order, each once. *)
Fixpoint sorted (m : TabletMap) : bool :=
  match m with
  | [] => true
  | (k1, _) :: m' => forallb (fun kv => (k1 <? kv.1)%key) m' && sorted m'
  end.

End TabletMap.

(** ** MetaCache *)

Record MetaCache : Type := mkMetaCache {
  ts_registry_ : gmap string RemoteTabletServer;
  ts_cache_ : gmap string ts_ptr;
  tablets_by_id_ : gmap string RemoteTablet;
  tablets_by_table_and_key_ : gmap string TabletMap;
  entry_by_tablet_id_ : gmap string MetaCacheEntry;
  master_lookup_sem_ : Z
}.

Inductive LookupType : Type := kPoint | kLowerBound.

Global Instance LookupType_eq_dec : EqDecision LookupType.
Proof. solve_decision. Defined.

(** Modelled from the spec: the two constants of meta_cache.h (not part of
    the sources), about 10 tablets for a range lookup and 1 for a point
    lookup (section 4.5 of the specification). *)
Definition kFetchTabletsPerRangeLookup : Z := 10.
Definition kFetchTabletsPerPointLookup : Z := 1.

Module MetaCache.

(** The constructor: empty indexes and [master_lookup_sem_(50)]. *)
Definition make : MetaCache :=
  {| ts_registry_ := ∅; ts_cache_ := ∅; tablets_by_id_ := ∅;
     tablets_by_table_and_key_ := ∅; entry_by_tablet_id_ := ∅;
     master_lookup_sem_ := 50 |}.

Definition with_servers (c : MetaCache) (registry : gmap string RemoteTabletServer)
    (cache : gmap string ts_ptr) : MetaCache :=
  {| ts_registry_ := registry; ts_cache_ := cache;
     tablets_by_id_ := tablets_by_id_ c;
     tablets_by_table_and_key_ := tablets_by_table_and_key_ c;
     entry_by_tablet_id_ := entry_by_tablet_id_ c;
     master_lookup_sem_ := master_lookup_sem_ c |}.

Definition with_tablets_by_id (c : MetaCache) (tablets : gmap string RemoteTablet) : MetaCache :=
  {| ts_registry_ := ts_registry_ c; ts_cache_ := ts_cache_ c;
     tablets_by_id_ := tablets;
     tablets_by_table_and_key_ := tablets_by_table_and_key_ c;
     entry_by_tablet_id_ := entry_by_tablet_id_ c;
     master_lookup_sem_ := master_lookup_sem_ c |}.

Definition with_tablets_by_table_and_key (c : MetaCache)
    (maps : gmap string TabletMap) : MetaCache :=
  {| ts_registry_ := ts_registry_ c; ts_cache_ := ts_cache_ c;
     tablets_by_id_ := tablets_by_id_ c;
     tablets_by_table_and_key_ := maps;
     entry_by_tablet_id_ := entry_by_tablet_id_ c;
     master_lookup_sem_ := master_lookup_sem_ c |}.

Definition with_entry_by_tablet_id (c : MetaCache)
    (entries : gmap string MetaCacheEntry) : MetaCache :=
  {| ts_registry_ := ts_registry_ c; ts_cache_ := ts_cache_ c;
     tablets_by_id_ := tablets_by_id_ c;
     tablets_by_table_and_key_ := tablets_by_table_and_key_ c;
     entry_by_tablet_id_ := entries;
     master_lookup_sem_ := master_lookup_sem_ c |}.

Definition with_sem (c : MetaCache) (n : Z) : MetaCache :=
  {| ts_registry_ := ts_registry_ c; ts_cache_ := ts_cache_ c;
     tablets_by_id_ := tablets_by_id_ c;
     tablets_by_table_and_key_ := tablets_by_table_and_key_ c;
     entry_by_tablet_id_ := entry_by_tablet_id_ c;
     master_lookup_sem_ := n |}.

(** [ts->Update(pb)] on the object the pointer [p] names. *)
Definition update_server (p : ts_ptr) (pb : TSInfoPB)
    (registry : gmap string RemoteTabletServer) : option (gmap string RemoteTabletServer) :=
  match registry !! p with
  | None => None
  | Some server =>
      match RemoteTabletServer.Update pb server with
      | None => None
      | Some server' => Some (<[p := server']> registry)
      end
  end.

(** [UpdateTabletServerUnlocked]; [None] is a failed [CHECK]. *)
Definition UpdateTabletServerUnlocked (pb : TSInfoPB) (c : MetaCache) : option MetaCache :=
  let ts_uuid := permanent_uuid pb in
  match ts_cache_ c !! ts_uuid with
  | Some p =>
      match update_server p pb (ts_registry_ c) with
      | None => None
      | Some registry => Some (with_servers c registry (ts_cache_ c))
      end
  | None =>
      match ts_registry_ c !! ts_uuid with
      | Some _ =>
          match update_server ts_uuid pb (ts_registry_ c) with
          | None => None
          | Some registry => Some (with_servers c registry (<[ts_uuid := ts_uuid]> (ts_cache_ c)))
          end
      | None =>
          Some (with_servers c (<[ts_uuid := RemoteTabletServer.make pb]> (ts_registry_ c))
                             (<[ts_uuid := ts_uuid]> (ts_cache_ c)))
      end
  end.

Fixpoint update_servers (pbs : list TSInfoPB) (c : MetaCache) : option MetaCache :=
  match pbs with
  | [] => Some c
  | pb :: pbs' =>
      match UpdateTabletServerUnlocked pb c with
      | None => None
      | Some c' => update_servers pbs' c'
      end
  end.

(** The [ts_info]s of the old-style replicas of all tablets, in the order
    of the two nested loops. *)
Definition deprecated_ts_infos (locs : list TabletLocationsPB) : list TSInfoPB :=
  concat (map (fun tablet => map dr_ts_info (deprecated_replicas tablet)) locs).

Definition refresh_failed_message (tablet_id : string) : string :=
  "failed to refresh locations for tablet " +:+ tablet_id.

(** *** Ingestion of a table-locations response

    While the response is processed the state is the cache together with
    [tablets_by_key], the range map of the table, which the function holds
    by reference. *)
Definition ingest : Type := (MetaCache * TabletMap)%type.

Definition lift_map (r : option TabletMap) (c : MetaCache) : outcome ingest unit :=
  match r with
  | None => Abort
  | Some m => Done tt (c, m)
  end.

(** Erase what overlaps a non-covered range and insert the range.  An
    [erase] that is not defined counts as a failed [CHECK]. *)
Definition insert_non_covered (first last : iterator) (expiration_time : MonoTime)
    (lower upper : string) (st : ingest) : outcome ingest unit :=
  match TabletMap.erase first last st.2 with
  | None => Abort
  | Some m =>
      lift_map (TabletMap.InsertOrDie lower (NonCoveredEntry expiration_time lower upper) m)
               st.1
  end.

(** The tablet is known: refresh its replicas and the TTL of its entry. *)
Definition refresh_known_tablet (expiration_time : MonoTime) (ts_infos : list TSInfoPB)
    (tablet : TabletLocationsPB) (remote : RemoteTablet) (st : ingest)
    : outcome ingest unit :=
  let tablet_id := pb_tablet_id tablet in
  let tablet_lower_bound := pb_partition_key_start tablet in
  match RemoteTablet.Refresh (ts_cache_ st.1) tablet ts_infos remote with
  | Abort => Abort
  | Fail s _ =>
      Fail (Status.CloneAndPrepend (refresh_failed_message tablet_id) s) st
  | Done _ remote' =>
      let c := with_tablets_by_id st.1 (<[tablet_id := remote']> (tablets_by_id_ st.1)) in
      match TabletMap.FindOrNull st.2 tablet_lower_bound with
      | Some _ =>
          Done tt (c, TabletMap.update tablet_lower_bound
                        (MetaCacheEntry.refresh_expiration_time expiration_time) st.2)
      | None =>
          lift_map (TabletMap.InsertOrDie tablet_lower_bound
                      (MetaCacheEntry.of_tablet expiration_time remote') st.2) c
      end
  end.

(** The tablet is new: erase what overlaps it, create it, index it. *)
Definition insert_new_tablet (expiration_time : MonoTime) (ts_infos : list TSInfoPB)
    (tablet : TabletLocationsPB) (st : ingest) : outcome ingest unit :=
  let tablet_id := pb_tablet_id tablet in
  let tablet_lower_bound := pb_partition_key_start tablet in
  let tablet_upper_bound := pb_partition_key_end tablet in
  match TabletMap.erase (it_lower_bound tablet_lower_bound)
          (if Key.empty tablet_upper_bound then it_end
           else it_lower_bound tablet_upper_bound) st.2 with
  | None => Abort
  | Some m =>
      let remote := RemoteTablet.make tablet_id tablet_lower_bound tablet_upper_bound in
      match RemoteTablet.Refresh (ts_cache_ st.1) tablet ts_infos remote with
      | Abort => Abort
      | Fail s _ =>
          Fail (Status.CloneAndPrepend (refresh_failed_message tablet_id) s) (st.1, m)
      | Done _ remote' =>
          let c := with_tablets_by_id st.1 (<[tablet_id := remote']> (tablets_by_id_ st.1)) in
          lift_map (TabletMap.InsertOrDie tablet_lower_bound
                      (MetaCacheEntry.of_tablet expiration_time remote') m) c
      end
  end.

(** The body of the loop over the tablets of the response; it returns the
    new [last_upper_bound]. *)
Definition process_tablet (expiration_time : MonoTime) (ts_infos : list TSInfoPB)
    (tablet : TabletLocationsPB) (last_upper_bound : string) (st : ingest)
    : outcome ingest string :=
  let tablet_lower_bound := pb_partition_key_start tablet in
  let tablet_upper_bound := pb_partition_key_end tablet in
  bind (if (last_upper_bound <? tablet_lower_bound)%key
        then insert_non_covered (it_lower_bound last_upper_bound)
               (it_lower_bound tablet_lower_bound)
               expiration_time last_upper_bound tablet_lower_bound st
        else Done tt st)
    (fun _ st1 =>
       bind (match tablets_by_id_ st1.1 !! pb_tablet_id tablet with
             | Some remote => refresh_known_tablet expiration_time ts_infos tablet remote st1
             | None => insert_new_tablet expiration_time ts_infos tablet st1
             end)
         (fun _ st2 => Done tablet_upper_bound st2)).

Fixpoint process_tablets (expiration_time : MonoTime) (ts_infos : list TSInfoPB)
    (tablets : list TabletLocationsPB) (last_upper_bound : string) (st : ingest)
    : outcome ingest string :=
  match tablets with
  | [] => Done last_upper_bound st
  | tablet :: tablets' =>
      bind (process_tablet expiration_time ts_infos tablet last_upper_bound st)
        (process_tablets expiration_time ts_infos tablets')
  end.

(** The non-covered range before the first tablet, when the key is in it. *)
Definition initial_non_covered (expiration_time : MonoTime) (partition_key : string)
    (first_lower_bound : string) (st : ingest) : outcome ingest unit :=
  if (partition_key <? first_lower_bound)%key
  then insert_non_covered it_begin (it_lower_bound first_lower_bound)
         expiration_time "" first_lower_bound st
  else Done tt st.

(** The non-covered range after the last tablet of a short response. *)
Definition trailing_non_covered (expiration_time : MonoTime) (count : nat)
    (max_returned_locations : Z) (last_upper_bound : string) (st : ingest)
    : outcome ingest unit :=
  if negb (Key.empty last_upper_bound) && (Z.of_nat count <? max_returned_locations)
  then insert_non_covered (it_lower_bound last_upper_bound) it_end
         expiration_time last_upper_bound "" st
  else Done tt st.

(** The branch of a response with at least one tablet, up to the end of
    the loop: the servers, the initial non-covered range, the tablets.  It
    returns the last [last_upper_bound]. *)
Definition ingest_tablets (expiration_time : MonoTime) (partition_key : string)
    (resp : GetTableLocationsResponsePB) (first : TabletLocationsPB) (st : ingest)
    : outcome ingest string :=
  match update_servers (deprecated_ts_infos (tablet_locations resp) ++ ts_infos resp)%list st.1 with
  | None => Abort
  | Some c =>
      let first_lower_bound := pb_partition_key_start first in
      bind (initial_non_covered expiration_time partition_key first_lower_bound (c, st.2))
        (fun _ st1 =>
           process_tablets expiration_time (ts_infos resp) (tablet_locations resp)
             first_lower_bound st1)
  end.

(** The whole branch: the loop, then the trailing non-covered range. *)
Definition ingest_locations (expiration_time : MonoTime) (partition_key : string)
    (resp : GetTableLocationsResponsePB) (max_returned_locations : Z)
    (first : TabletLocationsPB) (st : ingest) : outcome ingest unit :=
  bind (ingest_tablets expiration_time partition_key resp first st)
    (trailing_non_covered expiration_time (length (tablet_locations resp))
       max_returned_locations).

(** The branch of an empty response. *)
Definition ingest_empty (expiration_time : MonoTime) (st : ingest) : outcome ingest unit :=
  lift_map (TabletMap.InsertOrDie "" (NonCoveredEntry expiration_time "" "") []) st.1.

(** [FindFloorOrDie] twice: the entry handed back to the requestor. *)
Definition discovered_entry (partition_key : string) (is_exact_lookup : bool)
    (m : TabletMap) : option MetaCacheEntry :=
  match TabletMap.FindFloorOrNull m partition_key with
  | None => None
  | Some e =>
      if negb is_exact_lookup && MetaCacheEntry.is_non_covered_range e
         && negb (Key.empty (MetaCacheEntry.upper_bound_partition_key e))
      then TabletMap.FindFloorOrNull m (MetaCacheEntry.upper_bound_partition_key e)
      else Some e
  end.

(** [tablets_by_key] is a reference into [tablets_by_table_and_key_]: what
    was done to it is in the cache however the function is left. *)
Definition store_map (table : KuduTable) (st : ingest) : MetaCache :=
  with_tablets_by_table_and_key st.1
    (<[table_id table := st.2]> (tablets_by_table_and_key_ st.1)).

Definition ProcessGetTableLocationsResponse (now : MonoTime) (table : KuduTable)
    (partition_key : string) (is_exact_lookup : bool)
    (resp : GetTableLocationsResponsePB) (max_returned_locations : Z)
    (c : MetaCache) : outcome MetaCache MetaCacheEntry :=
  let expiration_time := now + FromMilliseconds (ttl_millis resp) in
  let tablets_by_key := default [] (tablets_by_table_and_key_ c !! table_id table) in
  let st := (c, tablets_by_key) in
  match
    match tablet_locations resp with
    | [] => ingest_empty expiration_time st
    | first :: _ =>
        ingest_locations expiration_time partition_key resp max_returned_locations first st
    end
  with
  | Abort => Abort
  | Fail s st' => Fail s (store_map table st')
  | Done _ st' =>
      match discovered_entry partition_key is_exact_lookup st'.2 with
      | None => Abort
      | Some e => Done e (store_map table st')
      end
  end.

(** The range map a step of the ingestion leaves, when it returns, has its
    keys in increasing order. *)
Definition leaves_sorted {A : Type} (r : outcome ingest A) : Prop :=
  match r with
  | Done _ st => TabletMap.sorted st.2 = true
  | Fail _ st => TabletMap.sorted st.2 = true
  | Abort => True
  end.

End MetaCache.

(** ** Fast-path lookups *)

(** What [DoFastPathLookup] leaves behind: the status it returns, the key it
    advanced [*partition_key] to, and the tablet stored through
    [remote_tablet] (by id, as in the entries). *)
Record FastPath : Type := mkFastPath {
  fp_status : Status;
  fp_partition_key : string;
  fp_remote_tablet : option string
}.

Definition not_covered_message : string := "No tablet covering the requested range partition".

Module FastPathLookup.

Definition LookupEntryByKeyFastPath (now : MonoTime) (c : MetaCache) (table : KuduTable)
    (partition_key : string) : option MetaCacheEntry :=
  match tablets_by_table_and_key_ c !! table_id table with
  | None => None
  | Some tablets =>
      match TabletMap.FindFloorOrNull tablets partition_key with
      | None => None
      | Some e =>
          if MetaCacheEntry.stale now (tablets_by_id_ c) e then None
          else if MetaCacheEntry.Contains e partition_key then Some e
          else None
      end
  end.

(** The loop of [DoFastPathLookup]; every turn of the loop takes one unit
    of [fuel], and [None] says the fuel did not suffice. *)
Fixpoint DoFastPathLookup_loop (fuel : nat) (now : MonoTime) (c : MetaCache)
    (table : KuduTable) (partition_key : string) (lookup_type : LookupType)
    : option FastPath :=
  match fuel with
  | O => None
  | S fuel' =>
      match LookupEntryByKeyFastPath now c table partition_key with
      | Some entry =>
          if MetaCacheEntry.is_non_covered_range entry
             || MetaCacheEntry.tablet_HasLeader (tablets_by_id_ c) entry
          then
            match entry with
            | TabletEntry _ id _ _ =>
                Some (mkFastPath Status.OK partition_key (Some id))
            | NonCoveredEntry _ _ upper =>
                if bool_decide (lookup_type = kPoint) || Key.empty upper
                then Some (mkFastPath
                             (Status.NotFound2 not_covered_message
                                (MetaCacheEntry.DebugString now table entry))
                             partition_key None)
                else DoFastPathLookup_loop fuel' now c table upper lookup_type
            end
          else Some (mkFastPath (Status.Incomplete "") partition_key None)
      | None => Some (mkFastPath (Status.Incomplete "") partition_key None)
      end
  end.

(** Two turns more than the range map of the table has entries. *)
Definition fuel_for (c : MetaCache) (table : KuduTable) : nat :=
  S (S (length (default [] (tablets_by_table_and_key_ c !! table_id table)))).

Definition DoFastPathLookup (now : MonoTime) (c : MetaCache) (table : KuduTable)
    (partition_key : string) (lookup_type : LookupType) : option FastPath :=
  DoFastPathLookup_loop (fuel_for c table) now c table partition_key lookup_type.

Definition LookupEntryByIdFastPath (now : MonoTime) (c : MetaCache) (tablet_id : string)
    : option MetaCacheEntry :=
  match entry_by_tablet_id_ c !! tablet_id with
  | None => None
  | Some cache_entry =>
      if MetaCacheEntry.stale now (tablets_by_id_ c) cache_entry then None
      else Some cache_entry
  end.

Definition DoFastPathLookupById (now : MonoTime) (c : MetaCache) (tablet_id : string)
    : FastPath :=
  match LookupEntryByIdFastPath now c tablet_id with
  | Some (TabletEntry exp id l u) =>
      if MetaCacheEntry.tablet_HasLeader (tablets_by_id_ c) (TabletEntry exp id l u)
      then mkFastPath Status.OK "" (Some id)
      else mkFastPath (Status.Incomplete "") "" None
  | _ => mkFastPath (Status.Incomplete "") "" None
  end.

(** The measure of the loop: the number of entries of a range map above a
    key. *)
Definition above (m : TabletMap) (k : string) : nat :=
  length (List.filter (fun kv => (k <? kv.1)%key) m).

(** The statuses [DoFastPathLookup] returns. *)
Definition is_answer (fp : FastPath) : Prop :=
  code (fp_status fp) = kOk \/ code (fp_status fp) = kNotFound
  \/ code (fp_status fp) = kIncomplete.

End FastPathLookup.

(** ** Ingestion of a tablet-locations (by id) response *)

Definition FLAGS_client_tablet_locations_by_id_ttl_ms : Z := 60 * 60 * 1000.

Module ById.
Import MetaCache.

(** The tablet is in [tablets_by_id_]: refresh it, [LookupOrEmplace] its
    entry and refresh the TTL of the mapped entry. *)
Definition refresh_known (expiration_time : MonoTime) (tablet_id : string)
    (ts_infos : list TSInfoPB) (tablet : TabletLocationsPB) (remote : RemoteTablet)
    (c : MetaCache) : outcome MetaCache MetaCacheEntry :=
  match RemoteTablet.Refresh (ts_cache_ c) tablet ts_infos remote with
  | Abort => Abort
  | Fail s _ => Fail (Status.CloneAndPrepend (refresh_failed_message tablet_id) s) c
  | Done _ remote' =>
      let entry := MetaCacheEntry.of_tablet expiration_time remote' in
      let mapped := MetaCacheEntry.refresh_expiration_time expiration_time
                      (default entry (entry_by_tablet_id_ c !! tablet_id)) in
      Done mapped
        (with_entry_by_tablet_id
           (with_tablets_by_id c (<[tablet_id := remote']> (tablets_by_id_ c)))
           (<[tablet_id := mapped]> (entry_by_tablet_id_ c)))
  end.

(** The tablet is new: create it, refresh it, [EmplaceOrDie] in both
    indexes. *)
Definition insert_new (expiration_time : MonoTime) (tablet_id : string)
    (ts_infos : list TSInfoPB) (tablet : TabletLocationsPB)
    (c : MetaCache) : outcome MetaCache MetaCacheEntry :=
  let remote := RemoteTablet.make tablet_id (pb_partition_key_start tablet)
                  (pb_partition_key_end tablet) in
  match RemoteTablet.Refresh (ts_cache_ c) tablet ts_infos remote with
  | Abort => Abort
  | Fail s _ => Fail (Status.CloneAndPrepend (refresh_failed_message tablet_id) s) c
  | Done _ remote' =>
      let entry := MetaCacheEntry.of_tablet expiration_time remote' in
      match entry_by_tablet_id_ c !! tablet_id with
      | Some _ => Abort
      | None =>
          Done entry
            (with_entry_by_tablet_id
               (with_tablets_by_id c (<[tablet_id := remote']> (tablets_by_id_ c)))
               (<[tablet_id := entry]> (entry_by_tablet_id_ c)))
      end
  end.

Definition ProcessGetTabletLocationsResponse (now : MonoTime) (ttl_ms : Z)
    (tablet_id : string) (resp : GetTabletLocationsResponsePB) (c : MetaCache)
    : outcome MetaCache MetaCacheEntry :=
  let expiration_time := now + FromMilliseconds ttl_ms in
  match id_tablet_locations resp with
  | [] => Fail (Status.NotFound "") c
  | tablet :: _ =>
      let ts_infos := id_ts_infos resp in
      match update_servers ts_infos c with
      | None => Abort
      | Some c1 =>
          match tablets_by_id_ c1 !! tablet_id with
          | Some remote => refresh_known expiration_time tablet_id ts_infos tablet remote c1
          | None => insert_new expiration_time tablet_id ts_infos tablet c1
          end
      end
  end.

End ById.

(** ** Invalidation *)

Module Invalidation.
Import MetaCache.

Definition ClearNonCoveredRangeEntries (table_id : string) (c : MetaCache) : MetaCache :=
  match tablets_by_table_and_key_ c !! table_id with
  | None => c
  | Some tablets =>
      with_tablets_by_table_and_key c
        (<[table_id :=
             List.filter (fun kv => negb (MetaCacheEntry.is_non_covered_range kv.2)) tablets]>
           (tablets_by_table_and_key_ c))
  end.

Definition ClearCache (c : MetaCache) : MetaCache :=
  {| ts_registry_ := ts_registry_ c; ts_cache_ := ∅; tablets_by_id_ := ∅;
     tablets_by_table_and_key_ := ∅; entry_by_tablet_id_ := ∅;
     master_lookup_sem_ := master_lookup_sem_ c |}.

Definition MarkTSFailed (server : ts_ptr) (c : MetaCache) : MetaCache :=
  with_tablets_by_id c (RemoteTablet.MarkReplicaFailed server <$> tablets_by_id_ c).

End Invalidation.

(** ** Lookups

    A lookup runs in pieces: [SendRpc] and [SendRpcSlowPath] are entered by
    the caller and by the retrier, [SendRpcCb] by the completion of the master
    RPC.  Each piece is a function of the lookup object and the cache that
    also gives what it asks of the collaborators that are not modelled (the
    master proxy, the retrier, the user callback) as a list of effects. *)

Inductive Visibility : Type := VOTERS | ALL.

Global Instance Visibility_eq_dec : EqDecision Visibility.
Proof. solve_decision. Defined.

Record GetTableLocationsRequestPB : Type := mkGetTableLocationsRequestPB {
  req_table_id : string;
  req_partition_key_start : string;
  req_max_returned_locations : Z;
  req_intern_ts_infos_in_response : bool;
  req_replica_type_filter_any : bool
}.

Global Instance GetTableLocationsRequestPB_eq_dec : EqDecision GetTableLocationsRequestPB.
Proof. solve_decision. Defined.

Inductive effect : Type :=
| UserCallback (s : Status) (remote_tablet : option string)
| DelayedRetry (s : Status)
| SendToMaster (req : GetTableLocationsRequestPB)
| SendToMasterById (tablet_id : string)
| PermitAcquired
| PermitReleased.

Global Instance effect_eq_dec : EqDecision effect.
Proof. solve_decision. Defined.

Definition too_many_requests_message : string :=
  "client has too many outstanding requests to the master".

(** Modelled from the spec: the semaphore of kudu/util/semaphore.h (not part
    of the sources): a counter of free permits, [TryAcquire] takes one when
    there is one and does not block, [Release] gives one back. *)
Module Semaphore.
Definition TryAcquire (n : Z) : bool * Z := if 0 <? n then (true, n - 1) else (false, n).
Definition Release (n : Z) : Z := n + 1.
End Semaphore.

Definition AcquireMasterLookupPermit (c : MetaCache) : bool * MetaCache :=
  let r := Semaphore.TryAcquire (master_lookup_sem_ c) in
  (r.1, MetaCache.with_sem c r.2).

Definition ReleaseMasterLookupPermit (c : MetaCache) : MetaCache :=
  MetaCache.with_sem c (Semaphore.Release (master_lookup_sem_ c)).

(** [rpc_num_attempts] is the attempt number the retrier keeps (it starts at
    1 and only the retrier advances it); [ToString] prints it. *)
Record LookupRpc : Type := mkLookupRpc {
  rpc_table_ : KuduTable;
  rpc_partition_key_ : string;
  rpc_wants_tablet : bool;          (* remote_tablet_ != nullptr *)
  rpc_has_permit_ : bool;
  rpc_lookup_type_ : LookupType;
  rpc_replica_visibility_ : Visibility;
  rpc_num_attempts : nat
}.

(** A piece of a lookup leaves the object alive ([Some]) or deleted
    ([None]), a cache, and effects in the order they happened. *)
Definition step_result (R : Type) : Type := (option R * MetaCache * list effect)%type.

Module LookupRpc.

Definition make (table : KuduTable) (partition_key : string) (wants_tablet : bool)
    (lookup_type : LookupType) (replica_visibility : Visibility) : LookupRpc :=
  {| rpc_table_ := table; rpc_partition_key_ := partition_key;
     rpc_wants_tablet := wants_tablet; rpc_has_permit_ := false;
     rpc_lookup_type_ := lookup_type; rpc_replica_visibility_ := replica_visibility;
     rpc_num_attempts := 1 |}.

Definition with_permit (rpc : LookupRpc) (b : bool) : LookupRpc :=
  {| rpc_table_ := rpc_table_ rpc; rpc_partition_key_ := rpc_partition_key_ rpc;
     rpc_wants_tablet := rpc_wants_tablet rpc; rpc_has_permit_ := b;
     rpc_lookup_type_ := rpc_lookup_type_ rpc;
     rpc_replica_visibility_ := rpc_replica_visibility_ rpc;
     rpc_num_attempts := rpc_num_attempts rpc |}.

Definition with_partition_key (rpc : LookupRpc) (k : string) : LookupRpc :=
  {| rpc_table_ := rpc_table_ rpc; rpc_partition_key_ := k;
     rpc_wants_tablet := rpc_wants_tablet rpc; rpc_has_permit_ := rpc_has_permit_ rpc;
     rpc_lookup_type_ := rpc_lookup_type_ rpc;
     rpc_replica_visibility_ := rpc_replica_visibility_ rpc;
     rpc_num_attempts := rpc_num_attempts rpc |}.

Definition is_exact_lookup (rpc : LookupRpc) : bool :=
  bool_decide (rpc_lookup_type_ rpc = kPoint).

Definition locations_to_fetch (rpc : LookupRpc) : Z :=
  match rpc_lookup_type_ rpc with
  | kLowerBound => kFetchTabletsPerRangeLookup
  | kPoint => kFetchTabletsPerPointLookup
  end.

Definition ToString (rpc : LookupRpc) : string :=
  "LookupRpc { table: '" +:+ table_name (rpc_table_ rpc) +:+ "', partition-key: ("
    +:+ MetaCacheEntry.DebugLowerBoundPartitionKey (rpc_table_ rpc) (rpc_partition_key_ rpc)
    +:+ "), attempt: " +:+ pretty (rpc_num_attempts rpc) +:+ " }".

(** [~LookupRpc] *)
Definition destroy (rpc : LookupRpc) (c : MetaCache) : MetaCache * list effect :=
  if rpc_has_permit_ rpc then (ReleaseMasterLookupPermit c, [PermitReleased])
  else (c, []).

(** [delete this] after the effects [before]. *)
Definition delete_after (before : list effect) (rpc : LookupRpc) (c : MetaCache)
    : step_result LookupRpc :=
  let d := destroy rpc c in (None, d.1, (before ++ d.2)%list).

Definition request (rpc : LookupRpc) : GetTableLocationsRequestPB :=
  {| req_table_id := table_id (rpc_table_ rpc);
     req_partition_key_start := rpc_partition_key_ rpc;
     req_max_returned_locations := locations_to_fetch rpc;
     req_intern_ts_infos_in_response := true;
     req_replica_type_filter_any := bool_decide (rpc_replica_visibility_ rpc = ALL) |}.

Definition SendRpcSlowPath (rpc : LookupRpc) (c : MetaCache) : step_result LookupRpc :=
  let acquired :=
    if rpc_has_permit_ rpc then (rpc, c, [])
    else
      let r := AcquireMasterLookupPermit c in
      (with_permit rpc r.1, r.2, if r.1 then [PermitAcquired] else []) in
  let '(rpc1, c1, log) := acquired in
  if negb (rpc_has_permit_ rpc1) then
    (Some rpc1, c1, (log ++ [DelayedRetry (Status.TimedOut too_many_requests_message)])%list)
  else
    (Some rpc1, c1, (log ++ [SendToMaster (request rpc1)])%list).

Definition SendRpc (now : MonoTime) (rpc : LookupRpc) (c : MetaCache)
    : option (step_result LookupRpc) :=
  match FastPathLookup.DoFastPathLookup now c (rpc_table_ rpc) (rpc_partition_key_ rpc)
          (rpc_lookup_type_ rpc) with
  | None => None
  | Some fp =>
      let rpc1 := with_partition_key rpc (fp_partition_key fp) in
      if negb (Status.IsIncomplete (fp_status fp)) then
        Some (delete_after
                [UserCallback (fp_status fp)
                   (if rpc_wants_tablet rpc then fp_remote_tablet fp else None)] rpc1 c)
      else Some (SendRpcSlowPath rpc1 c)
  end.

(** [RetryLookupIfNecessary].  [RetryOrReconnectIfNecessary] belongs to the
    RPC layer: whether it rescheduled the lookup and the status it left
    come with the completion ([retried], [status]). *)
Definition RetryLookupIfNecessary (retried : bool) (status : Status)
    (resp_error : option Status) : bool * Status * list effect :=
  if retried then (true, status, [])
  else
    match resp_error with
    | Some e =>
        if Status.ok status then
          if Status.IsServiceUnavailable e then (true, e, [DelayedRetry e])
          else (false, e, [])
        else (false, status, [])
    | None => (false, status, [])
    end.

(** The entry of [SendRpcCb] before [ProcessLookupResponse] fills it. *)
Definition unset_entry : MetaCacheEntry := NonCoveredEntry 0 "" "".

Definition SendRpcCb (now : MonoTime) (retried : bool) (status : Status)
    (resp : GetTableLocationsResponsePB) (rpc : LookupRpc) (c : MetaCache)
    : option (step_result LookupRpc) :=
  let '(rescheduled, new_status, log) := RetryLookupIfNecessary retried status (error resp) in
  if rescheduled then Some (Some rpc, c, log)
  else if Status.ok new_status then
    let processed :=
      match MetaCache.ProcessGetTableLocationsResponse now (rpc_table_ rpc)
              (rpc_partition_key_ rpc) (is_exact_lookup rpc) resp (locations_to_fetch rpc) c with
      | Abort => None
      | Fail s c' => Some (s, unset_entry, c')
      | Done e c' => Some (Status.OK, e, c')
      end in
    match processed with
    | None => None
    | Some (s, entry, c') =>
        if MetaCacheEntry.is_non_covered_range entry then
          Some (delete_after
                  [UserCallback (Status.NotFound2 not_covered_message
                                   (MetaCacheEntry.DebugString now (rpc_table_ rpc) entry))
                     None] rpc c')
        else
          Some (delete_after
                  [UserCallback s
                     (match entry with
                      | TabletEntry _ id _ _ => if rpc_wants_tablet rpc then Some id else None
                      | NonCoveredEntry _ _ _ => None
                      end)] rpc c')
    end
  else
    Some (delete_after
            [UserCallback (Status.CloneAndPrepend (ToString rpc +:+ " failed") new_status) None]
            rpc c).

End LookupRpc.

(** [MetaCache::LookupTabletByKey] *)
Definition LookupTabletByKey (now : MonoTime) (c : MetaCache) (table : KuduTable)
    (partition_key : string) (lookup_type : LookupType) (wants_tablet : bool)
    (replica_visibility : Visibility) : option (step_result LookupRpc) :=
  match FastPathLookup.DoFastPathLookup now c table partition_key lookup_type with
  | None => None
  | Some fp =>
      if negb (Status.IsIncomplete (fp_status fp)) then
        Some (None, c,
              [UserCallback (fp_status fp) (if wants_tablet then fp_remote_tablet fp else None)])
      else
        Some (LookupRpc.SendRpcSlowPath
                (LookupRpc.make table (fp_partition_key fp) wants_tablet lookup_type
                   replica_visibility) c)
  end.

Record LookupRpcById : Type := mkLookupRpcById {
  byid_tablet_id_ : string;
  byid_wants_tablet : bool;
  byid_num_attempts : nat
}.

Module LookupRpcById.

Definition ToString (rpc : LookupRpcById) : string :=
  "LookupRpcById { tablet: '" +:+ byid_tablet_id_ rpc +:+ "', attempt: "
    +:+ pretty (byid_num_attempts rpc) +:+ " }".

Definition SendRpcSlowPath (rpc : LookupRpcById) (c : MetaCache) : step_result LookupRpcById :=
  (Some rpc, c, [SendToMasterById (byid_tablet_id_ rpc)]).

Definition SendRpc (now : MonoTime) (rpc : LookupRpcById) (c : MetaCache)
    : step_result LookupRpcById :=
  let fp := FastPathLookup.DoFastPathLookupById now c (byid_tablet_id_ rpc) in
  if negb (Status.IsIncomplete (fp_status fp)) then
    (None, c, [UserCallback (fp_status fp)
                 (if byid_wants_tablet rpc then fp_remote_tablet fp else None)])
  else SendRpcSlowPath rpc c.

Definition SendRpcCb (now : MonoTime) (ttl_ms : Z) (retried : bool) (status : Status)
    (resp : GetTabletLocationsResponsePB) (rpc : LookupRpcById) (c : MetaCache)
    : option (step_result LookupRpcById) :=
  let '(rescheduled, new_status, log) :=
    LookupRpc.RetryLookupIfNecessary retried status (id_error resp) in
  if rescheduled then Some (Some rpc, c, log)
  else
    let processed :=
      if Status.ok new_status then
        match ById.ProcessGetTabletLocationsResponse now ttl_ms (byid_tablet_id_ rpc) resp c with
        | Abort => None
        | Fail s c' => Some (s, None, c')
        | Done e c' =>
            Some (Status.OK,
                  match e with
                  | TabletEntry _ id _ _ => if byid_wants_tablet rpc then Some id else None
                  | NonCoveredEntry _ _ _ => None
                  end, c')
        end
      else Some (new_status, None, c) in
    match processed with
    | None => None
    | Some (s, tablet, c') =>
        Some (None, c',
              [UserCallback (Status.CloneAndPrepend (ToString rpc +:+ " failed") s) tablet])
    end.

End LookupRpcById.

(** [MetaCache::LookupTabletById] *)
Definition LookupTabletById (now : MonoTime) (c : MetaCache) (tablet_id : string)
    (wants_tablet : bool) : step_result LookupRpcById :=
  let fp := FastPathLookup.DoFastPathLookupById now c tablet_id in
  if negb (Status.IsIncomplete (fp_status fp)) then
    (None, c, [UserCallback (fp_status fp) (if wants_tablet then fp_remote_tablet fp else None)])
  else LookupRpcById.SendRpcSlowPath (mkLookupRpcById tablet_id wants_tablet 1) c.

(** ** MetaCacheServerPicker

    The picker points to its tablet, which the cache and other callers share;
    a state of the picker is the tablet as it is now and the set
    [followers_]. *)
Record MetaCacheServerPicker : Type := mkMetaCacheServerPicker {
  picker_table_ : option KuduTable;
  picker_tablet_ : RemoteTablet;
  followers_ : gset ts_ptr
}.

(** How [PickLeader] ends: it initialises the proxy of the server it picked,
    which is then handed to the callback, or it asks the cache for a lookup
    whose completion is [LookUpTabletCb]. *)
Inductive pick : Type :=
| InitProxy (leader : ts_ptr)
| ForceLookupByKey (partition_key : string)
| ForceLookupById (tablet_id : string).

Global Instance pick_eq_dec : EqDecision pick.
Proof. solve_decision. Defined.

Module MetaCacheServerPicker.

Definition with_tablet (p : MetaCacheServerPicker) (t : RemoteTablet) : MetaCacheServerPicker :=
  {| picker_table_ := picker_table_ p; picker_tablet_ := t; followers_ := followers_ p |}.

Definition with_followers (p : MetaCacheServerPicker) (f : gset ts_ptr)
    : MetaCacheServerPicker :=
  {| picker_table_ := picker_table_ p; picker_tablet_ := picker_tablet_ p; followers_ := f |}.

(** Step 2: the cached leader, demoted when it is marked as a follower. *)
Definition current_leader (followers : gset ts_ptr) (t : RemoteTablet)
    : RemoteTablet * option ts_ptr :=
  match RemoteTablet.LeaderTServer t with
  | Some leader =>
      if bool_decide (leader ∈ followers)
      then (RemoteTablet.MarkTServerAsFollower leader t, None)
      else (t, Some leader)
  | None => (t, None)
  end.

(** Step 3: the first replica that is not in the copy of [followers_]. *)
Fixpoint guess_leader (followers_copy : gset ts_ptr) (replicas : list ts_ptr)
    : option ts_ptr :=
  match replicas with
  | [] => None
  | server :: replicas' =>
      if bool_decide (server ∈ followers_copy) then guess_leader followers_copy replicas'
      else Some server
  end.

Definition next_leader (followers : gset ts_ptr) (t : RemoteTablet)
    : RemoteTablet * option ts_ptr :=
  match guess_leader followers (RemoteTablet.GetRemoteTabletServers t) with
  | Some leader => (RemoteTablet.MarkTServerAsLeader leader t, Some leader)
  | None => (t, None)
  end.

Definition select_leader (followers : gset ts_ptr) (t : RemoteTablet)
    : RemoteTablet * option ts_ptr :=
  if negb (RemoteTablet.stale t) then
    let r := current_leader followers t in
    match r.2 with
    | Some leader => r
    | None => next_leader followers r.1
    end
  else (t, None).

Definition PickLeader (p : MetaCacheServerPicker) : MetaCacheServerPicker * pick :=
  let r := select_leader (followers_ p) (picker_tablet_ p) in
  (with_tablet p r.1,
   match r.2 with
   | Some leader => InitProxy leader
   | None =>
       match picker_table_ p with
       | Some _ => ForceLookupByKey (partition_key_start r.1)
       | None => ForceLookupById (tablet_id_ r.1)
       end
   end).

Definition MarkServerFailed (replica : ts_ptr) (p : MetaCacheServerPicker)
    : MetaCacheServerPicker :=
  with_tablet p (RemoteTablet.MarkReplicaFailed replica (picker_tablet_ p)).

Definition MarkReplicaNotLeader (replica : ts_ptr) (p : MetaCacheServerPicker)
    : MetaCacheServerPicker :=
  with_followers p ({[ replica ]} ∪ followers_ p).

Definition MarkResourceNotFound (replica : ts_ptr) (p : MetaCacheServerPicker)
    : MetaCacheServerPicker :=
  with_tablet p (RemoteTablet.MarkStale (picker_tablet_ p)).

(** [LookUpTabletCb]: forget the followers; with an OK status pick again,
    otherwise the callback gets the status and no server ([None]). *)
Definition LookUpTabletCb (status : Status) (p : MetaCacheServerPicker)
    : MetaCacheServerPicker * option pick :=
  let p1 := with_followers p ∅ in
  if negb (Status.ok status) then (p1, None)
  else let r := PickLeader p1 in (r.1, Some r.2).

(** What happens to a picker: the calls of its interface, the completion of
    a lookup it asked for, and changes other owners make to the tablet it
    shares (a refresh by the cache, a mark by another picker). *)
Inductive call : Type :=
| CallPickLeader
| CallMarkServerFailed (replica : ts_ptr)
| CallMarkReplicaNotLeader (replica : ts_ptr)
| CallMarkResourceNotFound (replica : ts_ptr)
| CallLookUpTabletCb (status : Status)
| TabletChanged (t : RemoteTablet).

Definition is_lookup_completion (e : call) : bool :=
  match e with CallLookUpTabletCb _ => true | _ => false end.

Definition step (e : call) (p : MetaCacheServerPicker)
    : MetaCacheServerPicker * option pick :=
  match e with
  | CallPickLeader => let r := PickLeader p in (r.1, Some r.2)
  | CallMarkServerFailed replica => (MarkServerFailed replica p, None)
  | CallMarkReplicaNotLeader replica => (MarkReplicaNotLeader replica p, None)
  | CallMarkResourceNotFound replica => (MarkResourceNotFound replica p, None)
  | CallLookUpTabletCb status => LookUpTabletCb status p
  | TabletChanged t => (with_tablet p t, None)
  end.

(** The picks made along a sequence of calls, in order. *)
Fixpoint run (calls : list call) (p : MetaCacheServerPicker)
    : MetaCacheServerPicker * list pick :=
  match calls with
  | [] => (p, [])
  | e :: calls' =>
      let r := step e p in
      let r' := run calls' r.1 in
      (r'.1, (match r.2 with Some d => [d] | None => [] end ++ r'.2)%list)
  end.

End MetaCacheServerPicker.

(** ** The life of a key lookup

    The pieces of a [LookupRpc] in the order the caller, the retrier and the
    master proxy enter them; in between, other lookups use the cache and its
    semaphore. *)
Module Lifetime.

Inductive call : Type :=
| CallSendRpc (now : MonoTime)
| CallSendRpcSlowPath
| CallSendRpcCb (now : MonoTime) (retried : bool) (status : Status)
    (resp : GetTableLocationsResponsePB)
| CacheChanged (c : MetaCache).

Definition step (e : call) (rpc : LookupRpc) (c : MetaCache)
    : option (step_result LookupRpc) :=
  match e with
  | CallSendRpc now => LookupRpc.SendRpc now rpc c
  | CallSendRpcSlowPath => Some (LookupRpc.SendRpcSlowPath rpc c)
  | CallSendRpcCb now retried status resp => LookupRpc.SendRpcCb now retried status resp rpc c
  | CacheChanged c' => Some (Some rpc, c', [])
  end.

(** A deleted lookup is entered no more: the calls that remain are not
    run.  [None] is a piece that did not return (a failed [CHECK]). *)
Fixpoint run (calls : list call) (rpc : option LookupRpc) (c : MetaCache)
    : option (step_result LookupRpc) :=
  match calls, rpc with
  | [], _ => Some (rpc, c, [])
  | _, None => Some (None, c, [])
  | e :: calls', Some r =>
      match step e r c with
      | None => None
      | Some (rpc1, c1, log1) =>
          match run calls' rpc1 c1 with
          | None => None
          | Some (rpc2, c2, log2) => Some (rpc2, c2, (log1 ++ log2)%list)
          end
      end
  end.

Definition is_acquisition (e : effect) : bool :=
  match e with PermitAcquired => true | _ => false end.
Definition is_release (e : effect) : bool :=
  match e with PermitReleased => true | _ => false end.

Definition acquisitions (log : list effect) : nat := length (List.filter is_acquisition log).
Definition releases (log : list effect) : nat := length (List.filter is_release log).

(** What the effects of a piece say about the permit of a lookup that held
    one ([b]) or not before the piece; [rpc'] is the lookup after it. *)
Definition accounted (b : bool) (rpc' : option LookupRpc) (log : list effect) : Prop :=
  (acquisitions log + Nat.b2n b <= 1)%nat
  /\ match rpc' with
     | Some r =>
         releases log = 0%nat
         /\ Nat.b2n (rpc_has_permit_ r) = (acquisitions log + Nat.b2n b)%nat
     | None =>
         releases log = (acquisitions log + Nat.b2n b)%nat
         /\ ((acquisitions log + Nat.b2n b = 1)%nat -> last log = Some PermitReleased)
     end.

End Lifetime.

(** ** Conditions on the arguments

    The conditions under which the properties below are stated. *)
Module Known.

(** What the callers of [Refresh] establish before they call it: they run
    [UpdateTabletServerUnlocked] on the servers of the response, so that the
    [FindOrDie] of [Refresh] finds them.  Every old-style replica names a
    server of [tservers]. *)
Definition deprecated_known (tservers : TabletServerMap) (rs : list DeprecatedReplicaPB) : Prop :=
  Forall (fun r => is_Some (tservers !! permanent_uuid (dr_ts_info r))) rs.

(** Every interned replica whose index is in the dictionary names, through
    it, a server of [tservers]. *)
Definition interned_known (tservers : TabletServerMap) (ts_info_dict : list TSInfoPB)
    (rs : list InternedReplicaPB) : Prop :=
  Forall (fun r => forall ts_info,
            ts_info_dict !! N.to_nat (ts_info_idx r) = Some ts_info ->
            is_Some (tservers !! permanent_uuid ts_info)) rs.

Definition servers_known (tservers : TabletServerMap) (locs_pb : TabletLocationsPB)
    (ts_info_dict : list TSInfoPB) : Prop :=
  deprecated_known tservers (deprecated_replicas locs_pb)
  /\ interned_known tservers ts_info_dict (interned_replicas locs_pb).

(** No part of the range of the tablet is at or above the key. *)
Definition below (k : string) (tablet : TabletLocationsPB) : Prop :=
  (pb_partition_key_start tablet <? k)%key = true
  /\ Key.empty (pb_partition_key_end tablet) = false
  /\ (pb_partition_key_end tablet <=? k)%key = true.


(** The range of the tablet is not empty: it ends above its start, or has
    no upper bound. *)
Definition proper (tablet : TabletLocationsPB) : bool :=
  Key.empty (pb_partition_key_end tablet)
  || (pb_partition_key_start tablet <? pb_partition_key_end tablet)%key.

(** Every index of an interned replica of the tablet is in the dictionary. *)
Definition indexes_inside (ts_info_dict : list TSInfoPB) (tablet : TabletLocationsPB) : Prop :=
  Forall (fun r => (ts_info_idx r < N.of_nat (length ts_info_dict))%N)
         (interned_replicas tablet).

End Known.

(** ** Scenarios

    The concrete states of the scenarios of the specification (section 8),
    on which the properties below are run. *)
Module Scenario.

(** S3: tablet [B] with replicas [r1:L, r2:F, r3:F]. *)
Definition tablet_B : RemoteTablet :=
  {| tablet_id_ := "B"; partition_key_start := "c1"; partition_key_end := "c3";
     replicas_ := [ mkRemoteReplica "r1" LEADER false;
                    mkRemoteReplica "r2" FOLLOWER false;
                    mkRemoteReplica "r3" FOLLOWER false ];
     stale_ := false |}.

Definition ts_info (uuid : string) : TSInfoPB :=
  {| permanent_uuid := uuid; rpc_addresses := [mkHostPortPB uuid 7050];
     pb_location := "/rack"; pb_unix_domain_socket_path := None |}.

Definition three_servers : list TSInfoPB := [ts_info "r1"; ts_info "r2"; ts_info "r3"].

Definition servers_cache : TabletServerMap :=
  <["r1" := "r1"]> (<["r2" := "r2"]> (<["r3" := "r3"]> ∅)).

(** A location of [B] whose second interned replica names entry 7 of a
    dictionary of three. *)
Definition corrupt_location_B : TabletLocationsPB :=
  {| pb_tablet_id := "B"; pb_partition_key_start := "c1"; pb_partition_key_end := "c3";
     deprecated_replicas := [];
     interned_replicas := [ mkInternedReplicaPB 1 LEADER; mkInternedReplicaPB 7 FOLLOWER ] |}.

(** Table [T] and the responses of the master. *)

Definition table_T : KuduTable :=
  {| table_id := "T"; table_name := "t"; PartitionKeyDebugString := fun k => k |}.

Definition location (id lower upper : string) : TabletLocationsPB :=
  {| pb_tablet_id := id; pb_partition_key_start := lower; pb_partition_key_end := upper;
     deprecated_replicas := [];
     interned_replicas := [ mkInternedReplicaPB 0 LEADER; mkInternedReplicaPB 1 FOLLOWER;
                            mkInternedReplicaPB 2 FOLLOWER ] |}.

Definition response (ttl : Z) (locations : list TabletLocationsPB)
    : GetTableLocationsResponsePB :=
  {| ttl_millis := ttl; tablet_locations := locations; ts_infos := three_servers;
     error := None |}.

(** S1: the master returns [B = [c1,c3)] and [D = [c5,c7)], TTL 60 s. *)
Definition response_S1 : GetTableLocationsResponsePB :=
  response 60000 [location "B" "c1" "c3"; location "D" "c5" "c7"].

Definition cache_after (r : outcome MetaCache MetaCacheEntry) : MetaCache :=
  match r with
  | Done _ c => c
  | Fail _ c => c
  | Abort => MetaCache.make
  end.

(** The cache after the lookup of ["c"] in range mode at time 0. *)
Definition cache_S1 : MetaCache :=
  cache_after (MetaCache.ProcessGetTableLocationsResponse 0 table_T "c" false response_S1
                 kFetchTabletsPerRangeLookup MetaCache.make).

Definition map_S1 : TabletMap :=
  [ ("", NonCoveredEntry 60000000000 "" "c1");
    ("c1", TabletEntry 60000000000 "B" "c1" "c3");
    ("c3", NonCoveredEntry 60000000000 "c3" "c5");
    ("c5", TabletEntry 60000000000 "D" "c5" "c7");
    ("c7", NonCoveredEntry 60000000000 "c7" "") ].

(** S5: the lookup of ["a"] asks for two tablets and gets two. *)
Definition response_S5 : GetTableLocationsResponsePB :=
  response 60000 [location "A" "a" "b"; location "B" "b" "c"].

Definition cache_S5 : MetaCache :=
  cache_after (MetaCache.ProcessGetTableLocationsResponse 0 table_T "a" false response_S5
                 2 MetaCache.make).

(** A key lookup of [T] that gets a permit, sends its request and is deleted
    when the RPC fails with a network error: what it did, in order. *)
Definition log_S7 : list effect :=
  [ PermitAcquired;
    SendToMaster (mkGetTableLocationsRequestPB "T" "c" kFetchTabletsPerRangeLookup true false);
    UserCallback
      (mkStatus kNetworkError
         "LookupRpc { table: 't', partition-key: (c), attempt: 1 } failed: reset") None;
    PermitReleased ].

(** A location of [B] in the old style, with a replica on a server [r7]
    that the dictionary of the response does not have. *)
Definition old_style_location_B : TabletLocationsPB :=
  {| pb_tablet_id := "B"; pb_partition_key_start := "c1"; pb_partition_key_end := "c3";
     deprecated_replicas := [ mkDeprecatedReplicaPB (ts_info "r7") LEADER ];
     interned_replicas := [] |}.

(** The answer of the master to a lookup by id. *)
Definition response_by_id (locations : list TabletLocationsPB) : GetTabletLocationsResponsePB :=
  {| id_tablet_locations := locations; id_ts_infos := three_servers; id_error := None |}.

(** A location of [B] after a change of configuration: an old-style
    replica on [r3], now the leader, and an interned replica on the first
    server of the dictionary. *)
Definition moved_location_B : TabletLocationsPB :=
  {| pb_tablet_id := "B"; pb_partition_key_start := "c1"; pb_partition_key_end := "c3";
     deprecated_replicas := [ mkDeprecatedReplicaPB (ts_info "r3") LEADER ];
     interned_replicas := [ mkInternedReplicaPB 0 FOLLOWER ] |}.

(** A location of [B] with an old-style replica on a server [r7] that is
    not in the dictionary and an interned replica that names entry 7 of a
    dictionary of three. *)
Definition unregistered_corrupt_location_B : TabletLocationsPB :=
  {| pb_tablet_id := "B"; pb_partition_key_start := "c1"; pb_partition_key_end := "c3";
     deprecated_replicas := [ mkDeprecatedReplicaPB (ts_info "r7") FOLLOWER ];
     interned_replicas := [ mkInternedReplicaPB 0 LEADER; mkInternedReplicaPB 7 FOLLOWER ] |}.

(** The master answers a second lookup of ["c"], five nanoseconds after the
    first, with tablet [B] alone: the range from [c3] on is non-covered
    now, and the entries the cache had there go. *)
Definition response_short : GetTableLocationsResponsePB :=
  response 60000 [location "B" "c1" "c3"].

Definition cache_short : MetaCache :=
  cache_after (MetaCache.ProcessGetTableLocationsResponse 5 table_T "c" false response_short
                 kFetchTabletsPerRangeLookup cache_S1).



End Scenario.

(** ** The other readers of the replica list *)
Module Replicas.

(** [RemoteTablet::GetNumFailedReplicas] *)
Fixpoint count_failed (rs : list RemoteReplica) (failed_so_far : nat) : nat :=
  match rs with
  | [] => failed_so_far
  | rep :: rs' => count_failed rs' (if failed rep then S failed_so_far else failed_so_far)
  end.

Definition GetNumFailedReplicas (t : RemoteTablet) : nat := count_failed (replicas_ t) 0.

(** [RemoteTablet::GetRemoteReplicas] *)
Definition GetRemoteReplicas (t : RemoteTablet) : list RemoteReplica :=
  filter (fun r => failed r = false) (replicas_ t).

(** What [MarkReplicaFailed] does to one replica. *)
Definition fail (server : ts_ptr) (rep : RemoteReplica) : RemoteReplica :=
  if decide (ts rep = server)
  then {| ts := ts rep; role := role rep; failed := true |}
  else rep.

(** A replica as [Refresh] makes it: alive, its server one of [tservers]. *)
Definition fresh_replica (tservers : TabletServerMap) (r : RemoteReplica) : Prop :=
  failed r = false /\ exists u, tservers !! u = Some (ts r).

(** The roles of the replicas of a tablet of a response, in the order in
    which [Refresh] reads them. *)
Definition response_roles (tablet : TabletLocationsPB) : list Role :=
  (map dr_role (deprecated_replicas tablet) ++ map ir_role (interned_replicas tablet))%list.

(** The servers of the replicas of a tablet of a response, as [Refresh]
    finds them in [tservers], in the order in which it reads the replicas:
    the server of an old-style replica by the uuid the replica carries, the
    server of an interned replica by the uuid of the entry of the dictionary
    its index names. *)
Definition response_servers (tservers : TabletServerMap) (ts_info_dict : list TSInfoPB)
    (tablet : TabletLocationsPB) : list (option ts_ptr) :=
  (map (fun r => tservers !! permanent_uuid (dr_ts_info r)) (deprecated_replicas tablet)
   ++ map (fun r => match ts_info_dict !! N.to_nat (ts_info_idx r) with
                    | Some ts_info => tservers !! permanent_uuid ts_info
                    | None => None
                    end) (interned_replicas tablet))%list.

End Replicas.

(** ** What the indexes of the cache have in common

    The shape the functions of the cache give its indexes and rely on. *)
Module Consistent.

(** A server of the registry is stored under its uuid, and [ts_cache_] maps a
    uuid to the server the registry has under it. *)
Definition servers (c : MetaCache) : Prop :=
  (forall u s, ts_registry_ c !! u = Some s -> uuid_ s = u)
  /\ (forall u p, ts_cache_ c !! u = Some p -> p = u /\ is_Some (ts_registry_ c !! u)).

(** A tablet is stored under its id. *)
Definition tablets (c : MetaCache) : Prop :=
  forall id t, tablets_by_id_ c !! id = Some t -> tablet_id_ t = id.

(** The entry kept for a tablet id is an entry of that tablet. *)
Definition entries (c : MetaCache) : Prop :=
  forall id e, entry_by_tablet_id_ c !! id = Some e ->
               exists expiration lower upper, e = TabletEntry expiration id lower upper.

(** A tablet with an entry by id is in [tablets_by_id_]: both indexes get
    their tablets together, and [ClearCache] empties both. *)
Definition indexed (c : MetaCache) : Prop :=
  forall id, is_Some (entry_by_tablet_id_ c !! id) -> is_Some (tablets_by_id_ c !! id).

(** What [UpdateTabletServerUnlocked] does not touch. *)
Definition same_tablets (c c' : MetaCache) : Prop :=
  tablets_by_id_ c' = tablets_by_id_ c
  /\ tablets_by_table_and_key_ c' = tablets_by_table_and_key_ c
  /\ entry_by_tablet_id_ c' = entry_by_tablet_id_ c
  /\ master_lookup_sem_ c' = master_lookup_sem_ c.

(** The tablet with this id is in the cache as a [Refresh] leaves it: not
    stale and without a failed replica. *)
Definition fresh_at (id : string) (c : MetaCache) : Prop :=
  exists t, tablets_by_id_ c !! id = Some t
            /\ stale_ t = false /\ Replicas.GetNumFailedReplicas t = 0%nat.

(** From [c] to [c'] only tablets were added or refreshed: servers, range
    maps, entries by id and permits are the same, tablets are still stored
    under their id, none was dropped, and a tablet that was as [Refresh]
    leaves it still is. *)
Definition refreshes (c c' : MetaCache) : Prop :=
  ts_registry_ c' = ts_registry_ c
  /\ ts_cache_ c' = ts_cache_ c
  /\ tablets_by_table_and_key_ c' = tablets_by_table_and_key_ c
  /\ entry_by_tablet_id_ c' = entry_by_tablet_id_ c
  /\ master_lookup_sem_ c' = master_lookup_sem_ c
  /\ (tablets c -> tablets c')
  /\ (forall id, is_Some (tablets_by_id_ c !! id) -> is_Some (tablets_by_id_ c' !! id))
  /\ (forall id, fresh_at id c -> fresh_at id c').

(** The cache a step of the ingestion leaves, when it returns. *)
Definition leaves {A : Type} (P : MetaCache -> Prop) (r : outcome MetaCache.ingest A) : Prop :=
  match r with
  | Done _ st => P st.1
  | Fail _ st => P st.1
  | Abort => True
  end.

(** The cache a function leaves when it returns, whatever the status. *)
Definition returned {A : Type} (r : outcome MetaCache A) : option MetaCache :=
  match r with
  | Done _ c => Some c
  | Fail _ c => Some c
  | Abort => None
  end.

(** Every range map has its keys in increasing order. *)
Definition maps_sorted (c : MetaCache) : Prop :=
  forall t m, tablets_by_table_and_key_ c !! t = Some m -> TabletMap.sorted m = true.

(** The indexes of the cache fit together. *)
Definition all (c : MetaCache) : Prop :=
  servers c /\ tablets c /\ entries c /\ indexed c /\ maps_sorted c.

End Consistent.

(** ** Kinds of calls and picks *)
Module Choice.

(** A change made to the tablet by another owner. *)
Definition is_tablet_change (e : MetaCacheServerPicker.call) : bool :=
  match e with MetaCacheServerPicker.TabletChanged _ => true | _ => false end.

(** [PickLeader] ended in a lookup at the master. *)
Definition is_lookup (d : pick) : bool :=
  match d with InitProxy _ => false | _ => true end.

(** The lookup [PickLeader] asks for: by key when the picker has a table,
    by id otherwise. *)
Definition lookup_of (p : MetaCacheServerPicker) : pick :=
  match picker_table_ p with
  | Some _ => ForceLookupByKey (partition_key_start (picker_tablet_ p))
  | None => ForceLookupById (tablet_id_ (picker_tablet_ p))
  end.

End Choice.

(** ** Lookups that share the cache

    The key lookups of a client run side by side on one cache and one
    semaphore.  A pool is the lookups started so far, each alive or deleted;
    an event starts a lookup with [LookupTabletByKey], enters a piece of the
    lookup at a position, or is an invalidation by another caller. *)
Module Pool.

Definition pool : Type := list (option LookupRpc).

Inductive piece : Type :=
| SendRpc (now : MonoTime)
| SendRpcSlowPath
| SendRpcCb (now : MonoTime) (retried : bool) (status : Status)
    (resp : GetTableLocationsResponsePB).

Inductive event : Type :=
| Start (now : MonoTime) (table : KuduTable) (partition_key : string)
    (lookup_type : LookupType) (wants_tablet : bool) (replica_visibility : Visibility)
| Enter (i : nat) (e : piece)
| CallClearCache
| CallMarkTSFailed (server : ts_ptr)
| CallClearNonCoveredRangeEntries (table_id : string).

Definition enter (e : piece) (rpc : LookupRpc) (c : MetaCache)
    : option (step_result LookupRpc) :=
  match e with
  | SendRpc now => LookupRpc.SendRpc now rpc c
  | SendRpcSlowPath => Some (LookupRpc.SendRpcSlowPath rpc c)
  | SendRpcCb now retried status resp => LookupRpc.SendRpcCb now retried status resp rpc c
  end.

(** A piece of a deleted lookup, or at a position without a lookup, is not
    entered.  [None] is a piece that did not return. *)
Definition step (ev : event) (p : pool) (c : MetaCache) : option (pool * MetaCache) :=
  match ev with
  | Start now table partition_key lookup_type wants_tablet replica_visibility =>
      match LookupTabletByKey now c table partition_key lookup_type wants_tablet
              replica_visibility with
      | None => None
      | Some (rpc, c', _) => Some ((p ++ [rpc])%list, c')
      end
  | Enter i e =>
      match p !! i with
      | Some (Some rpc) =>
          match enter e rpc c with
          | None => None
          | Some (rpc', c', _) => Some (<[i := rpc']> p, c')
          end
      | _ => Some (p, c)
      end
  | CallClearCache => Some (p, Invalidation.ClearCache c)
  | CallMarkTSFailed server => Some (p, Invalidation.MarkTSFailed server c)
  | CallClearNonCoveredRangeEntries table_id =>
      Some (p, Invalidation.ClearNonCoveredRangeEntries table_id c)
  end.

Fixpoint run (events : list event) (p : pool) (c : MetaCache) : option (pool * MetaCache) :=
  match events with
  | [] => Some (p, c)
  | ev :: events' =>
      match step ev p c with
      | None => None
      | Some (p1, c1) => run events' p1 c1
      end
  end.

(** The permit a lookup holds: one when it is alive with [has_permit_]. *)
Definition permit (r : option LookupRpc) : Z :=
  match r with
  | Some rpc => if rpc_has_permit_ rpc then 1 else 0
  | None => 0
  end.

(** The permits the lookups of the pool hold. *)
Fixpoint holders (p : pool) : Z :=
  match p with
  | [] => 0
  | r :: p' => permit r + holders p'
  end.

(** A piece that leaves [res] has taken from the semaphore what its lookup
    holds more than before, and has not made the semaphore negative. *)
Definition balanced (rpc : option LookupRpc) (c : MetaCache) (res : step_result LookupRpc)
    : Prop :=
  master_lookup_sem_ res.1.2 + permit res.1.1 = master_lookup_sem_ c + permit rpc
  /\ (0 <= master_lookup_sem_ c -> 0 <= master_lookup_sem_ res.1.2).

End Pool.

(** ** The user callback *)
Module Callbacks.

Definition is_callback (e : effect) : bool :=
  match e with UserCallback _ _ => true | _ => false end.

(** How often the user callback was called. *)
Definition callbacks (log : list effect) : nat := length (List.filter is_callback log).

(** What a piece of a lookup did, by what it left: a lookup that is alive
    has not called the callback; a deleted one called it once, and then did
    nothing but give back its permit. *)
Definition once {R : Type} (rpc : option R) (log : list effect) : Prop :=
  match rpc with
  | Some _ => callbacks log = 0%nat
  | None =>
      exists before s tablet after,
        log = (before ++ UserCallback s tablet :: after)%list
        /\ callbacks before = 0%nat
        /\ (after = [] \/ after = [PermitReleased])
  end.

End Callbacks.

(** ** The operations on the cache

    What changes the cache: the ingestion of the two kinds of responses and
    the invalidations.  [None] is an operation that did not return. *)
Module Operation.

Inductive op : Type :=
| IngestTableLocations (now : MonoTime) (table : KuduTable) (partition_key : string)
    (is_exact_lookup : bool) (resp : GetTableLocationsResponsePB) (max_returned_locations : Z)
| IngestTabletLocations (now : MonoTime) (ttl_ms : Z) (tablet_id : string)
    (resp : GetTabletLocationsResponsePB)
| ClearNonCoveredRangeEntries (table_id : string)
| ClearCache
| MarkTSFailed (server : ts_ptr).

Definition apply (o : op) (c : MetaCache) : option MetaCache :=
  match o with
  | IngestTableLocations now table partition_key is_exact_lookup resp max_returned_locations =>
      Consistent.returned
        (MetaCache.ProcessGetTableLocationsResponse now table partition_key is_exact_lookup
           resp max_returned_locations c)
  | IngestTabletLocations now ttl_ms tablet_id resp =>
      Consistent.returned (ById.ProcessGetTabletLocationsResponse now ttl_ms tablet_id resp c)
  | ClearNonCoveredRangeEntries table_id =>
      Some (Invalidation.ClearNonCoveredRangeEntries table_id c)
  | ClearCache => Some (Invalidation.ClearCache c)
  | MarkTSFailed server => Some (Invalidation.MarkTSFailed server c)
  end.

Fixpoint run (ops : list op) (c : MetaCache) : option MetaCache :=
  match ops with
  | [] => Some c
  | o :: ops' =>
      match apply o c with
      | None => None
      | Some c1 => run ops' c1
      end
  end.

End Operation.

(** ** Where the ingestion of a table-locations response returns OK *)
Module Ready.

(** The range map of a table, empty when the table has none yet. *)
Definition range_map (table : KuduTable) (c : MetaCache) : TabletMap :=
  default [] (tablets_by_table_and_key_ c !! table_id table).

(** A non-covered range with an upper bound is stored under a key that is
    not above that bound, as the ingestion stores it. *)
Definition bounded_entry (kv : string * MetaCacheEntry) : bool :=
  match kv.2 with
  | NonCoveredEntry _ _ upper => Key.empty upper || (kv.1 <=? upper)%key
  | TabletEntry _ _ _ _ => true
  end.

Definition bounded (m : TabletMap) : bool := forallb bounded_entry m.

(** The map has an entry at or below the key, for [FindFloorOrDie]. *)
Definition has_floor (k : string) (m : TabletMap) : Prop :=
  exists kv, kv ∈ m /\ (kv.1 <=? k)%key = true.

(** What a step of the ingestion that returns leaves: the servers as they
    were, the map in order and [bounded], and a floor for every key that
    had one. *)
Definition follows (st st' : MetaCache.ingest) : Prop :=
  ts_registry_ st'.1 = ts_registry_ st.1
  /\ ts_cache_ st'.1 = ts_cache_ st.1
  /\ TabletMap.sorted st'.2 = true
  /\ bounded st'.2 = true
  /\ forall k, has_floor k st.2 -> has_floor k st'.2.

(** The range map of the table is as the ingestion leaves it. *)
Definition map_ready (table : KuduTable) (c : MetaCache) : Prop :=
  TabletMap.sorted (range_map table c) = true /\ bounded (range_map table c) = true.

(** A cache and a response of the master for which no check of the ingestion
    fails: the indexes of the servers agree, the range map of the table is
    as an ingestion leaves it, no tablet of the response has an empty range
    and the indexes of the replicas are in the dictionary. *)
Definition for_response (table : KuduTable) (resp : GetTableLocationsResponsePB)
    (c : MetaCache) : Prop :=
  Consistent.servers c
  /\ map_ready table c
  /\ Forall (fun tablet => Known.proper tablet = true) (tablet_locations resp)
  /\ Forall (Known.indexes_inside (ts_infos resp)) (tablet_locations resp).

End Ready.

(** * Properties *)

(** ** The order of partition keys *)

Module KeyFacts.
Import Key.

Lemma empty_iff a : Key.empty a = true <-> a = "".
Proof. destruct a; simpl; split; congruence. Qed.


Lemma ltb_leb a b : ltb a b = negb (leb b a).
Proof.
  unfold ltb, leb, String.ltb, String.leb.
  rewrite (String.compare_antisym b a).
  destruct (String.compare a b); reflexivity.
Qed.

Lemma leb_ltb a b : leb a b = negb (ltb b a).
Proof. rewrite ltb_leb, negb_involutive. reflexivity. Qed.

Lemma leb_le a b : leb a b = true <-> String.le a b.
Proof. unfold leb, String.le. split; [apply Is_true_true_2 | apply Is_true_true_1]. Qed.

Lemma leb_refl a : leb a a = true.
Proof. apply leb_le. reflexivity. Qed.

Lemma leb_trans a b c : leb a b = true -> leb b c = true -> leb a c = true.
Proof. rewrite !leb_le. intros H1 H2. etrans; eassumption. Qed.

Lemma leb_antisym a b : leb a b = true -> leb b a = true -> a = b.
Proof. apply String.leb_antisym. Qed.

Lemma leb_total a b : leb a b = true \/ leb b a = true.
Proof. apply String.leb_total. Qed.

Lemma ltb_irrefl a : ltb a a = false.
Proof. rewrite ltb_leb, leb_refl. reflexivity. Qed.

Lemma ltb_leb_incl a b : ltb a b = true -> leb a b = true.
Proof.
  rewrite ltb_leb. intros H.
  destruct (leb_total a b) as [Hab | Hba]; [assumption|].
  rewrite Hba in H. discriminate.
Qed.

Lemma ltb_neq a b : ltb a b = true -> a <> b.
Proof. intros H ->. rewrite ltb_irrefl in H. discriminate. Qed.

Lemma leb_neq_ltb a b : leb a b = true -> a <> b -> ltb a b = true.
Proof.
  intros Hab Hne. rewrite ltb_leb.
  destruct (leb b a) eqn:Hba; [|reflexivity].
  exfalso. apply Hne. apply leb_antisym; assumption.
Qed.

Lemma ltb_leb_trans a b c : ltb a b = true -> leb b c = true -> ltb a c = true.
Proof.
  rewrite !ltb_leb. intros Hab Hbc.
  destruct (leb c a) eqn:Hca; [|reflexivity].
  rewrite (leb_trans b c a Hbc Hca) in Hab. discriminate.
Qed.

Lemma leb_ltb_trans a b c : leb a b = true -> ltb b c = true -> ltb a c = true.
Proof.
  rewrite !ltb_leb. intros Hab Hbc.
  destruct (leb c a) eqn:Hca; [|reflexivity].
  rewrite (leb_trans c a b Hca Hab) in Hbc. discriminate.
Qed.

Lemma ltb_trans a b c : ltb a b = true -> ltb b c = true -> ltb a c = true.
Proof. intros Hab Hbc. eapply ltb_leb_trans; [eassumption | apply ltb_leb_incl, Hbc]. Qed.

Lemma leb_empty a : leb "" a = true.
Proof. destruct a; reflexivity. Qed.

Lemma ltb_empty_r a : ltb a "" = false.
Proof. rewrite ltb_leb, leb_empty. reflexivity. Qed.

Lemma ltb_empty_l a : a <> "" -> ltb "" a = true.
Proof. destruct a; [congruence | reflexivity]. Qed.

End KeyFacts.

(** ** RemoteTablet *)

Module RemoteTabletFacts.
Import RemoteTablet.

Lemma mark_leader_role server r :
  role (mark_leader server r) = LEADER <-> ts r = server.
Proof.
  unfold mark_leader.
  destruct (decide (ts r = server)) as [Heq | Hne]; simpl; [tauto|].
  destruct (decide (role r = LEADER)) as [Hl | Hl]; simpl; split; intros H;
    try congruence; try contradiction.
Qed.

Lemma mark_leader_ts server r : ts (mark_leader server r) = ts r.
Proof.
  unfold mark_leader.
  destruct (decide (ts r = server)); simpl; [reflexivity|].
  destruct (decide (role r = LEADER)); reflexivity.
Qed.

Lemma mark_leader_failed server r : failed (mark_leader server r) = failed r.
Proof.
  unfold mark_leader.
  destruct (decide (ts r = server)); simpl; [reflexivity|].
  destruct (decide (role r = LEADER)); reflexivity.
Qed.

Lemma leaders_mark_leader server (rs : list RemoteReplica) :
  length (filter (fun r => role r = LEADER) (map (mark_leader server) rs))
  = length (filter (fun r => ts r = server) rs).
Proof.
  induction rs as [|r rs IH]; [reflexivity|].
  cbn [map]. rewrite !filter_cons.
  destruct (decide (ts r = server)) as [Heq | Hne].
  - rewrite decide_True by (apply mark_leader_role; exact Heq).
    simpl. now rewrite IH.
  - rewrite decide_False by (rewrite mark_leader_role; exact Hne).
    exact IH.
Qed.

Lemma add_deprecated_known tservers rs acc :
  Known.deprecated_known tservers rs ->
  exists replicas, add_deprecated tservers rs acc = Done replicas tt.
Proof.
  revert acc. induction rs as [|r rs IH]; intros acc Hk; simpl; [eauto|].
  inversion Hk as [|? ? [p Hp] Hk']; subst. rewrite Hp. apply IH, Hk'.
Qed.

Lemma add_interned_out_of_range tservers ts_info_dict rs acc :
  Known.interned_known tservers ts_info_dict rs ->
  Exists (fun r => (N.of_nat (length ts_info_dict) <= ts_info_idx r)%N) rs ->
  exists idx,
    add_interned tservers ts_info_dict rs acc
    = Fail (Status.Corruption (corrupt_idx_message idx (length ts_info_dict))) tt.
Proof.
  revert acc. induction rs as [|r rs IH]; intros acc Hk Hex; [inversion Hex|].
  cbn [add_interned].
  destruct (N.of_nat (length ts_info_dict) <=? ts_info_idx r)%N eqn:Hcmp; [eauto|].
  apply N.leb_gt in Hcmp.
  inversion Hk as [|? ? Hr Hk']; subst.
  inversion Hex as [? ? Hbad | ? ? Hex']; subst; [lia|].
  destruct (ts_info_dict !! N.to_nat (ts_info_idx r)) as [ts_info|] eqn:Hget.
  - destruct (Hr ts_info eq_refl) as [p Hp]. rewrite Hp. apply IH; assumption.
  - apply lookup_ge_None in Hget. lia.
Qed.

Lemma Refresh_done_fresh tservers locs_pb ts_info_dict t u t' :
  Refresh tservers locs_pb ts_info_dict t = Done u t' ->
  stale_ t' = false
  /\ tablet_id_ t' = tablet_id_ t
  /\ partition_key_start t' = partition_key_start t
  /\ partition_key_end t' = partition_key_end t.
Proof.
  unfold Refresh.
  destruct (add_deprecated _ _ _) as [rs1 []| |]; try discriminate.
  destruct (add_interned _ _ _ _) as [rs2 []| |]; try discriminate.
  intros H. inversion H; subst. simpl. auto.
Qed.

Lemma Refresh_fail_unchanged tservers locs_pb ts_info_dict t s t' :
  Refresh tservers locs_pb ts_info_dict t = Fail s t' -> t' = t.
Proof.
  unfold Refresh.
  destruct (add_deprecated _ _ _) as [rs1 []| |]; try discriminate.
  - destruct (add_interned _ _ _ _) as [rs2 []| |]; try discriminate.
    intros H. inversion H; reflexivity.
  - intros H. inversion H; reflexivity.
Qed.

Lemma add_deprecated_no_status tservers rs : forall acc s u,
  add_deprecated tservers rs acc <> Fail s u.
Proof.
  induction rs as [|r rs IH]; intros acc s u; simpl; [discriminate|].
  destruct (tservers !! permanent_uuid (dr_ts_info r)); [apply IH | discriminate].
Qed.

(** With an index that is not in the dictionary the second loop does not
    come to its end: it returns Corruption, unless a server that is not in
    [tservers] stops it before. *)
Lemma add_interned_bad_index tservers ts_info_dict rs : forall acc,
  Exists (fun r => (N.of_nat (length ts_info_dict) <= ts_info_idx r)%N) rs ->
  add_interned tservers ts_info_dict rs acc = Abort
  \/ exists idx,
       add_interned tservers ts_info_dict rs acc
       = Fail (Status.Corruption (corrupt_idx_message idx (length ts_info_dict))) tt.
Proof.
  induction rs as [|r rs IH]; intros acc Hex; [inversion Hex|].
  cbn [add_interned].
  destruct (N.of_nat (length ts_info_dict) <=? ts_info_idx r)%N eqn:Hcmp; [right; eauto|].
  apply N.leb_gt in Hcmp.
  inversion Hex as [? ? Hbad | ? ? Hex']; subst; [lia|].
  destruct (ts_info_dict !! N.to_nat (ts_info_idx r)) as [ts_info|]; [|now left].
  destruct (tservers !! permanent_uuid ts_info); [now apply IH | now left].
Qed.

End RemoteTabletFacts.

(** C4, as stated, fails: [MarkTServerAsLeader] of a server that has no
    replica of the tablet demotes the leader and leaves no replica with role
    Leader.  Here [r9] is marked on tablet [B], whose replicas are [r1], [r2]
    and [r3]. *)
Lemma MarkTServerAsLeader_absent_server_no_leader :
  length (RemoteTablet.leaders (RemoteTablet.MarkTServerAsLeader "r9" Scenario.tablet_B)) <> 1%nat.
Proof. vm_compute. discriminate. Qed.

(** C4, amended: after [MarkTServerAsLeader x] a replica has role Leader if
    and only if its server is [x], so that there are as many Leader replicas
    as [x] has replicas of the tablet (exactly one when it has one, none when
    it has none), and every replica of another server that had role Leader has
    role Follower; servers and failure marks are untouched. *)
Theorem MarkTServerAsLeader_leaders (x : ts_ptr) (t : RemoteTablet) :
  let t' := RemoteTablet.MarkTServerAsLeader x t in
  (forall r, r ∈ replicas_ t' -> (role r = LEADER <-> ts r = x))
  /\ length (RemoteTablet.leaders t') = length (filter (fun r => ts r = x) (replicas_ t))
  /\ (forall (i : nat) r, replicas_ t !! i = Some r ->
        exists r', replicas_ t' !! i = Some r'
                   /\ ts r' = ts r /\ failed r' = failed r
                   /\ (ts r <> x -> role r = LEADER -> role r' = FOLLOWER)).
Proof.
  cbn zeta. unfold RemoteTablet.leaders, RemoteTablet.MarkTServerAsLeader. cbn [replicas_ RemoteTablet.set_replicas].
  split; [|split].
  - intros r Hin. apply list_elem_of_fmap in Hin as (r0 & -> & _).
    rewrite RemoteTabletFacts.mark_leader_role, RemoteTabletFacts.mark_leader_ts. tauto.
  - apply RemoteTabletFacts.leaders_mark_leader.
  - intros i r Hi. exists (RemoteTablet.mark_leader x r). split.
    + rewrite list_lookup_fmap, Hi. reflexivity.
    + rewrite RemoteTabletFacts.mark_leader_ts, RemoteTabletFacts.mark_leader_failed.
      repeat split. intros Hne Hl. unfold RemoteTablet.mark_leader.
      rewrite decide_False by exact Hne. rewrite decide_True by exact Hl. reflexivity.
Qed.

(** C5, as stated, fails: [Refresh] looks up the servers of the replicas
    with [FindOrDie] before and while it checks the indexes, and a server
    that is not in [tservers] stops the process before Corruption is
    returned.  Here the response has an old-style replica on [r7], which is
    not in [tservers], and an interned replica that names entry 7 of a
    dictionary of three; the lookup by id of [B] in a new cache, which
    registers the servers of the dictionary only, reaches this call. *)
Lemma Refresh_unregistered_server_stops :
  Exists (fun r => (N.of_nat (length Scenario.three_servers) <= ts_info_idx r)%N)
         (interned_replicas Scenario.unregistered_corrupt_location_B)
  /\ RemoteTablet.Refresh Scenario.servers_cache Scenario.unregistered_corrupt_location_B
       Scenario.three_servers (RemoteTablet.MarkStale Scenario.tablet_B)
     = Abort
  /\ ById.ProcessGetTabletLocationsResponse 0 FLAGS_client_tablet_locations_by_id_ttl_ms "B"
       (Scenario.response_by_id [Scenario.unregistered_corrupt_location_B]) MetaCache.make
     = Abort.
Proof.
  split; [|split; vm_compute; reflexivity].
  apply Exists_cons_tl, Exists_cons_hd. vm_compute. discriminate.
Qed.

(** C5, amended: when some interned replica has a [ts_info_idx] that is not
    below the size of the dictionary, [Refresh] does not return OK: it
    returns Corruption with the tablet, replica list and stale flag
    included, as before, unless a server that is not in [tservers] stops
    the process first; when the servers the response names are in
    [tservers] it returns Corruption.  [Refresh] clears the stale flag only
    where it returns OK, and on any other status the tablet is as before. *)
Theorem Refresh_index_out_of_range (tservers : TabletServerMap) (locs_pb : TabletLocationsPB)
    (ts_info_dict : list TSInfoPB) (t : RemoteTablet) :
  Exists (fun r => (N.of_nat (length ts_info_dict) <= ts_info_idx r)%N)
         (interned_replicas locs_pb) ->
  (RemoteTablet.Refresh tservers locs_pb ts_info_dict t = Abort
   \/ exists s, RemoteTablet.Refresh tservers locs_pb ts_info_dict t = Fail s t
                /\ code s = kCorruption)
  /\ (Known.servers_known tservers locs_pb ts_info_dict ->
      exists s, RemoteTablet.Refresh tservers locs_pb ts_info_dict t = Fail s t
                /\ code s = kCorruption)
  /\ (forall tservers' locs_pb' ts_info_dict' s t',
        RemoteTablet.Refresh tservers' locs_pb' ts_info_dict' t = Fail s t' ->
        replicas_ t' = replicas_ t /\ stale_ t' = stale_ t)
  /\ (forall tservers' locs_pb' ts_info_dict' u t',
        RemoteTablet.Refresh tservers' locs_pb' ts_info_dict' t = Done u t' ->
        stale_ t' = false).
Proof.
  intros Hbad. split; [|split; [|split]].
  - unfold RemoteTablet.Refresh.
    destruct (RemoteTablet.add_deprecated tservers (deprecated_replicas locs_pb) [])
      as [rs1 []|s []|] eqn:Hdep; [| |now left].
    + destruct (RemoteTabletFacts.add_interned_bad_index tservers ts_info_dict _ rs1 Hbad)
        as [-> | [idx ->]]; [now left | right].
      eexists. split; reflexivity.
    + now apply RemoteTabletFacts.add_deprecated_no_status in Hdep.
  - intros [Hdep Hint]. unfold RemoteTablet.Refresh.
    destruct (RemoteTabletFacts.add_deprecated_known tservers _ [] Hdep) as [rs1 ->].
    destruct (RemoteTabletFacts.add_interned_out_of_range tservers ts_info_dict _ rs1 Hint Hbad)
      as [idx ->].
    eexists. split; reflexivity.
  - intros ? ? ? s t' H. apply RemoteTabletFacts.Refresh_fail_unchanged in H. now subst.
  - intros ? ? ? u t' H. apply RemoteTabletFacts.Refresh_done_fresh in H. tauto.
Qed.

(** C5 on a stale tablet [B] and a response whose second interned replica
    names entry 7 of a dictionary of three servers. *)
Lemma Refresh_index_out_of_range_witness :
  exists s,
    RemoteTablet.Refresh Scenario.servers_cache Scenario.corrupt_location_B
      Scenario.three_servers (RemoteTablet.MarkStale Scenario.tablet_B)
    = Fail s (RemoteTablet.MarkStale Scenario.tablet_B)
    /\ code s = kCorruption.
Proof.
  refine (proj1 (proj2 (Refresh_index_out_of_range Scenario.servers_cache
                          Scenario.corrupt_location_B Scenario.three_servers
                          (RemoteTablet.MarkStale Scenario.tablet_B) _)) _).
  - apply Exists_cons_tl, Exists_cons_hd. vm_compute. discriminate.
  - split.
    + constructor.
    + repeat constructor; intros ts_info Hget; vm_compute in Hget;
        inversion Hget; subst; vm_compute; eauto.
Defined.

(** ** MetaCacheServerPicker *)

Module PickerFacts.
Import MetaCacheServerPicker.

Lemma guess_leader_not_follower followers replicas leader :
  guess_leader followers replicas = Some leader ->
  (leader ∉ followers) /\ (leader ∈ replicas).
Proof.
  induction replicas as [|server replicas IH]; simpl; [discriminate|].
  destruct (bool_decide (server ∈ followers)) eqn:Hin.
  - intros H. destruct (IH H) as [H1 H2]. split; [exact H1 | now apply list_elem_of_further].
  - intros H. inversion H; subst. apply bool_decide_eq_false in Hin.
    split; [exact Hin | apply list_elem_of_here].
Qed.

Lemma current_leader_not_follower followers t leader :
  (current_leader followers t).2 = Some leader -> leader ∉ followers.
Proof.
  unfold current_leader.
  destruct (RemoteTablet.LeaderTServer t) as [l|]; [|discriminate].
  destruct (bool_decide (l ∈ followers)) eqn:Hin; simpl; [discriminate|].
  intros H. inversion H; subst. now apply bool_decide_eq_false in Hin.
Qed.

Lemma select_leader_not_follower followers t leader :
  (select_leader followers t).2 = Some leader -> leader ∉ followers.
Proof.
  unfold select_leader.
  destruct (negb (RemoteTablet.stale t)); [|discriminate].
  destruct (current_leader followers t) as [t1 [l|]] eqn:Hcur; simpl.
  - intros H. inversion H; subst.
    apply (current_leader_not_follower followers t). now rewrite Hcur.
  - unfold next_leader.
    destruct (guess_leader followers (RemoteTablet.GetRemoteTabletServers t1)) as [l|] eqn:Hg;
      simpl; [|discriminate].
    intros H. inversion H; subst. now apply guess_leader_not_follower in Hg.
Qed.

Lemma PickLeader_not_follower p x :
  x ∈ followers_ p -> (PickLeader p).2 <> InitProxy x.
Proof.
  intros Hin. unfold PickLeader. simpl.
  destruct (select_leader (followers_ p) (picker_tablet_ p)) as [t1 [l|]] eqn:Hsel; simpl.
  - intros H. inversion H; subst.
    apply (select_leader_not_follower (followers_ p) (picker_tablet_ p) x); [|exact Hin].
    now rewrite Hsel.
  - destruct (picker_table_ p); discriminate.
Qed.

(** A call that is not the completion of a lookup keeps the followers and
    does not pick one of them. *)
Lemma step_keeps_follower e p x :
  is_lookup_completion e = false ->
  x ∈ followers_ p ->
  x ∈ followers_ (step e p).1 /\ (step e p).2 <> Some (InitProxy x).
Proof.
  intros He Hin. destruct e; simpl in *; try discriminate; try (split; [exact Hin | discriminate]).
  - split; [exact Hin|]. intros H. inversion H as [H1].
    now apply (PickLeader_not_follower p x Hin).
  - split; [|discriminate]. apply elem_of_union. now right.
Qed.

Lemma run_keeps_follower calls : forall p x,
  forallb (fun e => negb (is_lookup_completion e)) calls = true ->
  x ∈ followers_ p ->
  InitProxy x ∉ (run calls p).2.
Proof.
  induction calls as [|e calls IH]; intros p x Hall Hin; simpl.
  - apply not_elem_of_nil.
  - simpl in Hall. apply andb_true_iff in Hall as [He Hall].
    apply negb_true_iff in He.
    destruct (step_keeps_follower e p x He Hin) as [Hin' Hpick].
    intros Hel. apply elem_of_app in Hel as [Hel | Hel].
    + destruct ((step e p).2) as [d|]; [|now apply not_elem_of_nil in Hel].
      apply list_elem_of_singleton in Hel. subst. now apply Hpick.
    + now apply (IH (step e p).1 x Hall Hin').
Qed.

Lemma mark_follower_role x (rs : list RemoteReplica) r :
  r ∈ map (RemoteTablet.mark_follower x) rs -> ts r = x -> role r = FOLLOWER.
Proof.
  intros Hin Hts. apply list_elem_of_fmap in Hin as (r0 & -> & _).
  unfold RemoteTablet.mark_follower in *.
  destruct (decide (ts r0 = x)); simpl in *; [reflexivity | contradiction].
Qed.

Lemma mark_leader_keeps_follower l x (rs : list RemoteReplica) :
  l <> x ->
  (forall r, r ∈ rs -> ts r = x -> role r = FOLLOWER) ->
  forall r, r ∈ map (RemoteTablet.mark_leader l) rs -> ts r = x -> role r = FOLLOWER.
Proof.
  intros Hne Hrs r Hin Hts. apply list_elem_of_fmap in Hin as (r0 & -> & Hin0).
  unfold RemoteTablet.mark_leader in *.
  destruct (decide (ts r0 = l)) as [Heq | Hneq]; simpl in *; [congruence|].
  destruct (decide (role r0 = LEADER)); simpl in *; [reflexivity | now apply Hrs].
Qed.

(** The cached leader that is marked as a follower leaves [PickLeader] with
    role Follower. *)
Lemma PickLeader_demotes p x :
  RemoteTablet.stale (picker_tablet_ p) = false ->
  RemoteTablet.LeaderTServer (picker_tablet_ p) = Some x ->
  x ∈ followers_ p ->
  forall r, r ∈ replicas_ (picker_tablet_ (PickLeader p).1) -> ts r = x -> role r = FOLLOWER.
Proof.
  intros Hfresh Hlead Hin. unfold PickLeader, select_leader, current_leader. simpl.
  rewrite Hfresh, Hlead. simpl. rewrite bool_decide_eq_true_2 by exact Hin. simpl.
  unfold next_leader.
  destruct (guess_leader _ _) as [l|] eqn:Hg; simpl.
  - apply guess_leader_not_follower in Hg as [Hnot _].
    apply mark_leader_keeps_follower; [intros ->; contradiction|].
    apply mark_follower_role.
  - apply mark_follower_role.
Qed.

End PickerFacts.

(** C2: once [MarkReplicaNotLeader x] was called, whatever is called on the
    picker or done to its tablet afterwards, as long as no lookup completion
    ([LookUpTabletCb]) runs, no [PickLeader] picks [x].  In a picker that has
    [x] among its followers, a cached leader [x] of a tablet that is not stale
    leaves [PickLeader] with role Follower, and the scan over
    [GetRemoteTabletServers] returns no server of the followers set. *)
Theorem PickLeader_never_picks_marked_follower (x : ts_ptr) (p : MetaCacheServerPicker)
    (calls : list MetaCacheServerPicker.call) :
  forallb (fun e => negb (MetaCacheServerPicker.is_lookup_completion e)) calls = true ->
  (InitProxy x ∉
     (MetaCacheServerPicker.run calls (MetaCacheServerPicker.MarkReplicaNotLeader x p)).2)
  /\ (forall q,
        x ∈ followers_ q ->
        (MetaCacheServerPicker.PickLeader q).2 <> InitProxy x
        /\ (RemoteTablet.stale (picker_tablet_ q) = false ->
            RemoteTablet.LeaderTServer (picker_tablet_ q) = Some x ->
            forall r, r ∈ replicas_ (picker_tablet_ (MetaCacheServerPicker.PickLeader q).1) ->
                      ts r = x -> role r = FOLLOWER))
  /\ (forall followers replicas leader,
        MetaCacheServerPicker.guess_leader followers replicas = Some leader ->
        leader ∉ followers).
Proof.
  intros Hall. split; [|split].
  - apply PickerFacts.run_keeps_follower; [exact Hall|].
    simpl. apply elem_of_union. left. now apply elem_of_singleton.
  - intros q Hin. split.
    + now apply PickerFacts.PickLeader_not_follower.
    + intros Hfresh Hlead. now apply PickerFacts.PickLeader_demotes.
  - intros followers replicas leader H.
    now apply PickerFacts.guess_leader_not_follower in H.
Qed.

(** C2 on scenario S3: tablet [B] with leader [r1]; [r1] rejects the write,
    then the picker is asked twice, with a failure of [r3] in between. *)
Lemma PickLeader_never_picks_marked_follower_witness :
  InitProxy "r1" ∉
    (MetaCacheServerPicker.run
       [MetaCacheServerPicker.CallPickLeader;
        MetaCacheServerPicker.CallMarkServerFailed "r3";
        MetaCacheServerPicker.CallPickLeader]
       (MetaCacheServerPicker.MarkReplicaNotLeader "r1"
          (mkMetaCacheServerPicker None Scenario.tablet_B ∅))).2.
Proof.
  refine (proj1 (PickLeader_never_picks_marked_follower "r1"
                   (mkMetaCacheServerPicker None Scenario.tablet_B ∅)
                   [MetaCacheServerPicker.CallPickLeader;
                    MetaCacheServerPicker.CallMarkServerFailed "r3";
                    MetaCacheServerPicker.CallPickLeader] _)).
  reflexivity.
Defined.

(** ** The fast path *)

Module FastPathFacts.
Import FastPathLookup.

Lemma first_leader_Some rs server :
  RemoteTablet.first_leader rs = Some server ->
  exists r, r ∈ rs /\ ts r = server /\ role r = LEADER /\ failed r = false.
Proof.
  induction rs as [|r rs IH]; simpl; [discriminate|].
  destruct (negb (failed r) && bool_decide (role r = LEADER)) eqn:Hc.
  - intros H. inversion H; subst. apply andb_true_iff in Hc as [Hf Hl].
    apply negb_true_iff in Hf. apply bool_decide_eq_true in Hl.
    exists r. split; [apply list_elem_of_here | auto].
  - intros H. destruct (IH H) as (r0 & Hin & Hr0). exists r0.
    split; [now apply list_elem_of_further | exact Hr0].
Qed.

Lemma above_le_length m k : (above m k <= length m)%nat.
Proof. unfold above. apply List.filter_length_le. Qed.

Lemma above_mono m k k' :
  (k <=? k')%key = true -> (above m k' <= above m k)%nat.
Proof.
  intros Hle. unfold above. induction m as [|[k1 e1] m IH]; simpl; [lia|].
  destruct (k' <? k1)%key eqn:H1.
  - rewrite (KeyFacts.leb_ltb_trans k k' k1 Hle H1). simpl. lia.
  - destruct (k <? k1)%key; simpl; lia.
Qed.

Lemma above_decreases m k k' :
  (k <=? k')%key = true ->
  existsb (fun kv => (k <? kv.1)%key && (kv.1 <=? k')%key) m = true ->
  (above m k' < above m k)%nat.
Proof.
  intros Hle. unfold above. induction m as [|[k1 e1] m IH]; simpl; [discriminate|].
  intros Hex. apply orb_true_iff in Hex as [Hin | Hex].
  - apply andb_true_iff in Hin as [H1 H2]. rewrite H1.
    rewrite KeyFacts.ltb_leb, H2. simpl.
    pose proof (above_mono m k k' Hle) as Hm. unfold above in Hm. lia.
  - specialize (IH Hex).
    destruct (k' <? k1)%key eqn:H1.
    + rewrite (KeyFacts.leb_ltb_trans k k' k1 Hle H1). simpl. lia.
    + destruct (k <? k1)%key; simpl; lia.
Qed.

(** No key between two keys: both have the same floor. *)
Lemma FindFloorOrNull_same m k k' :
  (k <=? k')%key = true ->
  existsb (fun kv => (k <? kv.1)%key && (kv.1 <=? k')%key) m = false ->
  TabletMap.FindFloorOrNull m k' = TabletMap.FindFloorOrNull m k.
Proof.
  intros Hle. induction m as [|[k1 e1] m IH]; simpl; [reflexivity|].
  intros Hex. apply orb_false_iff in Hex as [Hin Hex]. rewrite (IH Hex).
  destruct (k1 <=? k)%key eqn:H1.
  - now rewrite (KeyFacts.leb_trans k1 k k' H1 Hle).
  - destruct (k1 <=? k')%key eqn:H2; [|reflexivity].
    rewrite KeyFacts.ltb_leb, H1 in Hin. discriminate.
Qed.

Lemma Contains_below_upper e k :
  MetaCacheEntry.Contains e k = true ->
  Key.empty (MetaCacheEntry.upper_bound_partition_key e) = false ->
  (k <? MetaCacheEntry.upper_bound_partition_key e)%key = true.
Proof.
  unfold MetaCacheEntry.Contains. intros H Hne.
  apply andb_true_iff in H as [_ H]. now rewrite Hne in H.
Qed.

Lemma Contains_upper e :
  Key.empty (MetaCacheEntry.upper_bound_partition_key e) = false ->
  MetaCacheEntry.Contains e (MetaCacheEntry.upper_bound_partition_key e) = false.
Proof.
  unfold MetaCacheEntry.Contains. intros ->. rewrite KeyFacts.ltb_irrefl.
  apply andb_false_r.
Qed.

Lemma LookupEntryByKeyFastPath_Some now c table k e :
  LookupEntryByKeyFastPath now c table k = Some e ->
  exists m, tablets_by_table_and_key_ c !! table_id table = Some m
            /\ TabletMap.FindFloorOrNull m k = Some e
            /\ MetaCacheEntry.stale now (tablets_by_id_ c) e = false
            /\ MetaCacheEntry.Contains e k = true.
Proof.
  unfold LookupEntryByKeyFastPath.
  destruct (tablets_by_table_and_key_ c !! table_id table) as [m|] eqn:Hm; [|discriminate].
  destruct (TabletMap.FindFloorOrNull m k) as [e0|] eqn:Hf; [|discriminate].
  destruct (MetaCacheEntry.stale now (tablets_by_id_ c) e0) eqn:Hs; [discriminate|].
  destruct (MetaCacheEntry.Contains e0 k) eqn:Hc; [|discriminate].
  intros H. inversion H; subst. exists m. repeat split; assumption || reflexivity.
Qed.

(** With more turns than there are entries above the key, plus two, the
    loop returns. *)
Lemma loop_returns now c table lookup_type m :
  tablets_by_table_and_key_ c !! table_id table = Some m ->
  forall n k fuel,
    (above m k <= n)%nat -> (n + 2 <= fuel)%nat ->
    exists fp, DoFastPathLookup_loop fuel now c table k lookup_type = Some fp /\ is_answer fp.
Proof.
  intros Hm. induction n as [n IH] using lt_wf_ind. intros k fuel Hab Hfuel.
  destruct fuel as [|fuel]; [lia|]. cbn [DoFastPathLookup_loop].
  destruct (LookupEntryByKeyFastPath now c table k) as [e|] eqn:Hlook;
    [|eexists; split; [reflexivity | right; right; reflexivity]].
  destruct (MetaCacheEntry.is_non_covered_range e
            || MetaCacheEntry.tablet_HasLeader (tablets_by_id_ c) e);
    [|eexists; split; [reflexivity | right; right; reflexivity]].
  destruct e as [exp id lower upper | exp lower upper];
    [eexists; split; [reflexivity | left; reflexivity]|].
  destruct (bool_decide (lookup_type = kPoint) || Key.empty upper) eqn:Hstop;
    [eexists; split; [reflexivity | right; left; reflexivity]|].
  apply orb_false_iff in Hstop as [_ Hupper].
  apply LookupEntryByKeyFastPath_Some in Hlook as (m' & Hm' & Hfloor & Hstale & Hcont).
  rewrite Hm in Hm'. inversion Hm'; subst m'.
  pose proof (Contains_below_upper _ _ Hcont Hupper) as Hlt. simpl in Hlt.
  pose proof (KeyFacts.ltb_leb_incl _ _ Hlt) as Hle.
  destruct (existsb (fun kv => (k <? kv.1)%key && (kv.1 <=? upper)%key) m) eqn:Hex.
  - pose proof (above_decreases m k upper Hle Hex) as Hdec.
    apply (IH (above m upper)); lia.
  - destruct fuel as [|fuel]; [lia|]. cbn [DoFastPathLookup_loop].
    unfold LookupEntryByKeyFastPath. rewrite Hm.
    rewrite (FindFloorOrNull_same m k upper Hle Hex), Hfloor, Hstale.
    pose proof (Contains_upper (NonCoveredEntry exp lower upper) Hupper) as Hcu.
    cbn [MetaCacheEntry.upper_bound_partition_key] in Hcu. rewrite Hcu.
    eexists; split; [reflexivity | right; right; reflexivity].
Qed.

Lemma loop_no_map now c table lookup_type k fuel :
  tablets_by_table_and_key_ c !! table_id table = None ->
  DoFastPathLookup_loop (S fuel) now c table k lookup_type
  = Some (mkFastPath (Status.Incomplete "") k None).
Proof.
  intros Hm. cbn [DoFastPathLookup_loop]. unfold LookupEntryByKeyFastPath. now rewrite Hm.
Qed.

(** More fuel does not change what the loop returns. *)
Lemma loop_more_fuel now c table lookup_type fuel : forall k fp fuel',
  DoFastPathLookup_loop fuel now c table k lookup_type = Some fp ->
  (fuel <= fuel')%nat ->
  DoFastPathLookup_loop fuel' now c table k lookup_type = Some fp.
Proof.
  induction fuel as [|fuel IH]; intros k fp fuel' H Hle; [discriminate|].
  destruct fuel' as [|fuel']; [lia|]. cbn [DoFastPathLookup_loop] in *.
  destruct (LookupEntryByKeyFastPath now c table k) as [e|]; [|exact H].
  destruct (MetaCacheEntry.is_non_covered_range e
            || MetaCacheEntry.tablet_HasLeader (tablets_by_id_ c) e); [|exact H].
  destruct e as [exp id lower upper | exp lower upper]; [exact H|].
  destruct (bool_decide (lookup_type = kPoint) || Key.empty upper); [exact H|].
  apply IH; [exact H | lia].
Qed.

Lemma DoFastPathLookup_returns now c table k lookup_type :
  exists fp, DoFastPathLookup now c table k lookup_type = Some fp /\ is_answer fp.
Proof.
  unfold DoFastPathLookup.
  destruct (tablets_by_table_and_key_ c !! table_id table) as [m|] eqn:Hm.
  - assert (Hf : fuel_for c table = S (S (length m)))
      by (unfold fuel_for; rewrite Hm; reflexivity).
    rewrite Hf. apply (loop_returns now c table lookup_type m Hm (length m)).
    + apply above_le_length.
    + lia.
  - unfold fuel_for. rewrite loop_no_map by exact Hm.
    eexists; split; [reflexivity | right; right; reflexivity].
Qed.

(** An OK answer names a tablet of the cache that has a leader. *)
Lemma loop_ok_has_leader now c table lookup_type fuel : forall k fp,
  DoFastPathLookup_loop fuel now c table k lookup_type = Some fp ->
  code (fp_status fp) = kOk ->
  exists id t, fp_remote_tablet fp = Some id
               /\ tablets_by_id_ c !! id = Some t
               /\ RemoteTablet.HasLeader t = true.
Proof.
  induction fuel as [|fuel IH]; intros k fp H Hok; [discriminate|].
  cbn [DoFastPathLookup_loop] in H.
  destruct (LookupEntryByKeyFastPath now c table k) as [e|];
    [|inversion H; subst; discriminate].
  destruct (MetaCacheEntry.is_non_covered_range e
            || MetaCacheEntry.tablet_HasLeader (tablets_by_id_ c) e) eqn:Hcond;
    [|inversion H; subst; discriminate].
  destruct e as [exp id lower upper | exp lower upper].
  - inversion H; subst. simpl in Hcond.
    destruct (tablets_by_id_ c !! id) as [t|] eqn:Ht; [|discriminate].
    exists id, t. auto.
  - destruct (bool_decide (lookup_type = kPoint) || Key.empty upper).
    + inversion H; subst. discriminate.
    + now apply (IH upper).
Qed.

Lemma HasLeader_true t :
  RemoteTablet.HasLeader t = true ->
  exists r, r ∈ replicas_ t /\ role r = LEADER /\ failed r = false.
Proof.
  unfold RemoteTablet.HasLeader, RemoteTablet.LeaderTServer.
  destruct (RemoteTablet.first_leader (replicas_ t)) as [s|] eqn:H; [|discriminate].
  intros _. apply first_leader_Some in H as (r & Hin & _ & Hl & Hf). eauto.
Qed.

Lemma HasLeader_false t :
  (forall r, r ∈ replicas_ t -> role r = LEADER -> failed r = true) ->
  RemoteTablet.HasLeader t = false.
Proof.
  intros Hno. unfold RemoteTablet.HasLeader, RemoteTablet.LeaderTServer.
  destruct (RemoteTablet.first_leader (replicas_ t)) as [s|] eqn:H; [|reflexivity].
  apply first_leader_Some in H as (r & Hin & _ & Hl & Hf).
  rewrite (Hno r Hin Hl) in Hf. discriminate.
Qed.

End FastPathFacts.

(** C3: when [DoFastPathLookup] returns OK, the tablet it hands out has a
    replica with role Leader that is not failed; and when the floor entry of
    the key is a tablet none of whose Leader replicas is alive,
    [DoFastPathLookup] returns Incomplete, which sends the lookup to the
    master. *)
Theorem DoFastPathLookup_needs_leader (now : MonoTime) (c : MetaCache) (table : KuduTable)
    (k : string) (lookup_type : LookupType) :
  (forall fp,
     FastPathLookup.DoFastPathLookup now c table k lookup_type = Some fp ->
     code (fp_status fp) = kOk ->
     exists id t,
       fp_remote_tablet fp = Some id
       /\ tablets_by_id_ c !! id = Some t
       /\ exists r, r ∈ replicas_ t /\ role r = LEADER /\ failed r = false)
  /\ (forall m exp id lower upper t,
        tablets_by_table_and_key_ c !! table_id table = Some m ->
        TabletMap.FindFloorOrNull m k = Some (TabletEntry exp id lower upper) ->
        tablets_by_id_ c !! id = Some t ->
        (forall r, r ∈ replicas_ t -> role r = LEADER -> failed r = true) ->
        FastPathLookup.DoFastPathLookup now c table k lookup_type
        = Some (mkFastPath (Status.Incomplete "") k None)).
Proof.
  split.
  - intros fp H Hok.
    destruct (FastPathFacts.loop_ok_has_leader _ _ _ _ _ _ _ H Hok) as (id & t & H1 & H2 & H3).
    exists id, t. repeat split; try assumption. now apply FastPathFacts.HasLeader_true.
  - intros m exp id lower upper t Hm Hfloor Ht Hno.
    unfold FastPathLookup.DoFastPathLookup, FastPathLookup.fuel_for.
    cbn [FastPathLookup.DoFastPathLookup_loop].
    unfold FastPathLookup.LookupEntryByKeyFastPath. rewrite Hm, Hfloor.
    destruct (MetaCacheEntry.stale now (tablets_by_id_ c) _); [reflexivity|].
    destruct (MetaCacheEntry.Contains _ k); [|reflexivity].
    cbn [MetaCacheEntry.is_non_covered_range MetaCacheEntry.tablet_HasLeader orb].
    rewrite Ht, (FastPathFacts.HasLeader_false t Hno). reflexivity.
Qed.

(** C3 on scenario S1: the lookup of ["c2"] finds tablet [B] and its leader
    [r1]; once [r1] is marked failed the same lookup is Incomplete. *)
Lemma DoFastPathLookup_needs_leader_witness :
  (exists id t,
     Some "B" = Some id
     /\ tablets_by_id_ Scenario.cache_S1 !! id = Some t
     /\ exists r, r ∈ replicas_ t /\ role r = LEADER /\ failed r = false)
  /\ FastPathLookup.DoFastPathLookup 5 (Invalidation.MarkTSFailed "r1" Scenario.cache_S1)
       Scenario.table_T "c2" kPoint
     = Some (mkFastPath (Status.Incomplete "") "c2" None).
Proof.
  split.
  - refine (proj1 (DoFastPathLookup_needs_leader 5 Scenario.cache_S1 Scenario.table_T
                     "c2" kPoint) (mkFastPath Status.OK "c2" (Some "B")) _ _);
      vm_compute; reflexivity.
  - refine (proj2 (DoFastPathLookup_needs_leader 5
                     (Invalidation.MarkTSFailed "r1" Scenario.cache_S1)
                     Scenario.table_T "c2" kPoint)
              Scenario.map_S1 60000000000 "B" "c1" "c3"
              (RemoteTablet.MarkReplicaFailed "r1"
                 (RemoteTablet.set_replicas Scenario.tablet_B (replicas_ Scenario.tablet_B) false))
              _ _ _ _).
    + vm_compute. reflexivity.
    + vm_compute. reflexivity.
    + vm_compute. reflexivity.
    + intros r Hin Hl. vm_compute in Hin.
      repeat (apply elem_of_cons in Hin as [-> | Hin]; [first [reflexivity | discriminate]|]).
      now apply not_elem_of_nil in Hin.
Defined.

(** C9: [DoFastPathLookup] returns, for every cache, table, key and lookup
    type: two turns of its loop more than the range map has entries always
    suffice, more turns give the same result, and the result is OK, NotFound
    or Incomplete.  The loop only goes on from an entry that contains the key
    and has a non-empty upper bound, and that bound, the next key, is
    strictly greater than the key. *)
Theorem DoFastPathLookup_terminates (now : MonoTime) (c : MetaCache) (table : KuduTable)
    (k : string) (lookup_type : LookupType) :
  (exists fp,
     FastPathLookup.DoFastPathLookup now c table k lookup_type = Some fp
     /\ (forall fuel, (FastPathLookup.fuel_for c table <= fuel)%nat ->
           FastPathLookup.DoFastPathLookup_loop fuel now c table k lookup_type = Some fp)
     /\ (code (fp_status fp) = kOk \/ code (fp_status fp) = kNotFound
         \/ code (fp_status fp) = kIncomplete))
  /\ (forall e,
        FastPathLookup.LookupEntryByKeyFastPath now c table k = Some e ->
        Key.empty (MetaCacheEntry.upper_bound_partition_key e) = false ->
        (k <? MetaCacheEntry.upper_bound_partition_key e)%key = true).
Proof.
  split.
  - destruct (FastPathFacts.DoFastPathLookup_returns now c table k lookup_type) as (fp & H & Ha).
    exists fp. split; [exact H|]. split; [|exact Ha].
    intros fuel Hfuel. eapply FastPathFacts.loop_more_fuel; [exact H | exact Hfuel].
  - intros e He Hupper.
    apply FastPathFacts.LookupEntryByKeyFastPath_Some in He as (m & _ & _ & _ & Hcont).
    now apply FastPathFacts.Contains_below_upper.
Qed.

(** ** Ingestion *)

(** C7: a table-locations response without tablets makes the range map of the
    table the single entry [[«»,«»)], non-covered, whatever the map was (or
    whether there was one); the function returns OK with that entry and leaves
    the other indexes alone. *)
Theorem empty_table_single_non_covered_entry (now : MonoTime) (table : KuduTable)
    (partition_key : string) (is_exact_lookup : bool) (resp : GetTableLocationsResponsePB)
    (max_returned_locations : Z) (c : MetaCache) :
  tablet_locations resp = [] ->
  let entry := NonCoveredEntry (now + FromMilliseconds (ttl_millis resp)) "" "" in
  exists c',
    MetaCache.ProcessGetTableLocationsResponse now table partition_key is_exact_lookup resp
      max_returned_locations c = Done entry c'
    /\ tablets_by_table_and_key_ c' !! table_id table = Some [("", entry)]
    /\ (forall other, other <> table_id table ->
          tablets_by_table_and_key_ c' !! other = tablets_by_table_and_key_ c !! other)
    /\ ts_registry_ c' = ts_registry_ c /\ ts_cache_ c' = ts_cache_ c
    /\ tablets_by_id_ c' = tablets_by_id_ c /\ entry_by_tablet_id_ c' = entry_by_tablet_id_ c.
Proof.
  intros Hempty entry. unfold MetaCache.ProcessGetTableLocationsResponse. rewrite Hempty.
  unfold MetaCache.ingest_empty, MetaCache.discovered_entry. simpl.
  rewrite KeyFacts.leb_empty. simpl. rewrite andb_false_r.
  eexists. split; [reflexivity|]. unfold MetaCache.store_map. simpl.
  split; [apply lookup_insert_eq|].
  split; [intros other Hne; now apply lookup_insert_ne|].
  auto.
Qed.

(** C7 on the cache of scenario S1 (five entries for [T]) and response S6. *)
Lemma empty_table_single_non_covered_entry_witness :
  exists c',
    MetaCache.ProcessGetTableLocationsResponse 5 Scenario.table_T "c4" true
      (Scenario.response 1000 []) 1 Scenario.cache_S1
    = Done (NonCoveredEntry 1000000005 "" "") c'
    /\ tablets_by_table_and_key_ c' !! "T" = Some [("", NonCoveredEntry 1000000005 "" "")].
Proof.
  destruct (empty_table_single_non_covered_entry 5 Scenario.table_T "c4" true
              (Scenario.response 1000 []) 1 Scenario.cache_S1 eq_refl)
    as (c' & H1 & H2 & _).
  exists c'. split; [exact H1 | exact H2].
Defined.

(** C10: a tablet-locations response without locations makes
    [ProcessGetTabletLocationsResponse] return NotFound with an empty message
    and the cache as it was, every index included; [SendRpcCb] of the id
    lookup then deletes the lookup and hands the callback a NotFound status
    and no tablet.  That lookup is the one [LookupTabletById] starts when its
    fast path is Incomplete. *)
Theorem unknown_tablet_id_not_found (now : MonoTime) (ttl_ms : Z)
    (resp : GetTabletLocationsResponsePB) (rpc : LookupRpcById) (c : MetaCache) :
  id_tablet_locations resp = [] ->
  ById.ProcessGetTabletLocationsResponse now ttl_ms (byid_tablet_id_ rpc) resp c
  = Fail (Status.NotFound "") c
  /\ (id_error resp = None ->
      exists s,
        LookupRpcById.SendRpcCb now ttl_ms false Status.OK resp rpc c
        = Some (None, c, [UserCallback s None])
        /\ code s = kNotFound)
  /\ (forall tablet_id wants_tablet,
        Status.IsIncomplete
          (fp_status (FastPathLookup.DoFastPathLookupById now c tablet_id)) = true ->
        LookupTabletById now c tablet_id wants_tablet
        = (Some (mkLookupRpcById tablet_id wants_tablet 1), c, [SendToMasterById tablet_id])).
Proof.
  intros Hempty. split; [|split].
  - unfold ById.ProcessGetTabletLocationsResponse. now rewrite Hempty.
  - intros Herr. unfold LookupRpcById.SendRpcCb, LookupRpc.RetryLookupIfNecessary.
    rewrite Herr. simpl.
    unfold ById.ProcessGetTabletLocationsResponse. rewrite Hempty.
    eexists. split; reflexivity.
  - intros tablet_id wants Hinc. unfold LookupTabletById. now rewrite Hinc.
Qed.

(** C10 on the cache of scenario S1 and a lookup of tablet [Z]. *)
Lemma unknown_tablet_id_not_found_witness :
  ById.ProcessGetTabletLocationsResponse 5 FLAGS_client_tablet_locations_by_id_ttl_ms "Z"
    (mkGetTabletLocationsResponsePB [] Scenario.three_servers None) Scenario.cache_S1
  = Fail (Status.NotFound "") Scenario.cache_S1.
Proof.
  exact (proj1 (unknown_tablet_id_not_found 5
                  FLAGS_client_tablet_locations_by_id_ttl_ms
                  (mkGetTabletLocationsResponsePB [] Scenario.three_servers None)
                  (mkLookupRpcById "Z" true 0) Scenario.cache_S1 eq_refl)).
Defined.

(** ** Master-lookup permits *)

Module PermitFacts.
Import Lifetime.

Lemma acquisitions_app l1 l2 :
  acquisitions (l1 ++ l2) = (acquisitions l1 + acquisitions l2)%nat.
Proof. unfold acquisitions. now rewrite List.filter_app, length_app. Qed.

Lemma releases_app l1 l2 : releases (l1 ++ l2) = (releases l1 + releases l2)%nat.
Proof. unfold releases. now rewrite List.filter_app, length_app. Qed.

Lemma SendRpcSlowPath_accounted rpc c :
  accounted (rpc_has_permit_ rpc) (LookupRpc.SendRpcSlowPath rpc c).1.1
    (LookupRpc.SendRpcSlowPath rpc c).2.
Proof.
  unfold LookupRpc.SendRpcSlowPath, AcquireMasterLookupPermit, Semaphore.TryAcquire.
  destruct (rpc_has_permit_ rpc) eqn:Hp; simpl.
  - rewrite Hp. simpl. unfold accounted, acquisitions, releases. simpl. rewrite Hp. simpl. lia.
  - destruct (0 <? master_lookup_sem_ c); simpl; unfold accounted, acquisitions, releases;
      simpl; lia.
Qed.

Lemma delete_after_accounted before rpc c :
  acquisitions before = 0%nat -> releases before = 0%nat ->
  accounted (rpc_has_permit_ rpc) (LookupRpc.delete_after before rpc c).1.1
    (LookupRpc.delete_after before rpc c).2.
Proof.
  intros Ha Hr. unfold LookupRpc.delete_after, LookupRpc.destroy, accounted.
  destruct (rpc_has_permit_ rpc); simpl.
  - rewrite acquisitions_app, releases_app, Ha, Hr. simpl.
    repeat split; try lia. intros _. apply last_snoc.
  - rewrite app_nil_r, Ha, Hr. simpl. repeat split; try lia.
Qed.

Lemma accounted_result b (res : step_result LookupRpc) rpc1 c1 log1 :
  Some res = Some (rpc1, c1, log1) -> accounted b res.1.1 res.2 -> accounted b rpc1 log1.
Proof. intros H. apply (inj Some) in H. now subst. Qed.

Lemma SendRpc_accounted now rpc c rpc1 c1 log1 :
  LookupRpc.SendRpc now rpc c = Some (rpc1, c1, log1) ->
  accounted (rpc_has_permit_ rpc) rpc1 log1.
Proof.
  unfold LookupRpc.SendRpc.
  destruct (FastPathLookup.DoFastPathLookup _ _ _ _ _) as [fp|]; [|discriminate].
  destruct (negb (Status.IsIncomplete (fp_status fp))); intros H;
    eapply accounted_result; try exact H.
  - apply (delete_after_accounted _ (LookupRpc.with_partition_key rpc (fp_partition_key fp)));
      reflexivity.
  - apply (SendRpcSlowPath_accounted (LookupRpc.with_partition_key rpc (fp_partition_key fp))).
Qed.

Lemma SendRpcCb_accounted now retried status resp rpc c rpc1 c1 log1 :
  LookupRpc.SendRpcCb now retried status resp rpc c = Some (rpc1, c1, log1) ->
  accounted (rpc_has_permit_ rpc) rpc1 log1.
Proof.
  unfold LookupRpc.SendRpcCb.
  assert (Hretry : forall p, LookupRpc.RetryLookupIfNecessary retried status (error resp) = p ->
            p.1.1 = true -> acquisitions p.2 = 0%nat /\ releases p.2 = 0%nat).
  { intros p <- _. unfold LookupRpc.RetryLookupIfNecessary.
    destruct retried; [split; reflexivity|].
    destruct (error resp) as [e|]; [|split; reflexivity].
    destruct (Status.ok status); [|split; reflexivity].
    destruct (Status.IsServiceUnavailable e); split; reflexivity. }
  destruct (LookupRpc.RetryLookupIfNecessary retried status (error resp))
    as [[rescheduled new_status] log] eqn:Hr.
  specialize (Hretry _ eq_refl). simpl in Hretry.
  destruct rescheduled.
  - destruct (Hretry eq_refl) as [Ha Hrel]. intros H. apply (inj Some) in H.
    inversion H; subst. unfold accounted. rewrite Ha, Hrel.
    destruct (rpc_has_permit_ rpc); simpl; lia.
  - destruct (Status.ok new_status).
    + destruct (MetaCache.ProcessGetTableLocationsResponse _ _ _ _ _ _ _)
        as [en c'|s c'|]; [| |discriminate].
      * destruct (MetaCacheEntry.is_non_covered_range en); intros H;
          eapply accounted_result; try exact H; now apply delete_after_accounted.
      * cbn [LookupRpc.unset_entry MetaCacheEntry.is_non_covered_range]. intros H.
        eapply accounted_result; try exact H. now apply delete_after_accounted.
    + intros H. eapply accounted_result; try exact H. now apply delete_after_accounted.
Qed.

Lemma step_accounted e rpc c rpc1 c1 log1 :
  step e rpc c = Some (rpc1, c1, log1) ->
  accounted (rpc_has_permit_ rpc) rpc1 log1.
Proof.
  destruct e as [now | | now retried status resp | c0]; simpl.
  - apply SendRpc_accounted.
  - intros H. eapply accounted_result; [exact H|]. apply SendRpcSlowPath_accounted.
  - apply SendRpcCb_accounted.
  - intros H. inversion H; subst. unfold accounted, acquisitions, releases.
    destruct (rpc_has_permit_ rpc); simpl; lia.
Qed.

Lemma run_accounted calls : forall rpc c rpc' c' log,
  run calls (Some rpc) c = Some (rpc', c', log) ->
  accounted (rpc_has_permit_ rpc) rpc' log.
Proof.
  induction calls as [|e calls IH]; intros rpc c rpc' c' log; simpl.
  - intros H. inversion H; subst. unfold accounted, acquisitions, releases.
    destruct (rpc_has_permit_ rpc); simpl; lia.
  - destruct (step e rpc c) as [[[rpc1 c1] log1]|] eqn:Hstep; [|discriminate].
    apply step_accounted in Hstep. destruct Hstep as [Hle Hstep].
    destruct rpc1 as [r1|].
    + destruct (run calls (Some r1) c1) as [[[rpc2 c2] log2]|] eqn:Hrun; [|discriminate].
      intros H. inversion H; subst. apply IH in Hrun. destruct Hrun as [Hle2 Hrun].
      destruct Hstep as [Hr1 Hb1]. unfold accounted.
      rewrite acquisitions_app, releases_app, Hr1.
      split; [lia|]. destruct rpc' as [r2|].
      * destruct Hrun as [Hr2 Hb2]. split; lia.
      * destruct Hrun as [Hr2 Hlast]. split; [lia|]. intros Hone.
        assert (Hl2 : last log2 = Some PermitReleased) by (apply Hlast; lia).
        destruct log2 as [|x log2]; [discriminate|].
        rewrite last_app, Hl2. reflexivity.
    + assert (Hnone : run calls None c1 = Some (None, c1, [])) by (destruct calls; reflexivity).
      rewrite Hnone. intros H. inversion H; subst. rewrite app_nil_r.
      split; assumption.
Qed.

End PermitFacts.

(** C8: over the life of a key lookup, from its construction through any
    sequence of [SendRpc], [SendRpcSlowPath] and [SendRpcCb] (with other users
    of the cache in between) to its deletion, at most one permit is acquired;
    while the lookup is alive it has released none and holds one exactly when
    it acquired one; when it is deleted it has released as many as it
    acquired, and the release is the last thing it did.  [SendRpcSlowPath]
    does not touch the semaphore when [has_permit_] is set; without a permit
    and without a free one it asks for a delayed retry with the TimedOut
    status and sends nothing to the master. *)
Theorem LookupRpc_permit_accounting (calls : list Lifetime.call) (table : KuduTable)
    (partition_key : string) (wants_tablet : bool) (lookup_type : LookupType)
    (replica_visibility : Visibility) (c : MetaCache)
    (rpc' : option LookupRpc) (c' : MetaCache) (log : list effect) :
  Lifetime.run calls
    (Some (LookupRpc.make table partition_key wants_tablet lookup_type replica_visibility)) c
  = Some (rpc', c', log) ->
  (Lifetime.acquisitions log <= 1)%nat
  /\ match rpc' with
     | Some r =>
         Lifetime.releases log = 0%nat
         /\ (rpc_has_permit_ r = true <-> Lifetime.acquisitions log = 1%nat)
     | None =>
         Lifetime.releases log = Lifetime.acquisitions log
         /\ (Lifetime.acquisitions log = 1%nat -> last log = Some PermitReleased)
     end
  /\ (forall rpc c0,
        rpc_has_permit_ rpc = true ->
        LookupRpc.SendRpcSlowPath rpc c0 = (Some rpc, c0, [SendToMaster (LookupRpc.request rpc)]))
  /\ (forall rpc c0,
        rpc_has_permit_ rpc = false -> master_lookup_sem_ c0 <= 0 ->
        LookupRpc.SendRpcSlowPath rpc c0
        = (Some rpc, c0, [DelayedRetry (Status.TimedOut too_many_requests_message)]))
  /\ (forall rpc c0,
        rpc_has_permit_ rpc = false -> 0 < master_lookup_sem_ c0 ->
        LookupRpc.SendRpcSlowPath rpc c0
        = (Some (LookupRpc.with_permit rpc true),
           MetaCache.with_sem c0 (master_lookup_sem_ c0 - 1),
           [PermitAcquired; SendToMaster (LookupRpc.request (LookupRpc.with_permit rpc true))])).
Proof.
  intros Hrun. apply PermitFacts.run_accounted in Hrun.
  destruct Hrun as [Hle Hrun]. simpl in Hle, Hrun. rewrite Nat.add_0_r in Hle.
  split; [exact Hle|]. split.
  - destruct rpc' as [r|].
    + destruct Hrun as [Hrel Hb]. split; [exact Hrel|].
      destruct (rpc_has_permit_ r); simpl in Hb; split; intros; try lia; try reflexivity;
        try discriminate.
    + destruct Hrun as [Hrel Hlast]. rewrite Nat.add_0_r in Hrel, Hlast. split; assumption.
  - split; [|split].
    + intros rpc c0 Hp. unfold LookupRpc.SendRpcSlowPath. rewrite Hp. simpl. now rewrite Hp.
    + intros rpc c0 Hp Hsem. unfold LookupRpc.SendRpcSlowPath, AcquireMasterLookupPermit,
        Semaphore.TryAcquire. rewrite Hp.
      destruct (0 <? master_lookup_sem_ c0) eqn:Hlt; [apply Z.ltb_lt in Hlt; lia|].
      simpl. destruct rpc, c0; simpl in *; subst; reflexivity.
    + intros rpc c0 Hp Hsem. unfold LookupRpc.SendRpcSlowPath, AcquireMasterLookupPermit,
        Semaphore.TryAcquire. rewrite Hp.
      apply Z.ltb_lt in Hsem. rewrite Hsem. reflexivity.
Qed.

(** C8 on a lookup that gets a permit, sends its request, and is deleted when
    the RPC fails: one acquisition, one release, at the end. *)
Lemma LookupRpc_permit_accounting_witness :
  Lifetime.run
    [Lifetime.CallSendRpcSlowPath;
     Lifetime.CallSendRpcCb 7 false (mkStatus kNetworkError "reset") Scenario.response_S1]
    (Some (LookupRpc.make Scenario.table_T "c" true kLowerBound VOTERS)) MetaCache.make
  = Some (None, MetaCache.make, Scenario.log_S7)
  /\ (Lifetime.acquisitions Scenario.log_S7 <= 1)%nat
  /\ Lifetime.releases Scenario.log_S7 = Lifetime.acquisitions Scenario.log_S7
  /\ last Scenario.log_S7 = Some PermitReleased.
Proof.
  assert (Hrun : Lifetime.run
                   [Lifetime.CallSendRpcSlowPath;
                    Lifetime.CallSendRpcCb 7 false (mkStatus kNetworkError "reset")
                      Scenario.response_S1]
                   (Some (LookupRpc.make Scenario.table_T "c" true kLowerBound VOTERS))
                   MetaCache.make
                 = Some (None, MetaCache.make, Scenario.log_S7))
    by (vm_compute; reflexivity).
  destruct (LookupRpc_permit_accounting _ _ _ _ _ _ _ _ _ _ Hrun) as (Hle & [Hrel Hlast] & _).
  split; [exact Hrun|]. split; [exact Hle|]. split; [exact Hrel|].
  apply Hlast. reflexivity.
Defined.

(** ** The range map *)

Module TabletMapFacts.
Import TabletMap.

Lemma FindOrNull_insert_eq k e m : FindOrNull (insert k e m) k = Some e.
Proof.
  induction m as [|[k1 e1] m IH]; simpl.
  - now rewrite decide_True.
  - destruct (k1 <? k)%key eqn:Hlt; simpl.
    + rewrite decide_False by (now apply KeyFacts.ltb_neq). exact IH.
    + now rewrite decide_True.
Qed.

Lemma FindOrNull_insert_ne k e m k' :
  k <> k' -> FindOrNull (insert k e m) k' = FindOrNull m k'.
Proof.
  intros Hne. induction m as [|[k1 e1] m IH]; simpl.
  - now rewrite decide_False.
  - destruct (k1 <? k)%key; simpl.
    + now rewrite IH.
    + now rewrite decide_False.
Qed.

Lemma FindOrNull_filter (p : string -> bool) m k :
  FindOrNull (List.filter (fun kv => p kv.1) m) k = if p k then FindOrNull m k else None.
Proof.
  induction m as [|[k1 e1] m IH]; simpl; [now destruct (p k)|].
  destruct (p k1) eqn:Hp1; simpl.
  - destruct (decide (k1 = k)) as [-> | Hne]; [now rewrite Hp1 | exact IH].
  - rewrite IH. destruct (decide (k1 = k)) as [-> | Hne]; [now rewrite Hp1 | reflexivity].
Qed.

Lemma FindOrNull_update k f m k' :
  FindOrNull (update k f m) k'
  = if decide (k = k') then f <$> FindOrNull m k' else FindOrNull m k'.
Proof.
  induction m as [|[k1 e1] m IH]; simpl; [now destruct (decide (k = k'))|].
  destruct (decide (k1 = k)) as [-> | Hne]; simpl.
  - destruct (decide (k = k')) as [-> | Hne']; [reflexivity|reflexivity].
  - destruct (decide (k1 = k')) as [-> | Hne'].
    + now rewrite decide_False by congruence.
    + exact IH.
Qed.

Lemma erase_Some first last m m' :
  erase first last m = Some m' ->
  forall k, FindOrNull m' k
            = if before first k || negb (before last k) then FindOrNull m k else None.
Proof.
  unfold erase. destruct (existsb _ m); [discriminate|].
  intros H k. inversion H; subst.
  apply (FindOrNull_filter (fun k => before first k || negb (before last k))).
Qed.

Lemma InsertOrDie_Some k e m m' :
  InsertOrDie k e m = Some m' ->
  FindOrNull m' k = Some e /\ forall k', k <> k' -> FindOrNull m' k' = FindOrNull m k'.
Proof.
  unfold InsertOrDie. destruct (FindOrNull m k); [discriminate|].
  intros H. inversion H; subst. split.
  - apply FindOrNull_insert_eq.
  - intros k' Hne. now apply FindOrNull_insert_ne.
Qed.

(** The operations keep the keys in increasing order. *)
Lemma forallb_filter {A} (p q : A -> bool) (l : list A) :
  forallb p l = true -> forallb p (List.filter q l) = true.
Proof.
  induction l as [|a l IH]; simpl; [reflexivity|].
  intros H. apply andb_true_iff in H as [Ha Hl].
  destruct (q a); simpl; [rewrite Ha, IH|]; auto.
Qed.

Lemma sorted_filter (q : string * MetaCacheEntry -> bool) m :
  sorted m = true -> sorted (List.filter q m) = true.
Proof.
  induction m as [|[k1 e1] m IH]; simpl; [reflexivity|].
  intros H. apply andb_true_iff in H as [Hk Hm].
  destruct (q (k1, e1)); simpl; [|now apply IH].
  rewrite (forallb_filter _ q m Hk), IH; auto.
Qed.

Lemma above_all_insert k0 k e (m : TabletMap) :
  forallb (fun kv => (k0 <? kv.1)%key) m = true -> (k0 <? k)%key = true ->
  forallb (fun kv => (k0 <? kv.1)%key) (insert k e m) = true.
Proof.
  intros Hm Hk. induction m as [|[k1 e1] m IH]; simpl in *.
  - now rewrite Hk.
  - apply andb_true_iff in Hm as [H1 Hm].
    destruct (k1 <? k)%key; simpl; [rewrite H1, IH | rewrite Hk, H1, Hm]; auto.
Qed.

Lemma above_all_weaken k k1 (m : TabletMap) :
  (k <? k1)%key = true ->
  forallb (fun kv => (k1 <? kv.1)%key) m = true ->
  forallb (fun kv => (k <? kv.1)%key) m = true.
Proof.
  intros Hk. induction m as [|[k2 e2] m IH]; simpl; [reflexivity|].
  intros H. apply andb_true_iff in H as [H2 Hm].
  now rewrite (KeyFacts.ltb_trans _ _ _ Hk H2), IH.
Qed.

Lemma sorted_insert k e m :
  sorted m = true -> FindOrNull m k = None -> sorted (insert k e m) = true.
Proof.
  induction m as [|[k1 e1] m IH]; simpl; [reflexivity|].
  intros H Hfind. apply andb_true_iff in H as [Hk1 Hm].
  destruct (decide (k1 = k)) as [Heq | Hne]; [discriminate|].
  destruct (k1 <? k)%key eqn:Hlt; simpl.
  - now rewrite (above_all_insert k1 k e m Hk1 Hlt), IH.
  - assert (Hk : (k <? k1)%key = true).
    { apply KeyFacts.leb_neq_ltb; [|congruence].
      rewrite KeyFacts.leb_ltb, Hlt. reflexivity. }
    now rewrite Hk, (above_all_weaken k k1 m Hk Hk1), Hk1, Hm.
Qed.

Lemma above_all_update k0 k f (m : TabletMap) :
  forallb (fun kv => (k0 <? kv.1)%key) (update k f m)
  = forallb (fun kv => (k0 <? kv.1)%key) m.
Proof.
  induction m as [|[k1 e1] m IH]; simpl; [reflexivity|].
  destruct (decide (k1 = k)); simpl; [reflexivity | now rewrite IH].
Qed.

Lemma sorted_update k f m : sorted (update k f m) = sorted m.
Proof.
  induction m as [|[k1 e1] m IH]; simpl; [reflexivity|].
  destruct (decide (k1 = k)); simpl; [reflexivity|].
  now rewrite above_all_update, IH.
Qed.

Lemma sorted_erase first last m m' :
  erase first last m = Some m' -> sorted m = true -> sorted m' = true.
Proof.
  unfold erase. destruct (existsb _ m); [discriminate|].
  intros H Hs. inversion H; subst. now apply sorted_filter.
Qed.

Lemma sorted_InsertOrDie k e m m' :
  InsertOrDie k e m = Some m' -> sorted m = true -> sorted m' = true.
Proof.
  unfold InsertOrDie. destruct (FindOrNull m k) eqn:Hfind; [discriminate|].
  intros H Hs. inversion H; subst. now apply sorted_insert.
Qed.

End TabletMapFacts.

Module IngestFacts.
Import MetaCache.

Lemma bind_Done {S A B} (m : outcome S A) (k : A -> S -> outcome S B) b st' :
  bind m k = Done b st' -> exists a st1, m = Done a st1 /\ k a st1 = Done b st'.
Proof. destruct m as [a st1| |]; simpl; [eauto | discriminate | discriminate]. Qed.

Lemma lift_map_Done r c u st :
  lift_map r c = Done u st -> r = Some st.2 /\ st.1 = c.
Proof. destruct r; simpl; [|discriminate]. intros H. inversion H; subst. auto. Qed.

(** What [insert_non_covered] does to the lookups of the range map. *)
Lemma insert_non_covered_Done first last exp lower upper st u st' :
  insert_non_covered first last exp lower upper st = Done u st' ->
  st'.1 = st.1
  /\ TabletMap.FindOrNull st'.2 lower = Some (NonCoveredEntry exp lower upper)
  /\ forall k, k <> lower ->
       TabletMap.FindOrNull st'.2 k
       = if TabletMap.before first k || negb (TabletMap.before last k)
         then TabletMap.FindOrNull st.2 k else None.
Proof.
  unfold insert_non_covered.
  destruct (TabletMap.erase first last st.2) as [m|] eqn:Herase; [|discriminate].
  intros H. apply lift_map_Done in H as [Hins Hc].
  apply TabletMapFacts.InsertOrDie_Some in Hins as [Hk Hother].
  split; [exact Hc|]. split; [exact Hk|].
  intros k Hne. rewrite Hother by congruence.
  now apply TabletMapFacts.erase_Some.
Qed.

(** What the two branches for a tablet do to the lookups of the range map:
    they change the key of the tablet and erase from there up to its upper
    bound at most. *)
Lemma refresh_known_tablet_Done exp ts_infos tablet remote st u st' :
  refresh_known_tablet exp ts_infos tablet remote st = Done u st' ->
  forall k, k <> pb_partition_key_start tablet ->
            TabletMap.FindOrNull st'.2 k = TabletMap.FindOrNull st.2 k.
Proof.
  unfold refresh_known_tablet.
  destruct (RemoteTablet.Refresh _ _ _ _) as [[] remote'| |]; try discriminate.
  destruct (TabletMap.FindOrNull st.2 (pb_partition_key_start tablet)) eqn:Hfind.
  - intros H k Hne. inversion H; subst. simpl.
    rewrite TabletMapFacts.FindOrNull_update. now rewrite decide_False by congruence.
  - intros H k Hne. apply lift_map_Done in H as [Hins _].
    apply TabletMapFacts.InsertOrDie_Some in Hins as [_ Hother]. now apply Hother.
Qed.

Lemma insert_new_tablet_Done exp ts_infos tablet st u st' :
  insert_new_tablet exp ts_infos tablet st = Done u st' ->
  forall k, k <> pb_partition_key_start tablet ->
            TabletMap.FindOrNull st'.2 k
            = if (k <? pb_partition_key_start tablet)%key
                 || negb (Key.empty (pb_partition_key_end tablet))
                    && negb (k <? pb_partition_key_end tablet)%key
              then TabletMap.FindOrNull st.2 k else None.
Proof.
  unfold insert_new_tablet.
  destruct (TabletMap.erase _ _ st.2) as [m|] eqn:Herase; [|discriminate].
  destruct (RemoteTablet.Refresh _ _ _ _) as [[] remote'| |]; try discriminate.
  intros H k Hne. apply lift_map_Done in H as [Hins _].
  apply TabletMapFacts.InsertOrDie_Some in Hins as [_ Hother].
  rewrite Hother by congruence.
  rewrite (TabletMapFacts.erase_Some _ _ _ _ Herase).
  destruct (Key.empty (pb_partition_key_end tablet)); simpl; [|reflexivity].
  now rewrite orb_false_r.
Qed.

Lemma last_cons {A} (l : list A) : forall a d, List.last (a :: l) d = List.last l a.
Proof.
  induction l as [|b l IH]; intros a d; [reflexivity|].
  change (List.last (a :: b :: l) d) with (List.last (b :: l) d).
  now rewrite !IH.
Qed.

Lemma process_tablets_last exp ts_infos tablets : forall last_upper st lu st',
  process_tablets exp ts_infos tablets last_upper st = Done lu st' ->
  lu = List.last (map pb_partition_key_end tablets) last_upper.
Proof.
  induction tablets as [|tablet tablets IH]; intros last_upper st lu st' H.
  - simpl in H. now inversion H.
  - cbn [process_tablets] in H. apply bind_Done in H as (lu1 & st1 & H1 & H2).
    unfold process_tablet in H1.
    apply bind_Done in H1 as (u1 & st0 & _ & H1).
    apply bind_Done in H1 as (u2 & st0' & _ & H1). inversion H1; subst.
    apply IH in H2. rewrite H2. cbn [map]. now rewrite last_cons.
Qed.

(** A tablet that lies below a key leaves the entry under the key alone. *)
Lemma process_tablet_frame exp ts_infos tablet last_upper st lu st' k :
  process_tablet exp ts_infos tablet last_upper st = Done lu st' ->
  Known.below k tablet ->
  TabletMap.FindOrNull st'.2 k = TabletMap.FindOrNull st.2 k.
Proof.
  intros H (Hlower & Hne & Hupper). unfold process_tablet in H.
  apply bind_Done in H as (u1 & st1 & Hgap & H).
  apply bind_Done in H as (u2 & st2 & Htab & H). inversion H; subst; clear H.
  pose proof (KeyFacts.ltb_neq _ _ Hlower) as Hk.
  assert (Hkl : (k <? pb_partition_key_start tablet)%key = false).
  { rewrite KeyFacts.ltb_leb, (KeyFacts.ltb_leb_incl _ _ Hlower). reflexivity. }
  assert (Hg : TabletMap.FindOrNull st1.2 k = TabletMap.FindOrNull st.2 k).
  { destruct (last_upper <? pb_partition_key_start tablet)%key eqn:Hlt.
    - apply insert_non_covered_Done in Hgap as (_ & _ & Hother).
      rewrite Hother.
      + cbn [TabletMap.before]. rewrite Hkl, orb_true_r. reflexivity.
      + intros ->. pose proof (KeyFacts.ltb_trans _ _ _ Hlt Hlower) as Hc.
        rewrite KeyFacts.ltb_irrefl in Hc. discriminate.
    - now inversion Hgap. }
  rewrite <- Hg.
  destruct (tablets_by_id_ st1.1 !! pb_tablet_id tablet) as [remote|].
  - apply (refresh_known_tablet_Done _ _ _ _ _ _ _ Htab). congruence.
  - rewrite (insert_new_tablet_Done _ _ _ _ _ _ Htab) by congruence.
    rewrite Hkl, Hne. cbn [orb negb andb].
    rewrite KeyFacts.ltb_leb, Hupper. reflexivity.
Qed.

Lemma process_tablets_frame exp ts_infos tablets k : forall last_upper st lu st',
  process_tablets exp ts_infos tablets last_upper st = Done lu st' ->
  Forall (Known.below k) tablets ->
  TabletMap.FindOrNull st'.2 k = TabletMap.FindOrNull st.2 k.
Proof.
  induction tablets as [|tablet tablets IH]; intros last_upper st lu st' H Hall.
  - simpl in H. now inversion H.
  - cbn [process_tablets] in H. apply bind_Done in H as (lu1 & st1 & H1 & H2).
    inversion Hall as [|? ? Hb Hall']; subst.
    rewrite (IH _ _ _ _ H2 Hall'). now apply (process_tablet_frame _ _ _ _ _ _ _ _ H1).
Qed.




(** The steps of an ingestion that returned OK. *)
Lemma ProcessGetTableLocationsResponse_Done now table key exact resp max c e c' first rest :
  tablet_locations resp = first :: rest ->
  ProcessGetTableLocationsResponse now table key exact resp max c = Done e c' ->
  let exp := now + FromMilliseconds (ttl_millis resp) in
  let st := (c, default [] (tablets_by_table_and_key_ c !! table_id table)) in
  exists lu st2 st3,
    ingest_tablets exp key resp first st = Done lu st2
    /\ trailing_non_covered exp (length (tablet_locations resp)) max lu st2 = Done tt st3
    /\ tablets_by_table_and_key_ c' !! table_id table = Some st3.2
    /\ discovered_entry key exact st3.2 = Some e.
Proof.
  intros Hresp H exp st. unfold ProcessGetTableLocationsResponse in H.
  rewrite Hresp in H. cbn iota in H. fold exp in H. fold st in H.
  destruct (ingest_locations exp key resp max first st) as [[] st3| |] eqn:Hing;
    try discriminate.
  destruct (discovered_entry key exact st3.2) as [e0|] eqn:Hd; [|discriminate].
  inversion H; subst. unfold ingest_locations in Hing.
  apply bind_Done in Hing as (lu & st2 & H1 & H2).
  exists lu, st2, st3. repeat split; try assumption.
  unfold store_map. simpl. apply lookup_insert_eq.
Qed.

Lemma ingest_tablets_Done exp key resp first st lu st2 :
  ingest_tablets exp key resp first st = Done lu st2 ->
  exists c1 st1,
    initial_non_covered exp key (pb_partition_key_start first) (c1, st.2) = Done tt st1
    /\ process_tablets exp (ts_infos resp) (tablet_locations resp)
         (pb_partition_key_start first) st1 = Done lu st2.
Proof.
  unfold ingest_tablets. destruct (update_servers _ st.1) as [c1|]; [|discriminate].
  intros H. apply bind_Done in H as ([] & st1 & H1 & H2). eauto.
Qed.

(** The ingestion keeps the keys of the range map in increasing order. *)
Lemma bind_sorted {A B} (m : outcome ingest A) (k : A -> ingest -> outcome ingest B) :
  leaves_sorted m ->
  (forall a st, TabletMap.sorted st.2 = true -> leaves_sorted (k a st)) ->
  leaves_sorted (bind m k).
Proof. destruct m as [a st|s st|]; simpl; auto. Qed.

Lemma lift_map_sorted r c :
  (forall m, r = Some m -> TabletMap.sorted m = true) -> leaves_sorted (lift_map r c).
Proof. destruct r as [m|]; simpl; auto. Qed.

Lemma insert_non_covered_sorted first last exp lower upper st :
  TabletMap.sorted st.2 = true ->
  leaves_sorted (insert_non_covered first last exp lower upper st).
Proof.
  intros Hs. unfold insert_non_covered.
  destruct (TabletMap.erase first last st.2) as [m|] eqn:Herase; [|exact I].
  apply lift_map_sorted. intros m' Hins.
  apply (TabletMapFacts.sorted_InsertOrDie _ _ _ _ Hins).
  now apply (TabletMapFacts.sorted_erase _ _ _ _ Herase).
Qed.

Lemma refresh_known_tablet_sorted exp ts_infos tablet remote st :
  TabletMap.sorted st.2 = true ->
  leaves_sorted (refresh_known_tablet exp ts_infos tablet remote st).
Proof.
  intros Hs. unfold refresh_known_tablet.
  destruct (RemoteTablet.Refresh _ _ _ _) as [[] remote'|s t|]; simpl; auto.
  destruct (TabletMap.FindOrNull st.2 (pb_partition_key_start tablet)).
  - simpl. now rewrite TabletMapFacts.sorted_update.
  - apply lift_map_sorted. intros m' Hins.
    now apply (TabletMapFacts.sorted_InsertOrDie _ _ _ _ Hins).
Qed.

Lemma insert_new_tablet_sorted exp ts_infos tablet st :
  TabletMap.sorted st.2 = true ->
  leaves_sorted (insert_new_tablet exp ts_infos tablet st).
Proof.
  intros Hs. unfold insert_new_tablet.
  destruct (TabletMap.erase _ _ st.2) as [m|] eqn:Herase; [|exact I].
  pose proof (TabletMapFacts.sorted_erase _ _ _ _ Herase Hs) as Hm.
  destruct (RemoteTablet.Refresh _ _ _ _) as [[] remote'|s t|]; simpl; auto.
  apply lift_map_sorted. intros m' Hins.
  now apply (TabletMapFacts.sorted_InsertOrDie _ _ _ _ Hins).
Qed.

Lemma process_tablet_sorted exp ts_infos tablet last_upper st :
  TabletMap.sorted st.2 = true ->
  leaves_sorted (process_tablet exp ts_infos tablet last_upper st).
Proof.
  intros Hs. unfold process_tablet. apply bind_sorted.
  - destruct (last_upper <? pb_partition_key_start tablet)%key;
      [now apply insert_non_covered_sorted | exact Hs].
  - intros _ st1 Hs1. apply bind_sorted; [|auto].
    destruct (tablets_by_id_ st1.1 !! pb_tablet_id tablet);
      [now apply refresh_known_tablet_sorted | now apply insert_new_tablet_sorted].
Qed.

Lemma process_tablets_sorted exp ts_infos tablets : forall last_upper st,
  TabletMap.sorted st.2 = true ->
  leaves_sorted (process_tablets exp ts_infos tablets last_upper st).
Proof.
  induction tablets as [|tablet tablets IH]; intros last_upper st Hs; simpl; [exact Hs|].
  apply bind_sorted; [now apply process_tablet_sorted|].
  intros lu st1 Hs1. now apply IH.
Qed.

Lemma ingest_locations_sorted exp key resp max first st :
  TabletMap.sorted st.2 = true ->
  leaves_sorted (ingest_locations exp key resp max first st).
Proof.
  intros Hs. unfold ingest_locations, ingest_tablets. apply bind_sorted.
  - destruct (update_servers _ st.1) as [c1|]; [|exact I].
    apply bind_sorted.
    + unfold initial_non_covered.
      destruct (key <? pb_partition_key_start first)%key;
        [now apply insert_non_covered_sorted | exact Hs].
    + intros _ st1 Hs1. now apply process_tablets_sorted.
  - intros lu st2 Hs2. unfold trailing_non_covered.
    destruct (negb (Key.empty lu) && (Z.of_nat (length (tablet_locations resp)) <? max));
      [now apply insert_non_covered_sorted | exact Hs2].
Qed.

Lemma ProcessGetTableLocationsResponse_sorted now table key exact resp max c :
  TabletMap.sorted (default [] (tablets_by_table_and_key_ c !! table_id table)) = true ->
  match ProcessGetTableLocationsResponse now table key exact resp max c with
  | Done _ c' | Fail _ c' =>
      exists m', tablets_by_table_and_key_ c' !! table_id table = Some m'
                 /\ TabletMap.sorted m' = true
  | Abort => True
  end.
Proof.
  intros Hs. unfold ProcessGetTableLocationsResponse.
  set (st := (c, default [] (tablets_by_table_and_key_ c !! table_id table))).
  assert (Hout : leaves_sorted
            match tablet_locations resp with
            | [] => ingest_empty (now + FromMilliseconds (ttl_millis resp)) st
            | first :: _ =>
                ingest_locations (now + FromMilliseconds (ttl_millis resp)) key resp max first st
            end).
  { destruct (tablet_locations resp) as [|first rest].
    - apply lift_map_sorted. intros m' Hins.
      now apply (TabletMapFacts.sorted_InsertOrDie _ _ _ _ Hins).
    - now apply ingest_locations_sorted. }
  destruct (match tablet_locations resp with [] => _ | _ :: _ => _ end) as [[] st'|s st'|];
    simpl in Hout; [|exists st'.2; split; [apply lookup_insert_eq | exact Hout] | exact I].
  destruct (discovered_entry key exact st'.2); [|exact I].
  exists st'.2. split; [apply lookup_insert_eq | exact Hout].
Qed.

End IngestFacts.

Module ResponseFacts.
Import MetaCache.

Lemma last_map {A B} (f : A -> B) (l : list A) : forall a,
  List.last (map f l) (f a) = f (List.last l a).
Proof.
  induction l as [|b l IH]; intros a; [reflexivity|].
  cbn [map]. now rewrite !IngestFacts.last_cons, IH.
Qed.

Lemma ingest_tablets_last exp key resp first rest st lu st2 :
  tablet_locations resp = first :: rest ->
  ingest_tablets exp key resp first st = Done lu st2 ->
  lu = pb_partition_key_end (List.last rest first).
Proof.
  intros Hresp H. apply IngestFacts.ingest_tablets_Done in H as (c1 & st1 & _ & H).
  apply IngestFacts.process_tablets_last in H. rewrite H, Hresp.
  cbn [map]. now rewrite IngestFacts.last_cons, last_map.
Qed.

Lemma initial_non_covered_frame exp key first_lower st u st1 k :
  initial_non_covered exp key first_lower st = Done u st1 ->
  (first_lower <? k)%key = true ->
  TabletMap.FindOrNull st1.2 k = TabletMap.FindOrNull st.2 k.
Proof.
  unfold initial_non_covered. intros H Hlt.
  destruct (key <? first_lower)%key; [|now inversion H].
  apply IngestFacts.insert_non_covered_Done in H as (_ & _ & Hother).
  rewrite Hother.
  - cbn [TabletMap.before orb].
    now rewrite KeyFacts.ltb_leb, (KeyFacts.ltb_leb_incl _ _ Hlt).
  - intros ->. rewrite KeyFacts.ltb_empty_r in Hlt. discriminate.
Qed.


End ResponseFacts.

(** ** The scenarios of the specification, run on the model *)

Module ScenarioChecks.
Import Scenario.

(** S1: the range map after the first lookup. *)
Example S1_map : tablets_by_table_and_key_ cache_S1 !! "T" = Some map_S1.
Proof. vm_compute. reflexivity. Qed.

(** S1: the lookup of ["c"] in range mode jumps over the initial non-covered
    range to tablet [B]. *)
Example S1_range_lookup :
  FastPathLookup.DoFastPathLookup 5 cache_S1 table_T "c" kLowerBound
  = Some (mkFastPath Status.OK "c1" (Some "B")).
Proof. vm_compute. reflexivity. Qed.

(** S2: the point lookup of ["c4"] is NotFound, with the range in the
    message. *)
Example S2_point_lookup :
  FastPathLookup.DoFastPathLookup 5 cache_S1 table_T "c4" kPoint
  = Some (mkFastPath
            (Status.NotFound
               ("No tablet covering the requested range partition: "
                +:+ "NonCoveredRange { lower_bound: (c3), upper_bound: (c5), ttl: 59999ms }"))
            "c4" None).
Proof. vm_compute. reflexivity. Qed.

(** S3: [r1] is picked; once it is marked as not the leader [r2] is picked,
    is the leader in the cache, and is picked again. *)
Example S3_sticky_leader :
  (MetaCacheServerPicker.run
     [MetaCacheServerPicker.CallPickLeader;
      MetaCacheServerPicker.CallMarkReplicaNotLeader "r1";
      MetaCacheServerPicker.CallPickLeader;
      MetaCacheServerPicker.CallPickLeader]
     (mkMetaCacheServerPicker (Some table_T) tablet_B ∅)).2
  = [InitProxy "r1"; InitProxy "r2"; InitProxy "r2"].
Proof. vm_compute. reflexivity. Qed.

(** S4: with all three replicas marked the picker asks for a lookup. *)
Example S4_exhaustion :
  (MetaCacheServerPicker.PickLeader
     (mkMetaCacheServerPicker (Some table_T) tablet_B {[ "r1"; "r2"; "r3" ]})).2
  = ForceLookupByKey "c1".
Proof. vm_compute. reflexivity. Qed.

(** S5: two tablets of two asked for: no trailing non-covered range, and the
    lookup of ["c"] has to go to the master. *)
Example S5_map :
  tablets_by_table_and_key_ cache_S5 !! "T"
  = Some [ ("a", TabletEntry 60000000000 "A" "a" "b");
           ("b", TabletEntry 60000000000 "B" "b" "c") ].
Proof. vm_compute. reflexivity. Qed.

Example S5_next_lookup :
  FastPathLookup.DoFastPathLookup 5 cache_S5 table_T "c" kPoint
  = Some (mkFastPath (Status.Incomplete "") "c" None).
Proof. vm_compute. reflexivity. Qed.

(** S6: an empty table. *)
Example S6_map :
  tablets_by_table_and_key_
    (cache_after (MetaCache.ProcessGetTableLocationsResponse 0 table_T "k" true
                    (response 60000 []) kFetchTabletsPerPointLookup cache_S1)) !! "T"
  = Some [ ("", NonCoveredEntry 60000000000 "" "") ].
Proof. vm_compute. reflexivity. Qed.

End ScenarioChecks.

(** * Further properties *)

(** ** The replica list *)

Module ReplicaFacts.
Import RemoteTablet Replicas.

Lemma first_leader_in rs l :
  first_leader rs = Some l ->
  exists r, r ∈ rs /\ ts r = l /\ role r = LEADER /\ failed r = false.
Proof.
  induction rs as [|r rs IH]; simpl; [discriminate|].
  destruct (negb (failed r) && bool_decide (role r = LEADER)) eqn:Hc.
  - intros H. inversion H; subst. apply andb_true_iff in Hc as [Hf Hl].
    apply negb_true_iff in Hf. apply bool_decide_eq_true in Hl.
    exists r. split; [apply list_elem_of_here | auto].
  - intros H. destruct (IH H) as (r0 & Hin & Hr0). exists r0.
    split; [now apply list_elem_of_further | exact Hr0].
Qed.

Lemma servers_of_alive (rs : list RemoteReplica) x :
  x ∈ map ts (filter (fun r => failed r = false) rs)
  <-> exists r, r ∈ rs /\ ts r = x /\ failed r = false.
Proof.
  rewrite list_elem_of_fmap. split.
  - intros (r & -> & Hin). apply list_elem_of_filter in Hin as [Hf Hin]. eauto.
  - intros (r & Hin & <- & Hf). exists r. split; [reflexivity|].
    apply list_elem_of_filter. auto.
Qed.

Lemma fail_ts server rep : ts (fail server rep) = ts rep.
Proof. unfold fail. now destruct (decide (ts rep = server)). Qed.

Lemma fail_role server rep : role (fail server rep) = role rep.
Proof. unfold fail. now destruct (decide (ts rep = server)). Qed.

Lemma fail_failed server rep :
  failed (fail server rep) = if decide (ts rep = server) then true else failed rep.
Proof. unfold fail. now destruct (decide (ts rep = server)). Qed.

(** The first alive Leader of a list in which the Leaders are the replicas of
    one server that has an alive replica. *)
Lemma first_leader_only rs x :
  (forall r, r ∈ rs -> (role r = LEADER <-> ts r = x)) ->
  (exists r, r ∈ rs /\ ts r = x /\ failed r = false) ->
  first_leader rs = Some x.
Proof.
  induction rs as [|r rs IH]; intros Hrole (r0 & Hin & Hts & Hf).
  - now apply not_elem_of_nil in Hin.
  - simpl. destruct (negb (failed r) && bool_decide (role r = LEADER)) eqn:Hc.
    + apply andb_true_iff in Hc as [_ Hl]. apply bool_decide_eq_true in Hl.
      f_equal. apply (Hrole r); [apply list_elem_of_here | exact Hl].
    + apply IH.
      * intros r1 Hin1. apply Hrole. now apply list_elem_of_further.
      * apply elem_of_cons in Hin as [-> | Hin]; [|eauto].
        rewrite Hf in Hc. simpl in Hc. apply bool_decide_eq_false in Hc.
        exfalso. apply Hc. apply (Hrole r); [apply list_elem_of_here | exact Hts].
Qed.

Lemma mark_follower_ts x r : ts (mark_follower x r) = ts r.
Proof. unfold mark_follower. now destruct (decide (ts r = x)). Qed.

Lemma mark_follower_failed x r : failed (mark_follower x r) = failed r.
Proof. unfold mark_follower. now destruct (decide (ts r = x)). Qed.

Lemma mark_follower_role_eq x r :
  role (mark_follower x r) = if decide (ts r = x) then FOLLOWER else role r.
Proof. unfold mark_follower. now destruct (decide (ts r = x)). Qed.

Lemma first_leader_mark_follower rs x y :
  y <> x -> first_leader rs = Some y ->
  first_leader (map (mark_follower x) rs) = Some y.
Proof.
  intros Hne. induction rs as [|r rs IH]; simpl; [discriminate|].
  rewrite mark_follower_ts, mark_follower_failed, mark_follower_role_eq.
  destruct (decide (ts r = x)) as [Hx | Hx].
  - change (bool_decide (FOLLOWER = LEADER)) with false. rewrite andb_false_r.
    destruct (negb (failed r) && bool_decide (role r = LEADER)); [|exact IH].
    intros H. inversion H; subst. contradiction.
  - destruct (negb (failed r) && bool_decide (role r = LEADER)); [auto | exact IH].
Qed.

Lemma first_leader_mark_follower_other rs x :
  first_leader (map (mark_follower x) rs) <> Some x.
Proof.
  induction rs as [|r rs IH]; simpl; [discriminate|].
  rewrite mark_follower_ts, mark_follower_failed, mark_follower_role_eq.
  destruct (decide (ts r = x)) as [Hx | Hx].
  - change (bool_decide (FOLLOWER = LEADER)) with false. now rewrite andb_false_r.
  - destruct (negb (failed r) && bool_decide (role r = LEADER)); [congruence | exact IH].
Qed.

Lemma count_failed_acc rs : forall n,
  count_failed rs n = (n + count_failed rs 0)%nat.
Proof.
  induction rs as [|r rs IH]; intros n; simpl; [lia|].
  rewrite (IH (if failed r then S n else n)), (IH (if failed r then 1%nat else 0%nat)).
  destruct (failed r); lia.
Qed.

Lemma count_failed_alive rs :
  (count_failed rs 0 + length (filter (fun r => failed r = false) rs) = length rs)%nat.
Proof.
  induction rs as [|r rs IH]; simpl; [reflexivity|].
  rewrite count_failed_acc, filter_cons.
  destruct (failed r) eqn:Hf.
  - rewrite decide_False by discriminate. simpl. lia.
  - rewrite decide_True by reflexivity. simpl. lia.
Qed.

Lemma count_failed_fail server rs :
  (count_failed rs 0 <= count_failed (map (fail server) rs) 0)%nat.
Proof.
  induction rs as [|r rs IH]; simpl; [lia|].
  rewrite (count_failed_acc rs), (count_failed_acc (map (fail server) rs)), fail_failed.
  destruct (decide (ts r = server)), (failed r); lia.
Qed.

Lemma servers_map_same (f : RemoteReplica -> RemoteReplica) rs :
  (forall r, ts (f r) = ts r) -> (forall r, failed (f r) = failed r) ->
  map ts (filter (fun r => failed r = false) (map f rs))
  = map ts (filter (fun r => failed r = false) rs).
Proof.
  intros Hts Hf. induction rs as [|r rs IH]; [reflexivity|].
  cbn [map]. rewrite !filter_cons, Hf.
  destruct (decide (failed r = false)); cbn [map]; now rewrite ?Hts, IH.
Qed.

Lemma count_failed_map_same (f : RemoteReplica -> RemoteReplica) rs :
  (forall r, failed (f r) = failed r) ->
  forall n, count_failed (map f rs) n = count_failed rs n.
Proof.
  intros Hf. induction rs as [|r rs IH]; intros n; [reflexivity|].
  cbn [map count_failed]. now rewrite Hf, IH.
Qed.

Lemma first_leader_none rs :
  (forall r, r ∈ rs -> failed r = true \/ role r <> LEADER) -> first_leader rs = None.
Proof.
  induction rs as [|r rs IH]; intros H; [reflexivity|]. simpl.
  destruct (H r ltac:(left)) as [Hf | Hr].
  - rewrite Hf. simpl. apply IH. intros r' Hin. apply H. now right.
  - rewrite (bool_decide_eq_false_2 _ Hr), andb_false_r.
    apply IH. intros r' Hin. apply H. now right.
Qed.

Lemma first_leader_Some_iff rs :
  is_Some (first_leader rs) <-> exists r, r ∈ rs /\ role r = LEADER /\ failed r = false.
Proof.
  split.
  - intros [l Hl]. apply first_leader_in in Hl as (r & Hin & _ & Hr & Hf). eauto.
  - intros (r & Hin & Hr & Hf). destruct (first_leader rs) eqn:Hfl; [eauto|].
    exfalso. induction rs as [|r0 rs IH]; [inversion Hin|].
    simpl in Hfl.
    destruct (negb (failed r0) && bool_decide (role r0 = LEADER)) eqn:Hc; [discriminate|].
    apply elem_of_cons in Hin as [-> | Hin]; [|auto].
    rewrite Hf, (bool_decide_eq_true_2 _ Hr) in Hc. discriminate.
Qed.

Lemma first_leader_fail_other x rs : first_leader (map (fail x) rs) <> Some x.
Proof.
  intros Hl. apply first_leader_in in Hl as (r & Hin & Hts & _ & Hf).
  apply list_elem_of_fmap in Hin as (r0 & -> & _).
  rewrite fail_failed in Hf. rewrite fail_ts in Hts.
  now rewrite decide_True in Hf by exact Hts.
Qed.

Lemma servers_fail x rs y :
  y ∈ map ts (filter (fun r => failed r = false) (map (fail x) rs))
  <-> y <> x /\ y ∈ map ts (filter (fun r => failed r = false) rs).
Proof.
  rewrite !servers_of_alive. split.
  - intros (r & Hin & Hts & Hf). apply list_elem_of_fmap in Hin as (r0 & -> & Hin0).
    rewrite fail_ts in Hts. rewrite fail_failed in Hf.
    destruct (decide (ts r0 = x)); [discriminate|]. split; [congruence | eauto].
  - intros (Hne & r & Hin & Hts & Hf). exists (fail x r).
    split; [apply list_elem_of_fmap; eauto|].
    rewrite fail_ts, fail_failed. rewrite decide_False by congruence. auto.
Qed.

Lemma no_leader_mark_follower x rs :
  filter (fun r => role r = LEADER) rs = [] ->
  first_leader (map (mark_follower x) rs) = None.
Proof.
  intros Hnone. apply first_leader_none. intros r Hin. right.
  apply list_elem_of_fmap in Hin as (r0 & -> & Hin0).
  rewrite mark_follower_role_eq. destruct (decide (ts r0 = x)); [discriminate|].
  intros Hr. assert (Hel : r0 ∈ filter (fun r => role r = LEADER) rs)
    by (apply list_elem_of_filter; auto).
  rewrite Hnone in Hel. inversion Hel.
Qed.

(** With at most one replica in the role Leader, the tablet has no leader
    once its leader is marked as a follower. *)
Lemma single_leader_mark_follower x rs :
  (length (filter (fun r => role r = LEADER) rs) <= 1)%nat ->
  first_leader rs = Some x ->
  first_leader (map (mark_follower x) rs) = None.
Proof.
  induction rs as [|r rs IH]; [discriminate|].
  rewrite filter_cons. cbn [first_leader map].
  rewrite mark_follower_failed, mark_follower_role_eq.
  destruct (decide (role r = LEADER)) as [Hr | Hr].
  - cbn [length]. intros Hlen.
    assert (Hrest : filter (fun r => role r = LEADER) rs = []).
    { destruct (filter (fun r => role r = LEADER) rs); [reflexivity | simpl in Hlen; lia]. }
    rewrite (bool_decide_eq_true_2 _ Hr), andb_true_r.
    destruct (failed r) eqn:Hf; cbn [negb].
    + intros Hl. apply first_leader_in in Hl as (r1 & Hin & _ & Hr1 & _).
      assert (Hel : r1 ∈ filter (fun r => role r = LEADER) rs)
        by (apply list_elem_of_filter; auto).
      rewrite Hrest in Hel. inversion Hel.
    + intros Hl. inversion Hl; subst x. rewrite decide_True by reflexivity.
      change (bool_decide (FOLLOWER = LEADER)) with false. cbn [andb].
      now apply no_leader_mark_follower.
  - intros Hlen. rewrite (bool_decide_eq_false_2 _ Hr), andb_false_r. intros Hl.
    destruct (decide (ts r = x)).
    + change (bool_decide (FOLLOWER = LEADER)) with false. rewrite andb_false_r. now apply IH.
    + rewrite (bool_decide_eq_false_2 _ Hr), andb_false_r. now apply IH.
Qed.

End ReplicaFacts.

Module RefreshFacts.
Import RemoteTablet Replicas.

Lemma add_deprecated_Done tservers rs : forall acc out u,
  add_deprecated tservers rs acc = Done out u ->
  exists new, out = (acc ++ new)%list
              /\ map role new = map dr_role rs
              /\ Forall (fresh_replica tservers) new.
Proof.
  induction rs as [|r rs IH]; intros acc out u; simpl.
  - intros H. inversion H; subst. exists []. now rewrite app_nil_r.
  - destruct (tservers !! permanent_uuid (dr_ts_info r)) as [p|] eqn:Hp; [|discriminate].
    intros H. apply IH in H as (new & -> & Hroles & Hall).
    exists ({| ts := p; role := dr_role r; failed := false |} :: new).
    rewrite <- app_assoc. split; [reflexivity|]. split; [simpl; now rewrite Hroles|].
    constructor; [|exact Hall]. split; [reflexivity | eauto].
Qed.

Lemma add_interned_Done tservers dict rs : forall acc out u,
  add_interned tservers dict rs acc = Done out u ->
  exists new, out = (acc ++ new)%list
              /\ map role new = map ir_role rs
              /\ Forall (fresh_replica tservers) new.
Proof.
  induction rs as [|r rs IH]; intros acc out u; simpl.
  - intros H. inversion H; subst. exists []. now rewrite app_nil_r.
  - destruct (N.of_nat (length dict) <=? ts_info_idx r)%N; [discriminate|].
    destruct (dict !! N.to_nat (ts_info_idx r)) as [info|]; [|discriminate].
    destruct (tservers !! permanent_uuid info) as [p|] eqn:Hp; [|discriminate].
    intros H. apply IH in H as (new & -> & Hroles & Hall).
    exists ({| ts := p; role := ir_role r; failed := false |} :: new).
    rewrite <- app_assoc. split; [reflexivity|]. split; [simpl; now rewrite Hroles|].
    constructor; [|exact Hall]. split; [reflexivity | eauto].
Qed.

Lemma Refresh_Done tservers locs_pb dict t u t' :
  Refresh tservers locs_pb dict t = Done u t' ->
  map role (replicas_ t')
  = (map dr_role (deprecated_replicas locs_pb) ++ map ir_role (interned_replicas locs_pb))%list
  /\ Forall (fresh_replica tservers) (replicas_ t')
  /\ stale_ t' = false
  /\ tablet_id_ t' = tablet_id_ t
  /\ partition_key_start t' = partition_key_start t
  /\ partition_key_end t' = partition_key_end t.
Proof.
  unfold Refresh.
  destruct (add_deprecated _ _ _) as [rs1 []| |] eqn:H1; try discriminate.
  destruct (add_interned _ _ _ _) as [rs2 []| |] eqn:H2; try discriminate.
  intros H. inversion H; subst. simpl.
  apply add_deprecated_Done in H1 as (new1 & -> & Hr1 & Ha1).
  apply add_interned_Done in H2 as (new2 & -> & Hr2 & Ha2). simpl.
  rewrite map_app, Hr1, Hr2. repeat split; try reflexivity.
  apply Forall_app. split; assumption.
Qed.

Lemma count_failed_fresh tservers rs :
  Forall (fresh_replica tservers) rs -> Replicas.count_failed rs 0 = 0%nat.
Proof.
  induction 1 as [|r rs [Hf _] _ IH]; simpl; [reflexivity|]. now rewrite Hf.
Qed.

Lemma filter_alive_fresh tservers rs :
  Forall (fresh_replica tservers) rs -> filter (fun r => failed r = false) rs = rs.
Proof.
  induction 1 as [|r rs [Hf _] _ IH]; [reflexivity|].
  rewrite filter_cons, decide_True by exact Hf. now rewrite IH.
Qed.

Lemma add_deprecated_servers tservers rs : forall acc out u,
  add_deprecated tservers rs acc = Done out u ->
  map (fun r => Some (ts r)) out
  = (map (fun r => Some (ts r)) acc
     ++ map (fun r => tservers !! permanent_uuid (dr_ts_info r)) rs)%list.
Proof.
  induction rs as [|r rs IH]; intros acc out u; simpl.
  - intros H. inversion H; subst. now rewrite app_nil_r.
  - destruct (tservers !! permanent_uuid (dr_ts_info r)) as [p|] eqn:Hp; [|discriminate].
    intros H. rewrite (IH _ _ _ H), map_app, <- app_assoc. reflexivity.
Qed.

Lemma add_interned_servers tservers dict rs : forall acc out u,
  add_interned tservers dict rs acc = Done out u ->
  map (fun r => Some (ts r)) out
  = (map (fun r => Some (ts r)) acc
     ++ map (fun r => match dict !! N.to_nat (ts_info_idx r) with
                      | Some ts_info => tservers !! permanent_uuid ts_info
                      | None => None
                      end) rs)%list.
Proof.
  induction rs as [|r rs IH]; intros acc out u; simpl.
  - intros H. inversion H; subst. now rewrite app_nil_r.
  - destruct (N.of_nat (length dict) <=? ts_info_idx r)%N; [discriminate|].
    destruct (dict !! N.to_nat (ts_info_idx r)) as [info|]; [|discriminate].
    destruct (tservers !! permanent_uuid info) as [p|] eqn:Hp; [|discriminate].
    intros H. rewrite (IH _ _ _ H), map_app, <- app_assoc. reflexivity.
Qed.

Lemma Refresh_servers tservers locs_pb dict t u t' :
  Refresh tservers locs_pb dict t = Done u t' ->
  map (fun r => Some (ts r)) (replicas_ t') = response_servers tservers dict locs_pb.
Proof.
  unfold Refresh, response_servers.
  destruct (add_deprecated _ _ _) as [rs1 []| |] eqn:H1; try discriminate.
  destruct (add_interned _ _ _ _) as [rs2 []| |] eqn:H2; try discriminate.
  intros H. inversion H; subst. simpl.
  rewrite (add_interned_servers _ _ _ _ _ _ H2), (add_deprecated_servers _ _ _ _ _ H1).
  reflexivity.
Qed.

End RefreshFacts.

(** X1: after [MarkReplicaFailed x] the server [x] is not among the servers
    [GetRemoteTabletServers] returns and is not the leader [LeaderTServer]
    returns; the other servers are returned as before, another server that
    was the leader still is, no replica changes server or role, no failure
    mark is taken back, the stale flag is as it was and the number of failed
    replicas has not gone down. *)
Theorem MarkReplicaFailed_excludes_server (x : ts_ptr) (t : RemoteTablet) :
  let t' := RemoteTablet.MarkReplicaFailed x t in
  (x ∉ RemoteTablet.GetRemoteTabletServers t')
  /\ RemoteTablet.LeaderTServer t' <> Some x
  /\ (forall y, y <> x ->
        (y ∈ RemoteTablet.GetRemoteTabletServers t' <-> y ∈ RemoteTablet.GetRemoteTabletServers t)
        /\ (RemoteTablet.LeaderTServer t = Some y -> RemoteTablet.LeaderTServer t' = Some y))
  /\ (forall (i : nat) r, replicas_ t !! i = Some r ->
        exists r', replicas_ t' !! i = Some r'
                   /\ ts r' = ts r /\ role r' = role r
                   /\ (failed r = true -> failed r' = true)
                   /\ (ts r <> x -> failed r' = failed r))
  /\ stale_ t' = stale_ t
  /\ (Replicas.GetNumFailedReplicas t <= Replicas.GetNumFailedReplicas t')%nat.
Proof.
  cbn zeta.
  change (RemoteTablet.MarkReplicaFailed x t)
    with (RemoteTablet.set_replicas t (map (Replicas.fail x) (replicas_ t)) (stale_ t)).
  unfold RemoteTablet.GetRemoteTabletServers, RemoteTablet.LeaderTServer,
    Replicas.GetNumFailedReplicas.
  cbn [replicas_ stale_ RemoteTablet.set_replicas].
  assert (Hnot : forall l, RemoteTablet.first_leader (map (Replicas.fail x) (replicas_ t)) = Some l ->
                           l <> x).
  { intros l Hl. apply ReplicaFacts.first_leader_in in Hl as (r & Hin & <- & _ & Hf).
    apply list_elem_of_fmap in Hin as (r0 & -> & _).
    rewrite ReplicaFacts.fail_failed in Hf. rewrite ReplicaFacts.fail_ts.
    destruct (decide (ts r0 = x)); [discriminate | assumption]. }
  split; [|split; [|split; [|split; [|split]]]].
  - rewrite ReplicaFacts.servers_of_alive. intros (r & Hin & Hts & Hf).
    apply list_elem_of_fmap in Hin as (r0 & -> & _).
    rewrite ReplicaFacts.fail_ts in Hts. rewrite ReplicaFacts.fail_failed in Hf.
    rewrite decide_True in Hf by exact Hts. discriminate.
  - intros H. now apply (Hnot x H).
  - intros y Hy. split.
    + rewrite !ReplicaFacts.servers_of_alive. split.
      * intros (r & Hin & Hts & Hf). apply list_elem_of_fmap in Hin as (r0 & -> & Hin0).
        rewrite ReplicaFacts.fail_ts in Hts. rewrite ReplicaFacts.fail_failed in Hf.
        exists r0. destruct (decide (ts r0 = x)); [discriminate | auto].
      * intros (r & Hin & Hts & Hf). exists (Replicas.fail x r).
        split; [apply list_elem_of_fmap; eauto|].
        rewrite ReplicaFacts.fail_ts, ReplicaFacts.fail_failed.
        rewrite decide_False by congruence. auto.
    + induction (replicas_ t) as [|r rs IH]; simpl; [discriminate|].
      rewrite ReplicaFacts.fail_ts, ReplicaFacts.fail_role, ReplicaFacts.fail_failed.
      destruct (decide (ts r = x)) as [Hx | Hx].
      * cbn [negb andb].
        destruct (negb (failed r) && bool_decide (role r = LEADER)).
        -- intros H. inversion H; subst. contradiction.
        -- apply IH. intros l Hl. apply (Hnot l). simpl.
           rewrite ReplicaFacts.fail_failed, decide_True by exact Hx. exact Hl.
      * destruct (negb (failed r) && bool_decide (role r = LEADER)) eqn:Hc; [auto|].
        apply IH. intros l Hl. apply (Hnot l). simpl.
        rewrite ReplicaFacts.fail_ts, ReplicaFacts.fail_role, ReplicaFacts.fail_failed.
        rewrite decide_False by exact Hx. now rewrite Hc.
  - intros i r Hi. exists (Replicas.fail x r).
    rewrite list_lookup_fmap, Hi, ReplicaFacts.fail_ts, ReplicaFacts.fail_role,
      ReplicaFacts.fail_failed.
    repeat split.
    + intros Hf. now destruct (decide (ts r = x)).
    + intros Hne. now rewrite decide_False.
  - reflexivity.
  - apply ReplicaFacts.count_failed_fail.
Qed.

(** X2: the replicas a tablet counts as failed and the replicas it hands out
    are all its replicas, each once: [GetNumFailedReplicas] plus the number of
    replicas [GetRemoteReplicas] returns is the length of the replica list,
    and [GetRemoteTabletServers] returns the servers of the replicas
    [GetRemoteReplicas] returns, in the same order. *)
Theorem failed_and_alive_replicas (t : RemoteTablet) :
  (Replicas.GetNumFailedReplicas t + length (Replicas.GetRemoteReplicas t)
   = length (replicas_ t))%nat
  /\ RemoteTablet.GetRemoteTabletServers t = map ts (Replicas.GetRemoteReplicas t)
  /\ (forall r, r ∈ Replicas.GetRemoteReplicas t <-> r ∈ replicas_ t /\ failed r = false).
Proof.
  split; [apply ReplicaFacts.count_failed_alive|]. split; [reflexivity|].
  intros r. unfold Replicas.GetRemoteReplicas. rewrite list_elem_of_filter. tauto.
Qed.

(** X3: a [Refresh] that returns OK replaces the replica list by the replicas
    of the response, the old-style ones first, in its order: each replica has
    the role the response gives it and is on the server [tservers] has under
    the uuid the response names for it (the uuid of the replica itself for an
    old-style one, the uuid of the entry of the dictionary at its index for
    an interned one), every replica is alive again, no replica counts as
    failed, the tablet is not stale, and its id and bounds are as before. *)
Theorem Refresh_replaces_replicas (tservers : TabletServerMap) (locs_pb : TabletLocationsPB)
    (ts_info_dict : list TSInfoPB) (t : RemoteTablet) (u : unit) (t' : RemoteTablet) :
  RemoteTablet.Refresh tservers locs_pb ts_info_dict t = Done u t' ->
  map role (replicas_ t') = Replicas.response_roles locs_pb
  /\ map (fun r => Some (ts r)) (replicas_ t')
     = Replicas.response_servers tservers ts_info_dict locs_pb
  /\ (forall r, r ∈ replicas_ t' -> failed r = false)
  /\ Replicas.GetNumFailedReplicas t' = 0%nat
  /\ RemoteTablet.GetRemoteTabletServers t' = map ts (replicas_ t')
  /\ stale_ t' = false
  /\ tablet_id_ t' = tablet_id_ t
  /\ partition_key_start t' = partition_key_start t
  /\ partition_key_end t' = partition_key_end t.
Proof.
  intros H. pose proof (RefreshFacts.Refresh_servers _ _ _ _ _ _ H) as Hservers.
  apply RefreshFacts.Refresh_Done in H as (Hroles & Hall & Hstale & Hid & Hlo & Hup).
  split; [exact Hroles|]. split; [exact Hservers|]. split.
  - intros r Hin. rewrite Forall_forall in Hall. now apply Hall.
  - split; [now apply (RefreshFacts.count_failed_fresh tservers)|].
    split; [|auto]. unfold RemoteTablet.GetRemoteTabletServers.
    now rewrite (RefreshFacts.filter_alive_fresh tservers).
Qed.

Lemma Refresh_replaces_replicas_witness :
  RemoteTablet.Refresh Scenario.servers_cache Scenario.moved_location_B
    Scenario.three_servers (RemoteTablet.MarkReplicaFailed "r1" Scenario.tablet_B)
  = Done tt (RemoteTablet.set_replicas Scenario.tablet_B
               [ mkRemoteReplica "r3" LEADER false; mkRemoteReplica "r1" FOLLOWER false ]
               false)
  /\ map (fun r => Some (ts r))
         (replicas_ (RemoteTablet.set_replicas Scenario.tablet_B
                       [ mkRemoteReplica "r3" LEADER false;
                         mkRemoteReplica "r1" FOLLOWER false ] false))
     = [Some "r3"; Some "r1"].
Proof.
  split; [vm_compute; reflexivity|].
  refine (proj1 (proj2 (Refresh_replaces_replicas Scenario.servers_cache
    Scenario.moved_location_B Scenario.three_servers
    (RemoteTablet.MarkReplicaFailed "r1" Scenario.tablet_B) tt _ _))).
  vm_compute. reflexivity.
Defined.

(** X4: [MarkTServerAsLeader x] makes [x] the leader [LeaderTServer] returns
    when [x] is one of the servers [GetRemoteTabletServers] returns; when it
    is not (it has no replica or only failed ones) the tablet has no leader
    afterwards, whoever led before.  The servers returned, the number of
    failed replicas and the stale flag are as before. *)
Theorem MarkTServerAsLeader_elects (x : ts_ptr) (t : RemoteTablet) :
  let t' := RemoteTablet.MarkTServerAsLeader x t in
  (x ∈ RemoteTablet.GetRemoteTabletServers t -> RemoteTablet.LeaderTServer t' = Some x)
  /\ (x ∉ RemoteTablet.GetRemoteTabletServers t -> RemoteTablet.LeaderTServer t' = None)
  /\ RemoteTablet.GetRemoteTabletServers t' = RemoteTablet.GetRemoteTabletServers t
  /\ Replicas.GetNumFailedReplicas t' = Replicas.GetNumFailedReplicas t
  /\ stale_ t' = stale_ t.
Proof.
  cbn zeta.
  unfold RemoteTablet.MarkTServerAsLeader, RemoteTablet.GetRemoteTabletServers,
    RemoteTablet.LeaderTServer, Replicas.GetNumFailedReplicas.
  cbn [replicas_ stale_ RemoteTablet.set_replicas].
  split; [|split; [|split; [|split]]].
  - rewrite ReplicaFacts.servers_of_alive. intros (r & Hin & Hts & Hf).
    apply ReplicaFacts.first_leader_only.
    + intros r' Hin'. apply list_elem_of_fmap in Hin' as (r0 & -> & _).
      rewrite RemoteTabletFacts.mark_leader_role, RemoteTabletFacts.mark_leader_ts. tauto.
    + exists (RemoteTablet.mark_leader x r). split; [apply list_elem_of_fmap; eauto|].
      now rewrite RemoteTabletFacts.mark_leader_ts, RemoteTabletFacts.mark_leader_failed.
  - rewrite ReplicaFacts.servers_of_alive. intros Hnot.
    apply ReplicaFacts.first_leader_none. intros r' Hin'.
    apply list_elem_of_fmap in Hin' as (r0 & -> & Hin0).
    rewrite RemoteTabletFacts.mark_leader_role, RemoteTabletFacts.mark_leader_failed.
    destruct (failed r0) eqn:Hf; [now left|]. right. intros Hts. apply Hnot. eauto.
  - apply ReplicaFacts.servers_map_same.
    + apply RemoteTabletFacts.mark_leader_ts.
    + apply RemoteTabletFacts.mark_leader_failed.
  - apply ReplicaFacts.count_failed_map_same. apply RemoteTabletFacts.mark_leader_failed.
  - reflexivity.
Qed.

(** X5: after [MarkTServerAsFollower x] the server [x] is not the leader
    [LeaderTServer] returns; another server that was the leader still is; the
    servers returned, the number of failed replicas and the stale flag are as
    before. *)
Theorem MarkTServerAsFollower_demotes (x : ts_ptr) (t : RemoteTablet) :
  let t' := RemoteTablet.MarkTServerAsFollower x t in
  RemoteTablet.LeaderTServer t' <> Some x
  /\ (forall y, y <> x -> RemoteTablet.LeaderTServer t = Some y ->
                RemoteTablet.LeaderTServer t' = Some y)
  /\ RemoteTablet.GetRemoteTabletServers t' = RemoteTablet.GetRemoteTabletServers t
  /\ Replicas.GetNumFailedReplicas t' = Replicas.GetNumFailedReplicas t
  /\ stale_ t' = stale_ t.
Proof.
  cbn zeta.
  unfold RemoteTablet.MarkTServerAsFollower, RemoteTablet.GetRemoteTabletServers,
    RemoteTablet.LeaderTServer, Replicas.GetNumFailedReplicas.
  cbn [replicas_ stale_ RemoteTablet.set_replicas].
  split; [|split; [|split; [|split]]].
  - apply ReplicaFacts.first_leader_mark_follower_other.
  - intros y Hy. now apply ReplicaFacts.first_leader_mark_follower.
  - apply ReplicaFacts.servers_map_same.
    + apply ReplicaFacts.mark_follower_ts.
    + apply ReplicaFacts.mark_follower_failed.
  - apply ReplicaFacts.count_failed_map_same. apply ReplicaFacts.mark_follower_failed.
  - reflexivity.
Qed.

(** X6: the leader [LeaderTServer] returns is one of the servers
    [GetRemoteTabletServers] returns, and [HasLeader] holds exactly when some
    replica that is not failed has the role Leader. *)
Theorem LeaderTServer_is_alive_replica (t : RemoteTablet) :
  (forall l, RemoteTablet.LeaderTServer t = Some l -> l ∈ RemoteTablet.GetRemoteTabletServers t)
  /\ (RemoteTablet.HasLeader t = true
      <-> exists r, r ∈ replicas_ t /\ role r = LEADER /\ failed r = false).
Proof.
  unfold RemoteTablet.HasLeader, RemoteTablet.LeaderTServer,
    RemoteTablet.GetRemoteTabletServers. split.
  - intros l Hl. apply ReplicaFacts.first_leader_in in Hl as (r & Hin & Hts & _ & Hf).
    apply ReplicaFacts.servers_of_alive. eauto.
  - rewrite <- ReplicaFacts.first_leader_Some_iff.
    destruct (RemoteTablet.first_leader (replicas_ t)); split; intros H;
      try reflexivity; try discriminate; eauto.
    now destruct H.
Qed.

(** ** Entries and the fast paths *)
Module EntryFacts.

Lemma Contains_iff e k :
  MetaCacheEntry.Contains e k = true
  <-> (MetaCacheEntry.lower_bound_partition_key e <=? k)%key = true
      /\ (Key.empty (MetaCacheEntry.upper_bound_partition_key e) = true
          \/ (k <? MetaCacheEntry.upper_bound_partition_key e)%key = true).
Proof.
  unfold MetaCacheEntry.Contains. rewrite andb_true_iff, orb_true_iff. tauto.
Qed.

Lemma floor_none (m : TabletMap) k :
  TabletMap.sorted m = true -> TabletMap.FindFloorOrNull m k = None ->
  forall kv, kv ∈ m -> (k <? kv.1)%key = true.
Proof.
  destruct m as [|[k1 e1] m']; intros Hs Hf kv Hin; [inversion Hin|].
  simpl in Hs, Hf. apply andb_true_iff in Hs as [Hall _].
  destruct (k1 <=? k)%key eqn:Hle.
  - destruct (TabletMap.FindFloorOrNull m' k); discriminate.
  - assert (Hlt : (k <? k1)%key = true) by (rewrite KeyFacts.ltb_leb, Hle; reflexivity).
    apply elem_of_cons in Hin as [-> | Hin]; [exact Hlt|].
    rewrite forallb_forall in Hall.
    apply (KeyFacts.ltb_trans _ k1); [exact Hlt|].
    apply Hall. now apply list_elem_of_In.
Qed.

(** In a map with its keys in order [FindFloorOrNull] returns the entry under
    the greatest key that is at most [k]. *)
Lemma floor_greatest (m : TabletMap) k e :
  TabletMap.sorted m = true -> TabletMap.FindFloorOrNull m k = Some e ->
  exists k0, (k0, e) ∈ m /\ (k0 <=? k)%key = true
             /\ forall kv, kv ∈ m -> (kv.1 <=? k)%key = true -> (kv.1 <=? k0)%key = true.
Proof.
  revert e. induction m as [|[k1 e1] m' IH]; intros e Hs Hf; [discriminate|].
  simpl in Hs, Hf. apply andb_true_iff in Hs as [Hall Hs'].
  destruct (k1 <=? k)%key eqn:Hle; [|discriminate].
  destruct (TabletMap.FindFloorOrNull m' k) as [e'|] eqn:Hf'.
  - inversion Hf; subst e'. destruct (IH e Hs' eq_refl) as (k0 & Hin & Hk0 & Hmax).
    exists k0. split; [now right|]. split; [exact Hk0|].
    intros kv Hkv Hkvle. apply elem_of_cons in Hkv as [-> | Hkv]; [|now apply Hmax].
    simpl. apply KeyFacts.ltb_leb_incl. rewrite forallb_forall in Hall.
    apply (Hall (k0, e)). now apply list_elem_of_In.
  - inversion Hf; subst e1. exists k1. split; [now left|]. split; [exact Hle|].
    intros kv Hkv Hkvle. apply elem_of_cons in Hkv as [-> | Hkv]; [apply KeyFacts.leb_refl|].
    pose proof (floor_none m' k Hs' Hf' kv Hkv) as Hlt.
    rewrite KeyFacts.ltb_leb, Hkvle in Hlt. discriminate.
Qed.

Lemma floor_some (m : TabletMap) k kv :
  TabletMap.sorted m = true -> kv ∈ m -> (kv.1 <=? k)%key = true ->
  is_Some (TabletMap.FindFloorOrNull m k).
Proof.
  destruct m as [|[k1 e1] m']; intros Hs Hin Hle; [inversion Hin|].
  simpl in Hs. apply andb_true_iff in Hs as [Hall _]. simpl.
  assert (Hk1 : (k1 <=? k)%key = true).
  { apply elem_of_cons in Hin as [-> | Hin]; [exact Hle|].
    rewrite forallb_forall in Hall.
    apply (KeyFacts.leb_trans _ kv.1); [|exact Hle].
    apply KeyFacts.ltb_leb_incl. apply Hall. now apply list_elem_of_In. }
  rewrite Hk1. destruct (TabletMap.FindFloorOrNull m' k); eauto.
Qed.

Lemma sorted_key_once (m : TabletMap) k e e' :
  TabletMap.sorted m = true -> (k, e) ∈ m -> (k, e') ∈ m -> e = e'.
Proof.
  induction m as [|[k1 e1] m' IH]; intros Hs H1 H2; [inversion H1|].
  simpl in Hs. apply andb_true_iff in Hs as [Hall Hs'].
  rewrite forallb_forall in Hall.
  assert (Hno : forall e0, (k1, e0) ∈ m' -> False).
  { intros e0 Hin. apply list_elem_of_In in Hin. apply Hall in Hin. simpl in Hin.
    rewrite KeyFacts.ltb_irrefl in Hin. discriminate. }
  apply elem_of_cons in H1 as [H1 | H1]; apply elem_of_cons in H2 as [H2 | H2].
  - congruence.
  - inversion H1; subst. exfalso. eauto.
  - inversion H2; subst. exfalso. eauto.
  - auto.
Qed.

End EntryFacts.

(** X7: an entry that is stale stays stale at every later time, as long as
    its tablet is not refreshed; a non-covered range is stale exactly when
    its expiration time has passed, whatever the tablets are. *)
Theorem entry_stale_later (now later : MonoTime) (tablets : gmap string RemoteTablet)
    (e : MetaCacheEntry) :
  now <= later ->
  (MetaCacheEntry.stale now tablets e = true -> MetaCacheEntry.stale later tablets e = true)
  /\ (MetaCacheEntry.is_non_covered_range e = true ->
      (MetaCacheEntry.stale now tablets e = true <-> MetaCacheEntry.expiration_time_ e < now)).
Proof.
  intros Hle. unfold MetaCacheEntry.stale. split.
  - rewrite !orb_true_iff, !Z.ltb_lt. intros [H | H]; [left; lia | now right].
  - intros Hnc. rewrite Hnc. cbn [negb andb]. now rewrite orb_false_r, Z.ltb_lt.
Qed.

Lemma entry_stale_later_witness :
  MetaCacheEntry.stale 9 ∅ (NonCoveredEntry 3 "a" "b") = true.
Proof.
  refine (proj1 (entry_stale_later 5 9 ∅ (NonCoveredEntry 3 "a" "b") _) _);
    [lia | reflexivity].
Defined.

(** X8: the keys an entry contains form an interval: a key between two keys
    the entry contains is contained, and no key below the lower bound is.  An
    entry with an upper bound contains no key of an entry that starts at or
    above that bound. *)
Theorem Contains_interval (e : MetaCacheEntry) :
  (forall a k b, MetaCacheEntry.Contains e a = true -> MetaCacheEntry.Contains e b = true ->
                 (a <=? k)%key = true -> (k <=? b)%key = true ->
                 MetaCacheEntry.Contains e k = true)
  /\ (forall k, (k <? MetaCacheEntry.lower_bound_partition_key e)%key = true ->
                MetaCacheEntry.Contains e k = false)
  /\ (forall e' k, Key.empty (MetaCacheEntry.upper_bound_partition_key e) = false ->
                   (MetaCacheEntry.upper_bound_partition_key e
                    <=? MetaCacheEntry.lower_bound_partition_key e')%key = true ->
                   MetaCacheEntry.Contains e k = true ->
                   MetaCacheEntry.Contains e' k = false).
Proof.
  split; [|split].
  - intros a k b Ha Hb Hak Hkb. apply EntryFacts.Contains_iff in Ha as [Hla _].
    apply EntryFacts.Contains_iff in Hb as [_ Hub]. apply EntryFacts.Contains_iff. split.
    + now apply (KeyFacts.leb_trans _ a).
    + destruct Hub as [Hub | Hub]; [now left | right].
      now apply (KeyFacts.leb_ltb_trans _ b).
  - intros k Hk. unfold MetaCacheEntry.Contains.
    rewrite KeyFacts.leb_ltb, Hk. reflexivity.
  - intros e' k Hne Hle Hc. apply EntryFacts.Contains_iff in Hc as [_ [Hub | Hub]];
      [congruence|].
    unfold MetaCacheEntry.Contains.
    assert (Hlt : (k <? MetaCacheEntry.lower_bound_partition_key e')%key = true)
      by now apply (KeyFacts.ltb_leb_trans _ (MetaCacheEntry.upper_bound_partition_key e)).
    rewrite KeyFacts.leb_ltb, Hlt. reflexivity.
Qed.

(** X9: in a range map with its keys in increasing order
    [LookupEntryByKeyFastPath] returns [e] exactly when [e] is the entry
    under the greatest key of the map that is at most the partition key, is
    not stale and contains the partition key. *)
Theorem LookupEntryByKeyFastPath_floor (now : MonoTime) (c : MetaCache) (table : KuduTable)
    (m : TabletMap) (partition_key : string) (e : MetaCacheEntry) :
  tablets_by_table_and_key_ c !! table_id table = Some m ->
  TabletMap.sorted m = true ->
  (FastPathLookup.LookupEntryByKeyFastPath now c table partition_key = Some e
   <-> (exists k0, (k0, e) ∈ m /\ (k0 <=? partition_key)%key = true
                   /\ forall kv, kv ∈ m -> (kv.1 <=? partition_key)%key = true ->
                                 (kv.1 <=? k0)%key = true)
       /\ MetaCacheEntry.stale now (tablets_by_id_ c) e = false
       /\ MetaCacheEntry.Contains e partition_key = true).
Proof.
  intros Hm Hs. unfold FastPathLookup.LookupEntryByKeyFastPath. rewrite Hm. split.
  - destruct (TabletMap.FindFloorOrNull m partition_key) as [e0|] eqn:Hf; [|discriminate].
    destruct (MetaCacheEntry.stale now (tablets_by_id_ c) e0) eqn:Hst; [discriminate|].
    destruct (MetaCacheEntry.Contains e0 partition_key) eqn:Hc; [|discriminate].
    intros H. inversion H; subst e0.
    split; [now apply EntryFacts.floor_greatest | auto].
  - intros ((k0 & Hin & Hk0 & Hmax) & Hst & Hc).
    destruct (EntryFacts.floor_some m partition_key (k0, e) Hs Hin Hk0) as [e0 Hf].
    rewrite Hf.
    destruct (EntryFacts.floor_greatest m partition_key e0 Hs Hf)
      as (k0' & Hin' & Hk0' & Hmax').
    assert (k0' = k0) as ->.
    { apply KeyFacts.leb_antisym.
      - apply (Hmax (k0', e0) Hin' Hk0').
      - apply (Hmax' (k0, e) Hin Hk0). }
    rewrite (EntryFacts.sorted_key_once m k0 e0 e Hs Hin' Hin), Hst, Hc. reflexivity.
Qed.

Lemma LookupEntryByKeyFastPath_floor_witness :
  FastPathLookup.LookupEntryByKeyFastPath 0 Scenario.cache_S1 Scenario.table_T "c4"
  = Some (NonCoveredEntry 60000000000 "c3" "c5")
  <-> (exists k0, (k0, NonCoveredEntry 60000000000 "c3" "c5") ∈ Scenario.map_S1
                  /\ (k0 <=? "c4")%key = true
                  /\ forall kv, kv ∈ Scenario.map_S1 -> (kv.1 <=? "c4")%key = true ->
                                (kv.1 <=? k0)%key = true)
      /\ MetaCacheEntry.stale 0 (tablets_by_id_ Scenario.cache_S1)
           (NonCoveredEntry 60000000000 "c3" "c5") = false
      /\ MetaCacheEntry.Contains (NonCoveredEntry 60000000000 "c3" "c5") "c4" = true.
Proof.
  apply (LookupEntryByKeyFastPath_floor 0 Scenario.cache_S1 Scenario.table_T Scenario.map_S1).
  - vm_compute. reflexivity.
  - vm_compute. reflexivity.
Defined.

Module FastPathAnswer.
Import FastPathLookup.

(** What the loop of [DoFastPathLookup] returns, read at the key it stopped
    at. *)
Lemma loop_answer now c table lookup_type fuel : forall k fp,
  DoFastPathLookup_loop fuel now c table k lookup_type = Some fp ->
  (k <=? fp_partition_key fp)%key = true
  /\ (lookup_type = kPoint -> fp_partition_key fp = k)
  /\ (code (fp_status fp) = kOk ->
      exists exp id lo up,
        LookupEntryByKeyFastPath now c table (fp_partition_key fp)
        = Some (TabletEntry exp id lo up)
        /\ fp_remote_tablet fp = Some id)
  /\ (code (fp_status fp) = kNotFound ->
      exists exp lo up,
        LookupEntryByKeyFastPath now c table (fp_partition_key fp)
        = Some (NonCoveredEntry exp lo up)
        /\ (lookup_type = kPoint \/ Key.empty up = true)
        /\ fp_remote_tablet fp = None)
  /\ (code (fp_status fp) = kIncomplete ->
      fp_remote_tablet fp = None
      /\ forall e, LookupEntryByKeyFastPath now c table (fp_partition_key fp) = Some e ->
                   MetaCacheEntry.is_non_covered_range e = false
                   /\ MetaCacheEntry.tablet_HasLeader (tablets_by_id_ c) e = false).
Proof.
  induction fuel as [|fuel IH]; intros k fp; [discriminate|].
  cbn [DoFastPathLookup_loop].
  destruct (LookupEntryByKeyFastPath now c table k) as [entry|] eqn:He.
  - destruct (MetaCacheEntry.is_non_covered_range entry
              || MetaCacheEntry.tablet_HasLeader (tablets_by_id_ c) entry) eqn:Huse.
    + destruct entry as [exp id lo up | exp lo up].
      * intros H. inversion H; subst fp. cbn [fp_partition_key fp_status fp_remote_tablet code].
        split; [apply KeyFacts.leb_refl|]. split; [reflexivity|].
        split; [intros _; rewrite He; eauto 6|]. split; discriminate.
      * destruct (bool_decide (lookup_type = kPoint) || Key.empty up) eqn:Hstop.
        -- intros H. inversion H; subst fp.
           cbn [fp_partition_key fp_status fp_remote_tablet code Status.NotFound2].
           split; [apply KeyFacts.leb_refl|]. split; [reflexivity|].
           split; [discriminate|]. split; [|discriminate].
           intros _. rewrite He. exists exp, lo, up. split; [reflexivity|].
           split; [|reflexivity].
           apply orb_true_iff in Hstop as [Hp | Hu]; [left | now right].
           now apply bool_decide_eq_true_1 in Hp.
        -- apply orb_false_iff in Hstop as [Hp Hu].
           apply bool_decide_eq_false_1 in Hp.
           intros H. destruct (IH up fp H) as (Hle & _ & Hrest).
           split.
           ++ apply (KeyFacts.leb_trans _ up); [|exact Hle].
              apply KeyFacts.ltb_leb_incl.
              apply FastPathFacts.LookupEntryByKeyFastPath_Some in He as (_ & _ & _ & _ & Hc).
              now apply (FastPathFacts.Contains_below_upper (NonCoveredEntry exp lo up)).
           ++ split; [intros Hpoint; contradiction | exact Hrest].
    + intros H. inversion H; subst fp. cbn [fp_partition_key fp_status fp_remote_tablet code].
      split; [apply KeyFacts.leb_refl|]. split; [reflexivity|].
      split; [discriminate|]. split; [discriminate|]. intros _. split; [reflexivity|].
      intros e. rewrite He. intros He'. inversion He'; subst e.
      now apply orb_false_iff in Huse.
  - intros H. inversion H; subst fp. cbn [fp_partition_key fp_status fp_remote_tablet code].
    split; [apply KeyFacts.leb_refl|]. split; [reflexivity|].
    split; [discriminate|]. split; [discriminate|]. intros _. split; [reflexivity|].
    intros e. rewrite He. discriminate.
Qed.

End FastPathAnswer.



(** ** The registry of tablet servers *)
Module ServerFacts.
Import MetaCache.

Lemma Update_make pb s :
  uuid_ s = permanent_uuid pb ->
  RemoteTabletServer.Update pb s = Some (RemoteTabletServer.make pb).
Proof.
  intros Hu. unfold RemoteTabletServer.Update, RemoteTabletServer.make.
  rewrite decide_True by congruence. now rewrite Hu.
Qed.

Lemma update_server_make pb registry s :
  registry !! permanent_uuid pb = Some s -> uuid_ s = permanent_uuid pb ->
  update_server (permanent_uuid pb) pb registry
  = Some (<[permanent_uuid pb := RemoteTabletServer.make pb]> registry).
Proof.
  intros Hs Hu. unfold update_server, ts_ptr. now rewrite Hs, (Update_make pb s Hu).
Qed.

(** With consistent indexes [UpdateTabletServerUnlocked] stores the server of
    [pb] under its uuid in both indexes, whichever branch it takes. *)
Lemma UpdateTabletServerUnlocked_upsert pb c :
  Consistent.servers c ->
  UpdateTabletServerUnlocked pb c
  = Some (with_servers c
            (<[permanent_uuid pb := RemoteTabletServer.make pb]> (ts_registry_ c))
            (<[permanent_uuid pb := permanent_uuid pb]> (ts_cache_ c))).
Proof.
  intros [Hreg Hcache]. unfold UpdateTabletServerUnlocked.
  destruct (ts_cache_ c !! permanent_uuid pb) as [p|] eqn:Hp.
  - destruct (Hcache _ _ Hp) as [-> [s Hs]].
    rewrite (update_server_make pb _ s Hs (Hreg _ _ Hs)).
    now rewrite (insert_id (ts_cache_ c) _ _ Hp).
  - destruct (ts_registry_ c !! permanent_uuid pb) as [s|] eqn:Hs; [|reflexivity].
    now rewrite (update_server_make pb _ s Hs (Hreg _ _ Hs)).
Qed.

Lemma upsert_consistent pb c :
  Consistent.servers c ->
  Consistent.servers
    (with_servers c
       (<[permanent_uuid pb := RemoteTabletServer.make pb]> (ts_registry_ c))
       (<[permanent_uuid pb := permanent_uuid pb]> (ts_cache_ c))).
Proof.
  intros [Hreg Hcache]. split; cbn [ts_registry_ ts_cache_ with_servers].
  - intros u s. destruct (decide (permanent_uuid pb = u)) as [<- | Hne].
    + rewrite lookup_insert_eq. intros H. inversion H; reflexivity.
    + rewrite lookup_insert_ne by exact Hne. apply Hreg.
  - intros u p. destruct (decide (permanent_uuid pb = u)) as [<- | Hne].
    + rewrite !lookup_insert_eq. intros H. inversion H; subst. eauto.
    + rewrite !lookup_insert_ne by exact Hne. apply Hcache.
Qed.

(** The loop over the servers of a response. *)
Lemma update_servers_Some pbs : forall c,
  Consistent.servers c ->
  exists c', update_servers pbs c = Some c'
             /\ Consistent.servers c'
             /\ (forall u, is_Some (ts_cache_ c' !! u)
                           <-> is_Some (ts_cache_ c !! u) \/ u ∈ map permanent_uuid pbs)
             /\ (forall u, u ∉ map permanent_uuid pbs ->
                           ts_registry_ c' !! u = ts_registry_ c !! u)
             /\ (forall u, is_Some (ts_registry_ c !! u) -> is_Some (ts_registry_ c' !! u))
             /\ Consistent.same_tablets c c'.
Proof.
  induction pbs as [|pb pbs IH]; intros c Hc.
  - exists c. split; [reflexivity|]. split; [exact Hc|]. split.
    + intros u. split; [now left|]. intros [H | H]; [exact H | inversion H].
    + repeat split; auto.
  - cbn [update_servers]. rewrite (UpdateTabletServerUnlocked_upsert pb c Hc).
    destruct (IH _ (upsert_consistent pb c Hc))
      as (c' & Hrun & Hc' & Hcache & Hreg & Hgrow & Hsame).
    cbn [ts_registry_ ts_cache_ with_servers] in Hcache, Hreg, Hgrow.
    exists c'. split; [exact Hrun|]. split; [exact Hc'|]. split; [|split; [|split]].
    + intros u. rewrite Hcache. cbn [map]. rewrite elem_of_cons.
      destruct (decide (permanent_uuid pb = u)) as [<- | Hne].
      * rewrite lookup_insert_eq. split; [intros _; right; now left | eauto].
      * rewrite lookup_insert_ne by exact Hne. split; [tauto|].
        intros [H | [H | H]]; [now left | congruence | now right].
    + intros u Hu. cbn [map] in Hu. rewrite not_elem_of_cons in Hu. destruct Hu as [Hne Hu].
      rewrite (Hreg u Hu). now rewrite lookup_insert_ne by congruence.
    + intros u Hu. apply Hgrow. destruct (decide (permanent_uuid pb = u)) as [<- | Hne].
      * rewrite lookup_insert_eq. eauto.
      * now rewrite lookup_insert_ne by exact Hne.
    + destruct Hsame as (H1 & H2 & H3 & H4). repeat split; assumption.
Qed.

Lemma add_interned_runs tservers ts_info_dict rs : forall acc,
  Known.interned_known tservers ts_info_dict rs ->
  RemoteTablet.add_interned tservers ts_info_dict rs acc <> Abort.
Proof.
  induction rs as [|r rs IH]; intros acc Hk; cbn [RemoteTablet.add_interned]; [discriminate|].
  destruct (N.of_nat (length ts_info_dict) <=? ts_info_idx r)%N eqn:Hcmp; [discriminate|].
  apply N.leb_gt in Hcmp. inversion Hk as [|? ? Hr Hk']; subst.
  destruct (ts_info_dict !! N.to_nat (ts_info_idx r)) as [info|] eqn:Hget.
  - destruct (Hr info eq_refl) as [p Hp]. rewrite Hp. now apply IH.
  - apply lookup_ge_None in Hget. lia.
Qed.

Lemma Refresh_runs tservers locs_pb ts_info_dict t :
  Known.servers_known tservers locs_pb ts_info_dict ->
  RemoteTablet.Refresh tservers locs_pb ts_info_dict t <> Abort.
Proof.
  intros [Hdep Hint]. unfold RemoteTablet.Refresh.
  destruct (RemoteTabletFacts.add_deprecated_known tservers _ [] Hdep) as [rs1 ->].
  pose proof (add_interned_runs tservers ts_info_dict _ rs1 Hint) as Hrun.
  destruct (RemoteTablet.add_interned tservers ts_info_dict (interned_replicas locs_pb) rs1);
    [discriminate | discriminate | contradiction].
Qed.

Lemma add_deprecated_unknown tservers rs : forall acc,
  Exists (fun r => tservers !! permanent_uuid (dr_ts_info r) = None) rs ->
  RemoteTablet.add_deprecated tservers rs acc = Abort.
Proof.
  induction rs as [|r rs IH]; intros acc Hex; [inversion Hex|].
  cbn [RemoteTablet.add_deprecated].
  destruct (tservers !! permanent_uuid (dr_ts_info r)) as [p|] eqn:Hp; [|reflexivity].
  inversion Hex as [? ? Hbad | ? ? Hex']; subst; [congruence | now apply IH].
Qed.

Lemma registered_known pbs locs c1 tablet :
  (forall u, u ∈ map permanent_uuid (deprecated_ts_infos locs ++ pbs)%list ->
             is_Some (ts_cache_ c1 !! u)) ->
  tablet ∈ locs ->
  Known.servers_known (ts_cache_ c1) tablet pbs.
Proof.
  intros Hreg Hin. split.
  - apply Forall_forall. intros r Hr. apply Hreg.
    apply list_elem_of_fmap. exists (dr_ts_info r). split; [reflexivity|].
    apply elem_of_app. left. unfold deprecated_ts_infos.
    apply list_elem_of_In, in_concat.
    exists (map dr_ts_info (deprecated_replicas tablet)).
    split; apply list_elem_of_In, list_elem_of_fmap; eauto.
  - apply Forall_forall. intros r _ info Hget. apply Hreg.
    apply list_elem_of_fmap. exists info. split; [reflexivity|].
    apply elem_of_app. right. now apply list_elem_of_lookup_2 in Hget.
Qed.

Lemma add_interned_valid tservers ts_info_dict rs : forall acc,
  Known.interned_known tservers ts_info_dict rs ->
  Forall (fun r => (ts_info_idx r < N.of_nat (length ts_info_dict))%N) rs ->
  exists replicas, RemoteTablet.add_interned tservers ts_info_dict rs acc = Done replicas tt.
Proof.
  induction rs as [|r rs IH]; intros acc Hk Hv; cbn [RemoteTablet.add_interned]; [eauto|].
  inversion Hk as [|? ? Hr Hk']; subst. inversion Hv as [|? ? Hlt Hv']; subst.
  rewrite (proj2 (N.leb_gt _ _) Hlt).
  destruct (ts_info_dict !! N.to_nat (ts_info_idx r)) as [info|] eqn:Hget.
  - destruct (Hr info eq_refl) as [p Hp]. rewrite Hp. now apply IH.
  - apply lookup_ge_None in Hget. lia.
Qed.

Lemma Refresh_valid tservers locs_pb ts_info_dict t :
  Known.servers_known tservers locs_pb ts_info_dict ->
  Forall (fun r => (ts_info_idx r < N.of_nat (length ts_info_dict))%N)
         (interned_replicas locs_pb) ->
  exists t', RemoteTablet.Refresh tservers locs_pb ts_info_dict t = Done tt t'.
Proof.
  intros [Hdep Hint] Hv. unfold RemoteTablet.Refresh.
  destruct (RemoteTabletFacts.add_deprecated_known tservers _ [] Hdep) as [rs1 ->].
  destruct (add_interned_valid tservers ts_info_dict _ rs1 Hint Hv) as [rs2 ->]. eauto.
Qed.

Lemma interned_only_known pbs c1 tablet :
  (forall u, u ∈ map permanent_uuid pbs -> is_Some (ts_cache_ c1 !! u)) ->
  deprecated_replicas tablet = [] ->
  Known.servers_known (ts_cache_ c1) tablet pbs.
Proof.
  intros Hreg Hnone. split.
  - unfold Known.deprecated_known. rewrite Hnone. constructor.
  - apply Forall_forall. intros r _ info Hget. apply Hreg.
    apply list_elem_of_fmap. exists info. split; [reflexivity|].
    now apply list_elem_of_lookup_2 in Hget.
Qed.

End ServerFacts.

(** X11: with a registry whose servers are stored under their uuid and a
    cache of servers that points into it, as the constructor leaves them,
    [UpdateTabletServerUnlocked] fails none of its checks: afterwards the
    server of the message is in the cache and in the registry under its uuid,
    with the hosts of the message in their order, each port of the message
    reduced to its low 16 bits (the port itself when it is below 65536), and
    the location and socket path of the message; the other servers are as
    before, both indexes still agree, and no tablet, entry or permit has
    changed. *)
Theorem UpdateTabletServerUnlocked_registers (pb : TSInfoPB) (c : MetaCache) :
  Consistent.servers c ->
  exists c' s,
    MetaCache.UpdateTabletServerUnlocked pb c = Some c'
    /\ Consistent.servers c'
    /\ ts_cache_ c' !! permanent_uuid pb = Some (permanent_uuid pb)
    /\ ts_registry_ c' !! permanent_uuid pb = Some s
    /\ uuid_ s = permanent_uuid pb
    /\ map host (rpc_hostports_ s) = map pb_host (rpc_addresses pb)
    /\ map port (rpc_hostports_ s) = map (fun a => pb_port a mod 65536) (rpc_addresses pb)
    /\ (Forall (fun a => 0 <= pb_port a < 65536) (rpc_addresses pb) ->
        map port (rpc_hostports_ s) = map pb_port (rpc_addresses pb))
    /\ location_ s = pb_location pb
    /\ unix_domain_socket_path_ s = pb_unix_domain_socket_path pb
    /\ (forall u, u <> permanent_uuid pb ->
          ts_cache_ c' !! u = ts_cache_ c !! u /\ ts_registry_ c' !! u = ts_registry_ c !! u)
    /\ Consistent.same_tablets c c'.
Proof.
  intros Hc. eexists _, (RemoteTabletServer.make pb).
  split; [apply (ServerFacts.UpdateTabletServerUnlocked_upsert pb c Hc)|].
  split; [now apply ServerFacts.upsert_consistent|].
  cbn [ts_registry_ ts_cache_ MetaCache.with_servers]. rewrite !lookup_insert_eq.
  split; [reflexivity|]. split; [reflexivity|]. split; [reflexivity|].
  cbn [rpc_hostports_ location_ unix_domain_socket_path_ RemoteTabletServer.make].
  rewrite !map_map. cbn [host port RemoteTabletServer.emplace].
  split; [reflexivity|]. split; [reflexivity|]. split.
  - intros Hports. apply map_ext_in. intros a Ha.
    rewrite Forall_forall in Hports. apply Z.mod_small, Hports. now apply list_elem_of_In.
  - split; [reflexivity|]. split; [reflexivity|]. split.
    + intros u Hne. now rewrite !lookup_insert_ne by congruence.
    + repeat split.
Qed.

Lemma UpdateTabletServerUnlocked_registers_witness :
  Consistent.servers MetaCache.make
  /\ exists c' s,
       MetaCache.UpdateTabletServerUnlocked
         (mkTSInfoPB "r9" [mkHostPortPB "h9" 70000; mkHostPortPB "h9" 7050] "/rack" None)
         MetaCache.make = Some c'
       /\ ts_registry_ c' !! "r9" = Some s
       /\ map port (rpc_hostports_ s) = [4464; 7050].
Proof.
  assert (Hc : Consistent.servers MetaCache.make).
  { split; intros u x H; cbn in H; rewrite lookup_empty in H; discriminate. }
  split; [exact Hc|].
  destruct (UpdateTabletServerUnlocked_registers
              (mkTSInfoPB "r9" [mkHostPortPB "h9" 70000; mkHostPortPB "h9" 7050] "/rack" None)
              MetaCache.make Hc)
    as (c' & s & Hrun & _ & _ & Hreg & _ & _ & Hports & _).
  exists c', s. split; [exact Hrun|]. split; [exact Hreg | exact Hports].
Defined.

(** X12: the servers [ProcessGetTableLocationsResponse] registers before it
    refreshes the tablets are all the servers the tablets name: after the two
    loops of [UpdateTabletServerUnlocked], over the servers of the old-style
    replicas and over the dictionary of the response, the [FindOrDie] of
    [Refresh] finds its server for every tablet of the response, so that
    [Refresh] returns OK or Corruption. *)
Theorem registered_servers_let_Refresh_run (locs : list TabletLocationsPB)
    (ts_infos : list TSInfoPB) (c : MetaCache) :
  Consistent.servers c ->
  exists c1,
    MetaCache.update_servers (MetaCache.deprecated_ts_infos locs ++ ts_infos)%list c = Some c1
    /\ Consistent.servers c1
    /\ Consistent.same_tablets c c1
    /\ forall tablet remote, tablet ∈ locs ->
         Known.servers_known (ts_cache_ c1) tablet ts_infos
         /\ RemoteTablet.Refresh (ts_cache_ c1) tablet ts_infos remote <> Abort.
Proof.
  intros Hc.
  destruct (ServerFacts.update_servers_Some
              (MetaCache.deprecated_ts_infos locs ++ ts_infos)%list c Hc)
    as (c1 & Hrun & Hc1 & Hcache & _ & _ & Hsame).
  exists c1. split; [exact Hrun|]. split; [exact Hc1|]. split; [exact Hsame|].
  intros tablet remote Hin.
  assert (Hk : Known.servers_known (ts_cache_ c1) tablet ts_infos).
  { apply (ServerFacts.registered_known ts_infos locs); [|exact Hin].
    intros u Hu. apply Hcache. now right. }
  split; [exact Hk | now apply ServerFacts.Refresh_runs].
Qed.

Lemma registered_servers_let_Refresh_run_witness :
  exists c1,
    MetaCache.update_servers
      (MetaCache.deprecated_ts_infos (tablet_locations Scenario.response_S1)
       ++ Scenario.three_servers)%list MetaCache.make = Some c1
    /\ Consistent.servers c1.
Proof.
  assert (Hc : Consistent.servers MetaCache.make).
  { split; intros u x H; cbn in H; rewrite lookup_empty in H; discriminate. }
  destruct (registered_servers_let_Refresh_run (tablet_locations Scenario.response_S1)
              Scenario.three_servers MetaCache.make Hc) as (c1 & Hrun & Hc1 & _).
  exists c1. split; [exact Hrun | exact Hc1].
Defined.

(** X13: [ProcessGetTabletLocationsResponse], the ingestion of a lookup by
    id, registers the servers of the dictionary of the response only.  When
    the tablet of the response has an old-style replica whose server is
    neither in the cache of servers nor in that dictionary, the [FindOrDie]
    of [Refresh] fails and the process stops. *)
Theorem by_id_old_style_replica_stops (now : MonoTime) (ttl_ms : Z) (tablet_id : string)
    (resp : GetTabletLocationsResponsePB) (c : MetaCache)
    (tablet : TabletLocationsPB) (rest : list TabletLocationsPB) (r : DeprecatedReplicaPB) :
  Consistent.servers c ->
  id_tablet_locations resp = tablet :: rest ->
  r ∈ deprecated_replicas tablet ->
  ts_cache_ c !! permanent_uuid (dr_ts_info r) = None ->
  permanent_uuid (dr_ts_info r) ∉ map permanent_uuid (id_ts_infos resp) ->
  ById.ProcessGetTabletLocationsResponse now ttl_ms tablet_id resp c = Abort.
Proof.
  intros Hc Hlocs Hr Hcache Hdict.
  unfold ById.ProcessGetTabletLocationsResponse. rewrite Hlocs. cbn zeta.
  destruct (ServerFacts.update_servers_Some (id_ts_infos resp) c Hc)
    as (c1 & -> & _ & Hcache1 & _).
  assert (Hunknown : ts_cache_ c1 !! permanent_uuid (dr_ts_info r) = None).
  { destruct (ts_cache_ c1 !! permanent_uuid (dr_ts_info r)) eqn:H; [|reflexivity].
    destruct (proj1 (Hcache1 _) (ex_intro _ _ H)) as [[p Hp] | Hin]; [congruence | contradiction]. }
  assert (Hstop : forall remote,
            RemoteTablet.Refresh (ts_cache_ c1) tablet (id_ts_infos resp) remote = Abort).
  { intros remote. unfold RemoteTablet.Refresh.
    rewrite ServerFacts.add_deprecated_unknown; [reflexivity|].
    apply Exists_exists. exists r. split; [exact Hr | exact Hunknown]. }
  destruct (tablets_by_id_ c1 !! tablet_id) as [remote|].
  - unfold ById.refresh_known. now rewrite Hstop.
  - unfold ById.insert_new. cbn zeta. now rewrite Hstop.
Qed.

Lemma by_id_old_style_replica_stops_witness :
  ById.ProcessGetTabletLocationsResponse 0 FLAGS_client_tablet_locations_by_id_ttl_ms "B"
    (Scenario.response_by_id [Scenario.old_style_location_B]) MetaCache.make
  = Abort.
Proof.
  refine (by_id_old_style_replica_stops 0 FLAGS_client_tablet_locations_by_id_ttl_ms "B"
            (Scenario.response_by_id [Scenario.old_style_location_B]) MetaCache.make
            Scenario.old_style_location_B []
            (mkDeprecatedReplicaPB (Scenario.ts_info "r7") LEADER) _ eq_refl _ _ _).
  - split; intros u x H; cbn in H; rewrite lookup_empty in H; discriminate.
  - left.
  - reflexivity.
  - vm_compute. intros H. repeat (apply elem_of_cons in H as [H | H]; [discriminate|]).
    inversion H.
Defined.

(** ** Lookups by id *)
Module ByIdFacts.
Import MetaCache.

Lemma fresh_has_leader tservers rs :
  Forall (Replicas.fresh_replica tservers) rs ->
  (is_Some (RemoteTablet.first_leader rs) <-> LEADER ∈ map role rs).
Proof.
  intros Hall. rewrite ReplicaFacts.first_leader_Some_iff. split.
  - intros (r & Hin & Hr & _). apply list_elem_of_fmap. exists r. auto.
  - intros Hin. apply list_elem_of_fmap in Hin as (r & Hr & Hin). exists r.
    rewrite Forall_forall in Hall. destruct (Hall r Hin) as [Hf _]. auto.
Qed.

Lemma Refresh_HasLeader tservers locs_pb dict t u t' :
  RemoteTablet.Refresh tservers locs_pb dict t = Done u t' ->
  (RemoteTablet.HasLeader t' = true <-> LEADER ∈ Replicas.response_roles locs_pb).
Proof.
  intros H. apply RefreshFacts.Refresh_Done in H as (Hroles & Hall & _).
  unfold Replicas.response_roles. rewrite <- Hroles, <- (fresh_has_leader tservers _ Hall).
  unfold RemoteTablet.HasLeader, RemoteTablet.LeaderTServer.
  destruct (RemoteTablet.first_leader (replicas_ t')); split; intros H;
    try reflexivity; try discriminate; eauto.
  now destruct H.
Qed.

(** What an ingestion by id that returns OK has done. *)
Lemma ProcessGetTabletLocationsResponse_Done now ttl_ms tablet_id resp c e c' :
  Consistent.servers c -> Consistent.tablets c -> Consistent.entries c ->
  ById.ProcessGetTabletLocationsResponse now ttl_ms tablet_id resp c = Done e c' ->
  exists tablet rest c1 remote remote' lo up,
    id_tablet_locations resp = tablet :: rest
    /\ update_servers (id_ts_infos resp) c = Some c1
    /\ RemoteTablet.Refresh (ts_cache_ c1) tablet (id_ts_infos resp) remote = Done tt remote'
    /\ tablet_id_ remote = tablet_id
    /\ e = TabletEntry (now + FromMilliseconds ttl_ms) tablet_id lo up
    /\ c' = with_entry_by_tablet_id
              (with_tablets_by_id c1 (<[tablet_id := remote']> (tablets_by_id_ c1)))
              (<[tablet_id := e]> (entry_by_tablet_id_ c1)).
Proof.
  intros Hs Ht He. unfold ById.ProcessGetTabletLocationsResponse. cbn zeta.
  destruct (id_tablet_locations resp) as [|tablet rest]; [discriminate|].
  destruct (ServerFacts.update_servers_Some (id_ts_infos resp) c Hs)
    as (c1 & Hrun & _ & _ & _ & _ & (Htab & _ & Hent & _)).
  rewrite Hrun.
  destruct (tablets_by_id_ c1 !! tablet_id) as [remote|] eqn:Hknown.
  - unfold ById.refresh_known.
    destruct (RemoteTablet.Refresh (ts_cache_ c1) tablet (id_ts_infos resp) remote)
      as [[] remote'| |] eqn:Hr; try discriminate.
    cbn zeta. intros H. inversion H; subst e c'. clear H.
    rewrite Htab in Hknown. pose proof (Ht _ _ Hknown) as Hid.
    pose proof (RemoteTabletFacts.Refresh_done_fresh _ _ _ _ _ _ Hr) as (_ & Hid' & _ & _).
    destruct (entry_by_tablet_id_ c1 !! tablet_id) as [e0|] eqn:He0.
    + rewrite Hent in He0. destruct (He _ _ He0) as (exp0 & lo & up & ->).
      exists tablet, rest, c1, remote, remote', lo, up. cbn [default MetaCacheEntry.refresh_expiration_time].
      repeat split; assumption.
    + exists tablet, rest, c1, remote, remote', (partition_key_start remote'),
        (partition_key_end remote').
      cbn [default]. unfold MetaCacheEntry.of_tablet.
      cbn [MetaCacheEntry.refresh_expiration_time]. rewrite Hid', Hid.
      repeat split; assumption.
  - unfold ById.insert_new. cbn zeta.
    destruct (RemoteTablet.Refresh (ts_cache_ c1) tablet (id_ts_infos resp) _)
      as [[] remote'| |] eqn:Hr; try discriminate.
    destruct (entry_by_tablet_id_ c1 !! tablet_id) eqn:He0; [discriminate|].
    intros H. inversion H; subst e c'. clear H.
    pose proof (RemoteTabletFacts.Refresh_done_fresh _ _ _ _ _ _ Hr) as (_ & Hid' & _ & _).
    cbn [tablet_id_ RemoteTablet.make] in Hid'.
    exists tablet, rest, c1,
      (RemoteTablet.make tablet_id (pb_partition_key_start tablet) (pb_partition_key_end tablet)),
      remote', (partition_key_start remote'), (partition_key_end remote').
    unfold MetaCacheEntry.of_tablet. rewrite Hid'.
    repeat split; assumption.
Qed.

End ByIdFacts.

(** X14: an ingestion of a lookup by id that returns OK and the fast path by
    id.  The entry handed back is the entry of the tablet asked for, with the
    expiration time now plus the TTL; until that time
    [LookupEntryByIdFastPath] returns that entry, and [DoFastPathLookupById]
    returns OK with the tablet when the response gives some replica the role
    Leader and Incomplete when it gives none.  The other tablets and entries
    by id, the range maps of the tables and the permits are as before, and
    the indexes are still consistent. *)
Theorem by_id_lookup_round_trip (now : MonoTime) (ttl_ms : Z) (tablet_id : string)
    (resp : GetTabletLocationsResponsePB) (c : MetaCache) (e : MetaCacheEntry)
    (c' : MetaCache) (later : MonoTime) :
  Consistent.servers c -> Consistent.tablets c -> Consistent.entries c ->
  ById.ProcessGetTabletLocationsResponse now ttl_ms tablet_id resp c = Done e c' ->
  later <= now + FromMilliseconds ttl_ms ->
  exists tablet rest lo up,
    id_tablet_locations resp = tablet :: rest
    /\ e = TabletEntry (now + FromMilliseconds ttl_ms) tablet_id lo up
    /\ FastPathLookup.LookupEntryByIdFastPath later c' tablet_id = Some e
    /\ (LEADER ∈ Replicas.response_roles tablet ->
        FastPathLookup.DoFastPathLookupById later c' tablet_id
        = mkFastPath Status.OK "" (Some tablet_id))
    /\ (LEADER ∉ Replicas.response_roles tablet ->
        FastPathLookup.DoFastPathLookupById later c' tablet_id
        = mkFastPath (Status.Incomplete "") "" None)
    /\ (forall id, id <> tablet_id ->
          tablets_by_id_ c' !! id = tablets_by_id_ c !! id
          /\ entry_by_tablet_id_ c' !! id = entry_by_tablet_id_ c !! id)
    /\ tablets_by_table_and_key_ c' = tablets_by_table_and_key_ c
    /\ master_lookup_sem_ c' = master_lookup_sem_ c
    /\ Consistent.servers c' /\ Consistent.tablets c' /\ Consistent.entries c'.
Proof.
  intros Hs Ht He Hdone Hlater.
  destruct (ByIdFacts.ProcessGetTabletLocationsResponse_Done _ _ _ _ _ _ _ Hs Ht He Hdone)
    as (tablet & rest & c1 & remote & remote' & lo & up & Hlocs & Hrun & Hr & Hid & -> & ->).
  destruct (ServerFacts.update_servers_Some (id_ts_infos resp) c Hs)
    as (c1' & Hrun' & Hs1 & _ & _ & _ & (Htab & Hmaps & Hent & Hsem)).
  rewrite Hrun in Hrun'. inversion Hrun'; subst c1'. clear Hrun'.
  pose proof (RemoteTabletFacts.Refresh_done_fresh _ _ _ _ _ _ Hr) as (Hstale & Hid' & _ & _).
  pose proof (ByIdFacts.Refresh_HasLeader _ _ _ _ _ _ Hr) as Hleader.
  set (exp := now + FromMilliseconds ttl_ms) in *.
  assert (Hlookup :
    FastPathLookup.LookupEntryByIdFastPath later
      (MetaCache.with_entry_by_tablet_id
         (MetaCache.with_tablets_by_id c1 (<[tablet_id := remote']> (tablets_by_id_ c1)))
         (<[tablet_id := TabletEntry exp tablet_id lo up]> (entry_by_tablet_id_ c1)))
      tablet_id
    = Some (TabletEntry exp tablet_id lo up)).
  { unfold FastPathLookup.LookupEntryByIdFastPath.
    cbn [entry_by_tablet_id_ tablets_by_id_ MetaCache.with_entry_by_tablet_id
         MetaCache.with_tablets_by_id].
    rewrite lookup_insert_eq. unfold MetaCacheEntry.stale.
    cbn [MetaCacheEntry.expiration_time_ MetaCacheEntry.is_non_covered_range
         MetaCacheEntry.tablet_stale negb andb].
    rewrite lookup_insert_eq. unfold RemoteTablet.stale. rewrite Hstale, orb_false_r.
    now rewrite (proj2 (Z.ltb_ge exp later) Hlater). }
  exists tablet, rest, lo, up.
  split; [exact Hlocs|]. split; [reflexivity|]. split; [exact Hlookup|].
  split; [|split; [|split; [|split; [|split; [|split; [|split]]]]]].
  - intros Hl. unfold FastPathLookup.DoFastPathLookupById. rewrite Hlookup.
    cbn [MetaCacheEntry.tablet_HasLeader tablets_by_id_ MetaCache.with_entry_by_tablet_id
         MetaCache.with_tablets_by_id].
    rewrite lookup_insert_eq. now rewrite (proj2 Hleader Hl).
  - intros Hl. unfold FastPathLookup.DoFastPathLookupById. rewrite Hlookup.
    cbn [MetaCacheEntry.tablet_HasLeader tablets_by_id_ MetaCache.with_entry_by_tablet_id
         MetaCache.with_tablets_by_id].
    rewrite lookup_insert_eq.
    destruct (RemoteTablet.HasLeader remote') eqn:Hh; [|reflexivity].
    exfalso. apply Hl. now apply Hleader.
  - intros id Hne.
    cbn [entry_by_tablet_id_ tablets_by_id_ MetaCache.with_entry_by_tablet_id
         MetaCache.with_tablets_by_id].
    rewrite !lookup_insert_ne by congruence. now rewrite Htab, Hent.
  - exact Hmaps.
  - exact Hsem.
  - exact Hs1.
  - intros id t.
    cbn [tablets_by_id_ MetaCache.with_entry_by_tablet_id MetaCache.with_tablets_by_id].
    destruct (decide (tablet_id = id)) as [<- | Hne].
    + rewrite lookup_insert_eq. intros H. inversion H; subst t. congruence.
    + rewrite lookup_insert_ne by exact Hne. rewrite Htab. apply Ht.
  - intros id e0.
    cbn [entry_by_tablet_id_ MetaCache.with_entry_by_tablet_id MetaCache.with_tablets_by_id].
    destruct (decide (tablet_id = id)) as [<- | Hne].
    + rewrite lookup_insert_eq. intros H. inversion H; subst e0. eauto.
    + rewrite lookup_insert_ne by exact Hne. rewrite Hent. apply He.
Qed.

Lemma by_id_lookup_round_trip_witness :
  exists e c',
    ById.ProcessGetTabletLocationsResponse 0 FLAGS_client_tablet_locations_by_id_ttl_ms "B"
      (Scenario.response_by_id [Scenario.location "B" "c1" "c3"]) MetaCache.make
    = Done e c'
    /\ FastPathLookup.LookupEntryByIdFastPath 1000 c' "B" = Some e.
Proof.
  eexists _, _. split; [vm_compute; reflexivity|].
  assert (H1 : Consistent.servers MetaCache.make)
    by (split; intros u x H; cbn in H; rewrite lookup_empty in H; discriminate).
  assert (H2 : Consistent.tablets MetaCache.make)
    by (intros u x H; cbn in H; rewrite lookup_empty in H; discriminate).
  assert (H3 : Consistent.entries MetaCache.make)
    by (intros u x H; cbn in H; rewrite lookup_empty in H; discriminate).
  destruct (by_id_lookup_round_trip 0 FLAGS_client_tablet_locations_by_id_ttl_ms "B"
              (Scenario.response_by_id [Scenario.location "B" "c1" "c3"]) MetaCache.make
              _ _ 1000 H1 H2 H3 ltac:(vm_compute; reflexivity) ltac:(vm_compute; discriminate))
    as (tablet & rest & lo & up & _ & _ & Hlookup & _).
  exact Hlookup.
Defined.

(** ** What the ingestion of a table-locations response keeps *)
Module KeepFacts.
Import MetaCache Consistent.

Lemma refreshes_refl c : refreshes c c.
Proof. repeat split; auto. Qed.

Lemma refreshes_trans c1 c2 c3 : refreshes c1 c2 -> refreshes c2 c3 -> refreshes c1 c3.
Proof.
  intros (A1 & A2 & A3 & A4 & A5 & A6 & A7 & A8) (B1 & B2 & B3 & B4 & B5 & B6 & B7 & B8).
  repeat split; try congruence; auto.
Qed.

Lemma leaves_bind {A B} c (m : outcome ingest A) (k : A -> ingest -> outcome ingest B) :
  leaves (refreshes c) m ->
  (forall a st, leaves (refreshes st.1) (k a st)) ->
  leaves (refreshes c) (bind m k).
Proof.
  destruct m as [a st|s st|]; simpl; auto. intros Hm Hk.
  specialize (Hk a st). destruct (k a st); simpl in *; auto;
    eapply refreshes_trans; eassumption.
Qed.

Lemma leaves_lift_map c r c' :
  refreshes c c' -> leaves (refreshes c) (lift_map r c').
Proof. destruct r; simpl; auto. Qed.

(** The one way the ingestion changes a tablet: the result of a [Refresh]
    is stored under the id. *)
Lemma refreshes_store c id t u t' tservers locs_pb dict :
  RemoteTablet.Refresh tservers locs_pb dict t = Done u t' ->
  (tablets c -> tablet_id_ t = id) ->
  refreshes c (with_tablets_by_id c (<[id := t']> (tablets_by_id_ c))).
Proof.
  intros Hr Hid. pose proof (RefreshFacts.Refresh_Done _ _ _ _ _ _ Hr)
    as (_ & Hall & Hstale & Hid' & _ & _).
  repeat split; cbn [tablets_by_id_ with_tablets_by_id].
  - intros Ht id0 t0. cbn [tablets_by_id_ with_tablets_by_id].
    destruct (decide (id = id0)) as [<- | Hne].
    + rewrite lookup_insert_eq. intros H. inversion H; subst t0. rewrite Hid'. auto.
    + rewrite lookup_insert_ne by exact Hne. apply Ht.
  - intros id0 H0. destruct (decide (id = id0)) as [<- | Hne].
    + rewrite lookup_insert_eq. eauto.
    + now rewrite lookup_insert_ne by exact Hne.
  - intros id0 (t0 & H0 & Hf). unfold fresh_at. cbn [tablets_by_id_ with_tablets_by_id].
    destruct (decide (id = id0)) as [<- | Hne].
    + rewrite lookup_insert_eq. exists t'. split; [reflexivity|]. split; [exact Hstale|].
      apply (RefreshFacts.count_failed_fresh tservers). exact Hall.
    + rewrite lookup_insert_ne by exact Hne. eauto.
Qed.

Lemma insert_non_covered_keeps first last exp lower upper st :
  leaves (refreshes st.1) (insert_non_covered first last exp lower upper st).
Proof.
  unfold insert_non_covered. destruct (TabletMap.erase first last st.2); [|exact I].
  apply leaves_lift_map, refreshes_refl.
Qed.

Lemma refresh_known_tablet_keeps exp ts_infos tablet remote st :
  tablets_by_id_ st.1 !! pb_tablet_id tablet = Some remote ->
  leaves (refreshes st.1) (refresh_known_tablet exp ts_infos tablet remote st).
Proof.
  intros Hknown. unfold refresh_known_tablet. cbn zeta.
  destruct (RemoteTablet.Refresh (ts_cache_ st.1) tablet ts_infos remote)
    as [u remote'|s t|] eqn:Hr; [|apply refreshes_refl|exact I].
  assert (Hstep : refreshes st.1
            (with_tablets_by_id st.1 (<[pb_tablet_id tablet := remote']> (tablets_by_id_ st.1)))).
  { apply (refreshes_store _ _ _ _ _ _ _ _ Hr). intros Ht. now apply Ht. }
  destruct (TabletMap.FindOrNull st.2 (pb_partition_key_start tablet)); [exact Hstep|].
  now apply leaves_lift_map.
Qed.

Lemma insert_new_tablet_keeps exp ts_infos tablet st :
  leaves (refreshes st.1) (insert_new_tablet exp ts_infos tablet st).
Proof.
  unfold insert_new_tablet. cbn zeta.
  destruct (TabletMap.erase _ _ st.2) as [m|]; [|exact I].
  destruct (RemoteTablet.Refresh (ts_cache_ st.1) tablet ts_infos _)
    as [u remote'|s t|] eqn:Hr; [|apply refreshes_refl|exact I].
  apply leaves_lift_map. apply (refreshes_store _ _ _ _ _ _ _ _ Hr). reflexivity.
Qed.

Lemma process_tablet_keeps exp ts_infos tablet last_upper st :
  leaves (refreshes st.1) (process_tablet exp ts_infos tablet last_upper st).
Proof.
  unfold process_tablet. cbn zeta. apply leaves_bind.
  - destruct (last_upper <? pb_partition_key_start tablet)%key;
      [apply insert_non_covered_keeps | apply refreshes_refl].
  - intros [] st1. apply leaves_bind.
    + destruct (tablets_by_id_ st1.1 !! pb_tablet_id tablet) as [remote|] eqn:Hk.
      * now apply refresh_known_tablet_keeps.
      * apply insert_new_tablet_keeps.
    + intros [] st2. apply refreshes_refl.
Qed.

Lemma process_tablets_keeps exp ts_infos tablets : forall last_upper st,
  leaves (refreshes st.1) (process_tablets exp ts_infos tablets last_upper st).
Proof.
  induction tablets as [|tablet tablets IH]; intros last_upper st;
    cbn [process_tablets]; [apply refreshes_refl|].
  apply leaves_bind; [apply process_tablet_keeps|]. intros lu st1. apply IH.
Qed.

Lemma initial_non_covered_keeps exp key first_lower st :
  leaves (refreshes st.1) (initial_non_covered exp key first_lower st).
Proof.
  unfold initial_non_covered. destruct (key <? first_lower)%key;
    [apply insert_non_covered_keeps | apply refreshes_refl].
Qed.

Lemma trailing_non_covered_keeps exp count max last_upper st :
  leaves (refreshes st.1) (trailing_non_covered exp count max last_upper st).
Proof.
  unfold trailing_non_covered.
  destruct (negb (Key.empty last_upper) && (Z.of_nat count <? max));
    [apply insert_non_covered_keeps | apply refreshes_refl].
Qed.

(** After the servers of the response are registered, in a cache [c1], the
    rest of the branch only adds and refreshes tablets. *)
Lemma ingest_locations_keeps exp key resp max first st :
  Consistent.servers st.1 ->
  exists c1,
    update_servers (deprecated_ts_infos (tablet_locations resp) ++ ts_infos resp)%list st.1
    = Some c1
    /\ leaves (refreshes c1) (ingest_locations exp key resp max first st).
Proof.
  intros Hs. destruct (ServerFacts.update_servers_Some
    (deprecated_ts_infos (tablet_locations resp) ++ ts_infos resp)%list st.1 Hs)
    as (c1 & Hrun & _). exists c1. split; [exact Hrun|].
  unfold ingest_locations, ingest_tablets. rewrite Hrun.
  apply leaves_bind; [|intros lu st2; apply trailing_non_covered_keeps].
  apply leaves_bind.
  - apply (initial_non_covered_keeps exp key (pb_partition_key_start first) (c1, st.2)).
  - intros [] st1. apply process_tablets_keeps.
Qed.

Lemma stored_fresh c id t u t' tservers locs_pb dict :
  RemoteTablet.Refresh tservers locs_pb dict t = Done u t' ->
  fresh_at id (with_tablets_by_id c (<[id := t']> (tablets_by_id_ c))).
Proof.
  intros Hr. pose proof (RefreshFacts.Refresh_Done _ _ _ _ _ _ Hr)
    as (_ & Hall & Hstale & _).
  exists t'. cbn [tablets_by_id_ with_tablets_by_id]. rewrite lookup_insert_eq.
  split; [reflexivity|]. split; [exact Hstale|].
  apply (RefreshFacts.count_failed_fresh tservers). exact Hall.
Qed.

Lemma process_tablet_fresh exp ts_infos tablet last_upper st lu st' :
  process_tablet exp ts_infos tablet last_upper st = Done lu st' ->
  fresh_at (pb_tablet_id tablet) st'.1.
Proof.
  unfold process_tablet. cbn zeta. intros H.
  apply IngestFacts.bind_Done in H as ([] & st1 & _ & H).
  apply IngestFacts.bind_Done in H as ([] & st2 & H & Hret).
  inversion Hret; subst st2 lu. clear Hret.
  destruct (tablets_by_id_ st1.1 !! pb_tablet_id tablet) as [remote|].
  - unfold refresh_known_tablet in H. cbn zeta in H.
    destruct (RemoteTablet.Refresh (ts_cache_ st1.1) tablet ts_infos remote)
      as [u remote'|s t|] eqn:Hr; try discriminate.
    destruct (TabletMap.FindOrNull st1.2 (pb_partition_key_start tablet)).
    + inversion H; subst st'. cbn [fst]. apply (stored_fresh _ _ _ _ _ _ _ _ Hr).
    + apply IngestFacts.lift_map_Done in H as [_ ->]. apply (stored_fresh _ _ _ _ _ _ _ _ Hr).
  - unfold insert_new_tablet in H. cbn zeta in H.
    destruct (TabletMap.erase _ _ st1.2) as [m|]; [|discriminate].
    destruct (RemoteTablet.Refresh (ts_cache_ st1.1) tablet ts_infos _)
      as [u remote'|s t|] eqn:Hr; try discriminate.
    apply IngestFacts.lift_map_Done in H as [_ ->]. apply (stored_fresh _ _ _ _ _ _ _ _ Hr).
Qed.

Lemma process_tablets_fresh exp ts_infos tablets : forall last_upper st lu st',
  process_tablets exp ts_infos tablets last_upper st = Done lu st' ->
  forall tablet, tablet ∈ tablets -> fresh_at (pb_tablet_id tablet) st'.1.
Proof.
  induction tablets as [|t0 tablets IH]; intros last_upper st lu st' H tablet Hin;
    [inversion Hin|].
  cbn [process_tablets] in H. apply IngestFacts.bind_Done in H as (lu1 & st1 & H1 & H2).
  apply elem_of_cons in Hin as [-> | Hin]; [|now apply (IH _ _ _ _ H2)].
  pose proof (process_tablets_keeps exp ts_infos tablets lu1 st1) as Hk.
  rewrite H2 in Hk. cbn [leaves] in Hk.
  destruct Hk as (_ & _ & _ & _ & _ & _ & _ & Hfresh). apply Hfresh.
  now apply (process_tablet_fresh _ _ _ _ _ _ _ H1).
Qed.

(** The whole function: the servers are registered, which gives [c1], then
    tablets are added and refreshed, and the range map of the table is put
    back. *)
Lemma ProcessGetTableLocationsResponse_keeps now table key exact resp max c :
  Consistent.servers c ->
  exists c1,
    Consistent.servers c1 /\ Consistent.same_tablets c c1
    /\ (forall u, is_Some (ts_registry_ c !! u) -> is_Some (ts_registry_ c1 !! u))
    /\ match ProcessGetTableLocationsResponse now table key exact resp max c with
       | Done _ c' | Fail _ c' =>
           exists st', refreshes c1 st'.1 /\ c' = store_map table st'
       | Abort => True
       end.
Proof.
  intros Hs. unfold ProcessGetTableLocationsResponse. cbn zeta.
  destruct (tablet_locations resp) as [|first rest] eqn:Hlocs.
  - exists c. split; [exact Hs|]. split; [repeat split|]. split; [auto|].
    unfold ingest_empty. cbn [fst lift_map TabletMap.InsertOrDie TabletMap.FindOrNull].
    cbn [snd]. destruct (discovered_entry key exact _); [|exact I].
    eexists. split; [|reflexivity]. apply refreshes_refl.
  - set (st := (c, default [] (tablets_by_table_and_key_ c !! table_id table))).
    destruct (ServerFacts.update_servers_Some
      (deprecated_ts_infos (tablet_locations resp) ++ ts_infos resp)%list c Hs)
      as (c1 & Hrun & Hs1 & _ & _ & Hgrow & Hsame).
    destruct (ingest_locations_keeps (now + FromMilliseconds (ttl_millis resp)) key resp max
                first st Hs) as (c1' & Hrun' & Hk).
    cbn [fst st] in Hrun'. rewrite Hrun in Hrun'. inversion Hrun'; subst c1'. clear Hrun'.
    exists c1. split; [exact Hs1|]. split; [exact Hsame|]. split; [exact Hgrow|].
    destruct (ingest_locations _ key resp max first st) as [[] st'|s st'|]; cbn [leaves] in Hk.
    + destruct (discovered_entry key exact st'.2); [eauto | exact I].
    + eauto.
    + exact I.
Qed.

End KeepFacts.

(** X15: what [ProcessGetTableLocationsResponse] keeps, whatever status it
    returns.  The range maps of the other tables, the entries by id and the
    permits are as before; the range map of the table has its keys in
    increasing order, as it had; servers are still stored under their uuid
    and tablets under their id; no server leaves the registry, no tablet
    leaves the cache, and a tablet that was fresh (not stale, no failed
    replica) still is. *)
Theorem table_locations_ingestion_keeps (now : MonoTime) (table : KuduTable)
    (partition_key : string) (is_exact_lookup : bool) (resp : GetTableLocationsResponsePB)
    (max_returned_locations : Z) (c c' : MetaCache) :
  Consistent.servers c -> Consistent.tablets c ->
  TabletMap.sorted (default [] (tablets_by_table_and_key_ c !! table_id table)) = true ->
  Consistent.returned
    (MetaCache.ProcessGetTableLocationsResponse now table partition_key is_exact_lookup resp
       max_returned_locations c) = Some c' ->
  (forall t, t <> table_id table ->
             tablets_by_table_and_key_ c' !! t = tablets_by_table_and_key_ c !! t)
  /\ (exists m', tablets_by_table_and_key_ c' !! table_id table = Some m'
                 /\ TabletMap.sorted m' = true)
  /\ entry_by_tablet_id_ c' = entry_by_tablet_id_ c
  /\ master_lookup_sem_ c' = master_lookup_sem_ c
  /\ Consistent.servers c' /\ Consistent.tablets c'
  /\ (forall u, is_Some (ts_registry_ c !! u) -> is_Some (ts_registry_ c' !! u))
  /\ (forall id, is_Some (tablets_by_id_ c !! id) -> is_Some (tablets_by_id_ c' !! id))
  /\ (forall id, Consistent.fresh_at id c -> Consistent.fresh_at id c').
Proof.
  intros Hs Ht Hsorted Hret.
  pose proof (IngestFacts.ProcessGetTableLocationsResponse_sorted now table partition_key
                is_exact_lookup resp max_returned_locations c Hsorted) as Hsort.
  destruct (KeepFacts.ProcessGetTableLocationsResponse_keeps now table partition_key
              is_exact_lookup resp max_returned_locations c Hs)
    as (c1 & Hs1 & (Htab & Hmaps & Hent & Hsem) & Hgrow & Hk).
  assert (Hst : exists st', Consistent.refreshes c1 st'.1 /\ c' = MetaCache.store_map table st').
  { destruct (MetaCache.ProcessGetTableLocationsResponse _ _ _ _ _ _ _);
      cbn [Consistent.returned] in Hret; inversion Hret; subst; exact Hk. }
  assert (Hsort' : exists m', tablets_by_table_and_key_ c' !! table_id table = Some m'
                              /\ TabletMap.sorted m' = true).
  { destruct (MetaCache.ProcessGetTableLocationsResponse _ _ _ _ _ _ _);
      cbn [Consistent.returned] in Hret; inversion Hret; subst; exact Hsort. }
  destruct Hst as (st' & (R1 & R2 & R3 & R4 & R5 & R6 & R7 & R8) & ->).
  unfold MetaCache.store_map in *.
  cbn [ts_registry_ ts_cache_ tablets_by_id_ tablets_by_table_and_key_ entry_by_tablet_id_
       master_lookup_sem_ MetaCache.with_tablets_by_table_and_key] in *.
  split; [|split; [exact Hsort'|split; [congruence|split; [congruence|split; [|split; [|split; [|split]]]]]]].
  - intros t Hne. rewrite lookup_insert_ne by congruence. now rewrite R3, Hmaps.
  - destruct Hs1 as [Hreg Hcache].
    split; cbn [ts_registry_ ts_cache_ MetaCache.with_tablets_by_table_and_key].
    + rewrite R1. exact Hreg.
    + rewrite R1, R2. exact Hcache.
  - assert (Ht1 : Consistent.tablets c1).
    { intros id t. rewrite Htab. apply Ht. }
    specialize (R6 Ht1). intros id t.
    cbn [tablets_by_id_ MetaCache.with_tablets_by_table_and_key]. apply R6.
  - intros u Hu. rewrite R1. now apply Hgrow.
  - intros id Hid. apply R7. now rewrite Htab.
  - intros id (t & Hid & Hf). destruct (R8 id) as (t' & Hid' & Hf').
    + exists t. rewrite Htab. auto.
    + exists t'. auto.
Qed.

Lemma table_locations_ingestion_keeps_witness :
  exists m', tablets_by_table_and_key_ Scenario.cache_S1 !! "T" = Some m'
             /\ TabletMap.sorted m' = true.
Proof.
  assert (H1 : Consistent.servers MetaCache.make)
    by (split; intros u x H; cbn in H; rewrite lookup_empty in H; discriminate).
  assert (H2 : Consistent.tablets MetaCache.make)
    by (intros u x H; cbn in H; rewrite lookup_empty in H; discriminate).
  refine (proj1 (proj2 (table_locations_ingestion_keeps 0 Scenario.table_T "c" false
                          Scenario.response_S1 kFetchTabletsPerRangeLookup MetaCache.make
                          Scenario.cache_S1 H1 H2 _ _))).
  - reflexivity.
  - vm_compute. reflexivity.
Defined.

(** X16: when [ProcessGetTableLocationsResponse] returns OK every tablet of
    the response is in the cache under its id, not stale and without a
    failed replica, whatever it was before. *)
Theorem ingested_tablets_fresh (now : MonoTime) (table : KuduTable)
    (partition_key : string) (is_exact_lookup : bool) (resp : GetTableLocationsResponsePB)
    (max_returned_locations : Z) (c : MetaCache) (e : MetaCacheEntry) (c' : MetaCache) :
  MetaCache.ProcessGetTableLocationsResponse now table partition_key is_exact_lookup resp
    max_returned_locations c = Done e c' ->
  forall tablet, tablet ∈ tablet_locations resp ->
    exists t, tablets_by_id_ c' !! pb_tablet_id tablet = Some t
              /\ stale_ t = false /\ Replicas.GetNumFailedReplicas t = 0%nat.
Proof.
  unfold MetaCache.ProcessGetTableLocationsResponse. cbn zeta.
  destruct (tablet_locations resp) as [|first rest] eqn:Hlocs.
  - intros _ tablet Hin. inversion Hin.
  - rewrite <- Hlocs.
    destruct (MetaCache.ingest_locations _ partition_key resp max_returned_locations first _)
      as [[] st'|s st'|] eqn:Hing; try discriminate.
    destruct (MetaCache.discovered_entry partition_key is_exact_lookup st'.2); [|discriminate].
    intros H tablet Hin. inversion H; subst c'. clear H.
    unfold MetaCache.ingest_locations in Hing.
    apply IngestFacts.bind_Done in Hing as (lu & st2 & Hing & Htrail).
    apply IngestFacts.ingest_tablets_Done in Hing as (c1 & st1 & _ & Hproc).
    pose proof (KeepFacts.process_tablets_fresh _ _ _ _ _ _ _ Hproc tablet Hin) as Hfresh.
    pose proof (KeepFacts.trailing_non_covered_keeps
                  (now + FromMilliseconds (ttl_millis resp)) (length (tablet_locations resp))
                  max_returned_locations lu st2) as Hk.
    rewrite Htrail in Hk. cbn [Consistent.leaves] in Hk.
    destruct Hk as (_ & _ & _ & _ & _ & _ & _ & Hkeep).
    apply Hkeep in Hfresh. exact Hfresh.
Qed.

Lemma ingested_tablets_fresh_witness :
  exists t, tablets_by_id_ Scenario.cache_S1 !! "D" = Some t
            /\ stale_ t = false /\ Replicas.GetNumFailedReplicas t = 0%nat.
Proof.
  refine (ingested_tablets_fresh 0 Scenario.table_T "c" false Scenario.response_S1
            kFetchTabletsPerRangeLookup MetaCache.make
            (TabletEntry 60000000000 "B" "c1" "c3") Scenario.cache_S1 _
            (Scenario.location "D" "c5" "c7") _).
  - vm_compute. reflexivity.
  - right. left.
Defined.

(** ** Choosing a server *)
Module ChoiceFacts.
Import MetaCacheServerPicker.

Lemma guess_leader_None followers replicas :
  guess_leader followers replicas = None <-> forall s, s ∈ replicas -> s ∈ followers.
Proof.
  induction replicas as [|server replicas IH]; simpl.
  - split; [intros _ s Hs; inversion Hs | reflexivity].
  - destruct (bool_decide (server ∈ followers)) eqn:Hin.
    + apply bool_decide_eq_true in Hin. rewrite IH. split.
      * intros H s Hs. apply elem_of_cons in Hs as [-> | Hs]; auto.
      * intros H s Hs. apply H. now right.
    + apply bool_decide_eq_false in Hin. split; [discriminate|].
      intros H. exfalso. apply Hin, H. now left.
Qed.

Lemma MarkTServerAsFollower_servers x t :
  RemoteTablet.GetRemoteTabletServers (RemoteTablet.MarkTServerAsFollower x t)
  = RemoteTablet.GetRemoteTabletServers t.
Proof.
  apply ReplicaFacts.servers_map_same;
    [apply ReplicaFacts.mark_follower_ts | apply ReplicaFacts.mark_follower_failed].
Qed.

Lemma MarkTServerAsLeader_servers x t :
  RemoteTablet.GetRemoteTabletServers (RemoteTablet.MarkTServerAsLeader x t)
  = RemoteTablet.GetRemoteTabletServers t.
Proof.
  apply ReplicaFacts.servers_map_same;
    [apply RemoteTabletFacts.mark_leader_ts | apply RemoteTabletFacts.mark_leader_failed].
Qed.

Lemma MarkTServerAsLeader_leader x t :
  x ∈ RemoteTablet.GetRemoteTabletServers t ->
  RemoteTablet.LeaderTServer (RemoteTablet.MarkTServerAsLeader x t) = Some x.
Proof.
  unfold RemoteTablet.GetRemoteTabletServers. rewrite ReplicaFacts.servers_of_alive.
  intros (r & Hin & Hts & Hf). apply ReplicaFacts.first_leader_only.
  - intros r' Hin'. apply list_elem_of_fmap in Hin' as (r0 & -> & _).
    rewrite RemoteTabletFacts.mark_leader_role, RemoteTabletFacts.mark_leader_ts. tauto.
  - exists (RemoteTablet.mark_leader x r). split; [apply list_elem_of_fmap; eauto|].
    now rewrite RemoteTabletFacts.mark_leader_ts, RemoteTabletFacts.mark_leader_failed.
Qed.

Lemma LeaderTServer_alive t l :
  RemoteTablet.LeaderTServer t = Some l -> l ∈ RemoteTablet.GetRemoteTabletServers t.
Proof.
  intros Hl. apply ReplicaFacts.first_leader_in in Hl as (r & Hin & Hts & _ & Hf).
  apply ReplicaFacts.servers_of_alive. eauto.
Qed.

(** The tablet [select_leader] leaves has the servers and the stale flag it
    had. *)
Lemma select_leader_servers followers t :
  RemoteTablet.GetRemoteTabletServers (select_leader followers t).1
  = RemoteTablet.GetRemoteTabletServers t
  /\ stale_ (select_leader followers t).1 = stale_ t.
Proof.
  unfold select_leader, current_leader, next_leader, RemoteTablet.stale.
  destruct (stale_ t) eqn:Hst; cbn [negb]; [auto|].
  destruct (RemoteTablet.LeaderTServer t) as [l|]; [destruct (bool_decide (l ∈ followers))|];
    cbn [fst snd]; auto;
    destruct (guess_leader followers _) as [g|]; cbn [fst snd];
    rewrite ?MarkTServerAsLeader_servers, ?MarkTServerAsFollower_servers; auto.
Qed.

(** The server [select_leader] picks. *)
Lemma select_leader_picked followers t l :
  (select_leader followers t).2 = Some l ->
  stale_ t = false
  /\ (l ∈ RemoteTablet.GetRemoteTabletServers t)
  /\ (l ∉ followers)
  /\ RemoteTablet.LeaderTServer (select_leader followers t).1 = Some l.
Proof.
  unfold select_leader, current_leader, next_leader, RemoteTablet.stale.
  destruct (stale_ t) eqn:Hst; cbn [negb]; [discriminate|].
  destruct (RemoteTablet.LeaderTServer t) as [l0|] eqn:Hl0;
    [destruct (bool_decide (l0 ∈ followers)) eqn:Hin|]; cbn [fst snd].
  - destruct (guess_leader followers _) as [g|] eqn:Hg; cbn [fst snd]; [|discriminate].
    intros H. inversion H; subst g.
    apply PickerFacts.guess_leader_not_follower in Hg as [Hnot Hsrv].
    split; [reflexivity|]. split; [now rewrite MarkTServerAsFollower_servers in Hsrv|].
    split; [exact Hnot | now apply MarkTServerAsLeader_leader].
  - intros H. inversion H; subst l0. apply bool_decide_eq_false in Hin.
    split; [reflexivity|]. split; [now apply LeaderTServer_alive | auto].
  - destruct (guess_leader followers _) as [g|] eqn:Hg; cbn [fst snd]; [|discriminate].
    intros H. inversion H; subst g.
    apply PickerFacts.guess_leader_not_follower in Hg as [Hnot Hsrv].
    split; [reflexivity|]. split; [exact Hsrv|].
    split; [exact Hnot | now apply MarkTServerAsLeader_leader].
Qed.

(** When [select_leader] picks no server. *)
Lemma select_leader_none followers t :
  (select_leader followers t).2 = None
  <-> stale_ t = true
      \/ forall s, s ∈ RemoteTablet.GetRemoteTabletServers t -> s ∈ followers.
Proof.
  unfold select_leader, current_leader, next_leader, RemoteTablet.stale.
  destruct (stale_ t) eqn:Hst; cbn [negb]; [split; auto|].
  destruct (RemoteTablet.LeaderTServer t) as [l0|] eqn:Hl0;
    [destruct (bool_decide (l0 ∈ followers)) eqn:Hin|]; cbn [fst snd].
  - destruct (guess_leader followers _) as [g|] eqn:Hg; cbn [fst snd].
    + split; [discriminate|]. intros [H | H]; [discriminate|].
      apply PickerFacts.guess_leader_not_follower in Hg as [Hnot Hsrv].
      rewrite MarkTServerAsFollower_servers in Hsrv. exfalso. auto.
    + pose proof (proj1 (guess_leader_None _ _) Hg) as Hall.
      rewrite MarkTServerAsFollower_servers in Hall. split; auto.
  - apply bool_decide_eq_false in Hin. split; [discriminate|].
    intros [H | H]; [discriminate|]. exfalso. apply Hin, H. now apply LeaderTServer_alive.
  - destruct (guess_leader followers _) as [g|] eqn:Hg; cbn [fst snd].
    + split; [discriminate|]. intros [H | H]; [discriminate|].
      apply PickerFacts.guess_leader_not_follower in Hg as [Hnot Hsrv]. exfalso. auto.
    + pose proof (proj1 (guess_leader_None _ _) Hg) as Hall. split; auto.
Qed.

(** With at most one replica in the role Leader, the tablet that is left
    when no server is picked is stale or has no leader. *)
Lemma select_leader_none_no_leader followers t :
  (length (RemoteTablet.leaders t) <= 1)%nat ->
  (select_leader followers t).2 = None ->
  stale_ t = false ->
  RemoteTablet.LeaderTServer (select_leader followers t).1 = None.
Proof.
  unfold select_leader, current_leader, next_leader, RemoteTablet.stale,
    RemoteTablet.leaders.
  intros Hone. destruct (stale_ t) eqn:Hst; cbn [negb]; [discriminate|].
  destruct (RemoteTablet.LeaderTServer t) as [l0|] eqn:Hl0;
    [destruct (bool_decide (l0 ∈ followers)) eqn:Hin|]; cbn [fst snd].
  - destruct (guess_leader followers _) as [g|] eqn:Hg; cbn [fst snd]; [discriminate|].
    intros _ _. now apply ReplicaFacts.single_leader_mark_follower.
  - discriminate.
  - destruct (guess_leader followers _) as [g|] eqn:Hg; cbn [fst snd]; [discriminate|].
    intros _ _. exact Hl0.
Qed.

Lemma select_leader_identity followers t :
  tablet_id_ (select_leader followers t).1 = tablet_id_ t
  /\ partition_key_start (select_leader followers t).1 = partition_key_start t
  /\ partition_key_end (select_leader followers t).1 = partition_key_end t.
Proof.
  unfold select_leader, current_leader, next_leader.
  destruct (negb (RemoteTablet.stale t)); [|auto].
  destruct (RemoteTablet.LeaderTServer t) as [l|]; [destruct (bool_decide (l ∈ followers))|];
    cbn [fst snd]; auto;
    destruct (guess_leader followers _) as [g|]; cbn [fst snd]; auto.
Qed.

Lemma PickLeader_cases p :
  match (select_leader (followers_ p) (picker_tablet_ p)).2 with
  | Some l => (PickLeader p).2 = InitProxy l
  | None => (PickLeader p).2 = Choice.lookup_of p
  end.
Proof.
  unfold PickLeader, Choice.lookup_of. cbn [fst snd].
  destruct (select_leader_identity (followers_ p) (picker_tablet_ p)) as (Hid & Hlo & _).
  destruct (select_leader (followers_ p) (picker_tablet_ p)) as [t1 [l|]]; cbn [fst snd] in *;
    [reflexivity|].
  rewrite Hid, Hlo. reflexivity.
Qed.

(** A server without a replica that is not failed stays so and is not
    picked, whatever is called, as long as no other owner changes the
    tablet. *)
Lemma step_keeps_failed e p x :
  Choice.is_tablet_change e = false ->
  x ∉ RemoteTablet.GetRemoteTabletServers (picker_tablet_ p) ->
  (x ∉ RemoteTablet.GetRemoteTabletServers (picker_tablet_ (step e p).1))
  /\ (step e p).2 <> Some (InitProxy x).
Proof.
  assert (Hpick : forall q, x ∉ RemoteTablet.GetRemoteTabletServers (picker_tablet_ q) ->
            (x ∉ RemoteTablet.GetRemoteTabletServers (picker_tablet_ (PickLeader q).1))
            /\ (PickLeader q).2 <> InitProxy x).
  { intros q Hq. split.
    - unfold PickLeader. cbn [fst picker_tablet_ with_tablet].
      now rewrite (proj1 (select_leader_servers (followers_ q) (picker_tablet_ q))).
    - pose proof (PickLeader_cases q) as Hc.
      destruct (select_leader (followers_ q) (picker_tablet_ q)).2 as [l|] eqn:Hsel.
      + rewrite Hc. intros H. inversion H; subst l.
        apply select_leader_picked in Hsel as (_ & Hin & _). contradiction.
      + rewrite Hc. unfold Choice.lookup_of. destruct (picker_table_ q); discriminate. }
  intros He Hx. destruct e; cbn [step fst snd Choice.is_tablet_change] in *; try discriminate.
  - destruct (Hpick p Hx) as [H1 H2]. split; [exact H1|]. intros H. inversion H. contradiction.
  - split; [|discriminate]. unfold MarkServerFailed. cbn [picker_tablet_ with_tablet].
    unfold RemoteTablet.GetRemoteTabletServers, RemoteTablet.MarkReplicaFailed.
    cbn [replicas_ RemoteTablet.set_replicas].
    intros Hin. apply (proj1 (ReplicaFacts.servers_fail replica _ x)) in Hin as [_ Hin].
    contradiction.
  - split; [exact Hx | discriminate].
  - split; [exact Hx | discriminate].
  - unfold LookUpTabletCb. cbn zeta.
    destruct (negb (Status.ok status)); cbn [fst snd]; [split; [exact Hx | discriminate]|].
    destruct (Hpick (with_followers p ∅) Hx) as [H1 H2].
    split; [exact H1|]. intros H. inversion H. contradiction.
Qed.

Lemma run_keeps_failed calls : forall p x,
  forallb (fun e => negb (Choice.is_tablet_change e)) calls = true ->
  x ∉ RemoteTablet.GetRemoteTabletServers (picker_tablet_ p) ->
  InitProxy x ∉ (run calls p).2.
Proof.
  induction calls as [|e calls IH]; intros p x Hall Hx; simpl.
  - apply not_elem_of_nil.
  - simpl in Hall. apply andb_true_iff in Hall as [He Hall].
    apply negb_true_iff in He.
    destruct (step_keeps_failed e p x He Hx) as [Hx' Hpick].
    intros Hel. apply elem_of_app in Hel as [Hel | Hel].
    + destruct ((step e p).2) as [d|]; [|now apply not_elem_of_nil in Hel].
      apply list_elem_of_singleton in Hel. subst. now apply Hpick.
    + now apply (IH (step e p).1 x Hall Hx').
Qed.

End ChoiceFacts.

(** X17: the choice of [PickLeader] is sticky.  When it picks a server, the
    tablet was not stale, the server has a replica that is not failed and is
    not marked as a follower, it is the leader of the tablet afterwards, and
    a second [PickLeader] picks the same server and changes nothing. *)
Theorem PickLeader_sticky (p : MetaCacheServerPicker) (l : ts_ptr) :
  (MetaCacheServerPicker.PickLeader p).2 = InitProxy l ->
  let p' := (MetaCacheServerPicker.PickLeader p).1 in
  stale_ (picker_tablet_ p) = false
  /\ (l ∈ RemoteTablet.GetRemoteTabletServers (picker_tablet_ p))
  /\ (l ∉ followers_ p)
  /\ RemoteTablet.LeaderTServer (picker_tablet_ p') = Some l
  /\ followers_ p' = followers_ p
  /\ MetaCacheServerPicker.PickLeader p' = (p', InitProxy l).
Proof.
  intros Hpick. cbn zeta.
  pose proof (ChoiceFacts.PickLeader_cases p) as Hc.
  destruct (MetaCacheServerPicker.select_leader (followers_ p) (picker_tablet_ p)).2
    as [l0|] eqn:Hsel.
  - rewrite Hc in Hpick. inversion Hpick; subst l0. clear Hpick.
    pose proof (ChoiceFacts.select_leader_picked _ _ _ Hsel) as (Hst & Hin & Hnot & Hlead).
    pose proof (ChoiceFacts.select_leader_servers (followers_ p) (picker_tablet_ p))
      as [_ Hst'].
    split; [exact Hst|]. split; [exact Hin|]. split; [exact Hnot|].
    assert (Hp' : (MetaCacheServerPicker.PickLeader p).1
                  = MetaCacheServerPicker.with_tablet p
                      (MetaCacheServerPicker.select_leader (followers_ p) (picker_tablet_ p)).1)
      by reflexivity.
    rewrite Hp'.
    remember (MetaCacheServerPicker.select_leader (followers_ p) (picker_tablet_ p)).1
      as t' eqn:Ht'.
    cbn [picker_tablet_ followers_ MetaCacheServerPicker.with_tablet].
    split; [exact Hlead|]. split; [reflexivity|].
    assert (Hagain : MetaCacheServerPicker.select_leader (followers_ p) t' = (t', Some l)).
    { unfold MetaCacheServerPicker.select_leader, MetaCacheServerPicker.current_leader,
        RemoteTablet.stale.
      rewrite Hst', Hst, Hlead. cbn [negb].
      rewrite bool_decide_eq_false_2 by exact Hnot. reflexivity. }
    unfold MetaCacheServerPicker.PickLeader.
    cbn [picker_tablet_ followers_ picker_table_ MetaCacheServerPicker.with_tablet].
    rewrite Hagain. reflexivity.
  - rewrite Hc in Hpick. unfold Choice.lookup_of in Hpick.
    destruct (picker_table_ p); discriminate.
Qed.

Lemma PickLeader_sticky_witness :
  let p := mkMetaCacheServerPicker None Scenario.tablet_B {[ "r1" ]} in
  RemoteTablet.LeaderTServer (picker_tablet_ (MetaCacheServerPicker.PickLeader p).1)
  = Some "r2".
Proof.
  cbn zeta.
  refine (proj1 (proj2 (proj2 (proj2
    (PickLeader_sticky (mkMetaCacheServerPicker None Scenario.tablet_B {[ "r1" ]}) "r2" _))))).
  vm_compute. reflexivity.
Defined.

(** X18: [PickLeader] asks the master exactly when the tablet is stale or
    every server with a replica that is not failed is marked as a follower;
    the lookup is by the start key of the tablet when the picker has a table
    and by the id of the tablet when it has none.  The tablet it leaves is
    then stale or, when at most one of its replicas had the role Leader,
    without a leader; a cache that has this tablet under its id then does not
    answer with it: a fast path of that cache, by key or by id, that returns
    OK returns another tablet.  After [MarkResourceNotFound] the next
    [PickLeader] asks the master. *)
Theorem PickLeader_forces_lookup (p : MetaCacheServerPicker) :
  let r := MetaCacheServerPicker.PickLeader p in
  (Choice.is_lookup r.2 = true
   <-> stale_ (picker_tablet_ p) = true
       \/ forall s, s ∈ RemoteTablet.GetRemoteTabletServers (picker_tablet_ p) ->
                    s ∈ followers_ p)
  /\ (Choice.is_lookup r.2 = true -> r.2 = Choice.lookup_of p)
  /\ (Choice.is_lookup r.2 = true ->
      (length (RemoteTablet.leaders (picker_tablet_ p)) <= 1)%nat ->
      (stale_ (picker_tablet_ r.1) = true
       \/ RemoteTablet.HasLeader (picker_tablet_ r.1) = false)
      /\ forall now c,
           tablets_by_id_ c !! tablet_id_ (picker_tablet_ r.1) = Some (picker_tablet_ r.1) ->
           (forall table partition_key lookup_type fp,
              FastPathLookup.DoFastPathLookup now c table partition_key lookup_type = Some fp ->
              code (fp_status fp) = kOk ->
              fp_remote_tablet fp <> Some (tablet_id_ (picker_tablet_ r.1)))
           /\ (forall tablet_id,
                 code (fp_status (FastPathLookup.DoFastPathLookupById now c tablet_id)) = kOk ->
                 fp_remote_tablet (FastPathLookup.DoFastPathLookupById now c tablet_id)
                 <> Some (tablet_id_ (picker_tablet_ r.1))))
  /\ (forall replica,
        Choice.is_lookup
          (MetaCacheServerPicker.PickLeader
             (MetaCacheServerPicker.MarkResourceNotFound replica p)).2 = true).
Proof.
  cbn zeta.
  assert (Hlook : forall q,
            Choice.is_lookup (MetaCacheServerPicker.PickLeader q).2 = true
            <-> (MetaCacheServerPicker.select_leader (followers_ q) (picker_tablet_ q)).2
                = None).
  { intros q. pose proof (ChoiceFacts.PickLeader_cases q) as Hc.
    destruct (MetaCacheServerPicker.select_leader (followers_ q) (picker_tablet_ q)).2
      as [l|]; rewrite Hc.
    - split; discriminate.
    - unfold Choice.lookup_of. destruct (picker_table_ q); split; reflexivity. }
  split; [|split; [|split]].
  - rewrite Hlook. apply ChoiceFacts.select_leader_none.
  - intros H. apply Hlook in H. pose proof (ChoiceFacts.PickLeader_cases p) as Hc.
    now rewrite H in Hc.
  - intros H Hone. apply Hlook in H.
    assert (Hleft : stale_ (picker_tablet_ (MetaCacheServerPicker.PickLeader p).1) = true
                    \/ RemoteTablet.HasLeader
                         (picker_tablet_ (MetaCacheServerPicker.PickLeader p).1) = false).
    { unfold MetaCacheServerPicker.PickLeader.
      cbn [fst picker_tablet_ MetaCacheServerPicker.with_tablet].
      destruct (ChoiceFacts.select_leader_servers (followers_ p) (picker_tablet_ p))
        as [_ Hst].
      rewrite Hst. destruct (stale_ (picker_tablet_ p)) eqn:Hstale; [now left | right].
      unfold RemoteTablet.HasLeader.
      now rewrite (ChoiceFacts.select_leader_none_no_leader _ _ Hone H Hstale). }
    split; [exact Hleft|].
    set (t' := picker_tablet_ (MetaCacheServerPicker.PickLeader p).1) in *.
    intros now c Hheld.
    assert (Hfresh : forall exp lo up,
              MetaCacheEntry.stale now (tablets_by_id_ c) (TabletEntry exp (tablet_id_ t') lo up)
              = false ->
              MetaCacheEntry.tablet_HasLeader (tablets_by_id_ c)
                (TabletEntry exp (tablet_id_ t') lo up) = true ->
              False).
    { intros exp lo up. unfold MetaCacheEntry.stale.
      cbn [MetaCacheEntry.expiration_time_ MetaCacheEntry.is_non_covered_range
           MetaCacheEntry.tablet_stale MetaCacheEntry.tablet_HasLeader negb andb].
      rewrite Hheld, orb_false_iff. unfold RemoteTablet.stale. intros [_ Hst] Hh.
      destruct Hleft as [Hl | Hl]; congruence. }
    split.
    + intros table k lt fp Hfp Hok Hsame.
      unfold FastPathLookup.DoFastPathLookup in Hfp.
      pose proof (FastPathFacts.loop_ok_has_leader _ _ _ _ _ _ _ Hfp Hok)
        as (id' & t0 & Hr' & Ht0 & Hh).
      apply FastPathAnswer.loop_answer in Hfp as (_ & _ & Hans & _).
      destruct (Hans Hok) as (exp & id & lo & up & Hentry & Hr).
      apply FastPathFacts.LookupEntryByKeyFastPath_Some in Hentry as (_ & _ & _ & Hst & _).
      assert (id = tablet_id_ t') by congruence. subst id.
      assert (id' = tablet_id_ t') by congruence. subst id'.
      apply (Hfresh exp lo up Hst).
      cbn [MetaCacheEntry.tablet_HasLeader]. rewrite Ht0. exact Hh.
    + intros tablet_id. unfold FastPathLookup.DoFastPathLookupById,
        FastPathLookup.LookupEntryByIdFastPath.
      destruct (entry_by_tablet_id_ c !! tablet_id) as [e|]; [|discriminate].
      destruct (MetaCacheEntry.stale now (tablets_by_id_ c) e) eqn:Hst; [discriminate|].
      destruct e as [exp id lo up | exp lo up]; [|discriminate].
      destruct (MetaCacheEntry.tablet_HasLeader (tablets_by_id_ c) (TabletEntry exp id lo up))
        eqn:Hh; [|discriminate].
      cbn [fp_remote_tablet]. intros _ Hsame. inversion Hsame; subst id.
      exact (Hfresh exp lo up Hst Hh).
  - intros replica. apply Hlook. apply ChoiceFacts.select_leader_none. now left.
Qed.

(** X19: a server marked as failed is not picked again.  After
    [MarkServerFailed x], along any sequence of calls of the picker,
    completions of lookups included, in which no other owner changes the
    tablet, [PickLeader] never picks [x]. *)
Theorem failed_server_never_picked (calls : list MetaCacheServerPicker.call)
    (p : MetaCacheServerPicker) (x : ts_ptr) :
  forallb (fun e => negb (Choice.is_tablet_change e)) calls = true ->
  InitProxy x ∉ (MetaCacheServerPicker.run calls (MetaCacheServerPicker.MarkServerFailed x p)).2.
Proof.
  intros Hall. apply ChoiceFacts.run_keeps_failed; [exact Hall|].
  unfold MetaCacheServerPicker.MarkServerFailed.
  cbn [picker_tablet_ MetaCacheServerPicker.with_tablet].
  unfold RemoteTablet.GetRemoteTabletServers, RemoteTablet.MarkReplicaFailed.
  cbn [replicas_ RemoteTablet.set_replicas].
  intros Hin. apply (proj1 (ReplicaFacts.servers_fail x _ x)) in Hin as [Hne _].
  now apply Hne.
Qed.

Lemma failed_server_never_picked_witness :
  InitProxy "r1" ∉
    (MetaCacheServerPicker.run
       [ MetaCacheServerPicker.CallPickLeader;
         MetaCacheServerPicker.CallMarkReplicaNotLeader "r2";
         MetaCacheServerPicker.CallPickLeader;
         MetaCacheServerPicker.CallLookUpTabletCb Status.OK ]
       (MetaCacheServerPicker.MarkServerFailed "r1"
          (mkMetaCacheServerPicker None Scenario.tablet_B ∅))).2.
Proof.
  apply (failed_server_never_picked _ (mkMetaCacheServerPicker None Scenario.tablet_B ∅) "r1").
  reflexivity.
Defined.

(** ** Invalidation *)
Module InvalidationFacts.
Import FastPathLookup.

Lemma floor_in (m : TabletMap) k e :
  TabletMap.FindFloorOrNull m k = Some e -> exists k0, (k0, e) ∈ m.
Proof.
  revert e. induction m as [|[k1 e1] m IH]; intros e; simpl; [discriminate|].
  destruct (k1 <=? k)%key; [|discriminate].
  destruct (TabletMap.FindFloorOrNull m k) as [e'|].
  - intros H. inversion H; subst e'. destruct (IH e eq_refl) as [k0 Hin].
    exists k0. now right.
  - intros H. inversion H; subst e1. exists k1. now left.
Qed.

Lemma by_id_incomplete_or_ok now c tablet_id :
  code (fp_status (DoFastPathLookupById now c tablet_id)) = kOk ->
  exists id t, fp_remote_tablet (DoFastPathLookupById now c tablet_id) = Some id
               /\ tablets_by_id_ c !! id = Some t
               /\ RemoteTablet.HasLeader t = true.
Proof.
  unfold DoFastPathLookupById.
  destruct (LookupEntryByIdFastPath now c tablet_id) as [[exp id lo up | exp lo up]|];
    try discriminate.
  cbn [MetaCacheEntry.tablet_HasLeader].
  destruct (tablets_by_id_ c !! id) as [t|] eqn:Ht; [|discriminate].
  destruct (RemoteTablet.HasLeader t) eqn:Hh; [|discriminate].
  intros _. exists id, t. auto.
Qed.

Lemma HasLeader_Some t :
  RemoteTablet.HasLeader t = true -> exists l, RemoteTablet.LeaderTServer t = Some l.
Proof.
  unfold RemoteTablet.HasLeader. destruct (RemoteTablet.LeaderTServer t); [eauto | discriminate].
Qed.

End InvalidationFacts.

(** X20: after [ClearNonCoveredRangeEntries] the range map of the table has
    the entries of tablets it had, in their order, and no non-covered range,
    so that [DoFastPathLookup] on the table does not return NotFound; the
    range maps of the other tables and the rest of the cache are as
    before. *)
Theorem ClearNonCoveredRangeEntries_clears (table : KuduTable) (c : MetaCache) :
  let c' := Invalidation.ClearNonCoveredRangeEntries (table_id table) c in
  (forall now partition_key lookup_type fp,
     FastPathLookup.DoFastPathLookup now c' table partition_key lookup_type = Some fp ->
     code (fp_status fp) <> kNotFound)
  /\ (forall m, tablets_by_table_and_key_ c !! table_id table = Some m ->
        exists m', tablets_by_table_and_key_ c' !! table_id table = Some m'
                   /\ (forall kv, kv ∈ m'
                                  <-> kv ∈ m /\ MetaCacheEntry.is_non_covered_range kv.2 = false)
                   /\ (TabletMap.sorted m = true -> TabletMap.sorted m' = true))
  /\ (forall t, t <> table_id table ->
                tablets_by_table_and_key_ c' !! t = tablets_by_table_and_key_ c !! t)
  /\ tablets_by_id_ c' = tablets_by_id_ c
  /\ entry_by_tablet_id_ c' = entry_by_tablet_id_ c
  /\ ts_registry_ c' = ts_registry_ c
  /\ ts_cache_ c' = ts_cache_ c
  /\ master_lookup_sem_ c' = master_lookup_sem_ c.
Proof.
  cbn zeta. unfold Invalidation.ClearNonCoveredRangeEntries.
  destruct (tablets_by_table_and_key_ c !! table_id table) as [m|] eqn:Hm.
  - cbn [tablets_by_table_and_key_ tablets_by_id_ entry_by_tablet_id_ ts_registry_ ts_cache_
         master_lookup_sem_ MetaCache.with_tablets_by_table_and_key].
    split; [|split; [|split; [|repeat split]]].
    + intros now k lt fp Hfp Hcode. unfold FastPathLookup.DoFastPathLookup in Hfp.
      apply FastPathAnswer.loop_answer in Hfp as (_ & _ & _ & Hnf & _).
      destruct (Hnf Hcode) as (exp & lo & up & Hlook & _).
      apply FastPathFacts.LookupEntryByKeyFastPath_Some in Hlook as (m' & Hm' & Hfloor & _).
      cbn [tablets_by_table_and_key_ MetaCache.with_tablets_by_table_and_key] in Hm'.
      rewrite lookup_insert_eq in Hm'. inversion Hm'; subst m'.
      apply InvalidationFacts.floor_in in Hfloor as [k0 Hin].
      apply list_elem_of_In, filter_In in Hin as [_ Hnc]. discriminate.
    + intros m0 Hm0. inversion Hm0; subst m0. rewrite lookup_insert_eq. eexists.
      split; [reflexivity|]. split.
      * intros kv. rewrite !list_elem_of_In, filter_In, negb_true_iff. reflexivity.
      * apply TabletMapFacts.sorted_filter.
    + intros t Hne. now rewrite lookup_insert_ne by congruence.
  - split; [|split; [|repeat split]].
    + intros now k lt fp Hfp Hcode. unfold FastPathLookup.DoFastPathLookup in Hfp.
      apply FastPathAnswer.loop_answer in Hfp as (_ & _ & _ & Hnf & _).
      destruct (Hnf Hcode) as (exp & lo & up & Hlook & _).
      apply FastPathFacts.LookupEntryByKeyFastPath_Some in Hlook as (m' & Hm' & _).
      congruence.
    + intros m0 Hm0. discriminate.
Qed.

(** X21: after [ClearCache] every fast path is Incomplete, for every table,
    key and tablet id, so that the next lookup goes to the master.  The
    registry of servers and the permits are kept, and the indexes are
    consistent: a server that is seen again is found in the registry and
    updated there. *)
Theorem ClearCache_empties (c : MetaCache) :
  let c' := Invalidation.ClearCache c in
  (forall now table partition_key lookup_type,
     FastPathLookup.DoFastPathLookup now c' table partition_key lookup_type
     = Some (mkFastPath (Status.Incomplete "") partition_key None))
  /\ (forall now tablet_id,
        FastPathLookup.DoFastPathLookupById now c' tablet_id
        = mkFastPath (Status.Incomplete "") "" None)
  /\ ts_registry_ c' = ts_registry_ c
  /\ master_lookup_sem_ c' = master_lookup_sem_ c
  /\ (Consistent.servers c -> Consistent.servers c')
  /\ Consistent.tablets c' /\ Consistent.entries c' /\ Consistent.indexed c'
  /\ (Consistent.servers c -> forall pb,
        MetaCache.UpdateTabletServerUnlocked pb c'
        = Some (MetaCache.with_servers c'
                  (<[permanent_uuid pb := RemoteTabletServer.make pb]> (ts_registry_ c))
                  {[ permanent_uuid pb := permanent_uuid pb ]})).
Proof.
  cbn zeta.
  assert (Hs : Consistent.servers c -> Consistent.servers (Invalidation.ClearCache c)).
  { intros [Hreg _]. split; cbn [ts_registry_ ts_cache_ Invalidation.ClearCache].
    - exact Hreg.
    - intros u p0 H. rewrite lookup_empty in H. discriminate. }
  split; [|split; [|split; [|split; [|split; [|split; [|split; [|split]]]]]]].
  - intros now table k lt. unfold FastPathLookup.DoFastPathLookup, FastPathLookup.fuel_for.
    apply FastPathFacts.loop_no_map. apply lookup_empty.
  - intros now id. unfold FastPathLookup.DoFastPathLookupById,
      FastPathLookup.LookupEntryByIdFastPath.
    cbn [entry_by_tablet_id_ Invalidation.ClearCache]. now rewrite lookup_empty.
  - reflexivity.
  - reflexivity.
  - exact Hs.
  - intros id t H. cbn in H. rewrite lookup_empty in H. discriminate.
  - intros id e H. cbn in H. rewrite lookup_empty in H. discriminate.
  - intros id [e H]. cbn in H. rewrite lookup_empty in H. discriminate.
  - intros Hc pb.
    rewrite (ServerFacts.UpdateTabletServerUnlocked_upsert pb _ (Hs Hc)). reflexivity.
Qed.

(** X22: after [MarkTSFailed x] no tablet of the cache hands out [x], and no
    tablet has [x] as its leader, so that a fast path that returns OK returns
    a tablet whose leader is another server.  The tablets are the same ones,
    and the range maps, the entries by id, the servers and the permits are as
    before. *)
Theorem MarkTSFailed_excludes_server (x : ts_ptr) (c : MetaCache) :
  let c' := Invalidation.MarkTSFailed x c in
  (forall id t', tablets_by_id_ c' !! id = Some t' ->
     (x ∉ RemoteTablet.GetRemoteTabletServers t')
     /\ RemoteTablet.LeaderTServer t' <> Some x
     /\ exists t, tablets_by_id_ c !! id = Some t /\ tablet_id_ t' = tablet_id_ t
                  /\ stale_ t' = stale_ t)
  /\ (forall id, is_Some (tablets_by_id_ c' !! id) <-> is_Some (tablets_by_id_ c !! id))
  /\ (forall now table partition_key lookup_type fp,
        FastPathLookup.DoFastPathLookup now c' table partition_key lookup_type = Some fp ->
        code (fp_status fp) = kOk ->
        exists id t' l, fp_remote_tablet fp = Some id
                        /\ tablets_by_id_ c' !! id = Some t'
                        /\ RemoteTablet.LeaderTServer t' = Some l /\ l <> x)
  /\ (forall now tablet_id,
        code (fp_status (FastPathLookup.DoFastPathLookupById now c' tablet_id)) = kOk ->
        exists id t' l,
          fp_remote_tablet (FastPathLookup.DoFastPathLookupById now c' tablet_id) = Some id
          /\ tablets_by_id_ c' !! id = Some t'
          /\ RemoteTablet.LeaderTServer t' = Some l /\ l <> x)
  /\ tablets_by_table_and_key_ c' = tablets_by_table_and_key_ c
  /\ entry_by_tablet_id_ c' = entry_by_tablet_id_ c
  /\ ts_registry_ c' = ts_registry_ c
  /\ ts_cache_ c' = ts_cache_ c
  /\ master_lookup_sem_ c' = master_lookup_sem_ c.
Proof.
  cbn zeta.
  assert (Hmarked : forall id t',
            tablets_by_id_ (Invalidation.MarkTSFailed x c) !! id = Some t' ->
            (x ∉ RemoteTablet.GetRemoteTabletServers t')
            /\ RemoteTablet.LeaderTServer t' <> Some x
            /\ exists t, tablets_by_id_ c !! id = Some t /\ tablet_id_ t' = tablet_id_ t
                         /\ stale_ t' = stale_ t).
  { intros id t'. unfold Invalidation.MarkTSFailed.
    cbn [tablets_by_id_ MetaCache.with_tablets_by_id]. rewrite lookup_fmap.
    destruct (tablets_by_id_ c !! id) as [t|]; [|discriminate].
    cbn [fmap option_fmap option_map]. intros H. inversion H; subst t'. clear H.
    change (RemoteTablet.MarkReplicaFailed x t)
      with (RemoteTablet.set_replicas t (map (Replicas.fail x) (replicas_ t)) (stale_ t)).
    unfold RemoteTablet.GetRemoteTabletServers, RemoteTablet.LeaderTServer.
    cbn [replicas_ RemoteTablet.set_replicas].
    split; [|split].
    - intros Hin. apply (proj1 (ReplicaFacts.servers_fail x _ x)) in Hin as [Hne _].
      now apply Hne.
    - apply ReplicaFacts.first_leader_fail_other.
    - exists t. auto. }
  assert (Hleader : forall id t', tablets_by_id_ (Invalidation.MarkTSFailed x c) !! id = Some t' ->
            RemoteTablet.HasLeader t' = true ->
            exists l, RemoteTablet.LeaderTServer t' = Some l /\ l <> x).
  { intros id t' Ht' Hh. apply InvalidationFacts.HasLeader_Some in Hh as [l Hl].
    exists l. split; [exact Hl|]. intros ->. now apply (Hmarked id t' Ht'). }
  split; [exact Hmarked|]. split; [|split; [|split; [|repeat split]]].
  - intros id. unfold Invalidation.MarkTSFailed.
    cbn [tablets_by_id_ MetaCache.with_tablets_by_id]. rewrite lookup_fmap.
    destruct (tablets_by_id_ c !! id); cbn; split; intros [y H]; try discriminate; eauto.
  - intros now table k lt fp Hfp Hok. unfold FastPathLookup.DoFastPathLookup in Hfp.
    destruct (FastPathFacts.loop_ok_has_leader _ _ _ _ _ _ _ Hfp Hok) as (id & t' & Hr & Ht' & Hh).
    destruct (Hleader id t' Ht' Hh) as (l & Hl & Hne). exists id, t', l. auto.
  - intros now tablet_id Hok.
    destruct (InvalidationFacts.by_id_incomplete_or_ok _ _ _ Hok) as (id & t' & Hr & Ht' & Hh).
    destruct (Hleader id t' Ht' Hh) as (l & Hl & Hne). exists id, t', l. auto.
Qed.

(** ** The permits of the semaphore *)
Module PoolFacts.
Import MetaCache Consistent.

Lemma UpdateTabletServerUnlocked_sem pb c c1 :
  UpdateTabletServerUnlocked pb c = Some c1 -> master_lookup_sem_ c1 = master_lookup_sem_ c.
Proof.
  unfold UpdateTabletServerUnlocked.
  destruct (ts_cache_ c !! permanent_uuid pb).
  - destruct (update_server _ pb (ts_registry_ c)); [|discriminate].
    intros H. inversion H; reflexivity.
  - destruct (ts_registry_ c !! permanent_uuid pb).
    + destruct (update_server _ pb (ts_registry_ c)); [|discriminate].
      intros H. inversion H; reflexivity.
    + intros H. inversion H; reflexivity.
Qed.

Lemma update_servers_sem pbs : forall c c1,
  update_servers pbs c = Some c1 -> master_lookup_sem_ c1 = master_lookup_sem_ c.
Proof.
  induction pbs as [|pb pbs IH]; intros c c1; cbn [update_servers].
  - intros H. inversion H; reflexivity.
  - destruct (UpdateTabletServerUnlocked pb c) as [c0|] eqn:Hu; [|discriminate].
    intros H. rewrite (IH _ _ H). now apply UpdateTabletServerUnlocked_sem in Hu.
Qed.

Lemma leaves_sem {A} c (r : outcome ingest A) :
  leaves (refreshes c) r ->
  leaves (fun c' => master_lookup_sem_ c' = master_lookup_sem_ c) r.
Proof.
  destruct r as [a st|s st|]; cbn [leaves]; [| |auto];
    intros (_ & _ & _ & _ & H & _); exact H.
Qed.

Lemma ingest_locations_sem exp key resp max first st :
  leaves (fun c' => master_lookup_sem_ c' = master_lookup_sem_ st.1)
    (ingest_locations exp key resp max first st).
Proof.
  unfold ingest_locations, ingest_tablets.
  destruct (update_servers _ st.1) as [c1|] eqn:Hrun; [|exact I].
  rewrite <- (update_servers_sem _ _ _ Hrun). apply leaves_sem.
  apply KeepFacts.leaves_bind; [|intros lu st2; apply KeepFacts.trailing_non_covered_keeps].
  apply KeepFacts.leaves_bind.
  - apply (KeepFacts.initial_non_covered_keeps exp key (pb_partition_key_start first) (c1, st.2)).
  - intros [] st1. apply KeepFacts.process_tablets_keeps.
Qed.

(** The ingestion of a table-locations response leaves the semaphore alone,
    whatever the response and the cache are. *)
Lemma ProcessGetTableLocationsResponse_sem now table key exact resp max c c' :
  returned (ProcessGetTableLocationsResponse now table key exact resp max c) = Some c' ->
  master_lookup_sem_ c' = master_lookup_sem_ c.
Proof.
  unfold ProcessGetTableLocationsResponse. cbn zeta.
  destruct (tablet_locations resp) as [|first rest].
  - unfold ingest_empty. cbn [fst lift_map TabletMap.InsertOrDie TabletMap.FindOrNull].
    destruct (discovered_entry key exact _); cbn [returned]; [|discriminate].
    intros H. inversion H; reflexivity.
  - pose proof (ingest_locations_sem (now + FromMilliseconds (ttl_millis resp)) key resp max
                  first (c, default [] (tablets_by_table_and_key_ c !! table_id table))) as Hk.
    destruct (ingest_locations _ key resp max first _) as [[] st'|s st'|];
      cbn [leaves fst] in Hk.
    + destruct (discovered_entry key exact st'.2); cbn [returned]; [|discriminate].
      intros H. inversion H; subst c'. exact Hk.
    + cbn [returned]. intros H. inversion H; subst c'. exact Hk.
    + discriminate.
Qed.

Lemma ProcessGetTabletLocationsResponse_sem now ttl_ms tablet_id resp c c' :
  returned (ById.ProcessGetTabletLocationsResponse now ttl_ms tablet_id resp c) = Some c' ->
  master_lookup_sem_ c' = master_lookup_sem_ c.
Proof.
  unfold ById.ProcessGetTabletLocationsResponse. cbn zeta.
  destruct (id_tablet_locations resp) as [|tablet rest].
  - cbn [returned]. intros H. inversion H; reflexivity.
  - destruct (update_servers (id_ts_infos resp) c) as [c1|] eqn:Hrun; [|discriminate].
    apply update_servers_sem in Hrun. rewrite <- Hrun.
    destruct (tablets_by_id_ c1 !! tablet_id) as [remote|].
    + unfold ById.refresh_known.
      destruct (RemoteTablet.Refresh _ _ _ _); cbn [returned]; try discriminate;
        intros H; inversion H; reflexivity.
    + unfold ById.insert_new. cbn zeta.
      destruct (RemoteTablet.Refresh _ _ _ _); cbn [returned]; try discriminate.
      * destruct (entry_by_tablet_id_ c1 !! tablet_id); cbn [returned]; [discriminate|].
        intros H. inversion H; reflexivity.
      * intros H. inversion H; reflexivity.
Qed.

Lemma SendRpcSlowPath_balanced rpc c :
  Pool.balanced (Some rpc) c (LookupRpc.SendRpcSlowPath rpc c).
Proof.
  unfold Pool.balanced, LookupRpc.SendRpcSlowPath, AcquireMasterLookupPermit, Semaphore.TryAcquire.
  destruct (rpc_has_permit_ rpc) eqn:Hp; cbn [negb fst snd Pool.permit].
  - rewrite Hp. cbn [negb fst snd Pool.permit]. rewrite Hp. lia.
  - destruct (0 <? master_lookup_sem_ c) eqn:Hfree;
      cbn [negb fst snd Pool.permit rpc_has_permit_ LookupRpc.with_permit
           master_lookup_sem_ with_sem].
    + apply Z.ltb_lt in Hfree. rewrite Hp. lia.
    + rewrite Hp. lia.
Qed.

Lemma delete_after_balanced before rpc c :
  Pool.balanced (Some rpc) c (LookupRpc.delete_after before rpc c).
Proof.
  unfold Pool.balanced, LookupRpc.delete_after, LookupRpc.destroy, ReleaseMasterLookupPermit,
    Semaphore.Release.
  destruct (rpc_has_permit_ rpc) eqn:Hp;
    cbn [fst snd Pool.permit master_lookup_sem_ with_sem]; rewrite Hp; lia.
Qed.

Lemma balanced_sem rpc c c0 res :
  master_lookup_sem_ c0 = master_lookup_sem_ c -> Pool.balanced rpc c0 res -> Pool.balanced rpc c res.
Proof. unfold Pool.balanced. intros ->. auto. Qed.

Lemma enter_balanced e rpc c res :
  Pool.enter e rpc c = Some res -> Pool.balanced (Some rpc) c res.
Proof.
  destruct e as [now | | now retried status resp]; cbn [Pool.enter].
  - unfold LookupRpc.SendRpc.
    destruct (FastPathLookup.DoFastPathLookup _ _ _ _ _) as [fp|]; [|discriminate].
    destruct (negb (Status.IsIncomplete (fp_status fp))); intros H; inversion H; subst res.
    + apply (delete_after_balanced _ (LookupRpc.with_partition_key rpc (fp_partition_key fp))).
    + apply (SendRpcSlowPath_balanced (LookupRpc.with_partition_key rpc (fp_partition_key fp))).
  - intros H. inversion H; subst res. apply SendRpcSlowPath_balanced.
  - unfold LookupRpc.SendRpcCb.
    destruct (LookupRpc.RetryLookupIfNecessary retried status (error resp))
      as [[rescheduled new_status] log].
    destruct rescheduled.
    + intros H. inversion H; subst res. unfold Pool.balanced. cbn [fst snd]. lia.
    + destruct (Status.ok new_status).
      * pose proof (ProcessGetTableLocationsResponse_sem now (rpc_table_ rpc)
                      (rpc_partition_key_ rpc) (LookupRpc.is_exact_lookup rpc) resp
                      (LookupRpc.locations_to_fetch rpc) c) as Hsem.
        destruct (ProcessGetTableLocationsResponse _ _ _ _ _ _ _) as [en c'|s c'|];
          [| |discriminate]; specialize (Hsem c' eq_refl).
        -- destruct (MetaCacheEntry.is_non_covered_range en); intros H; inversion H; subst res;
             apply (balanced_sem _ _ c' _ Hsem), delete_after_balanced.
        -- cbn [LookupRpc.unset_entry MetaCacheEntry.is_non_covered_range].
           intros H. inversion H; subst res.
           apply (balanced_sem _ _ c' _ Hsem), delete_after_balanced.
      * intros H. inversion H; subst res. apply delete_after_balanced.
Qed.

Lemma LookupTabletByKey_balanced now c table key lookup_type wants vis res :
  LookupTabletByKey now c table key lookup_type wants vis = Some res ->
  Pool.balanced None c res.
Proof.
  unfold LookupTabletByKey.
  destruct (FastPathLookup.DoFastPathLookup _ _ _ _ _) as [fp|]; [|discriminate].
  destruct (negb (Status.IsIncomplete (fp_status fp))); intros H; inversion H; subst res.
  - unfold Pool.balanced. cbn [fst snd]. lia.
  - pose proof (SendRpcSlowPath_balanced
                  (LookupRpc.make table (fp_partition_key fp) wants lookup_type vis) c) as Hb.
    exact Hb.
Qed.

Lemma holders_app (p : Pool.pool) r :
  Pool.holders (p ++ [r])%list = Pool.holders p + Pool.permit r.
Proof. induction p as [|r0 p IH]; cbn [app Pool.holders]; lia. Qed.

Lemma holders_insert (p : list (option LookupRpc)) : forall (i : nat) r r',
  p !! i = Some r ->
  Pool.holders (<[i := r']> p) = Pool.holders p - Pool.permit r + Pool.permit r'.
Proof.
  induction p as [|r0 p IH]; intros i r r' Hi; [discriminate|].
  destruct i as [|i]; cbn in Hi.
  - inversion Hi; subst r0. change (<[0%nat := r']> (r :: p)) with (r' :: p).
    cbn [Pool.holders]. lia.
  - change (<[S i := r']> (r0 :: p)) with (r0 :: <[i := r']> p).
    cbn [Pool.holders]. rewrite (IH i r r' Hi). lia.
Qed.

Lemma holders_nonneg (p : Pool.pool) : 0 <= Pool.holders p.
Proof.
  induction p as [|r p IH]; cbn [Pool.holders]; [lia|].
  destruct r as [rpc|]; cbn [Pool.permit]; [destruct (rpc_has_permit_ rpc)|]; lia.
Qed.

Lemma step_balanced ev p c p' c' :
  Pool.step ev p c = Some (p', c') ->
  master_lookup_sem_ c' + Pool.holders p' = master_lookup_sem_ c + Pool.holders p
  /\ (0 <= master_lookup_sem_ c -> 0 <= master_lookup_sem_ c').
Proof.
  destruct ev as [now table key lt wants vis | i e | | server | tid]; cbn [Pool.step].
  - destruct (LookupTabletByKey now c table key lt wants vis) as [[[rpc c1] log]|] eqn:Hl;
      [|discriminate].
    intros H. inversion H; subst p' c'.
    apply LookupTabletByKey_balanced in Hl as [Hb Hn]. cbn [fst snd Pool.permit] in Hb, Hn.
    rewrite holders_app. split; [lia | exact Hn].
  - destruct (p !! i) as [[rpc|]|] eqn:Hi.
    + destruct (Pool.enter e rpc c) as [[[rpc1 c1] log]|] eqn:He; [|discriminate].
      intros H. inversion H; subst p' c'.
      apply enter_balanced in He as [Hb Hn]. cbn [fst snd] in Hb, Hn.
      unfold Pool.pool in *.
      rewrite (holders_insert p i (Some rpc) rpc1 Hi). split; [lia | exact Hn].
    + intros H. inversion H; subst. split; [reflexivity | auto].
    + intros H. inversion H; subst. split; [reflexivity | auto].
  - intros H. inversion H; subst. split; [reflexivity | auto].
  - intros H. inversion H; subst. split; [reflexivity | auto].
  - intros H. inversion H; subst p' c'.
    unfold Invalidation.ClearNonCoveredRangeEntries.
    destruct (tablets_by_table_and_key_ c !! tid); split; auto.
Qed.

Lemma run_balanced events : forall p c p' c',
  Pool.run events p c = Some (p', c') ->
  master_lookup_sem_ c' + Pool.holders p' = master_lookup_sem_ c + Pool.holders p
  /\ (0 <= master_lookup_sem_ c -> 0 <= master_lookup_sem_ c').
Proof.
  induction events as [|ev events IH]; intros p c p' c'; cbn [Pool.run].
  - intros H. inversion H; subst. split; [reflexivity | auto].
  - destruct (Pool.step ev p c) as [[p1 c1]|] eqn:Hs; [|discriminate].
    intros H. apply IH in H as [Hb Hn]. apply step_balanced in Hs as [Hb1 Hn1].
    split; [lia | auto].
Qed.

End PoolFacts.

(** X23: the permits of the key lookups that share a cache.  Along any
    interleaving of [LookupTabletByKey], of the pieces [SendRpc],
    [SendRpcSlowPath] and [SendRpcCb] of the lookups it started, and of the
    invalidations of the cache, the free permits of the semaphore and the
    permits the live lookups hold add up to what they were; the semaphore
    does not go below zero, so that the lookups never hold more permits than
    there were (50 for a new cache); and when every lookup is deleted all
    permits are back. *)
Theorem permits_bounded (events : list Pool.event) (p : Pool.pool) (c : MetaCache)
    (p' : Pool.pool) (c' : MetaCache) :
  Pool.run events p c = Some (p', c') ->
  master_lookup_sem_ c' + Pool.holders p' = master_lookup_sem_ c + Pool.holders p
  /\ (0 <= master_lookup_sem_ c ->
      0 <= master_lookup_sem_ c'
      /\ Pool.holders p' <= master_lookup_sem_ c + Pool.holders p)
  /\ (Forall (fun r => r = None) p' ->
      master_lookup_sem_ c' = master_lookup_sem_ c + Pool.holders p).
Proof.
  intros Hrun. apply PoolFacts.run_balanced in Hrun as [Hb Hn].
  split; [exact Hb|]. split.
  - intros H0. specialize (Hn H0). split; [exact Hn | lia].
  - intros Hall. assert (Hz : Pool.holders p' = 0).
    { clear Hb. induction Hall as [|r p0 -> _ IH]; cbn [Pool.holders Pool.permit]; lia. }
    lia.
Qed.

Lemma permits_bounded_witness :
  exists p' c',
    Pool.run [ Pool.Start 0 Scenario.table_T "c" kLowerBound true ALL;
               Pool.Start 0 Scenario.table_T "d" kPoint true ALL;
               Pool.Enter 0 (Pool.SendRpcCb 0 false Status.OK Scenario.response_S1) ]
      [] MetaCache.make = Some (p', c')
    /\ master_lookup_sem_ c' + Pool.holders p' = 50.
Proof.
  eexists _, _. split; [vm_compute; reflexivity|].
  refine (proj1 (permits_bounded
            [ Pool.Start 0 Scenario.table_T "c" kLowerBound true ALL;
              Pool.Start 0 Scenario.table_T "d" kPoint true ALL;
              Pool.Enter 0 (Pool.SendRpcCb 0 false Status.OK Scenario.response_S1) ]
            [] MetaCache.make _ _ _)).
  vm_compute. reflexivity.
Defined.

(** X24: lookups by id take no permit.  [LookupTabletById] and the pieces
    [SendRpc] and [SendRpcCb] of a [LookupRpcById] leave the semaphore as it
    is and neither acquire nor release a permit, whatever the cache and the
    response are. *)
Theorem id_lookups_take_no_permit (now : MonoTime) (c : MetaCache) :
  (forall tablet_id wants_tablet,
     let r := LookupTabletById now c tablet_id wants_tablet in
     master_lookup_sem_ r.1.2 = master_lookup_sem_ c
     /\ Lifetime.acquisitions r.2 = 0%nat /\ Lifetime.releases r.2 = 0%nat)
  /\ (forall rpc,
        let r := LookupRpcById.SendRpc now rpc c in
        master_lookup_sem_ r.1.2 = master_lookup_sem_ c
        /\ Lifetime.acquisitions r.2 = 0%nat /\ Lifetime.releases r.2 = 0%nat)
  /\ (forall ttl_ms retried status resp rpc r,
        LookupRpcById.SendRpcCb now ttl_ms retried status resp rpc c = Some r ->
        master_lookup_sem_ r.1.2 = master_lookup_sem_ c
        /\ Lifetime.acquisitions r.2 = 0%nat /\ Lifetime.releases r.2 = 0%nat).
Proof.
  split; [|split].
  - intros tablet_id wants. cbn zeta. unfold LookupTabletById, LookupRpcById.SendRpcSlowPath.
    destruct (negb (Status.IsIncomplete _)); repeat split.
  - intros rpc. cbn zeta. unfold LookupRpcById.SendRpc, LookupRpcById.SendRpcSlowPath.
    destruct (negb (Status.IsIncomplete _)); repeat split.
  - intros ttl_ms retried status resp rpc r. unfold LookupRpcById.SendRpcCb.
    assert (Hretry : forall q, LookupRpc.RetryLookupIfNecessary retried status (id_error resp) = q ->
              Lifetime.acquisitions q.2 = 0%nat /\ Lifetime.releases q.2 = 0%nat).
    { intros q <-. unfold LookupRpc.RetryLookupIfNecessary.
      destruct retried; [split; reflexivity|].
      destruct (id_error resp) as [e|]; [|split; reflexivity].
      destruct (Status.ok status); [|split; reflexivity].
      destruct (Status.IsServiceUnavailable e); split; reflexivity. }
    destruct (LookupRpc.RetryLookupIfNecessary retried status (id_error resp))
      as [[rescheduled new_status] log] eqn:Hr.
    specialize (Hretry _ eq_refl). cbn [snd] in Hretry.
    destruct rescheduled.
    + intros H. inversion H; subst r. cbn [fst snd]. split; [reflexivity | exact Hretry].
    + destruct (Status.ok new_status).
      * pose proof (PoolFacts.ProcessGetTabletLocationsResponse_sem now ttl_ms
                      (byid_tablet_id_ rpc) resp c) as Hsem.
        destruct (ById.ProcessGetTabletLocationsResponse _ _ _ _ _) as [e c'|s c'|];
          [| |discriminate]; specialize (Hsem c' eq_refl);
          intros H; inversion H; subst r; cbn [fst snd]; repeat split; exact Hsem.
      * intros H. inversion H; subst r. cbn [fst snd]. repeat split.
Qed.

(** X25: a fast path that returns OK returns a tablet that is in the cache,
    not stale and with a leader, from an entry that has not expired; for a
    lookup by key the entry is in the range map of the table and contains the
    key left in [*partition_key]. *)
Theorem fast_path_returns_fresh_tablet (now : MonoTime) (c : MetaCache) :
  (forall table partition_key lookup_type fp,
     FastPathLookup.DoFastPathLookup now c table partition_key lookup_type = Some fp ->
     code (fp_status fp) = kOk ->
     exists m k0 exp id lo up t,
       fp_remote_tablet fp = Some id
       /\ tablets_by_table_and_key_ c !! table_id table = Some m
       /\ (k0, TabletEntry exp id lo up) ∈ m
       /\ now <= exp
       /\ MetaCacheEntry.Contains (TabletEntry exp id lo up) (fp_partition_key fp) = true
       /\ tablets_by_id_ c !! id = Some t
       /\ stale_ t = false /\ RemoteTablet.HasLeader t = true)
  /\ (forall tablet_id,
        code (fp_status (FastPathLookup.DoFastPathLookupById now c tablet_id)) = kOk ->
        exists exp id lo up t,
          fp_remote_tablet (FastPathLookup.DoFastPathLookupById now c tablet_id) = Some id
          /\ entry_by_tablet_id_ c !! tablet_id = Some (TabletEntry exp id lo up)
          /\ now <= exp
          /\ tablets_by_id_ c !! id = Some t
          /\ stale_ t = false /\ RemoteTablet.HasLeader t = true).
Proof.
  assert (Hfresh : forall exp id lo up,
            MetaCacheEntry.stale now (tablets_by_id_ c) (TabletEntry exp id lo up) = false ->
            now <= exp /\ exists t, tablets_by_id_ c !! id = Some t /\ stale_ t = false).
  { intros exp id lo up. unfold MetaCacheEntry.stale.
    cbn [MetaCacheEntry.expiration_time_ MetaCacheEntry.is_non_covered_range
         MetaCacheEntry.tablet_stale negb andb].
    rewrite orb_false_iff, Z.ltb_ge. intros [Hexp Hst]. split; [exact Hexp|].
    destruct (tablets_by_id_ c !! id) as [t|]; [eauto | discriminate]. }
  split.
  - intros table k lt fp Hfp Hok. unfold FastPathLookup.DoFastPathLookup in Hfp.
    pose proof (FastPathFacts.loop_ok_has_leader _ _ _ _ _ _ _ Hfp Hok)
      as (id' & t' & Hr' & Ht' & Hh).
    apply FastPathAnswer.loop_answer in Hfp as (_ & _ & Hans & _).
    destruct (Hans Hok) as (exp & id & lo & up & Hlook & Hr).
    apply FastPathFacts.LookupEntryByKeyFastPath_Some in Hlook as (m & Hm & Hfloor & Hst & Hc).
    apply InvalidationFacts.floor_in in Hfloor as [k0 Hin].
    destruct (Hfresh _ _ _ _ Hst) as (Hexp & t & Ht & Hstale).
    assert (id' = id) by congruence. subst id'.
    assert (t' = t) by congruence. subst t'.
    exists m, k0, exp, id, lo, up, t. auto 10.
  - intros tablet_id. unfold FastPathLookup.DoFastPathLookupById,
      FastPathLookup.LookupEntryByIdFastPath.
    destruct (entry_by_tablet_id_ c !! tablet_id) as [e|]; [|discriminate].
    destruct (MetaCacheEntry.stale now (tablets_by_id_ c) e) eqn:Hst; [discriminate|].
    destruct e as [exp id lo up | exp lo up]; [|discriminate].
    destruct (Hfresh _ _ _ _ Hst) as (Hexp & t & Ht & Hstale).
    cbn [MetaCacheEntry.tablet_HasLeader]. rewrite Ht.
    destruct (RemoteTablet.HasLeader t) eqn:Hh; [|discriminate].
    intros _. exists exp, id, lo, up, t. auto 10.
Qed.

(** ** The user callback *)
Module CallbackFacts.
Import Callbacks.

Lemma callbacks_app l1 l2 : callbacks (l1 ++ l2) = (callbacks l1 + callbacks l2)%nat.
Proof. unfold callbacks. now rewrite List.filter_app, length_app. Qed.

Lemma RetryLookupIfNecessary_quiet retried status resp_error :
  callbacks (LookupRpc.RetryLookupIfNecessary retried status resp_error).2 = 0%nat.
Proof.
  unfold LookupRpc.RetryLookupIfNecessary.
  destruct retried; [reflexivity|]. destruct resp_error as [e|]; [|reflexivity].
  destruct (Status.ok status); [|reflexivity].
  destruct (Status.IsServiceUnavailable e); reflexivity.
Qed.

Lemma SendRpcSlowPath_once rpc c :
  once (LookupRpc.SendRpcSlowPath rpc c).1.1 (LookupRpc.SendRpcSlowPath rpc c).2.
Proof.
  unfold LookupRpc.SendRpcSlowPath, AcquireMasterLookupPermit, Semaphore.TryAcquire.
  destruct (rpc_has_permit_ rpc) eqn:Hp; cbn [negb fst snd].
  - rewrite Hp. reflexivity.
  - destruct (0 <? master_lookup_sem_ c); reflexivity.
Qed.

Lemma delete_after_once s tablet rpc c :
  once (LookupRpc.delete_after [UserCallback s tablet] rpc c).1.1
       (LookupRpc.delete_after [UserCallback s tablet] rpc c).2.
Proof.
  unfold LookupRpc.delete_after, LookupRpc.destroy.
  destruct (rpc_has_permit_ rpc); cbn [fst snd once];
    exists [], s, tablet; eexists; (split; [reflexivity|]); split; auto.
Qed.

Lemma step_once e rpc c res :
  Lifetime.step e rpc c = Some res -> once res.1.1 res.2.
Proof.
  destruct e as [now | | now retried status resp | c0]; cbn [Lifetime.step].
  - unfold LookupRpc.SendRpc.
    destruct (FastPathLookup.DoFastPathLookup _ _ _ _ _) as [fp|]; [|discriminate].
    destruct (negb (Status.IsIncomplete (fp_status fp))); intros H; inversion H; subst res.
    + apply delete_after_once.
    + apply SendRpcSlowPath_once.
  - intros H. inversion H; subst res. apply SendRpcSlowPath_once.
  - unfold LookupRpc.SendRpcCb.
    pose proof (RetryLookupIfNecessary_quiet retried status (error resp)) as Hq.
    destruct (LookupRpc.RetryLookupIfNecessary retried status (error resp))
      as [[rescheduled new_status] log].
    cbn [snd] in Hq. destruct rescheduled.
    + intros H. inversion H; subst res. exact Hq.
    + destruct (Status.ok new_status).
      * destruct (MetaCache.ProcessGetTableLocationsResponse _ _ _ _ _ _ _) as [en c'|s c'|];
          [| |discriminate].
        -- destruct (MetaCacheEntry.is_non_covered_range en); intros H; inversion H; subst res;
             apply delete_after_once.
        -- cbn [LookupRpc.unset_entry MetaCacheEntry.is_non_covered_range].
           intros H. inversion H; subst res. apply delete_after_once.
      * intros H. inversion H; subst res. apply delete_after_once.
  - intros H. inversion H; subst res. reflexivity.
Qed.

Lemma run_once calls : forall rpc c rpc' c' log,
  Lifetime.run calls (Some rpc) c = Some (rpc', c', log) -> once rpc' log.
Proof.
  induction calls as [|e calls IH]; intros rpc c rpc' c' log; cbn [Lifetime.run].
  - intros H. inversion H; subst. reflexivity.
  - destruct (Lifetime.step e rpc c) as [[[rpc1 c1] log1]|] eqn:Hstep; [|discriminate].
    apply step_once in Hstep. cbn [fst snd] in Hstep.
    destruct rpc1 as [r1|].
    + destruct (Lifetime.run calls (Some r1) c1) as [[[rpc2 c2] log2]|] eqn:Hrun; [|discriminate].
      intros H. inversion H; subst. apply IH in Hrun. cbn [once] in Hstep.
      destruct rpc' as [r2|]; cbn [once] in *.
      * rewrite callbacks_app. lia.
      * destruct Hrun as (before & s & tablet & after & -> & Hb & Ha).
        exists (log1 ++ before)%list, s, tablet, after.
        rewrite <- app_assoc. split; [reflexivity|]. rewrite callbacks_app. split; [lia | exact Ha].
    + assert (Hnone : Lifetime.run calls None c1 = Some (None, c1, []))
        by (destruct calls; reflexivity).
      rewrite Hnone. intros H. inversion H; subst. rewrite app_nil_r. exact Hstep.
Qed.

End CallbackFacts.

(** X26: a lookup calls the user callback once, when it is deleted.  Over
    the life of a key lookup, through any pieces [SendRpc], [SendRpcSlowPath]
    and [SendRpcCb], the callback has not been called while the lookup is
    alive; when the lookup is deleted the callback has been called exactly
    once, and after the call the lookup did nothing but give back its
    permit.  [LookupTabletByKey] either calls the callback and starts no
    lookup, or starts one that has not called it; the pieces of a lookup by
    id do the same. *)
Theorem callback_exactly_once (now : MonoTime) (c : MetaCache) :
  (forall calls rpc rpc' c' log,
     Lifetime.run calls (Some rpc) c = Some (rpc', c', log) -> Callbacks.once rpc' log)
  /\ (forall table partition_key lookup_type wants_tablet replica_visibility res,
        LookupTabletByKey now c table partition_key lookup_type wants_tablet replica_visibility
        = Some res ->
        Callbacks.once res.1.1 res.2)
  /\ (forall tablet_id wants_tablet,
        Callbacks.once (LookupTabletById now c tablet_id wants_tablet).1.1
          (LookupTabletById now c tablet_id wants_tablet).2)
  /\ (forall rpc, Callbacks.once (LookupRpcById.SendRpc now rpc c).1.1
                    (LookupRpcById.SendRpc now rpc c).2)
  /\ (forall ttl_ms retried status resp rpc res,
        LookupRpcById.SendRpcCb now ttl_ms retried status resp rpc c = Some res ->
        Callbacks.once res.1.1 res.2).
Proof.
  split; [|split; [|split; [|split]]].
  - intros calls rpc rpc' c' log. apply CallbackFacts.run_once.
  - intros table k lt wants vis res. unfold LookupTabletByKey.
    destruct (FastPathLookup.DoFastPathLookup _ _ _ _ _) as [fp|]; [|discriminate].
    destruct (negb (Status.IsIncomplete (fp_status fp))); intros H; inversion H; subst res.
    + cbn [fst snd Callbacks.once]. exists [], (fp_status fp). eexists. exists [].
      split; [reflexivity|]. split; [reflexivity | now left].
    + apply CallbackFacts.SendRpcSlowPath_once.
  - intros tablet_id wants. unfold LookupTabletById, LookupRpcById.SendRpcSlowPath.
    destruct (negb (Status.IsIncomplete _)); cbn [fst snd Callbacks.once]; [|reflexivity].
    eexists [], _, _, []. split; [reflexivity|]. split; [reflexivity | now left].
  - intros rpc. unfold LookupRpcById.SendRpc, LookupRpcById.SendRpcSlowPath.
    destruct (negb (Status.IsIncomplete _)); cbn [fst snd Callbacks.once]; [|reflexivity].
    eexists [], _, _, []. split; [reflexivity|]. split; [reflexivity | now left].
  - intros ttl_ms retried status resp rpc res. unfold LookupRpcById.SendRpcCb.
    pose proof (CallbackFacts.RetryLookupIfNecessary_quiet retried status (id_error resp)) as Hq.
    destruct (LookupRpc.RetryLookupIfNecessary retried status (id_error resp))
      as [[rescheduled new_status] log].
    cbn [snd] in Hq. destruct rescheduled.
    + intros H. inversion H; subst res. exact Hq.
    + destruct (Status.ok new_status).
      * destruct (ById.ProcessGetTabletLocationsResponse _ _ _ _ _) as [e c'|s c'|];
          [| |discriminate]; intros H; inversion H; subst res; cbn [fst snd Callbacks.once];
          eexists [], _, _, []; (split; [reflexivity|]); split; auto.
      * intros H. inversion H; subst res. cbn [fst snd Callbacks.once].
        eexists [], _, _, []. split; [reflexivity|]. split; [reflexivity | now left].
Qed.

(** ** The indexes stay consistent *)
Module ConsistentFacts.
Import Consistent.

Lemma make_all : all MetaCache.make.
Proof.
  split; [split|split; [|split; [|split]]].
  - intros u x H. cbn in H. rewrite lookup_empty in H. discriminate.
  - intros u x H. cbn in H. rewrite lookup_empty in H. discriminate.
  - intros u x H. cbn in H. rewrite lookup_empty in H. discriminate.
  - intros u x H. cbn in H. rewrite lookup_empty in H. discriminate.
  - intros u [x H]. cbn in H. rewrite lookup_empty in H. discriminate.
  - intros u x H. cbn in H. rewrite lookup_empty in H. discriminate.
Qed.

Lemma table_locations_all now table key exact resp max c c' :
  all c ->
  returned (MetaCache.ProcessGetTableLocationsResponse now table key exact resp max c)
  = Some c' ->
  all c'.
Proof.
  intros (Hs & Ht & He & Hi & Hm) Hret.
  assert (Hsorted : TabletMap.sorted (default [] (tablets_by_table_and_key_ c !! table_id table))
                    = true).
  { destruct (tablets_by_table_and_key_ c !! table_id table) as [m|] eqn:Hmap; [|reflexivity].
    apply (Hm _ _ Hmap). }
  pose proof (IngestFacts.ProcessGetTableLocationsResponse_sorted now table key exact resp max c
                Hsorted) as Hsort.
  destruct (KeepFacts.ProcessGetTableLocationsResponse_keeps now table key exact resp max c Hs)
    as (c1 & Hs1 & (Htab & Hmaps & Hent & Hsem) & Hgrow & Hk).
  destruct (MetaCache.ProcessGetTableLocationsResponse now table key exact resp max c)
    as [e c0|s c0|]; cbn [returned] in Hret; inversion Hret; subst c0; clear Hret;
    destruct Hk as (st' & (R1 & R2 & R3 & R4 & R5 & R6 & R7 & R8) & Hc');
    destruct Hsort as (m' & Hm' & Hsm');
    subst c'; unfold MetaCache.store_map in *;
    cbn [tablets_by_table_and_key_ MetaCache.with_tablets_by_table_and_key] in Hm';
    (split; [|split; [|split; [|split]]]).
  1, 6: destruct Hs1 as [Hreg Hcache];
        split; cbn [ts_registry_ ts_cache_ MetaCache.with_tablets_by_table_and_key];
        [rewrite R1; exact Hreg | rewrite R1, R2; exact Hcache].
  1, 5: intros id t; cbn [tablets_by_id_ MetaCache.with_tablets_by_table_and_key];
        apply R6; intros id0 t0; rewrite Htab; apply Ht.
  1, 4: intros id e0; cbn [entry_by_tablet_id_ MetaCache.with_tablets_by_table_and_key];
        rewrite R4, Hent; apply He.
  1, 3: intros id;
        cbn [entry_by_tablet_id_ tablets_by_id_ MetaCache.with_tablets_by_table_and_key];
        rewrite R4, Hent; intros Hid; apply R7; rewrite Htab; now apply Hi.
  1, 2: intros t m; cbn [tablets_by_table_and_key_ MetaCache.with_tablets_by_table_and_key];
        destruct (decide (table_id table = t)) as [<- | Hne];
        [rewrite Hm'; intros H; inversion H; subst m; exact Hsm'
        |rewrite lookup_insert_ne by exact Hne; rewrite R3, Hmaps; apply Hm].
Qed.

Lemma update_servers_all pbs c c1 :
  all c -> MetaCache.update_servers pbs c = Some c1 -> all c1.
Proof.
  intros (Hs & Ht & He & Hi & Hm) Hrun.
  destruct (ServerFacts.update_servers_Some pbs c Hs)
    as (c1' & Hrun' & Hs1 & _ & _ & _ & (Htab & Hmaps & Hent & Hsem)).
  rewrite Hrun in Hrun'. inversion Hrun'; subst c1'.
  split; [exact Hs1|]. split; [|split; [|split]].
  - intros id t. rewrite Htab. apply Ht.
  - intros id e. rewrite Hent. apply He.
  - intros id. rewrite Hent, Htab. apply Hi.
  - intros t m. rewrite Hmaps. apply Hm.
Qed.

(** The one change of a lookup by id: a refreshed tablet and its entry are
    stored under the id. *)
Lemma store_by_id_all c id t' e :
  all c -> tablet_id_ t' = id ->
  (exists expiration lower upper, e = TabletEntry expiration id lower upper) ->
  all (MetaCache.with_entry_by_tablet_id
         (MetaCache.with_tablets_by_id c (<[id := t']> (tablets_by_id_ c)))
         (<[id := e]> (entry_by_tablet_id_ c))).
Proof.
  intros (Hs & Ht & He & Hi & Hm) Hid Hentry.
  split; [exact Hs|]. split; [|split; [|split]];
    cbn [tablets_by_id_ entry_by_tablet_id_ tablets_by_table_and_key_
         MetaCache.with_entry_by_tablet_id MetaCache.with_tablets_by_id].
  - intros id0 t0.
    cbn [tablets_by_id_ MetaCache.with_entry_by_tablet_id MetaCache.with_tablets_by_id].
    destruct (decide (id = id0)) as [<- | Hne].
    + rewrite lookup_insert_eq. intros H. inversion H; subst t0. exact Hid.
    + rewrite lookup_insert_ne by exact Hne. apply Ht.
  - intros id0 e0.
    cbn [entry_by_tablet_id_ MetaCache.with_entry_by_tablet_id MetaCache.with_tablets_by_id].
    destruct (decide (id = id0)) as [<- | Hne].
    + rewrite lookup_insert_eq. intros H. inversion H; subst e0. exact Hentry.
    + rewrite lookup_insert_ne by exact Hne. apply He.
  - intros id0.
    cbn [tablets_by_id_ entry_by_tablet_id_ MetaCache.with_entry_by_tablet_id
         MetaCache.with_tablets_by_id].
    destruct (decide (id = id0)) as [<- | Hne].
    + rewrite !lookup_insert_eq. eauto.
    + rewrite !lookup_insert_ne by exact Hne. apply Hi.
  - exact Hm.
Qed.

Lemma tablet_locations_all now ttl_ms tablet_id resp c c' :
  all c ->
  returned (ById.ProcessGetTabletLocationsResponse now ttl_ms tablet_id resp c) = Some c' ->
  all c'.
Proof.
  intros Hall. unfold ById.ProcessGetTabletLocationsResponse. cbn zeta.
  destruct (id_tablet_locations resp) as [|tablet rest].
  - cbn [returned]. intros H. inversion H; subst c'. exact Hall.
  - destruct (MetaCache.update_servers (id_ts_infos resp) c) as [c1|] eqn:Hrun; [|discriminate].
    pose proof (update_servers_all _ _ _ Hall Hrun) as Hall1.
    pose proof Hall1 as (Hs & Ht & He & Hi & Hm).
    destruct (tablets_by_id_ c1 !! tablet_id) as [remote|] eqn:Hknown.
    + unfold ById.refresh_known.
      destruct (RemoteTablet.Refresh _ _ _ _) as [[] remote'|s t|] eqn:Hr; cbn [returned];
        [| |discriminate]; intros H; inversion H; subst c'; [|exact Hall1].
      pose proof (RemoteTabletFacts.Refresh_done_fresh _ _ _ _ _ _ Hr) as (_ & Hid' & _ & _).
      pose proof (Ht _ _ Hknown) as Hid.
      apply store_by_id_all; [exact Hall1 | congruence |].
      destruct (entry_by_tablet_id_ c1 !! tablet_id) as [e0|] eqn:He0; cbn [default].
      * destruct (He _ _ He0) as (exp0 & lo & up & ->).
        cbn [MetaCacheEntry.refresh_expiration_time]. eauto.
      * unfold MetaCacheEntry.of_tablet. cbn [MetaCacheEntry.refresh_expiration_time].
        rewrite Hid', Hid. eauto.
    + unfold ById.insert_new. cbn zeta.
      destruct (RemoteTablet.Refresh _ _ _ _) as [[] remote'|s t|] eqn:Hr; cbn [returned];
        [| |discriminate].
      * destruct (entry_by_tablet_id_ c1 !! tablet_id); cbn [returned]; [discriminate|].
        intros H. inversion H; subst c'.
        pose proof (RemoteTabletFacts.Refresh_done_fresh _ _ _ _ _ _ Hr) as (_ & Hid' & _ & _).
        cbn [tablet_id_ RemoteTablet.make] in Hid'.
        apply store_by_id_all; [exact Hall1 | exact Hid' |].
        unfold MetaCacheEntry.of_tablet. rewrite Hid'. eauto.
      * intros H. inversion H; subst c'. exact Hall1.
Qed.

Lemma ClearNonCoveredRangeEntries_all tid c :
  all c -> all (Invalidation.ClearNonCoveredRangeEntries tid c).
Proof.
  intros (Hs & Ht & He & Hi & Hm). unfold Invalidation.ClearNonCoveredRangeEntries.
  destruct (tablets_by_table_and_key_ c !! tid) as [m|] eqn:Hmap;
    [|exact (conj Hs (conj Ht (conj He (conj Hi Hm))))].
  split; [exact Hs|]. split; [exact Ht|]. split; [exact He|]. split; [exact Hi|].
  intros t m0. cbn [tablets_by_table_and_key_ MetaCache.with_tablets_by_table_and_key].
  destruct (decide (tid = t)) as [<- | Hne].
  - rewrite lookup_insert_eq. intros H. inversion H; subst m0.
    apply TabletMapFacts.sorted_filter. apply (Hm _ _ Hmap).
  - rewrite lookup_insert_ne by exact Hne. apply Hm.
Qed.

Lemma ClearCache_all c : all c -> all (Invalidation.ClearCache c).
Proof.
  intros ((Hreg & _) & _). split; [split|split; [|split; [|split]]].
  - exact Hreg.
  - intros u x H. cbn in H. rewrite lookup_empty in H. discriminate.
  - intros u x H. cbn in H. rewrite lookup_empty in H. discriminate.
  - intros u x H. cbn in H. rewrite lookup_empty in H. discriminate.
  - intros u [x H]. cbn in H. rewrite lookup_empty in H. discriminate.
  - intros u x H. cbn in H. rewrite lookup_empty in H. discriminate.
Qed.

Lemma MarkTSFailed_all x c : all c -> all (Invalidation.MarkTSFailed x c).
Proof.
  intros (Hs & Ht & He & Hi & Hm). unfold Invalidation.MarkTSFailed.
  split; [exact Hs|]. split; [|split; [exact He|split; [|exact Hm]]].
  - intros id t. cbn [tablets_by_id_ MetaCache.with_tablets_by_id]. rewrite lookup_fmap.
    destruct (tablets_by_id_ c !! id) as [t0|] eqn:Ht0; [|discriminate].
    cbn. intros H. inversion H; subst t. cbn. apply (Ht _ _ Ht0).
  - intros id Hid. cbn [tablets_by_id_ entry_by_tablet_id_ MetaCache.with_tablets_by_id] in *.
    rewrite lookup_fmap. destruct (Hi id Hid) as [t0 ->]. cbn. eauto.
Qed.

Lemma apply_all o c c' : all c -> Operation.apply o c = Some c' -> all c'.
Proof.
  intros Hall. destruct o; cbn [Operation.apply].
  - now apply table_locations_all.
  - now apply tablet_locations_all.
  - intros H. inversion H. now apply ClearNonCoveredRangeEntries_all.
  - intros H. inversion H. now apply ClearCache_all.
  - intros H. inversion H. now apply MarkTSFailed_all.
Qed.

End ConsistentFacts.

(** X27: the indexes of the cache stay consistent.  In the cache the
    constructor makes, and after any sequence of ingestions of responses (by
    key and by id, whatever status they return) and of invalidations
    ([ClearNonCoveredRangeEntries], [ClearCache], [MarkTSFailed]): a server
    is stored under its uuid and the cache of servers points into the
    registry, a tablet is stored under its id, the entry kept for a tablet id
    is an entry of that tablet and its tablet is in the cache, and every
    range map has its keys in increasing order. *)
Theorem cache_stays_consistent (ops : list Operation.op) (c c' : MetaCache) :
  Consistent.all MetaCache.make
  /\ (Consistent.all c -> Operation.run ops c = Some c' -> Consistent.all c').
Proof.
  split; [apply ConsistentFacts.make_all|].
  revert c. induction ops as [|o ops IH]; intros c Hall; cbn [Operation.run].
  - intros H. inversion H; subst. exact Hall.
  - destruct (Operation.apply o c) as [c1|] eqn:Ha; [|discriminate].
    apply IH. now apply (ConsistentFacts.apply_all o c).
Qed.

(** X28: the ingestion of a lookup by id returns.  With consistent indexes
    and a response whose tablets name their servers through the dictionary
    only (no old-style replica), [ProcessGetTabletLocationsResponse] fails
    none of its checks; when the response has a tablet and every
    [ts_info_idx] is below the size of the dictionary it returns OK. *)
Theorem by_id_ingestion_returns (now : MonoTime) (ttl_ms : Z) (tablet_id : string)
    (resp : GetTabletLocationsResponsePB) (c : MetaCache) :
  Consistent.all c ->
  (forall tablet, tablet ∈ id_tablet_locations resp -> deprecated_replicas tablet = []) ->
  ById.ProcessGetTabletLocationsResponse now ttl_ms tablet_id resp c <> Abort
  /\ (forall tablet rest,
        id_tablet_locations resp = tablet :: rest ->
        Forall (fun r => (ts_info_idx r < N.of_nat (length (id_ts_infos resp)))%N)
               (interned_replicas tablet) ->
        exists e c',
          ById.ProcessGetTabletLocationsResponse now ttl_ms tablet_id resp c = Done e c').
Proof.
  intros Hall Hnew. pose proof Hall as (Hs & _).
  unfold ById.ProcessGetTabletLocationsResponse. cbn zeta.
  destruct (id_tablet_locations resp) as [|tablet rest] eqn:Hlocs.
  - split; [discriminate|]. intros tablet rest H. discriminate.
  - destruct (ServerFacts.update_servers_Some (id_ts_infos resp) c Hs)
      as (c1 & Hrun & _ & Hcache & _).
    rewrite Hrun.
    pose proof (ConsistentFacts.update_servers_all _ _ _ Hall Hrun) as (_ & _ & _ & Hi1 & _).
    assert (Hk : Known.servers_known (ts_cache_ c1) tablet (id_ts_infos resp)).
    { apply ServerFacts.interned_only_known.
      - intros u Hu. apply Hcache. now right.
      - apply Hnew. now left. }
    assert (Hfree : tablets_by_id_ c1 !! tablet_id = None ->
                    entry_by_tablet_id_ c1 !! tablet_id = None).
    { intros Hnone. destruct (entry_by_tablet_id_ c1 !! tablet_id) as [e0|] eqn:He0;
        [|reflexivity].
      destruct (Hi1 tablet_id (ex_intro _ e0 He0)) as [t Ht]. congruence. }
    split.
    + destruct (tablets_by_id_ c1 !! tablet_id) as [remote|] eqn:Hknown.
      * unfold ById.refresh_known.
        pose proof (ServerFacts.Refresh_runs _ _ _ remote Hk) as Hr.
        destruct (RemoteTablet.Refresh _ _ _ remote); [discriminate | discriminate | contradiction].
      * unfold ById.insert_new. cbn zeta. rewrite (Hfree eq_refl).
        pose proof (ServerFacts.Refresh_runs _ _ _
                      (RemoteTablet.make tablet_id (pb_partition_key_start tablet)
                         (pb_partition_key_end tablet)) Hk) as Hr.
        destruct (RemoteTablet.Refresh _ _ _ _); [discriminate | discriminate | contradiction].
    + intros tablet0 rest0 H Hv. inversion H; subst tablet0 rest0. clear H.
      destruct (tablets_by_id_ c1 !! tablet_id) as [remote|] eqn:Hknown.
      * unfold ById.refresh_known.
        destruct (ServerFacts.Refresh_valid _ _ _ remote Hk Hv) as [t' ->]. eauto.
      * unfold ById.insert_new. cbn zeta. rewrite (Hfree eq_refl).
        destruct (ServerFacts.Refresh_valid _ _ _
                    (RemoteTablet.make tablet_id (pb_partition_key_start tablet)
                       (pb_partition_key_end tablet)) Hk Hv) as [t' ->]. eauto.
Qed.

Lemma by_id_ingestion_returns_witness :
  ById.ProcessGetTabletLocationsResponse 0 FLAGS_client_tablet_locations_by_id_ttl_ms "B"
    (Scenario.response_by_id [Scenario.location "B" "c1" "c3"]) Scenario.cache_S1
  <> Abort.
Proof.
  refine (proj1 (by_id_ingestion_returns 0 FLAGS_client_tablet_locations_by_id_ttl_ms "B"
                   (Scenario.response_by_id [Scenario.location "B" "c1" "c3"])
                   Scenario.cache_S1 _ _)).
  - refine (ConsistentFacts.table_locations_all 0 Scenario.table_T "c" false
              Scenario.response_S1 kFetchTabletsPerRangeLookup MetaCache.make
              Scenario.cache_S1 ConsistentFacts.make_all _).
    vm_compute. reflexivity.
  - intros tablet Hin. apply list_elem_of_singleton in Hin. subst tablet. reflexivity.
Defined.

(** X29: what the completion of a lookup does to the picker.
    [LookUpTabletCb] forgets the followers whatever the status is.  With a
    status that is not OK it picks nothing and leaves the tablet alone.  With
    OK it picks again: when the tablet is not stale and has a replica that is
    not failed it picks a server, one that was marked as a follower
    included, which is the leader of the tablet afterwards; otherwise it asks
    the master again. *)
Theorem LookUpTabletCb_picks_again (status : Status) (p : MetaCacheServerPicker) :
  let r := MetaCacheServerPicker.LookUpTabletCb status p in
  followers_ r.1 = ∅
  /\ (Status.ok status = false -> r.2 = None /\ picker_tablet_ r.1 = picker_tablet_ p)
  /\ (Status.ok status = true ->
      stale_ (picker_tablet_ p) = false ->
      RemoteTablet.GetRemoteTabletServers (picker_tablet_ p) <> [] ->
      exists l, r.2 = Some (InitProxy l)
                /\ (l ∈ RemoteTablet.GetRemoteTabletServers (picker_tablet_ p))
                /\ RemoteTablet.LeaderTServer (picker_tablet_ r.1) = Some l)
  /\ (Status.ok status = true ->
      stale_ (picker_tablet_ p) = true
      \/ RemoteTablet.GetRemoteTabletServers (picker_tablet_ p) = [] ->
      r.2 = Some (Choice.lookup_of p)).
Proof.
  cbn zeta. unfold MetaCacheServerPicker.LookUpTabletCb. cbn zeta.
  set (p1 := MetaCacheServerPicker.with_followers p ∅).
  pose proof (ChoiceFacts.PickLeader_cases p1) as Hc.
  pose proof (ChoiceFacts.select_leader_none (followers_ p1) (picker_tablet_ p1)) as Hnone.
  destruct (Status.ok status); cbn [negb fst snd].
  - split; [reflexivity|]. split; [discriminate|]. split.
    + intros _ Hfresh Hsome.
      destruct (MetaCacheServerPicker.select_leader (followers_ p1) (picker_tablet_ p1)).2
        as [l|] eqn:Hsel.
      * exists l. rewrite Hc. split; [reflexivity|].
        apply ChoiceFacts.select_leader_picked in Hsel as (_ & Hin & _ & Hlead).
        split; [exact Hin | exact Hlead].
      * exfalso. destruct (proj1 Hnone eq_refl) as [Hst | Hall].
        -- cbn [p1 picker_tablet_ MetaCacheServerPicker.with_followers] in Hst. congruence.
        -- cbn [p1 picker_tablet_ followers_ MetaCacheServerPicker.with_followers] in Hall.
           destruct (RemoteTablet.GetRemoteTabletServers (picker_tablet_ p)) as [|s ss];
             [now apply Hsome|].
           specialize (Hall s ltac:(left)). now apply not_elem_of_empty in Hall.
    + intros _ Hor.
      assert (Hsel : (MetaCacheServerPicker.select_leader (followers_ p1)
                        (picker_tablet_ p1)).2 = None).
      { apply Hnone. cbn [p1 picker_tablet_ followers_ MetaCacheServerPicker.with_followers].
        destruct Hor as [Hst | Hempty]; [now left | right].
        rewrite Hempty. intros s Hs. inversion Hs. }
      rewrite Hsel in Hc. rewrite Hc. reflexivity.
  - split; [reflexivity|]. split; [auto|]. split; discriminate.
Qed.



(** ** Where the ingestion of a table-locations response returns *)
Module ReturnFacts.
Import MetaCache.

(** [erase] is defined when nothing before [first] is behind [last]. *)
Lemma erase_defined first last (m : TabletMap) :
  (forall k, TabletMap.before first k = true -> TabletMap.before last k = true) ->
  is_Some (TabletMap.erase first last m).
Proof.
  intros Hord. unfold TabletMap.erase.
  assert (Hnone : existsb (fun kv : string * MetaCacheEntry =>
                             TabletMap.before first kv.1 && negb (TabletMap.before last kv.1)) m
                  = false).
  { induction m as [|kv m IH]; [reflexivity|]. cbn [existsb]. rewrite IH, orb_false_r.
    destruct (TabletMap.before first kv.1) eqn:Hb; [|reflexivity].
    now rewrite (Hord _ Hb). }
  rewrite Hnone. eauto.
Qed.

(** A non-covered range is inserted wherever its key is in what is erased. *)
Lemma insert_non_covered_returns first last exp lower upper st :
  (forall k, TabletMap.before first k = true -> TabletMap.before last k = true) ->
  TabletMap.before first lower = false -> TabletMap.before last lower = true ->
  exists m', insert_non_covered first last exp lower upper st = Done tt (st.1, m').
Proof.
  intros Hord Hfirst Hlast. unfold insert_non_covered.
  destruct (erase_defined first last st.2 Hord) as [m1 Herase]. rewrite Herase.
  unfold TabletMap.InsertOrDie.
  rewrite (TabletMapFacts.erase_Some _ _ _ _ Herase), Hfirst, Hlast. cbn [negb orb lift_map].
  eauto.
Qed.

Lemma initial_non_covered_returns exp key first_lower st :
  exists m', initial_non_covered exp key first_lower st = Done tt (st.1, m').
Proof.
  unfold initial_non_covered. destruct (key <? first_lower)%key eqn:Hlt.
  - apply insert_non_covered_returns.
    + intros k Hk. discriminate.
    + reflexivity.
    + cbn [TabletMap.before]. apply KeyFacts.ltb_empty_l. intros ->.
      rewrite KeyFacts.ltb_empty_r in Hlt. discriminate.
  - exists st.2. now destruct st.
Qed.

Lemma trailing_non_covered_returns exp count max last_upper st :
  exists m', trailing_non_covered exp count max last_upper st = Done tt (st.1, m').
Proof.
  unfold trailing_non_covered.
  destruct (negb (Key.empty last_upper) && (Z.of_nat count <? max)).
  - apply insert_non_covered_returns.
    + intros k _. reflexivity.
    + cbn [TabletMap.before]. apply KeyFacts.ltb_irrefl.
    + reflexivity.
  - exists st.2. now destruct st.
Qed.

Lemma refresh_known_tablet_returns exp ts_infos tablet remote st :
  Known.servers_known (ts_cache_ st.1) tablet ts_infos ->
  Known.indexes_inside ts_infos tablet ->
  exists st', refresh_known_tablet exp ts_infos tablet remote st = Done tt st'
              /\ ts_cache_ st'.1 = ts_cache_ st.1.
Proof.
  intros Hk Hv. unfold refresh_known_tablet. cbn zeta.
  destruct (ServerFacts.Refresh_valid _ _ _ remote Hk Hv) as [remote' ->].
  destruct (TabletMap.FindOrNull st.2 (pb_partition_key_start tablet)) eqn:Hfind.
  - eexists. split; reflexivity.
  - unfold TabletMap.InsertOrDie. rewrite Hfind. cbn [lift_map]. eexists. split; reflexivity.
Qed.

Lemma insert_new_tablet_returns exp ts_infos tablet st :
  Known.servers_known (ts_cache_ st.1) tablet ts_infos ->
  Known.indexes_inside ts_infos tablet ->
  (Key.empty (pb_partition_key_end tablet) = false ->
   (pb_partition_key_start tablet <? pb_partition_key_end tablet)%key = true) ->
  exists st', insert_new_tablet exp ts_infos tablet st = Done tt st'
              /\ ts_cache_ st'.1 = ts_cache_ st.1.
Proof.
  intros Hk Hv Hproper. unfold insert_new_tablet. cbn zeta.
  set (last := if Key.empty (pb_partition_key_end tablet) then it_end
               else it_lower_bound (pb_partition_key_end tablet)).
  assert (Hord : forall k, TabletMap.before (it_lower_bound (pb_partition_key_start tablet)) k
                           = true -> TabletMap.before last k = true).
  { intros k Hlt. unfold last. destruct (Key.empty (pb_partition_key_end tablet)) eqn:He;
      [reflexivity|]. cbn [TabletMap.before] in *.
    apply (KeyFacts.ltb_trans _ _ _ Hlt). now apply Hproper. }
  assert (Hlast : TabletMap.before last (pb_partition_key_start tablet) = true).
  { unfold last. destruct (Key.empty (pb_partition_key_end tablet)) eqn:He; [reflexivity|].
    cbn [TabletMap.before]. now apply Hproper. }
  destruct (erase_defined _ last st.2 Hord) as [m1 Herase]. rewrite Herase.
  destruct (ServerFacts.Refresh_valid _ _ _
              (RemoteTablet.make (pb_tablet_id tablet) (pb_partition_key_start tablet)
                 (pb_partition_key_end tablet)) Hk Hv) as [remote' ->].
  unfold TabletMap.InsertOrDie.
  rewrite (TabletMapFacts.erase_Some _ _ _ _ Herase), Hlast.
  cbn [TabletMap.before]. rewrite KeyFacts.ltb_irrefl. cbn [negb orb lift_map].
  eexists. split; reflexivity.
Qed.

Lemma process_tablet_returns exp ts_infos tablet last_upper st :
  Known.servers_known (ts_cache_ st.1) tablet ts_infos ->
  Known.indexes_inside ts_infos tablet ->
  (Key.empty (pb_partition_key_end tablet) = false ->
   (pb_partition_key_start tablet <? pb_partition_key_end tablet)%key = true) ->
  exists st', process_tablet exp ts_infos tablet last_upper st
              = Done (pb_partition_key_end tablet) st'
              /\ ts_cache_ st'.1 = ts_cache_ st.1.
Proof.
  intros Hk Hv Hproper. unfold process_tablet. cbn zeta.
  assert (Hgap : exists m1,
            (if (last_upper <? pb_partition_key_start tablet)%key
             then insert_non_covered (it_lower_bound last_upper)
                    (it_lower_bound (pb_partition_key_start tablet)) exp last_upper
                    (pb_partition_key_start tablet) st
             else Done tt st) = Done tt (st.1, m1)).
  { destruct (last_upper <? pb_partition_key_start tablet)%key eqn:Hlt.
    - apply insert_non_covered_returns.
      + intros k Hkl. cbn [TabletMap.before] in *. now apply (KeyFacts.ltb_trans _ last_upper).
      + cbn [TabletMap.before]. apply KeyFacts.ltb_irrefl.
      + exact Hlt.
    - exists st.2. now destruct st. }
  destruct Hgap as [m1 Hgap]. unfold ingest in *. rewrite Hgap. cbn [bind fst].
  destruct (tablets_by_id_ st.1 !! pb_tablet_id tablet) as [remote|].
  - destruct (refresh_known_tablet_returns exp ts_infos tablet remote (st.1, m1) Hk Hv)
      as (st' & -> & Hc). cbn [bind]. eauto.
  - destruct (insert_new_tablet_returns exp ts_infos tablet (st.1, m1) Hk Hv Hproper)
      as (st' & -> & Hc). cbn [bind]. eauto.
Qed.

Lemma proper_lt tablet :
  Known.proper tablet = true ->
  Key.empty (pb_partition_key_end tablet) = false ->
  (pb_partition_key_start tablet <? pb_partition_key_end tablet)%key = true.
Proof. unfold Known.proper. intros H He. now rewrite He in H. Qed.

Lemma process_tablets_returns exp ts_infos tablets : forall last_upper st,
  (forall tablet, tablet ∈ tablets ->
     Known.servers_known (ts_cache_ st.1) tablet ts_infos
     /\ Known.indexes_inside ts_infos tablet
     /\ Known.proper tablet = true) ->
  exists lu st', process_tablets exp ts_infos tablets last_upper st = Done lu st'.
Proof.
  induction tablets as [|tablet tablets IH]; intros last_upper st Hall;
    cbn [process_tablets]; [eauto|].
  destruct (Hall tablet ltac:(left)) as (Hk & Hv & Hp).
  destruct (process_tablet_returns exp ts_infos tablet last_upper st Hk Hv
              (proper_lt _ Hp)) as (st1 & -> & Hc).
  cbn [bind]. apply IH.
  intros t0 Hin. rewrite Hc. apply Hall. now right.
Qed.

(** *** What the steps leave in the range map *)

Lemma FindOrNull_elem (m : TabletMap) k e :
  TabletMap.FindOrNull m k = Some e -> (k, e) ∈ m.
Proof.
  induction m as [|[k1 e1] m IH]; cbn [TabletMap.FindOrNull]; [discriminate|].
  destruct (decide (k1 = k)) as [-> | Hne]; intros H.
  - inversion H. left.
  - right. auto.
Qed.

Lemma elem_insert k e (m : TabletMap) kv :
  kv ∈ TabletMap.insert k e m <-> kv = (k, e) \/ kv ∈ m.
Proof.
  induction m as [|[k1 e1] m IH]; cbn [TabletMap.insert].
  - rewrite list_elem_of_singleton. split; [auto|]. intros [H | H]; [auto | inversion H].
  - destruct (k1 <? k)%key.
    + rewrite !elem_of_cons, IH. tauto.
    + rewrite !elem_of_cons. tauto.
Qed.

Lemma erase_filter first last (m m1 : TabletMap) :
  TabletMap.erase first last m = Some m1 ->
  m1 = List.filter (fun kv : string * MetaCacheEntry =>
                      TabletMap.before first kv.1 || negb (TabletMap.before last kv.1)) m.
Proof. unfold TabletMap.erase. destruct (existsb _ m); congruence. Qed.

Lemma bounded_insert k e m :
  Ready.bounded m = true -> Ready.bounded_entry (k, e) = true ->
  Ready.bounded (TabletMap.insert k e m) = true.
Proof.
  unfold Ready.bounded. intros Hm He. apply forallb_forall. intros kv Hin.
  apply list_elem_of_In, elem_insert in Hin as [-> | Hin]; [exact He|].
  rewrite forallb_forall in Hm. apply Hm. now apply list_elem_of_In.
Qed.

Lemma bounded_update k exp m :
  Ready.bounded (TabletMap.update k (MetaCacheEntry.refresh_expiration_time exp) m)
  = Ready.bounded m.
Proof.
  unfold Ready.bounded. induction m as [|[k1 e1] m IH]; cbn [TabletMap.update]; [reflexivity|].
  destruct (decide (k1 = k)); cbn [forallb].
  - now destruct e1.
  - now rewrite IH.
Qed.

Lemma has_floor_update k f m k0 :
  Ready.has_floor k0 m -> Ready.has_floor k0 (TabletMap.update k f m).
Proof.
  intros (kv & Hin & Hle). revert Hin.
  induction m as [|[k1 e1] m IH]; intros Hin; [inversion Hin|].
  cbn [TabletMap.update]. destruct (decide (k1 = k)) as [-> | Hne].
  - apply elem_of_cons in Hin as [-> | Hin].
    + exists (k, f e1). split; [left | exact Hle].
    + exists kv. split; [now right | exact Hle].
  - apply elem_of_cons in Hin as [-> | Hin].
    + exists (k1, e1). split; [left | exact Hle].
    + destruct (IH Hin) as (kv' & Hin' & Hle'). exists kv'. split; [now right | exact Hle'].
Qed.

Lemma has_floor_le k k' m :
  Ready.has_floor k m -> (k <=? k')%key = true -> Ready.has_floor k' m.
Proof.
  intros (kv & Hin & Hle) Hkk. exists kv. split; [exact Hin|].
  now apply (KeyFacts.leb_trans _ k).
Qed.

Lemma follows_refl st :
  TabletMap.sorted st.2 = true -> Ready.bounded st.2 = true -> Ready.follows st st.
Proof. intros Hs Hb. repeat split; auto. Qed.

Lemma follows_trans st st1 st2 :
  Ready.follows st st1 -> Ready.follows st1 st2 -> Ready.follows st st2.
Proof.
  intros (R1 & C1 & _ & _ & F1) (R2 & C2 & S2 & B2 & F2).
  split; [congruence|]. split; [congruence|]. split; [exact S2|]. split; [exact B2|].
  intros k Hk. apply F2, F1, Hk.
Qed.

(** Erasing from [first] and inserting at [lower], the least key that is not
    before [first], keeps a floor for every key. *)
Lemma insert_non_covered_follows first last exp lower upper st u st' :
  insert_non_covered first last exp lower upper st = Done u st' ->
  TabletMap.sorted st.2 = true -> Ready.bounded st.2 = true ->
  Ready.bounded_entry (lower, NonCoveredEntry exp lower upper) = true ->
  (forall k0, TabletMap.before first k0 = false -> (lower <=? k0)%key = true) ->
  Ready.follows st st' /\ Ready.has_floor lower st'.2.
Proof.
  intros Hrun Hs Hb He Hfirst.
  pose proof (IngestFacts.insert_non_covered_sorted first last exp lower upper st Hs) as Hs'.
  rewrite Hrun in Hs'. cbn [leaves_sorted] in Hs'.
  unfold insert_non_covered in Hrun.
  destruct (TabletMap.erase first last st.2) as [m1|] eqn:Herase; [|discriminate].
  apply IngestFacts.lift_map_Done in Hrun as [Hins Hc].
  unfold TabletMap.InsertOrDie in Hins.
  destruct (TabletMap.FindOrNull m1 lower); [discriminate|]. injection Hins as Hm.
  apply erase_filter in Herase.
  assert (Hnew : (lower, NonCoveredEntry exp lower upper) ∈ st'.2).
  { rewrite <- Hm. apply elem_insert. now left. }
  split; [|exists (lower, NonCoveredEntry exp lower upper);
           split; [exact Hnew | apply KeyFacts.leb_refl]].
  split; [now rewrite Hc|]. split; [now rewrite Hc|]. split; [exact Hs'|]. split.
  - rewrite <- Hm. apply bounded_insert; [|exact He].
    rewrite Herase. now apply TabletMapFacts.forallb_filter.
  - intros k (kv & Hin & Hle).
    destruct (TabletMap.before first kv.1 || negb (TabletMap.before last kv.1)) eqn:Hkeep.
    + exists kv. split; [|exact Hle]. rewrite <- Hm. apply elem_insert. right.
      rewrite Herase. apply list_elem_of_In, filter_In. split; [now apply list_elem_of_In|].
      exact Hkeep.
    + exists (lower, NonCoveredEntry exp lower upper). split; [exact Hnew|].
      apply orb_false_elim in Hkeep as [Hk1 _].
      apply (KeyFacts.leb_trans _ kv.1); [now apply Hfirst | exact Hle].
Qed.

Lemma lower_bound_first b k0 :
  TabletMap.before (it_lower_bound b) k0 = false -> (b <=? k0)%key = true.
Proof. cbn [TabletMap.before]. intros H. now rewrite KeyFacts.leb_ltb, H. Qed.

Lemma refresh_known_tablet_follows exp ts_infos tablet remote st u st' :
  refresh_known_tablet exp ts_infos tablet remote st = Done u st' ->
  TabletMap.sorted st.2 = true -> Ready.bounded st.2 = true ->
  Ready.follows st st' /\ Ready.has_floor (pb_partition_key_start tablet) st'.2.
Proof.
  intros Hrun Hs Hb.
  pose proof (IngestFacts.refresh_known_tablet_sorted exp ts_infos tablet remote st Hs) as Hs'.
  rewrite Hrun in Hs'. cbn [leaves_sorted] in Hs'.
  unfold refresh_known_tablet in Hrun. cbn zeta in Hrun.
  destruct (RemoteTablet.Refresh (ts_cache_ st.1) tablet ts_infos remote) as [x remote'| |];
    try discriminate.
  destruct (TabletMap.FindOrNull st.2 (pb_partition_key_start tablet)) as [e|] eqn:Hfind.
  - inversion Hrun; subst st'. unfold Ready.follows. cbn [fst snd] in *. split.
    + split; [reflexivity|]. split; [reflexivity|]. split; [exact Hs'|]. split.
      * now rewrite bounded_update.
      * intros k. apply has_floor_update.
    + apply has_floor_update. exists (pb_partition_key_start tablet, e).
      split; [now apply FindOrNull_elem | apply KeyFacts.leb_refl].
  - apply IngestFacts.lift_map_Done in Hrun as [Hins Hc].
    unfold TabletMap.InsertOrDie in Hins. rewrite Hfind in Hins. injection Hins as Hm.
    split.
    + split; [now rewrite Hc|]. split; [now rewrite Hc|]. split; [exact Hs'|]. split.
      * rewrite <- Hm. now apply bounded_insert.
      * intros k (kv & Hin & Hle). exists kv. split; [|exact Hle].
        rewrite <- Hm. apply elem_insert. now right.
    + eexists. split; [rewrite <- Hm; apply elem_insert; left; reflexivity|].
      apply KeyFacts.leb_refl.
Qed.

Lemma insert_new_tablet_follows exp ts_infos tablet st u st' :
  insert_new_tablet exp ts_infos tablet st = Done u st' ->
  TabletMap.sorted st.2 = true -> Ready.bounded st.2 = true ->
  Ready.follows st st' /\ Ready.has_floor (pb_partition_key_start tablet) st'.2.
Proof.
  intros Hrun Hs Hb.
  pose proof (IngestFacts.insert_new_tablet_sorted exp ts_infos tablet st Hs) as Hs'.
  rewrite Hrun in Hs'. cbn [leaves_sorted] in Hs'.
  unfold insert_new_tablet in Hrun. cbn zeta in Hrun.
  destruct (TabletMap.erase _ _ st.2) as [m1|] eqn:Herase; [|discriminate].
  destruct (RemoteTablet.Refresh (ts_cache_ st.1) tablet ts_infos _) as [x remote'| |];
    try discriminate.
  apply IngestFacts.lift_map_Done in Hrun as [Hins Hc].
  unfold TabletMap.InsertOrDie in Hins.
  destruct (TabletMap.FindOrNull m1 (pb_partition_key_start tablet)); [discriminate|].
  injection Hins as Hm. apply erase_filter in Herase.
  set (e := MetaCacheEntry.of_tablet exp remote') in *.
  assert (Hnew : (pb_partition_key_start tablet, e) ∈ st'.2).
  { rewrite <- Hm. apply elem_insert. now left. }
  split; [|exists (pb_partition_key_start tablet, e);
           split; [exact Hnew | apply KeyFacts.leb_refl]].
  split; [now rewrite Hc|]. split; [now rewrite Hc|]. split; [exact Hs'|]. split.
  - rewrite <- Hm. apply bounded_insert; [|reflexivity].
    rewrite Herase. now apply TabletMapFacts.forallb_filter.
  - intros k (kv & Hin & Hle).
    match type of Herase with _ = List.filter ?f _ => destruct (f kv) eqn:Hkeep end.
    + exists kv. split; [|exact Hle]. rewrite <- Hm. apply elem_insert. right.
      rewrite Herase. apply list_elem_of_In, filter_In. split; [now apply list_elem_of_In|].
      exact Hkeep.
    + exists (pb_partition_key_start tablet, e). split; [exact Hnew|].
      apply orb_false_elim in Hkeep as [Hk1 _].
      apply (KeyFacts.leb_trans _ kv.1); [now apply lower_bound_first | exact Hle].
Qed.

Lemma process_tablet_follows exp ts_infos tablet last_upper st lu st' :
  process_tablet exp ts_infos tablet last_upper st = Done lu st' ->
  TabletMap.sorted st.2 = true -> Ready.bounded st.2 = true ->
  Ready.follows st st' /\ Ready.has_floor (pb_partition_key_start tablet) st'.2.
Proof.
  intros Hrun Hs Hb. unfold process_tablet in Hrun. cbn zeta in Hrun.
  apply IngestFacts.bind_Done in Hrun as (u1 & st1 & Hgap & Hrun).
  apply IngestFacts.bind_Done in Hrun as (u2 & st2 & Hstep & Hrun).
  inversion Hrun; subst lu st'. clear Hrun.
  assert (H1 : Ready.follows st st1).
  { destruct (last_upper <? pb_partition_key_start tablet)%key eqn:Hlt.
    - apply (insert_non_covered_follows _ _ _ _ _ _ _ _ Hgap Hs Hb).
      + unfold Ready.bounded_entry. cbn [snd fst].
        rewrite (KeyFacts.ltb_leb_incl _ _ Hlt). apply orb_true_r.
      + apply lower_bound_first.
    - inversion Hgap; subst st1. now apply follows_refl. }
  destruct H1 as (R1 & C1 & S1 & B1 & F1).
  assert (H2 : Ready.follows st1 st2
               /\ Ready.has_floor (pb_partition_key_start tablet) st2.2).
  { destruct (tablets_by_id_ st1.1 !! pb_tablet_id tablet) as [remote|].
    - apply (refresh_known_tablet_follows _ _ _ _ _ _ _ Hstep S1 B1).
    - apply (insert_new_tablet_follows _ _ _ _ _ _ Hstep S1 B1). }
  destruct H2 as [H2 Hfloor]. split; [|exact Hfloor].
  apply (follows_trans st st1 st2); [|exact H2]. repeat split; assumption.
Qed.

Lemma process_tablets_follows exp ts_infos tablets : forall last_upper st lu st',
  process_tablets exp ts_infos tablets last_upper st = Done lu st' ->
  TabletMap.sorted st.2 = true -> Ready.bounded st.2 = true ->
  Ready.follows st st'
  /\ forall first rest, tablets = first :: rest ->
       Ready.has_floor (pb_partition_key_start first) st'.2.
Proof.
  induction tablets as [|tablet tablets IH]; intros last_upper st lu st' Hrun Hs Hb;
    cbn [process_tablets] in Hrun.
  - inversion Hrun; subst. split; [now apply follows_refl | discriminate].
  - apply IngestFacts.bind_Done in Hrun as (lu1 & st1 & Hstep & Hrest).
    destruct (process_tablet_follows _ _ _ _ _ _ _ Hstep Hs Hb) as [H1 Hfloor].
    pose proof H1 as (_ & _ & S1 & B1 & _).
    destruct (IH _ _ _ _ Hrest S1 B1) as [H2 _].
    split; [now apply (follows_trans st st1 st')|].
    intros first rest Heq. inversion Heq; subst first rest.
    destruct H2 as (_ & _ & _ & _ & F2). now apply F2.
Qed.

Lemma initial_non_covered_follows exp key first_lower st u st' :
  initial_non_covered exp key first_lower st = Done u st' ->
  TabletMap.sorted st.2 = true -> Ready.bounded st.2 = true ->
  Ready.follows st st'
  /\ ((key <? first_lower)%key = true -> Ready.has_floor key st'.2).
Proof.
  intros Hrun Hs Hb. unfold initial_non_covered in Hrun.
  destruct (key <? first_lower)%key eqn:Hlt.
  - destruct (insert_non_covered_follows _ _ _ _ _ _ _ _ Hrun Hs Hb) as [H1 Hfloor].
    + unfold Ready.bounded_entry. cbn [snd fst]. rewrite KeyFacts.leb_empty. apply orb_true_r.
    + intros k0 _. apply KeyFacts.leb_empty.
    + split; [exact H1|]. intros _. apply (has_floor_le ""); [exact Hfloor|].
      apply KeyFacts.leb_empty.
  - inversion Hrun; subst st'. split; [now apply follows_refl | discriminate].
Qed.

Lemma trailing_non_covered_follows exp count max last_upper st u st' :
  trailing_non_covered exp count max last_upper st = Done u st' ->
  TabletMap.sorted st.2 = true -> Ready.bounded st.2 = true ->
  Ready.follows st st'.
Proof.
  intros Hrun Hs Hb. unfold trailing_non_covered in Hrun.
  destruct (negb (Key.empty last_upper) && (Z.of_nat count <? max)).
  - apply (insert_non_covered_follows _ _ _ _ _ _ _ _ Hrun Hs Hb).
    + reflexivity.
    + apply lower_bound_first.
  - inversion Hrun; subst st'. now apply follows_refl.
Qed.

(** [FindFloorOrDie], once or twice, finds its entries. *)
Lemma discovered_entry_found key exact m :
  TabletMap.sorted m = true -> Ready.bounded m = true -> Ready.has_floor key m ->
  is_Some (discovered_entry key exact m).
Proof.
  intros Hs Hb (kv & Hin & Hle). unfold discovered_entry.
  destruct (EntryFacts.floor_some m key kv Hs Hin Hle) as [e He]. rewrite He.
  destruct (negb exact && MetaCacheEntry.is_non_covered_range e
            && negb (Key.empty (MetaCacheEntry.upper_bound_partition_key e))) eqn:Hcond;
    [|eauto].
  apply andb_true_iff in Hcond as [Hcond Hupper]. apply andb_true_iff in Hcond as [_ Hnc].
  destruct (EntryFacts.floor_greatest m key e Hs He) as (k0 & Hin0 & _).
  apply (EntryFacts.floor_some m _ (k0, e) Hs Hin0).
  unfold Ready.bounded in Hb. rewrite forallb_forall in Hb.
  apply list_elem_of_In, Hb in Hin0. unfold Ready.bounded_entry in Hin0.
  destruct e as [|x lower upper]; [discriminate|]. cbn in Hin0, Hupper |- *.
  apply negb_true_iff in Hupper. now rewrite Hupper in Hin0.
Qed.

(** The branch of a response with tablets returns OK. *)
Lemma ingest_locations_returns exp key resp max first rest (st : ingest) :
  tablet_locations resp = first :: rest ->
  Consistent.servers st.1 ->
  TabletMap.sorted st.2 = true -> Ready.bounded st.2 = true ->
  Forall (fun tablet => Known.proper tablet = true) (tablet_locations resp) ->
  Forall (Known.indexes_inside (ts_infos resp)) (tablet_locations resp) ->
  exists st', ingest_locations exp key resp max first st = Done tt st'
              /\ Consistent.servers st'.1
              /\ TabletMap.sorted st'.2 = true /\ Ready.bounded st'.2 = true
              /\ Ready.has_floor key st'.2.
Proof.
  intros Hlocs Hc Hs Hb Hproper Hidx. unfold ingest_locations, ingest_tablets.
  destruct (ServerFacts.update_servers_Some
              (deprecated_ts_infos (tablet_locations resp) ++ ts_infos resp)%list st.1 Hc)
    as (c1 & -> & Hc1 & Hcache & _).
  destruct (initial_non_covered_returns exp key (pb_partition_key_start first) (c1, st.2))
    as [m1 Hinit].
  destruct (initial_non_covered_follows _ _ _ _ _ _ Hinit Hs Hb)
    as [(R1 & C1 & S1 & B1 & F1) Hlow].
  unfold ingest in *. rewrite Hinit. cbn [bind fst snd] in *.
  destruct (process_tablets_returns exp (ts_infos resp) (tablet_locations resp)
              (pb_partition_key_start first) (c1, m1)) as (lu & st2 & Hloop).
  { intros tablet Hin. cbn [fst]. split; [|split].
    - apply (ServerFacts.registered_known _ (tablet_locations resp)); [|exact Hin].
      intros u Hu. apply Hcache. now right.
    - rewrite Forall_forall in Hidx. now apply Hidx.
    - rewrite Forall_forall in Hproper. now apply Hproper. }
  rewrite Hloop. cbn [bind].
  destruct (process_tablets_follows _ _ _ _ _ _ _ Hloop S1 B1)
    as [(R2 & C2 & S2 & B2 & F2) Hfirst].
  destruct (trailing_non_covered_returns exp (length (tablet_locations resp)) max lu st2)
    as [m3 Htrail].
  destruct (trailing_non_covered_follows _ _ _ _ _ _ _ Htrail S2 B2)
    as (R3 & C3 & S3 & B3 & F3).
  rewrite Htrail. eexists. split; [reflexivity|]. cbn [fst snd] in *.
  split; [|split; [exact S3|split; [exact B3|]]].
  - destruct Hc1 as [Hreg Hptr]. split.
    + intros u s. rewrite R2. apply Hreg.
    + intros u p. rewrite C2, R2. apply Hptr.
  - apply F3. destruct (key <? pb_partition_key_start first)%key eqn:Hlt.
    + apply F2, Hlow. reflexivity.
    + apply (has_floor_le (pb_partition_key_start first)); [now apply (Hfirst first rest)|].
      now rewrite KeyFacts.leb_ltb, Hlt.
Qed.

(** The whole function returns OK, and leaves a cache on which the next
    response is ingested as well. *)
Lemma ProcessGetTableLocationsResponse_returns now table key exact resp max c first rest :
  tablet_locations resp = first :: rest ->
  Ready.for_response table resp c ->
  exists e c',
    ProcessGetTableLocationsResponse now table key exact resp max c = Done e c'
    /\ Ready.for_response table resp c'.
Proof.
  intros Hlocs (Hc & [Hs Hb] & Hproper & Hidx).
  unfold ProcessGetTableLocationsResponse. cbn zeta. rewrite Hlocs.
  destruct (ingest_locations_returns (now + FromMilliseconds (ttl_millis resp)) key resp max
              first rest (c, default [] (tablets_by_table_and_key_ c !! table_id table))
              Hlocs Hc Hs Hb Hproper Hidx)
    as (st' & Hrun & Hc' & Hs' & Hb' & Hfloor).
  unfold ingest in *. rewrite Hrun.
  destruct (discovered_entry_found key exact st'.2 Hs' Hb' Hfloor) as [e ->].
  exists e, (store_map table st'). split; [reflexivity|].
  split; [exact Hc'|]. split; [|split; assumption].
  unfold Ready.map_ready, Ready.range_map, store_map.
  cbn [tablets_by_table_and_key_ with_tablets_by_table_and_key].
  rewrite lookup_insert_eq. cbn [default]. split; assumption.
Qed.

(** The new cache is ready for every response of the master whose tablets
    have ranges and whose indexes are in its dictionary, and so is the cache
    of scenario S1. *)
Lemma make_ready table resp :
  Forall (fun tablet => Known.proper tablet = true) (tablet_locations resp) ->
  Forall (Known.indexes_inside (ts_infos resp)) (tablet_locations resp) ->
  Ready.for_response table resp MetaCache.make.
Proof.
  intros Hp Hi. split; [|split; [|split; assumption]].
  - split; intros u x H; cbn in H; rewrite lookup_empty in H; discriminate.
  - unfold Ready.map_ready, Ready.range_map. cbn [tablets_by_table_and_key_ make].
    rewrite lookup_empty. split; reflexivity.
Qed.

Lemma cache_S1_ready resp :
  Forall (fun tablet => Known.proper tablet = true) (tablet_locations resp) ->
  Forall (Known.indexes_inside (ts_infos resp)) (tablet_locations resp) ->
  Ready.for_response Scenario.table_T resp Scenario.cache_S1.
Proof.
  intros Hp Hi.
  destruct (ProcessGetTableLocationsResponse_returns 0 Scenario.table_T "c" false
              Scenario.response_S1 kFetchTabletsPerRangeLookup MetaCache.make
              (Scenario.location "B" "c1" "c3") [Scenario.location "D" "c5" "c7"] eq_refl)
    as (e & c' & Hrun & Hc & Hm & _).
  { apply make_ready; repeat constructor. }
  unfold Scenario.cache_S1. rewrite Hrun. cbn [Scenario.cache_after].
  split; [exact Hc|]. split; [exact Hm|]. split; assumption.
Qed.

End ReturnFacts.

(** ** The non-covered ranges around the tablets of a response *)

(** C1: a table-locations response with at least one tablet, with
    [last_upper] the upper bound of its last tablet.  Its ingestion returns
    OK, whatever the range map of the table holds at and above [last_upper],
    whenever the indexes of the servers agree, the map is as an ingestion
    leaves it, no tablet of the response has an empty range and the indexes of
    the replicas are in the dictionary; the cache it leaves is such a cache
    again.  Whenever it has returned OK: if [last_upper] is not empty and fewer
    tablets came than were asked for, the range map has the non-covered entry
    [[last_upper, «»)] under [last_upper] and nothing above it; if as many
    came as were asked for, the range map is the one the loop over the tablets
    left, nothing was erased or inserted after it, and an entry the map had
    before under a key at or above [last_upper] that no tablet of the response
    reaches is still there. *)
Theorem trailing_non_covered_range (now : MonoTime) (table : KuduTable) (partition_key : string)
    (is_exact_lookup : bool) (resp : GetTableLocationsResponsePB)
    (max_returned_locations : Z) (c : MetaCache)
    (first : TabletLocationsPB) (rest : list TabletLocationsPB) :
  tablet_locations resp = first :: rest ->
  (Ready.for_response table resp c ->
   exists e c',
     MetaCache.ProcessGetTableLocationsResponse now table partition_key is_exact_lookup resp
       max_returned_locations c = Done e c'
     /\ Ready.for_response table resp c')
  /\ forall e c',
       MetaCache.ProcessGetTableLocationsResponse now table partition_key is_exact_lookup resp
         max_returned_locations c = Done e c' ->
       let expiration_time := now + FromMilliseconds (ttl_millis resp) in
       let last_upper := pb_partition_key_end (List.last rest first) in
       let count := Z.of_nat (length (tablet_locations resp)) in
       let m0 := default [] (tablets_by_table_and_key_ c !! table_id table) in
       exists m',
         tablets_by_table_and_key_ c' !! table_id table = Some m'
         /\ (Key.empty last_upper = false -> count < max_returned_locations ->
             TabletMap.FindOrNull m' last_upper
             = Some (NonCoveredEntry expiration_time last_upper "")
             /\ forall k, (last_upper <? k)%key = true -> TabletMap.FindOrNull m' k = None)
         /\ (count = max_returned_locations ->
             (exists st2,
                MetaCache.ingest_tablets expiration_time partition_key resp first (c, m0)
                = Done last_upper st2
                /\ m' = st2.2)
             /\ forall k,
                  (last_upper <=? k)%key = true ->
                  Forall (Known.below k) (tablet_locations resp) ->
                  TabletMap.FindOrNull m' k = TabletMap.FindOrNull m0 k).
Proof.
  intros Hresp. split.
  { intros Hready.
    apply (ReturnFacts.ProcessGetTableLocationsResponse_returns _ _ _ _ _ _ _ _ _ Hresp Hready). }
  intros e c' Hdone exp last_upper count m0.
  destruct (IngestFacts.ProcessGetTableLocationsResponse_Done _ _ _ _ _ _ _ _ _ _ _ Hresp Hdone)
    as (lu & st2 & st3 & Hloop & Htrail & Hmap & _).
  fold exp in Hloop, Htrail. fold m0 in Hloop.
  pose proof (ResponseFacts.ingest_tablets_last _ _ _ _ _ _ _ _ Hresp Hloop) as Hlu.
  fold last_upper in Hlu. subst lu.
  exists st3.2. split; [exact Hmap|]. split.
  - intros Hne Hlt. unfold MetaCache.trailing_non_covered in Htrail.
    fold count in Htrail.
    rewrite Hne, (proj2 (Z.ltb_lt _ _) Hlt) in Htrail. cbn [negb andb] in Htrail.
    apply IngestFacts.insert_non_covered_Done in Htrail as (_ & Hk & Hother).
    split; [exact Hk|]. intros k Hk'.
    rewrite Hother by (intros ->; rewrite KeyFacts.ltb_irrefl in Hk'; discriminate).
    cbn [TabletMap.before negb orb].
    rewrite KeyFacts.ltb_leb, (KeyFacts.ltb_leb_incl _ _ Hk'). reflexivity.
  - intros Heq. unfold MetaCache.trailing_non_covered in Htrail.
    fold count in Htrail. rewrite Heq, Z.ltb_irrefl, andb_false_r in Htrail.
    inversion Htrail; subst st3. split.
    + exists st2. split; [exact Hloop | reflexivity].
    + intros k _ Hall.
      apply IngestFacts.ingest_tablets_Done in Hloop as (c1 & st1 & Hinit & Hloop).
      rewrite (IngestFacts.process_tablets_frame _ _ _ _ _ _ _ _ Hloop Hall).
      rewrite Hresp in Hall. inversion Hall as [|? ? (Hlow & _) _]; subst.
      now rewrite (ResponseFacts.initial_non_covered_frame _ _ _ _ _ _ _ Hinit Hlow).
Qed.

(** C1 on the cache of scenario S1, whose range map has the entries
    [[c3,c5)], [D = [c5,c7)] and [[c7,«»)] from [c3] on, five nanoseconds
    later.  The master returns [B = [c1,c3)] alone of ten asked for: the
    three entries are erased and [[c3,«»)] is inserted.  The master returns
    [B] and [D] again: the entry under [c7] is erased and inserted anew, with
    the later expiration time.  The master returns [B], one tablet of one
    asked for: the entries from [c3] on are as they were. *)
Lemma trailing_non_covered_range_witness :
  tablets_by_table_and_key_ Scenario.cache_S1 !! "T" = Some Scenario.map_S1
  /\ (exists e c' m',
        MetaCache.ProcessGetTableLocationsResponse 5 Scenario.table_T "c" false
          Scenario.response_short kFetchTabletsPerRangeLookup Scenario.cache_S1 = Done e c'
        /\ tablets_by_table_and_key_ c' !! "T" = Some m'
        /\ TabletMap.FindOrNull m' "c3" = Some (NonCoveredEntry 60000000005 "c3" "")
        /\ TabletMap.FindOrNull m' "c5" = None
        /\ TabletMap.FindOrNull m' "c7" = None)
  /\ (exists e c' m',
        MetaCache.ProcessGetTableLocationsResponse 5 Scenario.table_T "c" false
          Scenario.response_S1 kFetchTabletsPerRangeLookup Scenario.cache_S1 = Done e c'
        /\ tablets_by_table_and_key_ c' !! "T" = Some m'
        /\ TabletMap.FindOrNull m' "c7" = Some (NonCoveredEntry 60000000005 "c7" "")
        /\ TabletMap.FindOrNull m' "c8" = None)
  /\ (exists e c' m',
        MetaCache.ProcessGetTableLocationsResponse 5 Scenario.table_T "c1" true
          Scenario.response_short kFetchTabletsPerPointLookup Scenario.cache_S1 = Done e c'
        /\ tablets_by_table_and_key_ c' !! "T" = Some m'
        /\ TabletMap.FindOrNull m' "c3" = Some (NonCoveredEntry 60000000000 "c3" "c5")
        /\ TabletMap.FindOrNull m' "c5" = Some (TabletEntry 60000000000 "D" "c5" "c7")
        /\ TabletMap.FindOrNull m' "c7" = Some (NonCoveredEntry 60000000000 "c7" "")).
Proof.
  split; [vm_compute; reflexivity|]. split; [|split].
  - destruct (trailing_non_covered_range 5 Scenario.table_T "c" false Scenario.response_short
                kFetchTabletsPerRangeLookup Scenario.cache_S1
                (Scenario.location "B" "c1" "c3") [] eq_refl) as [Hreturns Hrange].
    destruct (Hreturns (ReturnFacts.cache_S1_ready Scenario.response_short
                          ltac:(repeat constructor) ltac:(repeat constructor)))
      as (e & c' & Hdone & _).
    destruct (Hrange e c' Hdone) as (m' & Hm & Hshort & _).
    destruct (Hshort eq_refl eq_refl) as [Hk Habove].
    exists e, c', m'. split; [exact Hdone|]. split; [exact Hm|]. split; [exact Hk|].
    split; apply Habove; reflexivity.
  - destruct (trailing_non_covered_range 5 Scenario.table_T "c" false Scenario.response_S1
                kFetchTabletsPerRangeLookup Scenario.cache_S1
                (Scenario.location "B" "c1" "c3") [Scenario.location "D" "c5" "c7"] eq_refl)
      as [Hreturns Hrange].
    destruct (Hreturns (ReturnFacts.cache_S1_ready Scenario.response_S1
                          ltac:(repeat constructor) ltac:(repeat constructor)))
      as (e & c' & Hdone & _).
    destruct (Hrange e c' Hdone) as (m' & Hm & Hshort & _).
    destruct (Hshort eq_refl eq_refl) as [Hk Habove].
    exists e, c', m'. split; [exact Hdone|]. split; [exact Hm|]. split; [exact Hk|].
    apply Habove; reflexivity.
  - destruct (trailing_non_covered_range 5 Scenario.table_T "c1" true Scenario.response_short
                kFetchTabletsPerPointLookup Scenario.cache_S1
                (Scenario.location "B" "c1" "c3") [] eq_refl) as [Hreturns Hrange].
    destruct (Hreturns (ReturnFacts.cache_S1_ready Scenario.response_short
                          ltac:(repeat constructor) ltac:(repeat constructor)))
      as (e & c' & Hdone & _).
    destruct (Hrange e c' Hdone) as (m' & Hm & _ & Hfull).
    destruct (Hfull eq_refl) as [_ Hkeep].
    assert (Hbelow : forall k, ("c3" <=? k)%key = true ->
                       Forall (Known.below k) (tablet_locations Scenario.response_short)).
    { intros k Hle. repeat constructor; [|exact Hle].
      apply (KeyFacts.ltb_leb_trans _ "c3"); [reflexivity | exact Hle]. }
    exists e, c', m'. split; [exact Hdone|]. split; [exact Hm|].
    split; [|split]; (rewrite Hkeep; [vm_compute; reflexivity | reflexivity
                                     | apply Hbelow; reflexivity]).
Defined.



